(** * NeuraDB: an in-memory vector store with similarity search

    A shallow embedding of [src/vector-store.ts] (the class [NeuraDB] and the
    [search] of the earlier class [VectorStore]) and of the interfaces it
    imports, followed by the properties of the specification.

    - A JavaScript [number] is an IEEE 754 binary64 value: the primitive
      type [float], whose operations are the ones the engine executes.
    - Counts, indices, [limit], [page], [pageSize], [batchSize] and
      [batchDelay] are integral numbers, modelled in [Z];
      [Array.prototype.slice] keeps its treatment of negative bounds.
    - A string is the UTF-8 encoding of the JavaScript string, which has
      no lone surrogate, as the string literals of this file give it:
      [===] on strings is equality of the encodings, and [trim] strips the
      encodings of the white space of ECMAScript.
    - A [Record<string, any>] is a plain object: it has its own properties
      and inherits the properties of [Object.prototype].
    - [Map<string, VectorDocument>] iterates in insertion order, and the code
      depends on it ([getEmbeddingDimensions] reads the first value, [search]
      scans in order): it is an association list kept in insertion order.
    - Asynchronous methods run to completion one at a time; a method is a
      function from the state before the call to an outcome and the state
      after it. The state holds the store, the clock read by [new Date()],
      and the log of outside effects (provider requests, delays, progress
      reports, warnings). A timer advances the clock; otherwise time passes
      between calls.
    - The store shares objects with its callers: it keeps the embedding
      array and the metadata object of the documents it is given, and hands
      out its stored objects. A state is a value; a change that a holder
      makes to a shared object is a step of its own between calls
      ([shared_object_changed]), and the states a store goes through
      ([reachable_if]) include these steps.
    - An outcome is a returned value, a thrown error, or no outcome at all,
      for the one loop of the source that may not end ([chunkArray] with a
      chunk size that is not positive).
    - The embedding provider is an oracle from requests to responses. *)

From Stdlib Require Import Floats ZArith String Ascii Bool Lia List.
From Stdlib Require Import Permutation Sorted.
Import ListNotations.

Set Implicit Arguments.
Set Warnings "-inexact-float".

(** ** JavaScript values *)

Definition number := float.

(** [isFinite(val)] for a value that is a number. *)
Definition isFinite (val : number) : bool :=
  negb (PrimFloat.is_nan val || PrimFloat.is_infinity val).

(** The values a [Record<string, any>] holds; objects compare by identity.
    [JObject] is an object of the program, by its identity; [JInherited key]
    is the value that [Object.prototype] has under [key]: one of its
    methods, [Object] itself for [constructor], and [Object.prototype] for
    [__proto__], each an object of its own. *)
Inductive JsValue :=
| JUndefined
| JNull
| JBool (b : bool)
| JNumber (n : number)
| JString (s : string)
| JObject (ref : nat)
| JInherited (key : string).

(** [a === b]. *)
Definition strict_eq (a b : JsValue) : bool :=
  match a, b with
  | JUndefined, JUndefined => true
  | JNull, JNull => true
  | JBool x, JBool y => Bool.eqb x y
  | JNumber x, JNumber y => PrimFloat.eqb x y
  | JString x, JString y => String.eqb x y
  | JObject x, JObject y => Nat.eqb x y
  | JInherited x, JInherited y => String.eqb x y
  | _, _ => false
  end.

(** [Record<string, any>]: own properties in creation order. *)
Definition Record_ := list (string * JsValue).

(** The own property [key] of [obj], when it has one. *)
Fixpoint own_prop (obj : Record_) (key : string) : option JsValue :=
  match obj with
  | [] => None
  | (k, v) :: rest => if String.eqb k key then Some v else own_prop rest key
  end.

(** The names of the properties of [Object.prototype]. *)
Definition Object_prototype : list string :=
  ["constructor"; "__defineGetter__"; "__defineSetter__"; "hasOwnProperty";
   "__lookupGetter__"; "__lookupSetter__"; "isPrototypeOf";
   "propertyIsEnumerable"; "toString"; "valueOf"; "__proto__";
   "toLocaleString"]%string.

(** [obj[key]]: the own property; without one, what the object inherits
    from [Object.prototype]; [undefined] when that has none either. *)
Definition prop (obj : Record_) (key : string) : JsValue :=
  match own_prop obj key with
  | Some v => v
  | None =>
      if existsb (String.eqb key) Object_prototype then JInherited key
      else JUndefined
  end.

(** The code points that [s.trim()] strips, by the bytes of their UTF-8
    encoding: the WhiteSpace and LineTerminator of ECMAScript, which are
    U+0009 to U+000D, U+0020, U+00A0, U+1680, U+2000 to U+200A, U+2028,
    U+2029, U+202F, U+205F, U+3000 and U+FEFF. *)
Definition white_space (bytes : list nat) : bool :=
  match bytes with
  | [a] => Nat.eqb a 32 || (Nat.leb 9 a && Nat.leb a 13)
  | [a; b] => Nat.eqb a 194 && Nat.eqb b 160
  | [a; b; c] =>
      (Nat.eqb a 225 && Nat.eqb b 154 && Nat.eqb c 128)
      || (Nat.eqb a 226 && Nat.eqb b 128
          && ((Nat.leb 128 c && Nat.leb c 138)
              || Nat.eqb c 168 || Nat.eqb c 169 || Nat.eqb c 175))
      || (Nat.eqb a 226 && Nat.eqb b 129 && Nat.eqb c 159)
      || (Nat.eqb a 227 && Nat.eqb b 128 && Nat.eqb c 128)
      || (Nat.eqb a 239 && Nat.eqb b 187 && Nat.eqb c 191)
  | _ => false
  end.

(** [s.trimStart()]: the leading white space goes, code point by code
    point. *)
Fixpoint trimStart (s : string) : string :=
  match s with
  | EmptyString => EmptyString
  | String a rest1 =>
      if white_space [nat_of_ascii a] then trimStart rest1
      else
        match rest1 with
        | EmptyString => s
        | String b rest2 =>
            if white_space [nat_of_ascii a; nat_of_ascii b] then trimStart rest2
            else
              match rest2 with
              | EmptyString => s
              | String c rest3 =>
                  if white_space [nat_of_ascii a; nat_of_ascii b; nat_of_ascii c]
                  then trimStart rest3
                  else s
              end
        end
  end.

(** [s.trimEnd()]: a code point goes when only white space follows it and
    it is white space itself. *)
Fixpoint trimEnd (s : string) : string :=
  match s with
  | EmptyString => EmptyString
  | String a rest =>
      let kept := String a (trimEnd rest) in
      if white_space (map nat_of_ascii (list_ascii_of_string kept))
      then EmptyString
      else kept
  end.

(** [s.trim()]. *)
Definition trim (s : string) : string := trimEnd (trimStart s).

(** [array.slice(start, end)] with integral bounds. *)
Definition relative_index (len i : Z) : Z :=
  if (i <? 0)%Z then Z.max (len + i) 0 else Z.min i len.

Definition slice {A} (array : list A) (start end_ : Z) : list A :=
  let len := Z.of_nat (length array) in
  let k := relative_index len start in
  let final := relative_index len end_ in
  firstn (Z.to_nat (final - k)) (skipn (Z.to_nat k) array).

(** [array.sort(comparefn)]. The sort is stable, and for a consistent
    comparison function its result is the one stable insertion computes;
    [after a b] says [comparefn(a, b) > 0], that is, [a] belongs after [b]. *)
Section ArraySort.
Context {A : Type} (after : A -> A -> bool).

Fixpoint sort_insert (x : A) (sorted : list A) : list A :=
  match sorted with
  | [] => [x]
  | y :: rest => if after x y then y :: sort_insert x rest else x :: sorted
  end.

Fixpoint sort (array : list A) : list A :=
  match array with
  | [] => []
  | x :: rest => sort_insert x (sort rest)
  end.
End ArraySort.

(** [array.findIndex((x, i) => p(x, i))]; [None] stands for [-1]. *)
Fixpoint findIndex_from {A} (p : A -> nat -> bool) (array : list A) (i : nat)
  : option nat :=
  match array with
  | [] => None
  | x :: rest => if p x i then Some i else findIndex_from p rest (S i)
  end.

Definition findIndex {A} (p : A -> nat -> bool) (array : list A) : option nat :=
  findIndex_from p array 0.

(** [array.reduce((acc, x, i) => f(acc, x, i), init)]. *)
Fixpoint reduce_from {A B} (f : B -> A -> nat -> B) (array : list A) (i : nat)
  (acc : B) : B :=
  match array with
  | [] => acc
  | x :: rest => reduce_from f rest (S i) (f acc x i)
  end.

Definition reduce {A B} (f : B -> A -> nat -> B) (init : B) (array : list A) : B :=
  reduce_from f array 0 init.

(** [vec[i]] inside arithmetic: a missing element is [undefined], which
    arithmetic turns into [NaN]. *)
Definition elem (vec : list number) (i : nat) : number := nth i vec nan.

(** ** Interfaces ([vector-store.interface.ts]) *)

Definition Date := Z.

Record VectorDocument := {
  id : string;
  content : string;
  embedding : option (list number);
  metadata : option Record_;
  createdAt : option Date;
  updatedAt : option Date
}.

Record SearchResult := {
  document : VectorDocument;
  similarity : number
}.

Inductive SimilarityMethod := Cosine | Euclidean | Dot.

Record SearchOptions := {
  limit : option Z;
  threshold : option number;
  similarityMethod : option SimilarityMethod;
  metadataFilter : option Record_;
  page : option Z;
  pageSize : option Z
}.

(** [options = {}]. *)
Definition no_options : SearchOptions :=
  {| limit := None; threshold := None; similarityMethod := None;
     metadataFilter := None; page := None; pageSize := None |}.

Definition default {A} (d : A) (o : option A) : A :=
  match o with Some a => a | None => d end.

(** ** Similarity functions *)

Open Scope float_scope.

Definition cosineSimilarity (vecA vecB : list number) : number :=
  let dotProduct := reduce (fun sum a i => sum + a * elem vecB i) 0 vecA in
  let magnitudeA := sqrt (reduce (fun sum a _ => sum + a * a) 0 vecA) in
  let magnitudeB := sqrt (reduce (fun sum b _ => sum + b * b) 0 vecB) in
  if (magnitudeA =? 0) || (magnitudeB =? 0) then 0
  else dotProduct / (magnitudeA * magnitudeB).

(** [Math.pow(x, 2)] is the rounded square. *)
Definition euclideanSimilarity (vecA vecB : list number) : number :=
  let distance :=
    sqrt (reduce (fun sum a i => sum + (a - elem vecB i) * (a - elem vecB i))
            0 vecA) in
  1 / (1 + distance).

Definition dotProductSimilarity (vecA vecB : list number) : number :=
  reduce (fun sum a i => sum + a * elem vecB i) 0 vecA.

Close Scope float_scope.

(** ** Errors

    Every [throw new Error(...)] of the source is a constructor; its
    arguments are the values the message interpolates. *)

Inductive Error :=
| ProviderRejected (message : string)
    (* the provider's promise is rejected *)
| TypeError
    (* a property is read on [undefined] *)
| OpenAIRequired
    (* OpenAI instance is required for embedding generation. ... *)
| FailedToGenerateEmbedding (cause : Error)
    (* Failed to generate embedding: <cause> *)
| FailedToGenerateEmbeddings (cause : Error)
    (* Failed to generate embeddings: <cause> *)
| FailedBatch (batch : nat) (cause : Error)
    (* Failed to generate embeddings for batch <batch>: <cause> *)
| FailedBatchDocuments (batch : nat) (first last : Z) (cause : Error)
    (* Failed to generate embeddings for batch <batch> (documents <first>-<last>): <cause> *)
| ContentRequired
    (* Document must have content when createEmbedding is true *)
| EmbeddingRequired
    (* Document must have an embedding or createEmbedding must be true *)
| MustHaveId
    (* Document must have an ID *)
| MustHaveEmbedding
    (* Document must have a valid embedding *)
| NonFiniteEmbedding
    (* All embedding values must be finite numbers *)
| DimensionMismatch (actual : nat) (expected : option nat)
    (* Document embedding dimensions (<actual>) don't match existing documents (<expected>) *)
| InvalidIdAt (index : nat)
    (* Document at index <index> must have a valid non-empty ID *)
| DuplicateId (id : string) (index duplicateIndex : nat)
    (* Duplicate document ID '<id>' found at indices <index> and <duplicateIndex> *)
| AlreadyExists (id : string)
    (* Document with ID '<id>' already exists in store *)
| ContentRequiredAt (index : nat) (id : string)
    (* Document at index <index> (ID: <id>) must have non-empty content when createEmbedding is true *)
| EmbeddingRequiredAt (index : nat) (id : string)
    (* Document at index <index> (ID: <id>) must have a valid embedding array when createEmbedding is false *)
| NonFiniteAt (index : nat) (id : string)
    (* Document at index <index> (ID: <id>) has invalid embedding values. ... *)
| DimensionMismatchAt (index : nat) (id : string) (actual expected : nat)
    (* Document at index <index> (ID: <id>) embedding dimensions (<actual>) don't match existing documents (<expected>) *)
| InvalidEmbeddingArray (id : string)
    (* Document <id> has invalid embedding array *)
| InvalidEmbeddingValues (id : string)
    (* Document <id> has invalid embedding values *)
| DocumentDimensionMismatch (id : string) (actual expected : nat)
    (* Document <id> embedding dimensions (<actual>) don't match existing documents (<expected>) *)
| GeneratedDimensionMismatch (actual expected : nat)
    (* Generated embedding dimensions (<actual>) don't match existing documents (<expected>) *)
| GeneratedInconsistent
    (* Generated embeddings have inconsistent dimensions *)
| InconsistentBatch (firstId : string) (firstDim : nat) (id : string) (dim : nat)
    (* Inconsistent embedding dimensions in batch: document <firstId> has <firstDim> dimensions, but document <id> has <dim> dimensions *)
| BatchDimensionMismatch (actual expected : nat)
    (* Batch embedding dimensions (<actual>) don't match existing documents (<expected>) *)
| FailedToAdd (cause : Error)
    (* Failed to add documents to store: <cause> *)
| EmptyQuery
    (* Query embedding must be provided and non-empty *)
| SameDimensions
    (* Vectors must have the same dimensions *)
| BatchSizeNotPositive
    (* Batch size must be greater than 0 *)
| NegativeBatchDelay.
    (* Batch delay cannot be negative *)

(** The outcome of running a piece of code: it returns, it throws, or it
    never finishes. *)
Inductive Outcome (A : Type) :=
| Return (a : A)
| Throw (e : Error)
| Diverge.
Arguments Return {A} a.
Arguments Throw {A} e.
Arguments Diverge {A}.

(** ** [Map<string, V>], in insertion order *)

Section JsMap.
Context {V : Type}.

Definition Map := list (string * V).

Fixpoint Map_get (m : Map) (key : string) : option V :=
  match m with
  | [] => None
  | (k, v) :: rest => if String.eqb k key then Some v else Map_get rest key
  end.

Definition Map_has (m : Map) (key : string) : bool :=
  match Map_get m key with Some _ => true | None => false end.

(** [m.set(key, value)]: an existing key keeps its place. *)
Fixpoint Map_set (m : Map) (key : string) (value : V) : Map :=
  match m with
  | [] => [(key, value)]
  | (k, v) :: rest =>
      if String.eqb k key then (k, value) :: rest
      else (k, v) :: Map_set rest key value
  end.

Fixpoint Map_delete (m : Map) (key : string) : Map :=
  match m with
  | [] => []
  | (k, v) :: rest =>
      if String.eqb k key then rest else (k, v) :: Map_delete rest key
  end.

Definition Map_values (m : Map) : list V := map snd m.

Definition Map_size (m : Map) : nat := length m.
End JsMap.
Arguments Map V : clear implicits.

(** ** The embedding provider *)

Module OpenAI.
Inductive Input :=
| Text (text : string)
| Texts (texts : list string).

Record Params := { input : Input; model : string }.

Record Item := { embedding : list number; index : Z }.

(** [OpenAIEmbeddingResponse]; only [data] is read. *)
Record Response := { data : list Item }.

Inductive Promise :=
| Resolved (response : Response)
| Rejected (message : string).

(** [embeddings.create]. *)
Definition Instance := Params -> Promise.
End OpenAI.

(** ** State *)

Inductive Event :=
| EmbeddingsCreate (params : OpenAI.Params)
| Delay (ms : Z)
| Progress (processed total : Z)
| Warn (documentId : string).

Record State := {
  documents : Map VectorDocument;
  openai : option OpenAI.Instance;
  embeddingModel : string;
  defaultBatchSize : Z;
  batchDelay : Z;
  clock : Date;
  log : list Event
}.

Definition set_documents (s : State) (d : Map VectorDocument) : State :=
  {| documents := d; openai := openai s; embeddingModel := embeddingModel s;
     defaultBatchSize := defaultBatchSize s; batchDelay := batchDelay s;
     clock := clock s; log := log s |}.

Definition set_embeddingModel (s : State) (m : string) : State :=
  {| documents := documents s; openai := openai s; embeddingModel := m;
     defaultBatchSize := defaultBatchSize s; batchDelay := batchDelay s;
     clock := clock s; log := log s |}.

Definition set_defaultBatchSize (s : State) (n : Z) : State :=
  {| documents := documents s; openai := openai s;
     embeddingModel := embeddingModel s;
     defaultBatchSize := n; batchDelay := batchDelay s;
     clock := clock s; log := log s |}.

Definition set_batchDelay (s : State) (n : Z) : State :=
  {| documents := documents s; openai := openai s;
     embeddingModel := embeddingModel s;
     defaultBatchSize := defaultBatchSize s; batchDelay := n;
     clock := clock s; log := log s |}.

Definition set_clock (s : State) (t : Date) : State :=
  {| documents := documents s; openai := openai s;
     embeddingModel := embeddingModel s;
     defaultBatchSize := defaultBatchSize s; batchDelay := batchDelay s;
     clock := t; log := log s |}.

Definition add_log (s : State) (es : list Event) : State :=
  {| documents := documents s; openai := openai s;
     embeddingModel := embeddingModel s;
     defaultBatchSize := defaultBatchSize s; batchDelay := batchDelay s;
     clock := clock s; log := log s ++ es |}.

(** ** The monad of methods *)

Definition M (A : Type) := State -> Outcome A * State.

Definition ret {A} (a : A) : M A := fun s => (Return a, s).

Definition throw {A} (e : Error) : M A := fun s => (Throw e, s).

Definition diverge {A} : M A := fun s => (Diverge, s).

Definition bind {A B} (m : M A) (k : A -> M B) : M B :=
  fun s =>
    match m s with
    | (Return a, s') => k a s'
    | (Throw e, s') => (Throw e, s')
    | (Diverge, s') => (Diverge, s')
    end.

(** [try { m } catch (error) { handler(error) }]. *)
Definition try_catch {A} (m : M A) (handler : Error -> M A) : M A :=
  fun s =>
    match m s with
    | (Throw e, s') => handler e s'
    | r => r
    end.

Definition get : M State := fun s => (Return s, s).

Definition modify (f : State -> State) : M unit := fun s => (Return tt, f s).

Definition lift {A} (o : Outcome A) : M A := fun s => (o, s).

Declare Scope monad_scope.
Delimit Scope monad_scope with monad.
Notation "x <- m ;; k" := (bind m (fun x => k))
  (at level 61, m at next level, right associativity) : monad_scope.
Notation "m ;; k" := (bind m (fun _ => k))
  (at level 61, right associativity) : monad_scope.
Open Scope monad_scope.

(** [array.forEach((x, index) => f(x, index))]. *)
Fixpoint forEach_from {A} (f : A -> nat -> M unit) (array : list A) (index : nat)
  : M unit :=
  match array with
  | [] => ret tt
  | x :: rest => f x index ;; forEach_from f rest (S index)
  end.

Definition forEach {A} (f : A -> nat -> M unit) (array : list A) : M unit :=
  forEach_from f array 0.

(** [new Date()]. *)
Definition new_Date : M Date := fun s => (Return (clock s), s).

Definition emit (es : list Event) : M unit := modify (fun s => add_log s es).

(** [await this.openai.embeddings.create(params)]. *)
Definition embeddings_create (client : OpenAI.Instance) (params : OpenAI.Params)
  : M OpenAI.Response :=
  emit [EmbeddingsCreate params] ;;
  match client params with
  | OpenAI.Resolved response => ret response
  | OpenAI.Rejected message => throw (ProviderRejected message)
  end.

(** [await this.delay(ms)]: a timer of [ms] milliseconds. *)
Definition delay (ms : Z) : M unit :=
  modify (fun s => add_log (set_clock s (clock s + ms)%Z) [Delay ms]).

(** ** [class NeuraDB] *)

Module NeuraDBOptions.
Record t := {
  openai : option OpenAI.Instance;
  embeddingModel : option string;
  defaultBatchSize : option Z;
  batchDelay : option Z
}.
End NeuraDBOptions.

Module AddDocumentsOptions.
(** [onProgress] says whether a callback is supplied; a call to it is
    logged as [Progress]. *)
Record t := {
  createEmbedding : option bool;
  batchSize : option Z;
  batchDelay : option Z;
  onProgress : bool
}.
End AddDocumentsOptions.

Module Page.
(** [Math.ceil(totalResults / pageSize)] for integral arguments. *)
Inductive Count :=
| Finite (n : Z)
| PosInfinity
| NotANumber.

Record t := {
  data : list SearchResult;
  page : Z;
  pageSize : Z;
  totalResults : Z;
  totalPages : Count
}.
End Page.

Inductive Query :=
| QueryVector (vector : list number)
| QueryText (text : string).

(** [x || d] for an optional string or number: [""] and [0] are falsy. *)
Definition or_string (x : option string) (d : string) : string :=
  match x with
  | Some s => if String.eqb s "" then d else s
  | None => d
  end.

Definition or_Z (x : option Z) (d : Z) : Z :=
  match x with
  | Some n => if (n =? 0)%Z then d else n
  | None => d
  end.

(** [new NeuraDB(options)], created at time [now] with an empty log. *)
Definition constructor (options : NeuraDBOptions.t) (now : Date) : State :=
  {| documents := [];
     openai := NeuraDBOptions.openai options;
     embeddingModel :=
       or_string (NeuraDBOptions.embeddingModel options) "text-embedding-3-small";
     defaultBatchSize := or_Z (NeuraDBOptions.defaultBatchSize options) 100;
     batchDelay := or_Z (NeuraDBOptions.batchDelay options) 1000;
     clock := now;
     log := [] |}.

(** The loop of [chunkArray], run for at most [fuel] tests of its condition. *)
Fixpoint chunkArray_loop {T} (fuel : nat) (array : list T) (chunkSize i : Z)
  (chunks : list (list T)) : option (list (list T)) :=
  match fuel with
  | O => None
  | S fuel' =>
      if (i <? Z.of_nat (length array))%Z
      then chunkArray_loop fuel' array chunkSize (i + chunkSize)%Z
             (chunks ++ [slice array i (i + chunkSize)])
      else Some chunks
  end.

(** [None]: the loop does not end (see [chunkArray_loop_diverges]). *)
Definition chunkArray {T} (array : list T) (chunkSize : Z) : option (list (list T)) :=
  chunkArray_loop (S (length array)) array chunkSize 0 [].

Definition chunkArrayM {T} (array : list T) (chunkSize : Z) : M (list (list T)) :=
  match chunkArray array chunkSize with
  | Some chunks => ret chunks
  | None => diverge
  end.

(** [response.data.sort((a, b) => a.index - b.index).map(item => item.embedding)] *)
Definition embeddings_of (response : OpenAI.Response) : list (list number) :=
  map OpenAI.embedding
    (sort (fun a b => (0 <? OpenAI.index a - OpenAI.index b)%Z)
       (OpenAI.data response)).

Definition generateEmbedding (text : string) : M (list number) :=
  this <- get ;;
  match openai this with
  | None => throw OpenAIRequired
  | Some client =>
      try_catch
        (response <- embeddings_create client
           {| OpenAI.input := OpenAI.Text text;
              OpenAI.model := embeddingModel this |} ;;
         match OpenAI.data response with
         | first :: _ => ret (OpenAI.embedding first)
         | [] => throw TypeError
         end)
        (fun error => throw (FailedToGenerateEmbedding error))
  end.

(** The [for] loop of [generateEmbeddings] over [batches], from index [i]. *)
Fixpoint generateEmbeddings_loop (client : OpenAI.Instance) (model : string)
  (batchDelay : Z) (batches_length : nat) (batches : list (list string))
  (i : nat) (allEmbeddings : list (list number)) : M (list (list number)) :=
  match batches with
  | [] => ret allEmbeddings
  | batch :: rest =>
      allEmbeddings' <-
        try_catch
          (response <- embeddings_create client
             {| OpenAI.input := OpenAI.Texts batch; OpenAI.model := model |} ;;
           let batchEmbeddings := embeddings_of response in
           (if (Z.of_nat i <? Z.of_nat batches_length - 1)%Z && (0 <? batchDelay)%Z
            then delay batchDelay else ret tt) ;;
           ret (allEmbeddings ++ batchEmbeddings))
          (fun error => throw (FailedBatch (i + 1) error)) ;;
      generateEmbeddings_loop client model batchDelay batches_length rest (S i)
        allEmbeddings'
  end.

(** [this.batchDelay], where a parameter of the same name hides the field. *)
Definition this_batchDelay (this : State) : Z := batchDelay this.

Definition generateEmbeddings (texts : list string) (batchSize batchDelay : option Z)
  : M (list (list number)) :=
  this <- get ;;
  let batchSize := default (defaultBatchSize this) batchSize in
  let batchDelay := default (this_batchDelay this) batchDelay in
  match openai this with
  | None => throw OpenAIRequired
  | Some client =>
      if Nat.eqb (length texts) 0 then ret []
      else if (Z.of_nat (length texts) <=? batchSize)%Z then
        try_catch
          (response <- embeddings_create client
             {| OpenAI.input := OpenAI.Texts texts;
                OpenAI.model := embeddingModel this |} ;;
           ret (embeddings_of response))
          (fun error => throw (FailedToGenerateEmbeddings error))
      else
        batches <- chunkArrayM texts batchSize ;;
        generateEmbeddings_loop client (embeddingModel this) batchDelay
          (length batches) batches 0 []
  end.

Definition getEmbeddingDimensions : M (option nat) :=
  this <- get ;;
  match Map_values (documents this) with
  | [] => ret None
  | firstDoc :: _ =>
      match embedding firstDoc with
      | Some e => ret (Some (length e))
      | None => throw TypeError
      end
  end.

Definition validateDocument (document : VectorDocument) : M bool :=
  if String.eqb (id document) "" then throw MustHaveId
  else
    match embedding document with
    | None | Some [] => throw MustHaveEmbedding
    | Some e =>
        if existsb (fun val => negb (isFinite val)) e
        then throw NonFiniteEmbedding
        else ret true
    end.

Definition validateEmbeddingDimensions (embedding : list number) : M bool :=
  expectedDim <- getEmbeddingDimensions ;;
  match expectedDim with
  | None => ret true
  | Some expectedDim => ret (Nat.eqb (length embedding) expectedDim)
  end.

(** [{...document, embedding}] *)
Definition with_embedding (document : VectorDocument) (e : option (list number))
  : VectorDocument :=
  {| id := id document; content := content document; embedding := e;
     metadata := metadata document; createdAt := createdAt document;
     updatedAt := updatedAt document |}.

(** [{...document, createdAt, updatedAt}] *)
Definition with_timestamps (document : VectorDocument) (created updated : option Date)
  : VectorDocument :=
  {| id := id document; content := content document;
     embedding := embedding document; metadata := metadata document;
     createdAt := created; updatedAt := updated |}.

(** [x || now] for an optional [Date]. *)
Definition or_Date (x : option Date) (now : Date) : Date :=
  match x with Some t => t | None => now end.

Definition is_some {A} (o : option A) : bool :=
  match o with Some _ => true | None => false end.

(** The first part of [addDocument] and [updateDocument]: the document with
    its embedding, generated when asked for and absent. *)
Definition finalDocument_of (document : VectorDocument) (createEmbedding : option bool)
  : M VectorDocument :=
  if default false createEmbedding && negb (is_some (embedding document)) then
    if String.eqb (content document) "" then throw ContentRequired
    else
      embedding <- generateEmbedding (content document) ;;
      ret (with_embedding document (Some embedding))
  else if is_some (embedding document) then ret document
  else throw EmbeddingRequired.

(** [finalDocument.embedding!.length] *)
Definition embedding_length (document : VectorDocument) : M nat :=
  match embedding document with
  | Some e => ret (length e)
  | None => throw TypeError
  end.

(** The dimension check shared by [addDocument] and [updateDocument]. *)
Definition check_dimensions (finalDocument : VectorDocument) : M unit :=
  validateDocument finalDocument ;;
  ok <- validateEmbeddingDimensions (default [] (embedding finalDocument)) ;;
  if negb ok then
    len <- embedding_length finalDocument ;;
    expected <- getEmbeddingDimensions ;;
    throw (DimensionMismatch len expected)
  else ret tt.

Definition documents_set (key : string) (value : VectorDocument) : M unit :=
  modify (fun s => set_documents s (Map_set (documents s) key value)).

Definition documents_delete (key : string) : M unit :=
  modify (fun s => set_documents s (Map_delete (documents s) key)).

Definition addDocument (document : VectorDocument) (createEmbedding : option bool)
  : M unit :=
  finalDocument <- finalDocument_of document createEmbedding ;;
  check_dimensions finalDocument ;;
  now <- new_Date ;;
  let documentWithTimestamps :=
    with_timestamps finalDocument
      (Some (or_Date (createdAt finalDocument) now)) (Some now) in
  documents_set (id finalDocument) documentWithTimestamps.

(** [!s || s.trim() === ''] for a string. *)
Definition blank (s : string) : bool :=
  String.eqb s "" || String.eqb (trim s) "".

Definition not_finite (val : number) : bool := negb (isFinite val).

(** The body of the first [forEach] of [addDocuments]: the early validation
    of the input document [doc] at [index] of [docs]. *)
Definition validateInput (docs : list VectorDocument) (createEmbedding : bool)
  (doc : VectorDocument) (index : nat) : M unit :=
  if blank (id doc) then throw (InvalidIdAt index)
  else
    let duplicateIndex :=
      findIndex (fun otherDoc otherIndex =>
                   negb (Nat.eqb otherIndex index)
                   && String.eqb (id otherDoc) (id doc)) docs in
    match duplicateIndex with
    | Some duplicateIndex => throw (DuplicateId (id doc) index duplicateIndex)
    | None =>
        this <- get ;;
        if Map_has (documents this) (id doc) then throw (AlreadyExists (id doc))
        else if createEmbedding then
          if negb (is_some (embedding doc)) && blank (content doc)
          then throw (ContentRequiredAt index (id doc))
          else ret tt
        else
          match embedding doc with
          | None | Some [] => throw (EmbeddingRequiredAt index (id doc))
          | Some e =>
              if existsb not_finite e then throw (NonFiniteAt index (id doc))
              else
                expectedDim <- getEmbeddingDimensions ;;
                match expectedDim with
                | Some expectedDim =>
                    if negb (Nat.eqb (length e) expectedDim)
                    then throw (DimensionMismatchAt index (id doc) (length e)
                                  expectedDim)
                    else ret tt
                | None => ret tt
                end
          end
    end.

(** The second [forEach]: documents that need an embedding, and documents
    that carry one, each list in input order. *)
Fixpoint separate (docs : list VectorDocument)
  (documentsNeedingEmbeddings documentsWithEmbeddings : list VectorDocument)
  : M (list VectorDocument * list VectorDocument) :=
  match docs with
  | [] => ret (documentsNeedingEmbeddings, documentsWithEmbeddings)
  | doc :: rest =>
      match embedding doc with
      | None =>
          separate rest (documentsNeedingEmbeddings ++ [doc]) documentsWithEmbeddings
      | Some e =>
          if Nat.eqb (length e) 0 then throw (InvalidEmbeddingArray (id doc))
          else if existsb not_finite e then throw (InvalidEmbeddingValues (id doc))
          else
            expectedDim <- getEmbeddingDimensions ;;
            match expectedDim with
            | Some expectedDim =>
                if negb (Nat.eqb (length e) expectedDim)
                then throw (DocumentDimensionMismatch (id doc) (length e)
                              expectedDim)
                else separate rest documentsNeedingEmbeddings
                       (documentsWithEmbeddings ++ [doc])
            | None =>
                separate rest documentsNeedingEmbeddings
                  (documentsWithEmbeddings ++ [doc])
            end
      end
  end.

(** The loop with progress tracking, over [batches] from index [i]. *)
Fixpoint progress_loop (batchDelay : Z) (batches_length : nat)
  (totalToProcess : Z) (batches : list (list string)) (i : nat)
  (processedCount : Z) (generatedEmbeddings : list (list number))
  : M (list (list number)) :=
  match batches with
  | [] => ret generatedEmbeddings
  | batch :: rest =>
      r <-
        try_catch
          (batchEmbeddings <-
             generateEmbeddings batch (Some (Z.of_nat (length batch))) (Some 0%Z) ;;
           let generatedEmbeddings := generatedEmbeddings ++ batchEmbeddings in
           let processedCount := (processedCount + Z.of_nat (length batch))%Z in
           emit [Progress processedCount totalToProcess] ;;
           (if (Z.of_nat i <? Z.of_nat batches_length - 1)%Z && (0 <? batchDelay)%Z
            then delay batchDelay else ret tt) ;;
           ret (generatedEmbeddings, processedCount))
          (fun error =>
             throw (FailedBatchDocuments (i + 1) (processedCount + 1)
                      (processedCount + Z.of_nat (length batch)) error)) ;;
      progress_loop batchDelay batches_length totalToProcess rest (S i)
        (snd r) (fst r)
  end.

Definition generate_for (documentsNeedingEmbeddings : list VectorDocument)
  (batchSize batchDelay : Z) (onProgress : bool) : M (list (list number)) :=
  if Nat.ltb 0 (length documentsNeedingEmbeddings) then
    let textsToEmbed := map content documentsNeedingEmbeddings in
    try_catch
      (if onProgress then
         batches <- chunkArrayM textsToEmbed batchSize ;;
         let totalToProcess := Z.of_nat (length documentsNeedingEmbeddings) in
         progress_loop batchDelay (length batches) totalToProcess batches 0 0%Z []
       else
         generateEmbeddings textsToEmbed (Some batchSize) (Some batchDelay))
      (fun error => throw (FailedToGenerateEmbeddings error))
  else ret [].

Definition validate_generated (generatedEmbeddings : list (list number)) : M unit :=
  match generatedEmbeddings with
  | [] => ret tt
  | first :: _ =>
      expectedDim <- getEmbeddingDimensions ;;
      let firstEmbeddingDim := length first in
      match expectedDim with
      | Some expectedDim =>
          if negb (Nat.eqb firstEmbeddingDim expectedDim)
          then throw (GeneratedDimensionMismatch firstEmbeddingDim expectedDim)
          else ret tt
      | None => ret tt
      end ;;
      if existsb (fun emb => negb (Nat.eqb (length emb) firstEmbeddingDim))
           generatedEmbeddings
      then throw GeneratedInconsistent
      else ret tt
  end.

(** [array.map((x, index) => f(x, index))] *)
Fixpoint mapi_from {A B} (f : A -> nat -> B) (array : list A) (index : nat) : list B :=
  match array with
  | [] => []
  | x :: rest => f x index :: mapi_from f rest (S index)
  end.

(** The branch [if (createEmbedding)] that computes [finalDocuments]. *)
Definition embed_documents (docs : list VectorDocument)
  (batchSize batchDelay : Z) (onProgress : bool) : M (list VectorDocument) :=
  parts <- separate docs [] [] ;;
  let documentsNeedingEmbeddings := fst parts in
  let documentsWithEmbeddings := snd parts in
  generatedEmbeddings <-
    generate_for documentsNeedingEmbeddings batchSize batchDelay onProgress ;;
  validate_generated generatedEmbeddings ;;
  let docsWithNewEmbeddings :=
    mapi_from (fun doc index =>
                 with_embedding doc (nth_error generatedEmbeddings index))
      documentsNeedingEmbeddings 0 in
  ret (documentsWithEmbeddings ++ docsWithNewEmbeddings).

(** The final dimension consistency check of [addDocuments]. *)
Definition check_batch (expectedDim : option nat) (finalDocuments : list VectorDocument)
  : M unit :=
  match finalDocuments with
  | [] => ret tt
  | first :: others =>
      firstDocDim <- embedding_length first ;;
      forEach (fun doc _ =>
                 dim <- embedding_length doc ;;
                 if negb (Nat.eqb dim firstDocDim)
                 then throw (InconsistentBatch (id first) firstDocDim (id doc) dim)
                 else ret tt) others ;;
      match expectedDim with
      | Some expectedDim =>
          if negb (Nat.eqb firstDocDim expectedDim)
          then throw (BatchDimensionMismatch firstDocDim expectedDim)
          else ret tt
      | None => ret tt
      end
  end.

Definition store_batch (now : Date) (finalDocuments : list VectorDocument) : M unit :=
  try_catch
    (forEach (fun doc _ =>
                let documentWithTimestamps :=
                  with_timestamps doc (Some (or_Date (createdAt doc) now))
                    (Some now) in
                documents_set (id doc) documentWithTimestamps) finalDocuments)
    (fun error =>
       forEach (fun doc _ => documents_delete (id doc)) finalDocuments ;;
       throw (FailedToAdd error)).

Definition addDocuments (docs : list VectorDocument) (options : AddDocumentsOptions.t)
  : M unit :=
  this <- get ;;
  let createEmbedding := default false (AddDocumentsOptions.createEmbedding options) in
  let batchSize :=
    default (defaultBatchSize this) (AddDocumentsOptions.batchSize options) in
  let batchDelay :=
    default (this_batchDelay this) (AddDocumentsOptions.batchDelay options) in
  let onProgress := AddDocumentsOptions.onProgress options in
  if Nat.eqb (length docs) 0 then ret tt
  else
    forEach (validateInput docs createEmbedding) docs ;;
    finalDocuments <-
      (if createEmbedding
       then embed_documents docs batchSize batchDelay onProgress
       else ret docs) ;;
    expectedDim <- getEmbeddingDimensions ;;
    now <- new_Date ;;
    check_batch expectedDim finalDocuments ;;
    store_batch now finalDocuments.

Definition filterByMetadata (docs : list VectorDocument) (filter : Record_)
  : list VectorDocument :=
  List.filter
    (fun doc =>
       match metadata doc with
       | None => false
       | Some md => forallb (fun entry => strict_eq (prop md (fst entry)) (snd entry))
                      filter
       end) docs.

(** [vecB] is [document.embedding!]: reading [length] of [undefined] throws. *)
Definition calculateSimilarity (vecA : list number) (vecB : option (list number))
  (method : SimilarityMethod) : Outcome number :=
  match vecB with
  | None => Throw TypeError
  | Some vecB =>
      if negb (Nat.eqb (length vecA) (length vecB)) then Throw SameDimensions
      else
        Return match method with
               | Cosine => cosineSimilarity vecA vecB
               | Euclidean => euclideanSimilarity vecA vecB
               | Dot => dotProductSimilarity vecA vecB
               end
  end.

(** The scoring loop of [search]: the results pushed, in encounter order, and
    the warnings for the documents skipped. *)
Fixpoint score_documents (queryEmbedding : list number) (method : SimilarityMethod)
  (threshold : number) (documentsToSearch : list VectorDocument)
  : list SearchResult * list Event :=
  match documentsToSearch with
  | [] => ([], [])
  | document :: rest =>
      let (results, warnings) :=
        score_documents queryEmbedding method threshold rest in
      match calculateSimilarity queryEmbedding (embedding document) method with
      | Return similarity =>
          if PrimFloat.leb threshold similarity
          then ({| document := document; similarity := similarity |} :: results,
                warnings)
          else (results, warnings)
      | _ => (results, Warn (id document) :: warnings)
      end
  end.

(** [(a, b) => b.similarity - a.similarity] is positive. *)
Definition by_similarity (a b : SearchResult) : bool :=
  PrimFloat.ltb 0 (PrimFloat.sub (similarity b) (similarity a)).

Definition candidates (docs : list VectorDocument) (metadataFilter : option Record_)
  : list VectorDocument :=
  match metadataFilter with
  | Some filter => filterByMetadata docs filter
  | None => docs
  end.

(** Filter, score, threshold and sort: [sortedResults] of [search] and of
    [searchWithPagination], with the warnings logged on the way. *)
Definition sortedResults (docs : list VectorDocument) (queryEmbedding : list number)
  (options : SearchOptions) : list SearchResult * list Event :=
  let threshold := default 0%float (threshold options) in
  let similarityMethod := default Cosine (similarityMethod options) in
  let documentsToSearch := candidates docs (metadataFilter options) in
  let (results, warnings) :=
    score_documents queryEmbedding similarityMethod threshold documentsToSearch in
  (sort by_similarity results, warnings).

Definition resolve_query (query : Query) : M (list number) :=
  match query with
  | QueryText text => generateEmbedding text
  | QueryVector vector =>
      if Nat.eqb (length vector) 0 then throw EmptyQuery else ret vector
  end.

Definition search (query : Query) (options : SearchOptions) : M (list SearchResult) :=
  let limit := default 10%Z (limit options) in
  let page := default 1%Z (page options) in
  this <- get ;;
  if Nat.eqb (Map_size (documents this)) 0 then ret []
  else
    queryEmbedding <- resolve_query query ;;
    let (sortedResults, warnings) :=
      sortedResults (Map_values (documents this)) queryEmbedding options in
    emit warnings ;;
    match pageSize options with
    | Some pageSize =>
        let startIdx := ((page - 1) * pageSize)%Z in
        ret (slice sortedResults startIdx (startIdx + pageSize))
    | None => ret (slice sortedResults 0 limit)
    end.

Definition ceil_div (n k : Z) : Page.Count :=
  if (k =? 0)%Z then (if (n =? 0)%Z then Page.NotANumber else Page.PosInfinity)
  else Page.Finite (- (- n / k))%Z.

Definition searchWithPagination (query : Query) (options : SearchOptions) : M Page.t :=
  let page := default 1%Z (page options) in
  let pageSize := default 10%Z (pageSize options) in
  this <- get ;;
  if Nat.eqb (Map_size (documents this)) 0 then
    ret {| Page.data := []; Page.page := page; Page.pageSize := pageSize;
           Page.totalResults := 0; Page.totalPages := Page.Finite 0 |}
  else
    queryEmbedding <- resolve_query query ;;
    let (sortedResults, warnings) :=
      sortedResults (Map_values (documents this)) queryEmbedding options in
    emit warnings ;;
    let totalResults := Z.of_nat (length sortedResults) in
    let totalPages := ceil_div totalResults pageSize in
    let startIdx := ((page - 1) * pageSize)%Z in
    let data := slice sortedResults startIdx (startIdx + pageSize) in
    ret {| Page.data := data; Page.page := page; Page.pageSize := pageSize;
           Page.totalResults := totalResults; Page.totalPages := totalPages |}.

Definition findMostSimilar (query : Query) (similarityMethod : option SimilarityMethod)
  : M (option SearchResult) :=
  results <- search query
    {| limit := Some 1%Z; threshold := None;
       similarityMethod := Some (default Cosine similarityMethod);
       metadataFilter := None; page := None; pageSize := None |} ;;
  ret (hd_error results).

Definition getDocument (id : string) : M (option VectorDocument) :=
  this <- get ;; ret (Map_get (documents this) id).

Definition hasDocument (id : string) : M bool :=
  this <- get ;; ret (Map_has (documents this) id).

Definition removeDocument (id : string) : M bool :=
  this <- get ;;
  documents_delete id ;;
  ret (Map_has (documents this) id).

Definition updateDocument (document : VectorDocument) (createEmbedding : option bool)
  : M bool :=
  this <- get ;;
  if negb (Map_has (documents this) (id document)) then ret false
  else
    finalDocument <- finalDocument_of document createEmbedding ;;
    check_dimensions finalDocument ;;
    this <- get ;;
    match Map_get (documents this) (id finalDocument) with
    | None => throw TypeError
    | Some existingDoc =>
        now <- new_Date ;;
        let updatedDocument :=
          with_timestamps finalDocument (createdAt existingDoc) (Some now) in
        documents_set (id finalDocument) updatedDocument ;;
        ret true
    end.

Definition getAllDocuments : M (list VectorDocument) :=
  this <- get ;; ret (Map_values (documents this)).

Definition getDocumentsByMetadata (filter : Record_) : M (list VectorDocument) :=
  all <- getAllDocuments ;; ret (filterByMetadata all filter).

Definition clear : M unit := modify (fun s => set_documents s []).

Definition size : M nat := this <- get ;; ret (Map_size (documents this)).

Definition isEmpty : M bool :=
  this <- get ;; ret (Nat.eqb (Map_size (documents this)) 0).

Definition setEmbeddingModel (model : string) : M unit :=
  modify (fun s => set_embeddingModel s model).

Definition setDefaultBatchSize (batchSize : Z) : M unit :=
  if (batchSize <=? 0)%Z then throw BatchSizeNotPositive
  else modify (fun s => set_defaultBatchSize s batchSize).

Definition setDefaultBatchDelay (delay : Z) : M unit :=
  if (delay <? 0)%Z then throw NegativeBatchDelay
  else modify (fun s => set_batchDelay s delay).

Definition hasOpenAI : M bool := this <- get ;; ret (is_some (openai this)).

Definition getEmbeddingModel : M string := this <- get ;; ret (embeddingModel this).

Definition getDefaultBatchSize : M Z := this <- get ;; ret (defaultBatchSize this).

Definition getDefaultBatchDelay : M Z := this <- get ;; ret (this_batchDelay this).

(** ** [class VectorStore], the earlier synchronous store

    Its state is the document table; [search] returns its outcome and the
    warnings it logs. *)
Module VectorStore.
Definition search (documents : Map VectorDocument) (queryEmbedding : list number)
  (options : SearchOptions) : Outcome (list SearchResult) * list Event :=
  let limit := default 10%Z (limit options) in
  if Nat.eqb (Map_size documents) 0 then (Throw EmptyQuery, [])
  else if Nat.eqb (length queryEmbedding) 0 then (Throw EmptyQuery, [])
  else
    let threshold := default 0%float (threshold options) in
    let similarityMethod := default Cosine (similarityMethod options) in
    let documentsToSearch :=
      candidates (Map_values documents) (metadataFilter options) in
    let (results, warnings) :=
      score_documents queryEmbedding similarityMethod threshold
        documentsToSearch in
    (Return (slice (sort by_similarity results) 0 limit), warnings).

(** The methods that write the table, in the monad of methods: of the state
    they use the table and the clock. The private
    [validateEmbeddingDimensions] and [getEmbeddingDimensions] have the text
    of those of [NeuraDB]. *)
Definition validateDocument (document : VectorDocument) : M unit :=
  if String.eqb (id document) "" then throw MustHaveId
  else
    match embedding document with
    | None | Some [] => throw MustHaveEmbedding
    | Some e =>
        if existsb (fun val => negb (isFinite val)) e
        then throw NonFiniteEmbedding
        else ret tt
    end.

Definition addDocument (document : VectorDocument) : M unit :=
  validateDocument document ;;
  ok <- validateEmbeddingDimensions (default [] (embedding document)) ;;
  (if negb ok then
     len <- embedding_length document ;;
     expected <- getEmbeddingDimensions ;;
     throw (DimensionMismatch len expected)
   else ret tt) ;;
  now <- new_Date ;;
  let documentWithTimestamps :=
    with_timestamps document (Some (or_Date (createdAt document) now)) (Some now) in
  documents_set (id document) documentWithTimestamps.

Definition addDocuments (documents : list VectorDocument) : M unit :=
  forEach (fun doc _ => validateDocument doc) documents ;;
  forEach (fun doc _ => addDocument doc) documents.

Definition updateDocument (document : VectorDocument) : M bool :=
  this <- get ;;
  if negb (Map_has (documents this) (id document)) then ret false
  else
    validateDocument document ;;
    ok <- validateEmbeddingDimensions (default [] (embedding document)) ;;
    (if negb ok then
       len <- embedding_length document ;;
       expected <- getEmbeddingDimensions ;;
       throw (DimensionMismatch len expected)
     else ret tt) ;;
    this <- get ;;
    match Map_get (documents this) (id document) with
    | None => throw TypeError
    | Some existingDoc =>
        now <- new_Date ;;
        let updatedDocument :=
          with_timestamps document (createdAt existingDoc) (Some now) in
        documents_set (id document) updatedDocument ;;
        ret true
    end.

Definition findMostSimilar (queryEmbedding : list number)
  (similarityMethod : option SimilarityMethod) : M (option SearchResult) :=
  this <- get ;;
  let (outcome, warnings) :=
    search (documents this) queryEmbedding
      {| limit := Some 1%Z; threshold := None;
         similarityMethod := Some (default Cosine similarityMethod);
         metadataFilter := None; page := None; pageSize := None |} in
  emit warnings ;;
  results <- lift outcome ;;
  ret (hd_error results).
End VectorStore.

(** ** Vocabulary of the properties *)

(** A store right after [new NeuraDB()], at time 0. *)
Definition empty_store : State :=
  constructor {| NeuraDBOptions.openai := None;
                 NeuraDBOptions.embeddingModel := None;
                 NeuraDBOptions.defaultBatchSize := None;
                 NeuraDBOptions.batchDelay := None |} 0%Z.

Definition has_metadata (doc : VectorDocument) : bool := is_some (metadata doc).

(** A document as the tests build it. *)
Definition sample_document (i : string) (e : list number) : VectorDocument :=
  {| id := i; content := "Hello world"; embedding := Some e;
     metadata := Some [("category"%string, JString "greeting")];
     createdAt := None; updatedAt := None |}.

(** The public calls that can change the state. *)
Inductive Call :=
| AddDocument (document : VectorDocument) (createEmbedding : option bool)
| AddDocuments (docs : list VectorDocument) (options : AddDocumentsOptions.t)
| UpdateDocument (document : VectorDocument) (createEmbedding : option bool)
| RemoveDocument (id : string)
| Clear
| Search (query : Query) (options : SearchOptions)
| SearchWithPagination (query : Query) (options : SearchOptions)
| FindMostSimilar (query : Query) (similarityMethod : option SimilarityMethod)
| GenerateEmbedding (text : string)
| GenerateEmbeddings (texts : list string) (batchSize batchDelay : option Z)
| SetEmbeddingModel (model : string)
| SetDefaultBatchSize (batchSize : Z)
| SetDefaultBatchDelay (delay : Z).

(** The state a call leaves, whatever its outcome. *)
Definition perform (c : Call) (s : State) : State :=
  match c with
  | AddDocument document createEmbedding =>
      snd (addDocument document createEmbedding s)
  | AddDocuments docs options => snd (addDocuments docs options s)
  | UpdateDocument document createEmbedding =>
      snd (updateDocument document createEmbedding s)
  | RemoveDocument id => snd (removeDocument id s)
  | Clear => snd (clear s)
  | Search query options => snd (search query options s)
  | SearchWithPagination query options => snd (searchWithPagination query options s)
  | FindMostSimilar query method => snd (findMostSimilar query method s)
  | GenerateEmbedding text => snd (generateEmbedding text s)
  | GenerateEmbeddings texts batchSize batchDelay =>
      snd (generateEmbeddings texts batchSize batchDelay s)
  | SetEmbeddingModel model => snd (setEmbeddingModel model s)
  | SetDefaultBatchSize batchSize => snd (setDefaultBatchSize batchSize s)
  | SetDefaultBatchDelay delay => snd (setDefaultBatchDelay delay s)
  end.

(** The store and its callers share objects. The object stored by
    [addDocument], [addDocuments] and [updateDocument] is a copy
    [{...document, createdAt, updatedAt}] that keeps the embedding array
    and the metadata object of the caller's document, and [getDocument],
    [getAllDocuments] and the search results hand out the stored objects
    themselves. Whoever holds one of them can change it in place, and the
    table changes with it, without a call: the document under [key]
    becomes [d']. *)
Definition shared_object_changed (key : string) (d' : VectorDocument) (s : State)
  : State :=
  set_documents s (Map_set (documents s) key d').

(** The states a store goes through: it is created, calls are made on it,
    time passes between calls, and the holders of its objects change a
    stored document [d] into [d'], in the ways that [allowed] says. *)
Inductive reachable_if (allowed : VectorDocument -> VectorDocument -> Prop)
  : State -> Prop :=
| reachable_new options now : reachable_if allowed (constructor options now)
| reachable_call c s : reachable_if allowed s -> reachable_if allowed (perform c s)
| reachable_later t s : reachable_if allowed s -> reachable_if allowed (set_clock s t)
| reachable_shared key d d' s :
    reachable_if allowed s ->
    Map_get (documents s) key = Some d -> allowed d d' ->
    reachable_if allowed (shared_object_changed key d' s).

(** The states a store goes through, whatever the holders of its objects do
    to them. *)
Definition reachable : State -> Prop := reachable_if (fun _ _ => True).

(** A change of a stored document that keeps the length of its embedding. *)
Definition same_dimension (d d' : VectorDocument) : Prop :=
  option_map (@length number) (embedding d') =
  option_map (@length number) (embedding d).

(** A change of a stored document that keeps its id and leaves it an
    embedding and both timestamps. *)
Definition same_shape (d d' : VectorDocument) : Prop :=
  id d' = id d /\ embedding d' <> None /\
  createdAt d' <> None /\ updatedAt d' <> None.

(** Any two documents of the table have embeddings of equal length. *)
Definition dimension_consistent (m : Map VectorDocument) : Prop :=
  forall d1 d2,
    In d1 (Map_values m) -> In d2 (Map_values m) ->
    exists e1 e2,
      embedding d1 = Some e1 /\ embedding d2 = Some e2 /\ length e1 = length e2.

(** Every document of the table has an embedding of length [n]. *)
Definition all_dimension (n : nat) (m : Map VectorDocument) : Prop :=
  forall d, In d (Map_values m) -> exists e, embedding d = Some e /\ length e = n.

(** [getEmbeddingDimensions] as a function of the table. *)
Definition dimension_of (m : Map VectorDocument) : Outcome (option nat) :=
  match Map_values m with
  | [] => Return None
  | firstDoc :: _ =>
      match embedding firstDoc with
      | Some e => Return (Some (length e))
      | None => Throw TypeError
      end
  end.

(** Two states with the same store and configuration: they differ at most
    in the clock and the log. *)
Definition same_store (s s' : State) : Prop :=
  documents s' = documents s /\ openai s' = openai s /\
  embeddingModel s' = embeddingModel s /\
  defaultBatchSize s' = defaultBatchSize s /\ batchDelay s' = batchDelay s.

(** A computation that leaves the state as it is. *)
Definition readonly {A} (m : M A) : Prop := forall s, snd (m s) = s.

(** A computation that leaves the store and the configuration as they are. *)
Definition keeps_store {A} (m : M A) : Prop := forall s, same_store s (snd (m s)).

(** What a table may hold for a new embedding of length [n] to be accepted:
    nothing, or documents whose first one has dimension [n]. *)
Definition accepts (m : Map VectorDocument) (n : nat) : Prop :=
  dimension_of m = Return None \/ dimension_of m = Return (Some n).

(** ** Ordering numbers *)

(** An order-preserving key of a number that is not NaN: its class, then
    its signed exponent, then its signed mantissa. *)
Definition SFkey (x : spec_float) : Z * (Z * Z) :=
  (match x with
   | S754_zero _ => (0, (0, 0))
   | S754_infinity s => (if s then -2 else 2, (0, 0))
   | S754_nan => (0, (0, 0))
   | S754_finite s m e =>
       if s then (-1, (- e, - Zpos m)) else (1, (e, Zpos m))
   end)%Z.

Definition key_lt (a b : Z * (Z * Z)) : Prop :=
  (fst a < fst b \/
   (fst a = fst b /\
    (fst (snd a) < fst (snd b) \/
     (fst (snd a) = fst (snd b) /\ snd (snd a) < snd (snd b)))))%Z.

(** The key of a JavaScript number. *)
Definition number_key (x : float) : Z * (Z * Z) := SFkey (Prim2SF x).

(** [{...options, page, pageSize}] *)
Definition with_page (options : SearchOptions) (page pageSize : Z) : SearchOptions :=
  {| limit := limit options; threshold := threshold options;
     similarityMethod := similarityMethod options;
     metadataFilter := metadataFilter options;
     page := Some page; pageSize := Some pageSize |}.

(** The store after the documents [docs] are added, one call each, to a new
    store. *)
Definition store_of (docs : list VectorDocument) : State :=
  fold_left (fun s d => perform (AddDocument d None) s) docs empty_store.

(** [dot(a, b)] and the magnitude of [a] as the specification of cosine
    similarity names them: sums over the components, from the first to the
    last. The code computes them by [reduce] inside [cosineSimilarity]. *)
Definition dot_product (a b : list number) : number :=
  fold_left (fun sum p => PrimFloat.add sum (PrimFloat.mul (fst p) (snd p)))
    (combine a b) 0%float.

Definition magnitude (a : list number) : number :=
  PrimFloat.sqrt
    (fold_left (fun sum x => PrimFloat.add sum (PrimFloat.mul x x)) a 0%float).

(** The request [generateEmbeddings] sends for the chunk [batch]. *)
Definition batch_request (model : string) (batch : list string) : OpenAI.Params :=
  {| OpenAI.input := OpenAI.Texts batch; OpenAI.model := model |}.

(** What the log gains while the chunks [batches] are embedded: a request
    per chunk, and a delay after each chunk but the last when [batchDelay]
    is positive. *)
Fixpoint batch_events (model : string) (batchDelay : Z) (batches : list (list string))
  : list Event :=
  match batches with
  | [] => []
  | batch :: rest =>
      EmbeddingsCreate (batch_request model batch)
      :: match rest with
         | [] => []
         | _ :: _ => if (0 <? batchDelay)%Z then [Delay batchDelay] else []
         end
      ++ batch_events model batchDelay rest
  end.

(** The embeddings a resolved request for [batch] yields, in index order. *)
Definition resolved_embeddings (client : OpenAI.Instance) (model : string)
  (batch : list string) : list (list number) :=
  match client (batch_request model batch) with
  | OpenAI.Resolved response => embeddings_of response
  | OpenAI.Rejected _ => []
  end.

Definition is_request (e : Event) : bool :=
  match e with EmbeddingsCreate _ => true | _ => false end.

(** The number of provider calls in a log. *)
Definition provider_calls (events : list Event) : nat :=
  length (List.filter is_request events).

(** The provider of the test suite: one embedding [0.1, 0.2, 0.3] per text. *)
Definition mock_openai : OpenAI.Instance :=
  fun params =>
    let inputs :=
      match OpenAI.input params with
      | OpenAI.Text text => [text]
      | OpenAI.Texts texts => texts
      end in
    OpenAI.Resolved
      {| OpenAI.data :=
           mapi_from (fun _ index =>
                        {| OpenAI.embedding := [0.1; 0.2; 0.3]%float;
                           OpenAI.index := Z.of_nat index |}) inputs 0 |}.

(** [new NeuraDB({ openai: mockOpenAI })] *)
Definition mock_store : State :=
  constructor {| NeuraDBOptions.openai := Some mock_openai;
                 NeuraDBOptions.embeddingModel := None;
                 NeuraDBOptions.defaultBatchSize := None;
                 NeuraDBOptions.batchDelay := None |} 0%Z.

(** A document without embedding, as the batch tests build it. *)
Definition text_document (i content : string) : VectorDocument :=
  {| id := i; content := content; embedding := None; metadata := None;
     createdAt := None; updatedAt := None |}.

(** Two documents of the batch, at different indices, have the same id. *)
Definition duplicate_in_batch (docs : list VectorDocument) : Prop :=
  exists i j d1 d2,
    i <> j /\ nth_error docs i = Some d1 /\ nth_error docs j = Some d2 /\
    id d1 = id d2.

(** A document of the batch has an id that the table holds. *)
Definition collides_with_store (s : State) (docs : list VectorDocument) : Prop :=
  exists d, In d docs /\ Map_has (documents s) (id d) = true.

(** The test of the duplicate search of [addDocuments] for the document at
    [index]: another index, same id. *)
Definition same_id_elsewhere (doc : VectorDocument) (index : nat)
  (otherDoc : VectorDocument) (otherIndex : nat) : bool :=
  negb (Nat.eqb otherIndex index) && String.eqb (id otherDoc) (id doc).

(** How a call may change the table: not at all, by deleting a key, by
    emptying it, or by setting documents whose embeddings all have a length
    [n] that the table accepts. *)
Definition table_step (m m' : Map VectorDocument) : Prop :=
  m' = m \/
  (exists key, m' = Map_delete m key) \/
  m' = [] \/
  (exists n news,
      accepts m n /\
      Forall (fun d => exists e, embedding d = Some e /\ length e = n) news /\
      m' = fold_left (fun t d => Map_set t (id d) d) news m).

(** The keys of the table, in insertion order. *)
Definition keys (m : Map VectorDocument) : list string := map fst m.

(** A table as the class keeps it: no key twice, and under each key a
    document that has the key as its id, which is not empty, that has an
    embedding, and that has both timestamps. *)
Definition well_keyed (m : Map VectorDocument) : Prop :=
  NoDup (keys m) /\
  forall key d,
    In (key, d) m ->
    id d = key /\ key <> ""%string /\ embedding d <> None /\
    createdAt d <> None /\ updatedAt d <> None.

(** The document that [addDocument] and [addDocuments] store for [doc] at
    time [now]. *)
Definition stamped (now : Date) (doc : VectorDocument) : VectorDocument :=
  with_timestamps doc (Some (or_Date (createdAt doc) now)) (Some now).

Definition has_embedding (doc : VectorDocument) : bool := is_some (embedding doc).

(** The documents [addDocuments] stores for the batch [docs] when it is asked
    to create embeddings and the provider has generated [generated]: first
    the documents that carry an embedding, then the others, each with the
    generated embedding of its rank. *)
Definition embedded_batch (docs : list VectorDocument)
  (generated : list (list number)) : list VectorDocument :=
  List.filter has_embedding docs ++
  mapi_from (fun doc index => with_embedding doc (nth_error generated index))
    (List.filter (fun doc => negb (has_embedding doc)) docs) 0.

(** A run that ends: it returns or it throws. *)
Definition ends {A} (r : Outcome A * State) : Prop := fst r <> Diverge.

(** A computation that ends from every state. *)
Definition terminates {A} (m : M A) : Prop := forall s, ends (m s).

(** Batch settings that the setters accept. *)
Definition valid_settings (s : State) : Prop :=
  (0 < defaultBatchSize s)%Z /\ (0 <= this_batchDelay s)%Z.

(** The batch size a call works with is positive: the one it is given, or
    the default one when it is given none. *)
Definition positive_batch_size (c : Call) (s : State) : Prop :=
  match c with
  | AddDocuments _ options =>
      (0 < default (defaultBatchSize s) (AddDocumentsOptions.batchSize options))%Z
  | GenerateEmbeddings _ batchSize _ =>
      (0 < default (defaultBatchSize s) batchSize)%Z
  | _ => True
  end.

(** The call [c], made in state [s], ends. *)
Definition call_ends (c : Call) (s : State) : Prop :=
  match c with
  | AddDocument document createEmbedding => ends (addDocument document createEmbedding s)
  | AddDocuments docs options => ends (addDocuments docs options s)
  | UpdateDocument document createEmbedding =>
      ends (updateDocument document createEmbedding s)
  | RemoveDocument id => ends (removeDocument id s)
  | Clear => ends (clear s)
  | Search query options => ends (search query options s)
  | SearchWithPagination query options => ends (searchWithPagination query options s)
  | FindMostSimilar query method => ends (findMostSimilar query method s)
  | GenerateEmbedding text => ends (generateEmbedding text s)
  | GenerateEmbeddings texts batchSize batchDelay =>
      ends (generateEmbeddings texts batchSize batchDelay s)
  | SetEmbeddingModel model => ends (setEmbeddingModel model s)
  | SetDefaultBatchSize batchSize => ends (setDefaultBatchSize batchSize s)
  | SetDefaultBatchDelay delay => ends (setDefaultBatchDelay delay s)
  end.

(** The options [findMostSimilar] passes to [search]:
    [{ limit: 1, similarityMethod }]. *)
Definition most_similar_options (similarityMethod : option SimilarityMethod)
  : SearchOptions :=
  {| limit := Some 1%Z; threshold := None;
     similarityMethod := Some (default Cosine similarityMethod);
     metadataFilter := None; page := None; pageSize := None |}.

(** What the log gains while the chunks [batches] are embedded with
    progress tracking: for each chunk a request and a report of the number
    of texts processed so far, and a delay after each chunk but the last
    when [batchDelay] is positive. *)
Fixpoint progress_events (model : string) (batchDelay total processed : Z)
  (batches : list (list string)) : list Event :=
  match batches with
  | [] => []
  | batch :: rest =>
      EmbeddingsCreate (batch_request model batch)
      :: Progress (processed + Z.of_nat (length batch)) total
      :: match rest with
         | [] => []
         | _ :: _ => if (0 <? batchDelay)%Z then [Delay batchDelay] else []
         end
      ++ progress_events model batchDelay total
           (processed + Z.of_nat (length batch)) rest
  end.

Definition is_progress (e : Event) : bool :=
  match e with Progress _ _ => true | _ => false end.

(** The reports [onProgress] receives for the chunks [batches]: after each
    chunk, the number of texts processed so far, and the total. *)
Fixpoint progress_reports (total processed : Z) (batches : list (list string))
  : list Event :=
  match batches with
  | [] => []
  | batch :: rest =>
      Progress (processed + Z.of_nat (length batch)) total
      :: progress_reports total (processed + Z.of_nat (length batch)) rest
  end.

(** The metadata [md] has, for every entry of [filter], a strictly equal
    value under the entry's key. *)
Definition matches (filter md : Record_) : Prop :=
  forall key value, In (key, value) filter -> strict_eq (prop md key) value = true.

(** The texts of a request to the provider. *)
Definition texts_of (params : OpenAI.Params) : list string :=
  match OpenAI.input params with
  | OpenAI.Text text => [text]
  | OpenAI.Texts texts => texts
  end.

Definition query_texts (query : Query) : list string :=
  match query with
  | QueryText text => [text]
  | QueryVector _ => []
  end.

(** The texts a call hands over for embedding: the content of a document
    that comes without embedding when [createEmbedding] is set, a query
    given as text, the texts to embed. *)
Definition disclosed (c : Call) : list string :=
  match c with
  | AddDocument document createEmbedding
  | UpdateDocument document createEmbedding =>
      if default false createEmbedding && negb (has_embedding document)
      then [content document] else []
  | AddDocuments docs options =>
      if default false (AddDocumentsOptions.createEmbedding options)
      then map content (List.filter (fun doc => negb (has_embedding doc)) docs)
      else []
  | Search query _ | SearchWithPagination query _ | FindMostSimilar query _ =>
      query_texts query
  | GenerateEmbedding text => [text]
  | GenerateEmbeddings texts _ _ => texts
  | _ => []
  end.

(** What holds of a request made with the provider [provider] and the model
    [model] for texts among [texts]. *)
Definition request_for (provider : option OpenAI.Instance) (model : string)
  (texts : list string) (params : OpenAI.Params) : Prop :=
  provider <> None /\ OpenAI.model params = model /\
  texts_of params <> [] /\ incl (texts_of params) texts.

(** A computation that, run with the provider [provider] and the model
    [model], keeps both, only adds to the log, and sends the provider
    nothing but requests for [model] with texts among [texts]. *)
Definition sends {A} (provider : option OpenAI.Instance) (model : string)
  (texts : list string) (m : M A) : Prop :=
  forall s,
    openai s = provider -> embeddingModel s = model ->
    openai (snd (m s)) = provider /\ embeddingModel (snd (m s)) = model /\
    exists events,
      log (snd (m s)) = log s ++ events /\
      forall params,
        In (EmbeddingsCreate params) events ->
        request_for provider model texts params.

(** [(a, b) => a.index - b.index] is positive. *)
Definition by_index (a b : OpenAI.Item) : bool :=
  (0 <? OpenAI.index a - OpenAI.index b)%Z.

(** The items of a response that carries the vectors [vectors]: the item of
    index [i] holds the [i]-th vector. *)
Definition indexed (vectors : list (list number)) : list OpenAI.Item :=
  mapi_from (fun v i => {| OpenAI.embedding := v; OpenAI.index := Z.of_nat i |})
    vectors 0.

(** What the specification calls the results of embedding a chunk: the
    provider answers the request for [chunk] with the vectors [vectors],
    its items in any order. *)
Definition embeds (client : OpenAI.Instance) (model : string) (chunk : list string)
  (vectors : list (list number)) : Prop :=
  exists response,
    client (batch_request model chunk) = OpenAI.Resolved response /\
    Permutation (OpenAI.data response) (indexed vectors).

(** The time spent in the delays between [chunks] chunks. *)
Definition delays (batchDelay : Z) (chunks : nat) : Z :=
  if (0 <? batchDelay)%Z then (batchDelay * Z.of_nat (pred chunks))%Z else 0%Z.

(** A text as a vector: its length. *)
Fixpoint number_of_nat (n : nat) : number :=
  match n with
  | O => 0%float
  | S k => PrimFloat.add (number_of_nat k) 1%float
  end.

Definition text_vector (text : string) : list number :=
  [number_of_nat (String.length text)].

(** A provider that embeds a text by [text_vector] and answers with the
    items of the last text first. *)
Definition reversing_openai : OpenAI.Instance :=
  fun params =>
    OpenAI.Resolved
      {| OpenAI.data := rev (indexed (map text_vector (texts_of params))) |}.

Definition reversing_store : State :=
  constructor {| NeuraDBOptions.openai := Some reversing_openai;
                 NeuraDBOptions.embeddingModel := None;
                 NeuraDBOptions.defaultBatchSize := None;
                 NeuraDBOptions.batchDelay := None |} 0%Z.

(** Fifteen texts, of lengths 1 to 15. *)
Definition fifteen_texts : list string :=
  map (fun n => string_of_list_ascii (repeat "x"%char n)) (seq 1 15).

(** * Properties *)

(** ** The monad *)

Lemma bind_Return {A B} (m : M A) (k : A -> M B) s a s' :
  m s = (Return a, s') -> bind m k s = k a s'.
Proof. intros H. unfold bind. now rewrite H. Qed.

Lemma bind_Throw {A B} (m : M A) (k : A -> M B) s e s' :
  m s = (Throw e, s') -> bind m k s = (Throw e, s').
Proof. intros H. unfold bind. now rewrite H. Qed.

Lemma bind_get {B} (k : State -> M B) s : bind get k s = k s s.
Proof. reflexivity. Qed.

Lemma bind_inv_Return {A B} (m : M A) (k : A -> M B) s b s' :
  bind m k s = (Return b, s') ->
  exists a s1, m s = (Return a, s1) /\ k a s1 = (Return b, s').
Proof.
  unfold bind. destruct (m s) as [[a | e | ] s1]; intros H; try discriminate.
  now exists a, s1.
Qed.

(** ** Metadata filtering *)

(** C10. With an empty filter, [filterByMetadata] keeps exactly the documents
    that have a [metadata] field, in order: a document with metadata, even an
    empty mapping, matches, and a document without metadata is dropped. The
    same holds for [getDocumentsByMetadata] and for the candidates of a
    search whose [metadataFilter] is the empty object. *)
Theorem empty_filter_keeps_documents_with_metadata :
  (forall docs, filterByMetadata docs [] = List.filter has_metadata docs) /\
  (forall doc docs,
      In doc (filterByMetadata docs []) <-> In doc docs /\ metadata doc <> None) /\
  (forall s,
      getDocumentsByMetadata [] s =
      (Return (List.filter has_metadata (Map_values (documents s))), s)) /\
  (forall docs, candidates docs (Some []) = List.filter has_metadata docs).
Proof.
  assert (E : forall docs, filterByMetadata docs [] = List.filter has_metadata docs).
  { intros docs. unfold filterByMetadata. apply filter_ext.
    intros doc. unfold has_metadata. now destruct (metadata doc). }
  split; [exact E|]. split; [|split].
  - intros doc docs. rewrite E, filter_In. unfold has_metadata.
    destruct (metadata doc); simpl; intuition congruence.
  - intros s. unfold getDocumentsByMetadata, getAllDocuments, bind, get, ret.
    now rewrite E.
  - intros docs. apply E.
Qed.

(** ** Searching an empty store *)

(** C2. [NeuraDB.search] on a store without documents returns the empty
    list, whatever the query and the options, and changes nothing; the
    earlier [VectorStore.search] throws on a store without documents. *)
Theorem search_on_empty_store :
  (forall s query options,
      documents s = [] -> search query options s = (Return [], s)) /\
  (forall queryEmbedding options,
      VectorStore.search [] queryEmbedding options = (Throw EmptyQuery, [])).
Proof.
  split; [|reflexivity].
  intros s query options H. unfold search. now rewrite bind_get, H.
Qed.

Lemma search_on_empty_store_witness :
  documents empty_store = [] /\
  search (QueryText "Hello world") no_options empty_store = (Return [], empty_store).
Proof.
  split; [reflexivity|].
  apply (proj1 search_on_empty_store). reflexivity.
Defined.

(** C3, as the specification states it, fails on an empty store: the empty vector
    is answered with the empty list. *)
Lemma search_empty_query_on_empty_store_returns :
  search (QueryVector []) no_options empty_store = (Return [], empty_store).
Proof. reflexivity. Qed.

(** C3. On a store that holds a document, [search] with an empty vector
    throws "Query embedding must be provided and non-empty" and changes
    nothing; on a store without documents the same call returns the empty
    list, because the test for an empty table comes first. *)
Theorem search_empty_query :
  (forall s options,
      documents s <> [] ->
      search (QueryVector []) options s = (Throw EmptyQuery, s)) /\
  (forall s options,
      search (QueryVector []) options (set_documents s []) =
      (Return [], set_documents s [])).
Proof.
  split; [|reflexivity].
  intros s options H. unfold search, bind, get.
  destruct (documents s) as [|d ds]; [contradiction | reflexivity].
Qed.

Lemma search_empty_query_witness :
  documents (perform (AddDocument (sample_document "doc1" [1; 0; 0]%float) None)
               empty_store) <> [] /\
  search (QueryVector []) no_options
    (perform (AddDocument (sample_document "doc1" [1; 0; 0]%float) None) empty_store)
  = (Throw EmptyQuery,
     perform (AddDocument (sample_document "doc1" [1; 0; 0]%float) None) empty_store).
Proof.
  split; [discriminate|].
  apply (proj1 search_empty_query). discriminate.
Defined.

(** ** Read-only computations and computations that keep the store *)

Lemma same_store_refl s : same_store s s.
Proof. repeat split. Qed.

Lemma same_store_trans s1 s2 s3 :
  same_store s1 s2 -> same_store s2 s3 -> same_store s1 s3.
Proof. unfold same_store. intuition congruence. Qed.

Lemma readonly_keeps_store {A} (m : M A) : readonly m -> keeps_store m.
Proof. intros H s. rewrite H. apply same_store_refl. Qed.

Lemma readonly_ret {A} (a : A) : readonly (ret a).
Proof. intros s. reflexivity. Qed.

Lemma readonly_throw {A} e : readonly (@throw A e).
Proof. intros s. reflexivity. Qed.

Lemma readonly_get : readonly get.
Proof. intros s. reflexivity. Qed.

Lemma readonly_new_Date : readonly new_Date.
Proof. intros s. reflexivity. Qed.

Lemma readonly_bind {A B} (m : M A) (k : A -> M B) :
  readonly m -> (forall a, readonly (k a)) -> readonly (bind m k).
Proof.
  intros Hm Hk s. unfold bind. specialize (Hm s).
  destruct (m s) as [[a | e | ] s1]; simpl in *; subst; auto. apply Hk.
Qed.

Lemma keeps_store_ret {A} (a : A) : keeps_store (ret a).
Proof. intros s. apply same_store_refl. Qed.

Lemma keeps_store_throw {A} e : keeps_store (@throw A e).
Proof. intros s. apply same_store_refl. Qed.

Lemma keeps_store_diverge {A} : keeps_store (@diverge A).
Proof. intros s. apply same_store_refl. Qed.

Lemma keeps_store_bind {A B} (m : M A) (k : A -> M B) :
  keeps_store m -> (forall a, keeps_store (k a)) -> keeps_store (bind m k).
Proof.
  intros Hm Hk s. unfold bind. specialize (Hm s).
  destruct (m s) as [[a | e | ] s1]; simpl in *; auto.
  eapply same_store_trans; [exact Hm | apply Hk].
Qed.

Lemma keeps_store_try_catch {A} (m : M A) (h : Error -> M A) :
  keeps_store m -> (forall e, keeps_store (h e)) -> keeps_store (try_catch m h).
Proof.
  intros Hm Hh s. unfold try_catch. specialize (Hm s).
  destruct (m s) as [[a | e | ] s1]; simpl in *; auto.
  eapply same_store_trans; [exact Hm | apply Hh].
Qed.

Lemma keeps_store_emit es : keeps_store (emit es).
Proof. intros s. repeat split. Qed.

Lemma keeps_store_delay ms : keeps_store (delay ms).
Proof. intros s. repeat split. Qed.

Lemma keeps_store_if {A} (b : bool) (m1 m2 : M A) :
  keeps_store m1 -> keeps_store m2 -> keeps_store (if b then m1 else m2).
Proof. now destruct b. Qed.

Lemma readonly_if {A} (b : bool) (m1 m2 : M A) :
  readonly m1 -> readonly m2 -> readonly (if b then m1 else m2).
Proof. now destruct b. Qed.

Create HintDb frame.
#[local] Hint Resolve readonly_ret readonly_throw readonly_get readonly_new_Date
  keeps_store_ret keeps_store_throw keeps_store_diverge keeps_store_emit
  keeps_store_delay : frame.

Ltac frame_step :=
  match goal with
  | |- readonly (bind _ _) => apply readonly_bind; [|intros ?]
  | |- readonly (if _ then _ else _) => apply readonly_if
  | |- readonly (match ?x with _ => _ end) => destruct x
  | |- keeps_store (bind _ _) => apply keeps_store_bind; [|intros ?]
  | |- keeps_store (try_catch _ _) => apply keeps_store_try_catch; [|intros ?]
  | |- keeps_store (if _ then _ else _) => apply keeps_store_if
  | |- keeps_store (match ?x with _ => _ end) => destruct x
  | |- keeps_store (get) => apply readonly_keeps_store
  | |- keeps_store (new_Date) => apply readonly_keeps_store
  | |- _ => solve [auto with frame]
  end.

Ltac frame := repeat frame_step.

Lemma keeps_store_embeddings_create client params :
  keeps_store (embeddings_create client params).
Proof. unfold embeddings_create. frame. Qed.
#[local] Hint Resolve keeps_store_embeddings_create : frame.

Lemma keeps_store_generateEmbedding text : keeps_store (generateEmbedding text).
Proof. unfold generateEmbedding. frame. Qed.
#[local] Hint Resolve keeps_store_generateEmbedding : frame.

Lemma keeps_store_generateEmbeddings_loop client model d n batches :
  forall i acc,
    keeps_store (generateEmbeddings_loop client model d n batches i acc).
Proof. induction batches as [|b bs IH]; intros i acc; simpl; frame; apply IH. Qed.
#[local] Hint Resolve keeps_store_generateEmbeddings_loop : frame.

Lemma keeps_store_chunkArrayM {T} (array : list T) n : keeps_store (chunkArrayM array n).
Proof. unfold chunkArrayM. frame. Qed.
#[local] Hint Resolve keeps_store_chunkArrayM : frame.

Lemma keeps_store_generateEmbeddings texts b d :
  keeps_store (generateEmbeddings texts b d).
Proof. unfold generateEmbeddings. frame. Qed.
#[local] Hint Resolve keeps_store_generateEmbeddings : frame.

Lemma readonly_getEmbeddingDimensions : readonly getEmbeddingDimensions.
Proof. unfold getEmbeddingDimensions. frame. Qed.
#[local] Hint Resolve readonly_getEmbeddingDimensions : frame.

Lemma readonly_validateDocument d : readonly (validateDocument d).
Proof. unfold validateDocument. frame. Qed.
#[local] Hint Resolve readonly_validateDocument : frame.

Lemma readonly_validateEmbeddingDimensions e : readonly (validateEmbeddingDimensions e).
Proof. unfold validateEmbeddingDimensions. frame. Qed.
#[local] Hint Resolve readonly_validateEmbeddingDimensions : frame.

Lemma readonly_embedding_length d : readonly (embedding_length d).
Proof. unfold embedding_length. frame. Qed.
#[local] Hint Resolve readonly_embedding_length : frame.

Lemma readonly_check_dimensions d : readonly (check_dimensions d).
Proof. unfold check_dimensions. frame. Qed.
#[local] Hint Resolve readonly_check_dimensions : frame.

Lemma keeps_store_finalDocument_of d ce : keeps_store (finalDocument_of d ce).
Proof. unfold finalDocument_of. frame. Qed.
#[local] Hint Resolve keeps_store_finalDocument_of : frame.

Lemma readonly_validateInput docs ce doc index :
  readonly (validateInput docs ce doc index).
Proof. unfold validateInput. frame. Qed.
#[local] Hint Resolve readonly_validateInput : frame.

Lemma readonly_forEach_from {A} (f : A -> nat -> M unit) array :
  (forall x i, readonly (f x i)) -> forall i, readonly (forEach_from f array i).
Proof.
  intros Hf. induction array as [|x xs IH]; intros i; simpl; frame;
    solve [apply Hf | apply IH].
Qed.

(** ** The table as a map *)

Lemma Map_get_set_same {V} (m : Map V) k v : Map_get (Map_set m k v) k = Some v.
Proof.
  induction m as [|[k' v'] m IH]; simpl.
  - now rewrite String.eqb_refl.
  - destruct (String.eqb k' k) eqn:E; simpl; rewrite E; auto.
Qed.

Lemma Map_get_set_other {V} (m : Map V) k k' v :
  k' <> k -> Map_get (Map_set m k v) k' = Map_get m k'.
Proof.
  intros Hne. induction m as [|[k0 v0] m IH]; simpl.
  - destruct (String.eqb k k') eqn:E; [apply String.eqb_eq in E; congruence | auto].
  - destruct (String.eqb k0 k) eqn:E; simpl.
    + apply String.eqb_eq in E. subst k0.
      destruct (String.eqb k k') eqn:E'; [apply String.eqb_eq in E'; congruence | auto].
    + now rewrite IH.
Qed.

Lemma In_values_set {V} (m : Map V) k v d :
  In d (Map_values (Map_set m k v)) -> d = v \/ In d (Map_values m).
Proof.
  unfold Map_values. induction m as [|[k' v'] m IH]; simpl.
  - intuition.
  - destruct (String.eqb k' k); simpl; intuition.
Qed.

Lemma In_values_delete {V} (m : Map V) k d :
  In d (Map_values (Map_delete m k)) -> In d (Map_values m).
Proof.
  unfold Map_values. induction m as [|[k' v'] m IH]; simpl.
  - intuition.
  - destruct (String.eqb k' k); simpl; intuition.
Qed.

Lemma Map_set_not_nil {V} (m : Map V) k v : Map_set m k v <> [].
Proof. destruct m as [|[k' v'] m]; simpl; [|destruct (String.eqb k' k)]; discriminate. Qed.

Lemma Map_get_In {V} (m : Map V) k v : Map_get m k = Some v -> In v (Map_values m).
Proof.
  unfold Map_values. induction m as [|[k' v'] m IH]; simpl; [discriminate|].
  destruct (String.eqb k' k); intros H; [left; congruence | right; auto].
Qed.

(** ** Dimensions *)

Lemma getEmbeddingDimensions_eq s :
  getEmbeddingDimensions s = (dimension_of (documents s), s).
Proof.
  unfold getEmbeddingDimensions, dimension_of, bind, get.
  destruct (Map_values (documents s)) as [|d ds]; [reflexivity|].
  now destruct (embedding d).
Qed.

Lemma dimension_of_not_Diverge m : dimension_of m <> Diverge.
Proof.
  unfold dimension_of. destruct (Map_values m) as [|d ds]; [discriminate|].
  destruct (embedding d); discriminate.
Qed.

Lemma all_dimension_consistent n m : all_dimension n m -> dimension_consistent m.
Proof.
  intros H d1 d2 H1 H2.
  destruct (H d1 H1) as (e1 & E1 & L1), (H d2 H2) as (e2 & E2 & L2).
  exists e1, e2. repeat split; congruence.
Qed.

Lemma consistent_dimension_of m :
  dimension_consistent m ->
  (m = [] /\ dimension_of m = Return None) \/
  (exists n, m <> [] /\ dimension_of m = Return (Some n) /\ all_dimension n m).
Proof.
  intros H. destruct m as [|[k d] m]; [left; auto | right].
  destruct (H d d) as (e & _ & E & _ & _); try (left; reflexivity).
  exists (length e). split; [discriminate|]. split.
  - unfold dimension_of. simpl. now rewrite E.
  - intros d' Hd'. destruct (H d d') as (e1 & e2 & E1 & E2 & L);
      [left; reflexivity | assumption |].
    exists e2. split; [assumption|]. congruence.
Qed.

Lemma all_dimension_set n m k d e :
  all_dimension n m -> embedding d = Some e -> length e = n ->
  all_dimension n (Map_set m k d).
Proof.
  intros H E L d' Hd'. apply In_values_set in Hd'. destruct Hd' as [-> | Hd'].
  - now exists e.
  - auto.
Qed.

Lemma all_dimension_nil n : all_dimension n [].
Proof. intros d []. Qed.

Lemma dimension_consistent_delete m k :
  dimension_consistent m -> dimension_consistent (Map_delete m k).
Proof. intros H d1 d2 H1 H2. apply H; eapply In_values_delete; eauto. Qed.

Lemma dimension_of_all n m :
  m <> [] -> all_dimension n m -> dimension_of m = Return (Some n).
Proof.
  intros Hne H. destruct m as [|[k d] m]; [contradiction|].
  destruct (H d) as (e & E & L); [left; reflexivity|].
  unfold dimension_of. simpl. rewrite E. now subst.
Qed.

Lemma accepts_all_dimension m n :
  dimension_consistent m -> accepts m n -> all_dimension n m.
Proof.
  intros Hc Ha. destruct (consistent_dimension_of Hc) as [[-> _] | (k & _ & E & Hk)].
  - apply all_dimension_nil.
  - destruct Ha as [Ha | Ha]; rewrite E in Ha; inversion Ha. now subst.
Qed.

(** ** [addDocument] and [updateDocument] *)

Lemma generateEmbedding_clock text s :
  clock (snd (generateEmbedding text s)) = clock s.
Proof.
  unfold generateEmbedding, bind, get, try_catch, embeddings_create, emit, modify.
  destruct (openai s) as [client|]; [|reflexivity]. simpl.
  destruct (client _) as [response | message]; simpl; [|reflexivity].
  now destruct (OpenAI.data response).
Qed.

Lemma finalDocument_of_Return d ce s f s1 :
  finalDocument_of d ce s = (Return f, s1) ->
  same_store s s1 /\ clock s1 = clock s /\
  exists e, f = with_embedding d (Some e).
Proof.
  intros H.
  assert (Hs : same_store s s1).
  { change s1 with (snd (Return f, s1)). rewrite <- H.
    apply keeps_store_finalDocument_of. }
  split; [exact Hs|]. revert H. unfold finalDocument_of.
  destruct (default false ce && negb (is_some (embedding d))) eqn:Hc.
  - destruct (String.eqb (content d) ""); [discriminate|].
    unfold bind. pose proof (generateEmbedding_clock (content d) s) as Hk.
    destruct (generateEmbedding (content d) s) as [[e | err | ] s2];
      try discriminate.
    unfold ret. intros H. inversion H; subst. eauto.
  - destruct (embedding d) as [e|] eqn:E; simpl; [|discriminate].
    assert (Hd : d = with_embedding d (Some e)).
    { destruct d; simpl in *. now subst. }
    unfold ret. intros H. inversion H; subst s1 f. split; [reflexivity|].
    now exists e.
Qed.

Lemma check_dimensions_Return f s s1 :
  check_dimensions f s = (Return tt, s1) ->
  s1 = s /\
  exists e, embedding f = Some e /\ e <> [] /\ accepts (documents s) (length e).
Proof.
  intros H. split.
  { change s1 with (snd (Return tt, s1)). rewrite <- H.
    apply readonly_check_dimensions. }
  revert H. unfold check_dimensions, bind, validateDocument.
  destruct (String.eqb (id f) ""); [discriminate|].
  destruct (embedding f) as [[|x e]|] eqn:E; try discriminate.
  destruct (existsb _ _); [discriminate|]. unfold ret.
  unfold validateEmbeddingDimensions, bind. rewrite getEmbeddingDimensions_eq.
  unfold accepts.
  destruct (dimension_of (documents s)) as [[n|] | err | ] eqn:D; try discriminate.
  - unfold ret. cbn [default].
    destruct (Nat.eqb (length (x :: e)) n) eqn:L; cbn [negb].
    + intros _. exists (x :: e). apply Nat.eqb_eq in L.
      repeat split; [discriminate | right; congruence].
    + unfold embedding_length. rewrite E. unfold ret.
      rewrite getEmbeddingDimensions_eq, D. discriminate.
  - intros _. exists (x :: e). repeat split; [discriminate | now left].
Qed.

Lemma addDocument_Return d ce s s' :
  addDocument d ce s = (Return tt, s') ->
  exists e s1,
    same_store s s1 /\ clock s1 = clock s /\ e <> [] /\
    accepts (documents s) (length e) /\
    s' = set_documents s1
           (Map_set (documents s) (id d)
              (with_timestamps (with_embedding d (Some e))
                 (Some (or_Date (createdAt d) (clock s))) (Some (clock s)))).
Proof.
  unfold addDocument. intros H.
  apply bind_inv_Return in H. destruct H as (f & s1 & Hf & H).
  apply finalDocument_of_Return in Hf. destruct Hf as (Hs & Hk & e & ->).
  apply bind_inv_Return in H. destruct H as ([] & s2 & Hc & H).
  apply check_dimensions_Return in Hc. destruct Hc as (-> & e' & E & Hne & Ha).
  simpl in E. inversion E; subst e'. clear E.
  unfold bind, new_Date, documents_set, modify in H. simpl in H.
  inversion H; subst s'. clear H.
  exists e, s1. destruct Hs as (Hd & Hrest). rewrite Hd in *. rewrite Hk.
  repeat split; auto; apply Hrest.
Qed.

Lemma addDocument_not_Return d ce s :
  fst (addDocument d ce s) <> Return tt ->
  same_store s (snd (addDocument d ce s)).
Proof.
  unfold addDocument, bind.
  pose proof (keeps_store_finalDocument_of d ce s) as Hf.
  destruct (finalDocument_of d ce s) as [[f | err | ] s1]; simpl in *; auto.
  pose proof (readonly_check_dimensions f s1) as Hc.
  destruct (check_dimensions f s1) as [[[] | err | ] s2]; simpl in *; subst; auto.
  intros H. now contradiction H.
Qed.

Lemma updateDocument_Return d ce s b s' :
  updateDocument d ce s = (Return b, s') ->
  (b = false /\ s' = s /\ Map_has (documents s) (id d) = false) \/
  (b = true /\
   exists existingDoc e s1,
     Map_get (documents s) (id d) = Some existingDoc /\
     same_store s s1 /\ clock s1 = clock s /\ e <> [] /\
     accepts (documents s) (length e) /\
     s' = set_documents s1
            (Map_set (documents s) (id d)
               (with_timestamps (with_embedding d (Some e))
                  (createdAt existingDoc) (Some (clock s))))).
Proof.
  unfold updateDocument. rewrite bind_get.
  destruct (Map_has (documents s) (id d)) eqn:Hh; cbn [negb].
  2:{ unfold ret. intros H. inversion H. left. auto. }
  intros H. right.
  apply bind_inv_Return in H. destruct H as (f & s1 & Hf & H).
  apply finalDocument_of_Return in Hf. destruct Hf as (Hs & Hk & e & ->).
  apply bind_inv_Return in H. destruct H as ([] & s2 & Hc & H).
  apply check_dimensions_Return in Hc. destruct Hc as (-> & e' & E & Hne & Ha).
  simpl in E. inversion E; subst e'. clear E.
  unfold bind, get in H. simpl in H.
  destruct Hs as (Hd & Hrest). rewrite Hd in *.
  destruct (Map_get (documents s) (id d)) as [existingDoc|] eqn:G; [|discriminate].
  unfold new_Date, documents_set, modify, ret in H. simpl in H.
  inversion H; subst. split; [reflexivity|].
  exists existingDoc, e, s1. rewrite Hd, Hk. repeat split; auto; apply Hrest.
Qed.

Lemma updateDocument_not_Return d ce s :
  (forall b, fst (updateDocument d ce s) <> Return b) ->
  same_store s (snd (updateDocument d ce s)).
Proof.
  unfold updateDocument. rewrite bind_get.
  destruct (negb (Map_has (documents s) (id d))).
  { intros _. apply same_store_refl. }
  unfold bind.
  pose proof (keeps_store_finalDocument_of d ce s) as Hf.
  destruct (finalDocument_of d ce s) as [[f | err | ] s1]; simpl in *; auto.
  pose proof (readonly_check_dimensions f s1) as Hc.
  destruct (check_dimensions f s1) as [[[] | err | ] s2]; simpl in *; subst; auto.
  unfold get. destruct (Map_get (documents s1) (id f)); simpl; auto.
  intros H. now contradiction (H true).
Qed.

(** ** Numbers: the sign of a difference, and the order of comparisons *)

Local Open Scope Z_scope.

(** digits *)
Lemma digits2_pos_bounds m :
  2 ^ (Zpos (digits2_pos m) - 1) <= Zpos m < 2 ^ Zpos (digits2_pos m).
Proof.
  induction m as [m IH | m IH | ]; simpl digits2_pos.
  - rewrite Pos2Z.inj_succ. replace (Z.succ (Z.pos (digits2_pos m)) - 1) with (Z.succ (Z.pos (digits2_pos m) - 1)) by lia.
    rewrite !Z.pow_succ_r by lia. lia.
  - rewrite Pos2Z.inj_succ. replace (Z.succ (Z.pos (digits2_pos m)) - 1) with (Z.succ (Z.pos (digits2_pos m) - 1)) by lia.
    rewrite !Z.pow_succ_r by lia. lia.
  - simpl. lia.
Qed.

Lemma shr_1_div mrs : 0 <= shr_m mrs -> shr_m (shr_1 mrs) = shr_m mrs / 2.
Proof.
  destruct mrs as [m r s]. simpl. intros H.
  destruct m as [|[p|p|]|p]; cbn [shr_m]; try reflexivity; try lia.
  - apply Z.div_unique with (r := 1); lia.
  - apply Z.div_unique with (r := 0); lia.
Qed.

Lemma pow2_xO p : 2 ^ Zpos p~0 = 2 ^ Zpos p * 2 ^ Zpos p.
Proof. rewrite <- Z.pow_add_r by lia. f_equal. lia. Qed.

Lemma pow2_xI p : 2 ^ Zpos p~1 = 2 * (2 ^ Zpos p * 2 ^ Zpos p).
Proof.
  rewrite <- Z.pow_add_r by lia.
  replace (Zpos p~1) with (Z.succ (Zpos p + Zpos p)) by lia.
  apply Z.pow_succ_r. lia.
Qed.

Lemma pow2_pos p : 0 < 2 ^ Zpos p.
Proof. apply Z.pow_pos_nonneg; lia. Qed.

Lemma iter_shr_1_div p : forall mrs,
  0 <= shr_m mrs ->
  shr_m (SpecFloat.iter_pos shr_1 p mrs) = shr_m mrs / 2 ^ Zpos p.
Proof.
  induction p as [p IH | p IH | ]; intros mrs H; simpl SpecFloat.iter_pos.
  - assert (H1 : 0 <= shr_m (shr_1 mrs))
      by (rewrite shr_1_div by assumption; apply Z.div_pos; lia).
    assert (H2 : 0 <= shr_m (SpecFloat.iter_pos shr_1 p (shr_1 mrs))).
    { rewrite IH by assumption. apply Z.div_pos; [assumption | apply pow2_pos]. }
    pose proof (pow2_pos p).
    rewrite IH, IH, shr_1_div by assumption.
    rewrite !Z.div_div by lia. now rewrite pow2_xI.
  - assert (H2 : 0 <= shr_m (SpecFloat.iter_pos shr_1 p mrs)).
    { rewrite IH by assumption. apply Z.div_pos; [assumption | apply pow2_pos]. }
    pose proof (pow2_pos p).
    rewrite IH, IH by assumption.
    rewrite !Z.div_div by lia. now rewrite pow2_xO.
  - rewrite shr_1_div by assumption. reflexivity.
Qed.

Lemma shr_m_of_loc m l : shr_m (shr_record_of_loc m l) = m.
Proof. destruct l as [|[]]; reflexivity. Qed.

Lemma shr_fexp_pos m e l :
  -1074 <= e ->
  exists m', shr_m (fst (shr_fexp prec emax (Zpos m) e l)) = Zpos m' /\
             -1074 <= snd (shr_fexp prec emax (Zpos m) e l).
Proof.
  intros He. unfold shr_fexp, shr, fexp, emin, prec, emax. simpl Zdigits2.
  pose proof (digits2_pos_bounds m) as Hd.
  set (d := Zpos (digits2_pos m)) in *.
  destruct (Z.max (d + e - 53) (3 - 1024 - 53) - e) as [|p|p] eqn:En; simpl fst; simpl snd.
  - rewrite shr_m_of_loc. eauto.
  - rewrite iter_shr_1_div by (rewrite shr_m_of_loc; lia). rewrite shr_m_of_loc.
    assert (Hp : Zpos p = d - 53) by lia.
    assert (1 <= Zpos m / 2 ^ Zpos p).
    { apply Z.div_le_lower_bound; [apply Z.pow_pos_nonneg; lia|].
      rewrite Z.mul_1_r. eapply Z.le_trans; [|apply Hd].
      apply Z.pow_le_mono_r; lia. }
    destruct (Zpos m / 2 ^ Zpos p) as [|q|q] eqn:Eq; try lia.
    exists q. split; [reflexivity | lia].
  - rewrite shr_m_of_loc. eauto.
Qed.

Lemma round_nearest_even_pos m l : exists m', round_nearest_even (Zpos m) l = Zpos m'.
Proof.
  destruct l as [|[]]; cbn [round_nearest_even]; eauto.
  - destruct (Z.even (Zpos m)); [eauto|]. exists (m + 1)%positive. reflexivity.
  - exists (m + 1)%positive. reflexivity.
Qed.

Lemma binary_round_aux_sign sx m e l :
  -1074 <= e ->
  (exists m' e', binary_round_aux prec emax sx (Zpos m) e l = S754_finite sx m' e') \/
  binary_round_aux prec emax sx (Zpos m) e l = S754_infinity sx.
Proof.
  intros He. unfold binary_round_aux.
  destruct (shr_fexp_pos m l He) as (m1 & H1 & He1).
  destruct (shr_fexp prec emax (Zpos m) e l) as [mrs' e'].
  simpl in H1, He1. rewrite H1.
  destruct (round_nearest_even_pos m1 (loc_of_shr_record mrs')) as (m2 & ->).
  destruct (shr_fexp_pos m2 loc_Exact He1) as (m3 & H3 & _).
  destruct (shr_fexp prec emax (Zpos m2) e' loc_Exact) as [mrs'' e''].
  simpl in H3. rewrite H3.
  destruct (e'' <=? emax - prec); eauto.
Qed.

Lemma binary_round_sign sx m e :
  -1074 <= e ->
  (exists m' e', binary_round prec emax sx m e = S754_finite sx m' e') \/
  binary_round prec emax sx m e = S754_infinity sx.
Proof.
  intros He. unfold binary_round.
  destruct (shl_align m e _) as [mz ez] eqn:E.
  apply binary_round_aux_sign.
  unfold shl_align in E.
  destruct (fexp prec emax (Zpos (digits2_pos m) + e) - e) eqn:E'; inversion E; subst; try lia.
  unfold fexp, emin, prec, emax. lia.
Qed.

Lemma binary_normalize_ltb M e :
  -1074 <= e ->
  SFltb (S754_zero false) (binary_normalize prec emax M e false) = (0 <? M).
Proof.
  intros He. destruct M as [|m|m]; simpl binary_normalize.
  - reflexivity.
  - destruct (binary_round_sign false m He) as [(m' & e' & ->) | ->]; reflexivity.
  - destruct (binary_round_sign true m He) as [(m' & e' & ->) | ->]; reflexivity.
Qed.

Lemma iter_xO m k : Zpos (Pos.iter xO m k) = Zpos m * 2 ^ Zpos k.
Proof.
  induction k as [|k IH] using Pos.peano_ind.
  - simpl. lia.
  - rewrite Pos.iter_succ, Pos2Z.inj_xO, IH, Pos2Z.inj_succ, Z.pow_succ_r by lia. lia.
Qed.

Lemma shl_align_fst m e ez :
  ez <= e -> Zpos (fst (shl_align m e ez)) = Zpos m * 2 ^ (e - ez).
Proof.
  intros H. unfold shl_align. destruct (ez - e) as [|k|k] eqn:E; simpl fst.
  - replace (e - ez) with 0 by lia. simpl. lia.
  - lia.
  - rewrite iter_xO. f_equal. f_equal. lia.
Qed.

Lemma valid_finite s m e :
  valid_binary (S754_finite s m e) = true ->
  -1074 <= e /\ Zpos m < 2 ^ 53 /\ (-1074 < e -> 2 ^ 52 <= Zpos m).
Proof.
  unfold SpecFloat.valid_binary, bounded, canonical_mantissa, fexp, emin, prec, emax.
  intros H. apply andb_true_iff in H. destruct H as [H _]. apply Z.eqb_eq in H.
  pose proof (digits2_pos_bounds m) as Hd.
  set (d := Zpos (digits2_pos m)) in *.
  assert (Hd53 : d <= 53) by lia.
  split; [lia|]. split.
  - eapply Z.lt_le_trans; [apply Hd|]. apply Z.pow_le_mono_r; lia.
  - intros He. assert (d = 53) by lia. replace 52 with (d - 1) by lia. apply Hd.
Qed.

Lemma pow2_ge_2 k : 1 <= k -> 2 <= 2 ^ k.
Proof. intros H. change 2 with (2 ^ 1) at 1. apply Z.pow_le_mono_r; lia. Qed.

(** The sign of the exact difference of two finite numbers is the outcome
    of their comparison. *)
Lemma finite_difference_sign sx mx ex sy my ey :
  valid_binary (S754_finite sx mx ex) = true ->
  valid_binary (S754_finite sy my ey) = true ->
  (0 <? cond_Zopp sy (Zpos (fst (shl_align my ey (Z.min ey ex))))
        - cond_Zopp sx (Zpos (fst (shl_align mx ex (Z.min ey ex)))))
  = SFltb (S754_finite sx mx ex) (S754_finite sy my ey).
Proof.
  intros Vx Vy.
  apply valid_finite in Vx, Vy.
  destruct Vx as (Hex & Hmx & Hnx), Vy as (Hey & Hmy & Hny).
  rewrite !shl_align_fst by lia.
  change (2 ^ 53) with 9007199254740992 in *.
  change (2 ^ 52) with 4503599627370496 in *.
  unfold SFltb, SFcompare, cond_Zopp.
  destruct (Z.compare_spec ex ey) as [E | E | E].
  - subst ey. rewrite Z.min_id, Z.sub_diag. change (2 ^ 0) with 1. rewrite !Z.mul_1_r.
    change (Pos.compare_cont Eq mx my) with (mx ?= my)%positive.
    destruct sx, sy; destruct (Pos.compare_spec mx my);
      cbn [CompOpp]; lia.
  - rewrite Z.min_r by lia. rewrite Z.sub_diag. change (2 ^ 0) with 1.
    rewrite Z.mul_1_r.
    pose proof (@pow2_ge_2 (ey - ex) ltac:(lia)) as Hk.
    specialize (Hny ltac:(lia)).
    destruct sx, sy; cbv iota; nia.
  - rewrite Z.min_l by lia. rewrite Z.sub_diag. change (2 ^ 0) with 1.
    rewrite Z.mul_1_r.
    pose proof (@pow2_ge_2 (ex - ey) ltac:(lia)) as Hk.
    specialize (Hnx ltac:(lia)).
    destruct sx, sy; cbv iota; nia.
Qed.

Lemma SFsub_sign X Y :
  valid_binary X = true -> valid_binary Y = true ->
  X <> S754_nan -> Y <> S754_nan ->
  SFltb (S754_zero false) (SF64sub Y X) = SFltb X Y.
Proof.
  intros Vx Vy Nx Ny.
  destruct X as [sx | sx | | sx mx ex], Y as [sy | sy | | sy my ey];
    try congruence;
    try (destruct sx, sy; reflexivity);
    try (destruct sx; reflexivity); try (destruct sy; reflexivity).
  unfold SF64sub, SFsub.
  rewrite binary_normalize_ltb.
  - now apply finite_difference_sign.
  - apply valid_finite in Vx, Vy. lia.
Qed.

Lemma is_nan_false x : is_nan x = false -> Prim2SF x <> S754_nan.
Proof.
  unfold is_nan. rewrite FloatAxioms.eqb_spec. intros H E. rewrite E in H. discriminate.
Qed.

Local Open Scope float_scope.

(** For numbers that are not NaN, [y - x] is positive exactly when [x < y]. *)
Lemma sub_positive x y :
  is_nan x = false -> is_nan y = false -> (0 <? y - x) = (x <? y).
Proof.
  intros Hx Hy. rewrite !FloatAxioms.ltb_spec, FloatAxioms.sub_spec.
  change (Prim2SF 0) with (S754_zero false).
  apply SFsub_sign; auto using Prim2SF_valid, is_nan_false.
Qed.

Local Close Scope float_scope.

Ltac key_case :=
  eexists; (split; [reflexivity|]); cbn [fst snd];
  repeat split;
  let K := fresh "K" in
  intros K;
  try discriminate K; try reflexivity; try lia;
  try (inversion K; lia); try (f_equal; f_equal; lia).

Lemma SFcompare_key X Y :
  X <> S754_nan -> Y <> S754_nan ->
  exists c, SFcompare X Y = Some c /\
    (c = Lt <-> key_lt (SFkey X) (SFkey Y)) /\
    (c = Eq <-> SFkey X = SFkey Y) /\
    (c = Gt <-> key_lt (SFkey Y) (SFkey X)).
Proof.
  intros Nx Ny.
  destruct X as [sx | sx | | sx mx ex], Y as [sy | sy | | sy my ey];
    try congruence; unfold SFcompare, key_lt, SFkey;
    try change (Pos.compare_cont Eq mx my) with (mx ?= my)%positive;
    try destruct sx; try destruct sy;
    try destruct (Z.compare_spec ex ey); try destruct (Pos.compare_spec mx my);
    cbn [CompOpp]; key_case.
Qed.

Lemma ltb_key x y :
  is_nan x = false -> is_nan y = false ->
  (PrimFloat.ltb x y = true <-> key_lt (number_key x) (number_key y)).
Proof.
  intros Hx Hy. rewrite FloatAxioms.ltb_spec. unfold SFltb, number_key.
  destruct (SFcompare_key (is_nan_false x Hx) (is_nan_false y Hy))
    as (c & -> & HLt & _ & _).
  rewrite <- HLt. destruct c; split; intros; congruence.
Qed.

Lemma eqb_key x y :
  is_nan x = false -> is_nan y = false ->
  (PrimFloat.eqb x y = true <-> number_key x = number_key y).
Proof.
  intros Hx Hy. rewrite FloatAxioms.eqb_spec. unfold SFeqb, number_key.
  destruct (SFcompare_key (is_nan_false x Hx) (is_nan_false y Hy))
    as (c & -> & _ & HEq & _).
  rewrite <- HEq. destruct c; split; intros; congruence.
Qed.

Lemma leb_key x y :
  is_nan x = false -> is_nan y = false ->
  (PrimFloat.leb x y = true <-> ~ key_lt (number_key y) (number_key x)).
Proof.
  intros Hx Hy. rewrite FloatAxioms.leb_spec. unfold SFleb, number_key.
  destruct (SFcompare_key (is_nan_false x Hx) (is_nan_false y Hy))
    as (c & -> & HLt & HEq & HGt).
  rewrite <- HGt. destruct c; split; intros; congruence.
Qed.

Lemma not_nan_is_nan x : Prim2SF x <> S754_nan -> is_nan x = false.
Proof.
  intros H. unfold is_nan. rewrite FloatAxioms.eqb_spec. unfold SFeqb.
  destruct (SFcompare_key H H) as (c & -> & _ & HEq & _).
  now rewrite (proj2 HEq eq_refl).
Qed.

Lemma leb_not_nan x y :
  PrimFloat.leb x y = true -> is_nan x = false /\ is_nan y = false.
Proof.
  rewrite FloatAxioms.leb_spec. unfold SFleb. intros H.
  split; apply not_nan_is_nan; intros E; rewrite E in H;
    [|destruct (Prim2SF x)]; discriminate.
Qed.

Local Close Scope Z_scope.

(** ** [Array.prototype.sort] *)

Section SortFacts.
Context {A : Type} (after : A -> A -> bool) (P : A -> Prop).

Lemma sort_insert_perm x l : Permutation (sort_insert after x l) (x :: l).
Proof.
  induction l as [|y l IH]; simpl; [reflexivity|].
  destruct (after x y); [|reflexivity].
  rewrite IH. apply perm_swap.
Qed.

Lemma sort_perm l : Permutation (sort after l) l.
Proof.
  induction l as [|x l IH]; simpl; [reflexivity|].
  rewrite sort_insert_perm. now constructor.
Qed.

Lemma sort_Forall (Q : A -> Prop) l : Forall Q l -> Forall Q (sort after l).
Proof.
  intros H. eapply Permutation_Forall; [|exact H].
  symmetry. apply sort_perm.
Qed.

(** On the elements that satisfy [P], [after] is a strict weak order. *)
Hypothesis after_asym :
  forall x y, P x -> P y -> after x y = true -> after y x = false.
Hypothesis after_negtrans :
  forall x y z, P x -> P y -> P z ->
                after x y = false -> after y z = false -> after x z = false.

Lemma sort_insert_sorted x l :
  P x -> Forall P l ->
  StronglySorted (fun a b => after a b = false) l ->
  StronglySorted (fun a b => after a b = false) (sort_insert after x l).
Proof.
  intros Px Pl Hs. induction Hs as [|y l Hs IH Hy]; simpl.
  - repeat constructor.
  - inversion Pl as [|? ? Py Pl']; subst.
    destruct (after x y) eqn:E.
    + constructor; [auto|].
      eapply Permutation_Forall; [symmetry; apply sort_insert_perm|].
      constructor; [now apply after_asym | assumption].
    + constructor; [now constructor|].
      constructor; [assumption|].
      rewrite Forall_forall in Hy, Pl' |- *. intros z Hz.
      apply after_negtrans with y; auto.
Qed.

Lemma sort_sorted l :
  Forall P l -> StronglySorted (fun a b => after a b = false) (sort after l).
Proof.
  induction 1 as [|x l Px Pl IH]; simpl; [constructor|].
  apply sort_insert_sorted; auto. now apply sort_Forall.
Qed.

(** Stability: a class [p] of elements none of which goes after another
    keeps its order. *)
Lemma sort_insert_stable (p : A -> bool) x l :
  (forall y, In y l -> p x = true -> p y = true -> after x y = false) ->
  List.filter p (sort_insert after x l) = List.filter p (x :: l).
Proof.
  induction l as [|y l IH]; intros H; simpl; [reflexivity|].
  destruct (after x y) eqn:E; [|reflexivity].
  simpl. rewrite IH by (intros; apply H; simpl; auto). simpl.
  destruct (p x) eqn:Ex; [|reflexivity].
  destruct (p y) eqn:Ey; [|reflexivity].
  rewrite H in E; simpl; auto. discriminate.
Qed.

Lemma sort_stable (p : A -> bool) l :
  (forall x y, In x l -> In y l -> p x = true -> p y = true -> after x y = false) ->
  List.filter p (sort after l) = List.filter p l.
Proof.
  induction l as [|x l IH]; intros H; simpl; [reflexivity|].
  rewrite sort_insert_stable.
  - simpl. rewrite IH; [reflexivity|]. intros; apply H; simpl; auto.
  - intros y Hy. apply H; simpl; auto.
    right. eapply Permutation_in; [apply sort_perm | exact Hy].
Qed.
End SortFacts.

(** ** Scores *)

Lemma score_documents_In q method threshold docs r :
  In r (fst (score_documents q method threshold docs)) <->
  In (document r) docs /\
  calculateSimilarity q (embedding (document r)) method = Return (similarity r) /\
  PrimFloat.leb threshold (similarity r) = true.
Proof.
  induction docs as [|d docs IH]; simpl; [tauto|].
  destruct (score_documents q method threshold docs) as [results warnings].
  simpl in IH.
  destruct (calculateSimilarity q (embedding d) method) as [sim | e | ] eqn:E;
    [destruct (PrimFloat.leb threshold sim) eqn:L|..]; simpl; rewrite ?IH.
  - split.
    + intros [<- | H]; simpl; [auto | tauto].
    + intros ([Hd | H] & Hc & Hl).
      * left. destruct r as [dr sr]; simpl in *. subst dr. congruence.
      * right. auto.
  - split; [tauto|]. intros ([Hd | H] & Hc & Hl); [|auto]. subst d. congruence.
  - split; [tauto|]. intros ([Hd | H] & Hc & Hl); [|auto]. subst d. congruence.
  - split; [tauto|]. intros ([Hd | H] & Hc & Hl); [|auto]. subst d. congruence.
Qed.

Lemma score_documents_not_nan q method threshold docs :
  Forall (fun r => PrimFloat.is_nan (similarity r) = false)
    (fst (score_documents q method threshold docs)).
Proof.
  apply Forall_forall. intros r H. apply score_documents_In in H.
  destruct H as (_ & _ & H). now apply leb_not_nan in H.
Qed.

Lemma by_similarity_ltb a b :
  PrimFloat.is_nan (similarity a) = false ->
  PrimFloat.is_nan (similarity b) = false ->
  by_similarity a b = PrimFloat.ltb (similarity a) (similarity b).
Proof. intros Ha Hb. unfold by_similarity. now apply sub_positive. Qed.

Lemma by_similarity_asym x y :
  PrimFloat.is_nan (similarity x) = false ->
  PrimFloat.is_nan (similarity y) = false ->
  by_similarity x y = true -> by_similarity y x = false.
Proof.
  intros Hx Hy. rewrite !by_similarity_ltb by assumption. intros H.
  apply ltb_key in H; auto.
  destruct (PrimFloat.ltb (similarity y) (similarity x)) eqn:E; [|reflexivity].
  apply ltb_key in E; auto. unfold key_lt in *. lia.
Qed.

Lemma by_similarity_negtrans x y z :
  PrimFloat.is_nan (similarity x) = false ->
  PrimFloat.is_nan (similarity y) = false ->
  PrimFloat.is_nan (similarity z) = false ->
  by_similarity x y = false -> by_similarity y z = false ->
  by_similarity x z = false.
Proof.
  intros Hx Hy Hz. rewrite !by_similarity_ltb by assumption. intros H1 H2.
  destruct (PrimFloat.ltb (similarity x) (similarity z)) eqn:E; [|reflexivity].
  apply ltb_key in E; auto.
  assert (N1 : ~ key_lt (number_key (similarity x)) (number_key (similarity y))).
  { intros K. apply ltb_key in K; auto. congruence. }
  assert (N2 : ~ key_lt (number_key (similarity y)) (number_key (similarity z))).
  { intros K. apply ltb_key in K; auto. congruence. }
  unfold key_lt in *. lia.
Qed.

Lemma by_similarity_tied score x y :
  PrimFloat.eqb (similarity x) score = true ->
  PrimFloat.eqb (similarity y) score = true ->
  by_similarity x y = false.
Proof.
  intros Ex Ey.
  assert (Hx : PrimFloat.is_nan (similarity x) = false /\
               PrimFloat.is_nan score = false).
  { split; apply not_nan_is_nan; intros E; rewrite FloatAxioms.eqb_spec in Ex;
      rewrite E in Ex; [|destruct (Prim2SF (similarity x))]; discriminate. }
  assert (Hy : PrimFloat.is_nan (similarity y) = false).
  { apply not_nan_is_nan; intros E; rewrite FloatAxioms.eqb_spec in Ey;
      rewrite E in Ey; discriminate. }
  destruct Hx as [Hx Hs].
  rewrite by_similarity_ltb by assumption.
  apply eqb_key in Ex, Ey; auto.
  destruct (PrimFloat.ltb (similarity x) (similarity y)) eqn:E; [|reflexivity].
  apply ltb_key in E; auto. rewrite Ex, Ey in E. unfold key_lt in E. lia.
Qed.

Lemma by_similarity_false_leb a b :
  PrimFloat.is_nan (similarity a) = false ->
  PrimFloat.is_nan (similarity b) = false ->
  by_similarity a b = false ->
  PrimFloat.leb (similarity b) (similarity a) = true.
Proof.
  intros Ha Hb. rewrite by_similarity_ltb by assumption. intros H.
  apply leb_key; auto. intros K. apply ltb_key in K; auto. congruence.
Qed.

(** ** [slice] *)

Lemma slice_firstn_skipn {A} (l : list A) (a b : Z) :
  (0 <= a <= b)%Z ->
  slice l a b = firstn (Z.to_nat (b - a)) (skipn (Z.to_nat a) l).
Proof.
  intros H. unfold slice, relative_index.
  destruct (Z.ltb_spec a 0); [lia|]. destruct (Z.ltb_spec b 0); [lia|].
  destruct (Z.le_gt_cases (Z.of_nat (length l)) a) as [Hlen | Hlen].
  - rewrite (Z.min_r a) by lia.
    rewrite !skipn_all2 by lia. now rewrite !firstn_nil.
  - rewrite (Z.min_l a) by lia.
    destruct (Z.le_gt_cases b (Z.of_nat (length l))) as [Hb | Hb].
    + now rewrite Z.min_l by lia.
    + rewrite Z.min_r by lia.
      rewrite !firstn_all2; [reflexivity | |]; rewrite length_skipn; lia.
Qed.

Lemma slice_limit {A} (l : list A) (limit : Z) :
  (0 <= limit)%Z -> slice l 0 limit = firstn (Z.to_nat limit) l.
Proof.
  intros H. rewrite slice_firstn_skipn by lia. simpl. f_equal. lia.
Qed.

(** ** [search] on a store that holds documents *)

(** The slice of the sorted results that [search] returns. *)
Lemma search_nonempty s query options q s1 :
  documents s <> [] ->
  resolve_query query s = (Return q, s1) ->
  search query options s =
  (Return
     (match pageSize options with
      | Some pageSize =>
          slice (fst (sortedResults (Map_values (documents s)) q options))
            ((default 1 (page options) - 1) * pageSize)
            ((default 1 (page options) - 1) * pageSize + pageSize)
      | None =>
          slice (fst (sortedResults (Map_values (documents s)) q options))
            0 (default 10 (limit options))
      end)%Z,
   add_log s1 (snd (sortedResults (Map_values (documents s)) q options))).
Proof.
  intros Hne Hq. unfold search. rewrite bind_get.
  destruct (documents s) as [|d ds] eqn:Ed; [contradiction|]. cbn [Map_size length Nat.eqb].
  erewrite bind_Return by exact Hq.
  destruct (sortedResults (Map_values (d :: ds)) q options) as [sorted warnings].
  unfold bind, emit, modify, ret. cbn [fst snd].
  now destruct (pageSize options).
Qed.

Lemma slice_nil {A} (a b : Z) : slice (@nil A) a b = [].
Proof. unfold slice. now rewrite skipn_nil, firstn_nil. Qed.

(** The same, whether the store holds documents or not. *)
Lemma search_results s query options q s1 :
  resolve_query query s = (Return q, s1) ->
  fst (search query options s) =
  Return
    (match pageSize options with
     | Some pageSize =>
         slice (fst (sortedResults (Map_values (documents s)) q options))
           ((default 1 (page options) - 1) * pageSize)
           ((default 1 (page options) - 1) * pageSize + pageSize)
     | None =>
         slice (fst (sortedResults (Map_values (documents s)) q options))
           0 (default 10 (limit options))
     end)%Z.
Proof.
  intros Hq. destruct (documents s) as [|d ds] eqn:Ed.
  - unfold search. rewrite bind_get, Ed. cbn [Map_size length Nat.eqb ret fst].
    unfold sortedResults. cbn [Map_values map candidates].
    assert (Hc : candidates [] (metadataFilter options) = [])
      by (unfold candidates; now destruct (metadataFilter options)).
    rewrite Hc. cbn [score_documents sort fst].
    destruct (pageSize options); now rewrite slice_nil.
  - rewrite <- Ed.
    rewrite (@search_nonempty s query options q s1); [reflexivity | | exact Hq].
    rewrite Ed. discriminate.
Qed.

Lemma sortedResults_fst docs q options :
  fst (sortedResults docs q options) =
  sort by_similarity
    (fst (score_documents q (default Cosine (similarityMethod options))
            (default 0%float (threshold options))
            (candidates docs (metadataFilter options)))).
Proof.
  unfold sortedResults. now destruct (score_documents _ _ _ _).
Qed.

Lemma sortedResults_sorted docs q options :
  let surviving :=
    fst (score_documents q (default Cosine (similarityMethod options))
           (default 0%float (threshold options))
           (candidates docs (metadataFilter options))) in
  let sorted := fst (sortedResults docs q options) in
  Permutation sorted surviving /\
  StronglySorted
    (fun a b => PrimFloat.leb (similarity b) (similarity a) = true) sorted /\
  (forall score,
      List.filter (fun r => PrimFloat.eqb (similarity r) score) sorted =
      List.filter (fun r => PrimFloat.eqb (similarity r) score) surviving).
Proof.
  intros surviving sorted.
  assert (Hn : Forall (fun r => PrimFloat.is_nan (similarity r) = false) surviving)
    by apply score_documents_not_nan.
  subst sorted. rewrite sortedResults_fst. fold surviving.
  split; [apply sort_perm|]. split.
  - assert (Hs : StronglySorted (fun a b => by_similarity a b = false)
                   (sort by_similarity surviving)).
    { apply sort_sorted with (P := fun r => PrimFloat.is_nan (similarity r) = false);
        [exact by_similarity_asym | exact by_similarity_negtrans | exact Hn]. }
    assert (Hn' := sort_Forall by_similarity Hn).
    induction Hs as [|a l Hs IH Ha]; constructor.
    + apply IH. now inversion Hn'.
    + inversion Hn' as [|? ? Na Nl]; subst.
      rewrite Forall_forall in Ha, Nl |- *. intros b Hb.
      apply by_similarity_false_leb; auto.
  - intros score. apply sort_stable.
    intros x y _ _. apply by_similarity_tied.
Qed.

(** C4. The results of a search are the documents that pass the threshold,
    sorted by descending similarity, those of equal similarity in the order
    the scan met them; without [pageSize], [search] returns the first
    [limit] of them, 10 when [limit] is absent. *)
Theorem search_results_sorted :
  (forall docs q options,
      let surviving :=
        fst (score_documents q (default Cosine (similarityMethod options))
               (default 0%float (threshold options))
               (candidates docs (metadataFilter options))) in
      let sorted := fst (sortedResults docs q options) in
      Permutation sorted surviving /\
      StronglySorted
        (fun a b => PrimFloat.leb (similarity b) (similarity a) = true) sorted /\
      (forall score,
          List.filter (fun r => PrimFloat.eqb (similarity r) score) sorted =
          List.filter (fun r => PrimFloat.eqb (similarity r) score) surviving)) /\
  (forall s query options q s1,
      resolve_query query s = (Return q, s1) ->
      pageSize options = None ->
      (0 <= default 10 (limit options))%Z ->
      fst (search query options s) =
      Return (firstn (Z.to_nat (default 10%Z (limit options)))
                (fst (sortedResults (Map_values (documents s)) q options)))).
Proof.
  split.
  - exact sortedResults_sorted.
  - intros s query options q s1 Hq Hp Hl.
    rewrite (@search_results s query options q s1 Hq). rewrite Hp.
    now rewrite slice_limit.
Qed.

Lemma search_results_sorted_witness :
  (pageSize no_options = None /\ (0 <= default 10 (limit no_options))%Z) /\
  fst (search (QueryVector [1; 0; 0]%float) no_options
         (store_of [sample_document "doc1" [1; 0; 0]%float;
                    sample_document "doc2" [0; 1; 0]%float])) =
  Return
    (firstn (Z.to_nat (default 10%Z (limit no_options)))
       (fst (sortedResults
               (Map_values
                  (documents
                     (store_of [sample_document "doc1" [1; 0; 0]%float;
                                sample_document "doc2" [0; 1; 0]%float])))
               [1; 0; 0]%float no_options))).
Proof.
  split; [split; [reflexivity | discriminate]|].
  eapply (proj2 search_results_sorted);
    [reflexivity | reflexivity | discriminate].
Defined.

(** ** Pagination *)

Lemma concat_pages {A} (k : nat) :
  1 <= k ->
  forall P (l : list A),
    length l <= P * k ->
    concat (map (fun p => firstn k (skipn ((p - 1) * k) l)) (seq 1 P)) = l.
Proof.
  intros Hk. induction P as [|P IH]; intros l Hl.
  - destruct l; [reflexivity | simpl in Hl; lia].
  - cbn [seq map concat]. rewrite <- seq_shift, map_map.
    replace ((1 - 1) * k) with 0 by lia. cbn [skipn].
    transitivity (firstn k l ++ skipn k l); [|apply firstn_skipn]. f_equal.
    rewrite <- (IH (skipn k l)) by (rewrite length_skipn; lia).
    f_equal. apply map_ext_in. intros p Hp. apply in_seq in Hp.
    rewrite skipn_skipn. do 2 f_equal. nia.
Qed.

Lemma page_index (p : nat) (k : Z) :
  (1 <= k)%Z -> 1 <= p ->
  Z.to_nat ((Z.of_nat p - 1) * k) = (p - 1) * Z.to_nat k.
Proof. intros Hk Hp. nia. Qed.

Lemma page_slice {A} (l : list A) (p k : Z) :
  (1 <= k)%Z -> (1 <= p)%Z ->
  slice l ((p - 1) * k) ((p - 1) * k + k) =
  firstn (Z.to_nat k) (skipn (Z.to_nat ((p - 1) * k)) l).
Proof.
  intros Hk Hp. rewrite slice_firstn_skipn by nia. do 2 f_equal. lia.
Qed.

Lemma page_length {A} (l : list A) (p k : Z) :
  (1 <= k)%Z -> (1 <= p)%Z ->
  Z.of_nat (length (firstn (Z.to_nat k) (skipn (Z.to_nat ((p - 1) * k)) l))) =
  Z.max 0 (Z.min k (Z.of_nat (length l) - (p - 1) * k)).
Proof. intros Hk Hp. rewrite length_firstn, length_skipn. nia. Qed.

Lemma ceil_div_spec n k :
  (0 <= n)%Z -> (1 <= k)%Z ->
  exists c, ceil_div n k = Page.Finite c /\ ((c - 1) * k < n <= c * k)%Z.
Proof.
  intros Hn Hk. unfold ceil_div. destruct (Z.eqb_spec k 0); [lia|].
  eexists. split; [reflexivity|].
  pose proof (Z.div_mod (- n) k ltac:(lia)) as Hd.
  pose proof (Z.mod_pos_bound (- n) k ltac:(lia)) as Hm. nia.
Qed.

Lemma searchWithPagination_nonempty s query options q s1 :
  documents s <> [] ->
  resolve_query query s = (Return q, s1) ->
  fst (searchWithPagination query options s) =
  Return
    (let sorted := fst (sortedResults (Map_values (documents s)) q options) in
     let page := default 1%Z (page options) in
     let pageSize := default 10%Z (pageSize options) in
     {| Page.data := slice sorted ((page - 1) * pageSize)
                       ((page - 1) * pageSize + pageSize);
        Page.page := page;
        Page.pageSize := pageSize;
        Page.totalResults := Z.of_nat (length sorted);
        Page.totalPages := ceil_div (Z.of_nat (length sorted)) pageSize |}).
Proof.
  intros Hne Hq. unfold searchWithPagination. rewrite bind_get.
  destruct (documents s) as [|d ds] eqn:Ed; [contradiction|].
  cbn [Map_size length Nat.eqb].
  erewrite bind_Return by exact Hq.
  destruct (sortedResults (Map_values (d :: ds)) q options) as [sorted warnings].
  reflexivity.
Qed.

Lemma searchWithPagination_results s query options q s1 :
  resolve_query query s = (Return q, s1) ->
  default 10%Z (pageSize options) <> 0%Z ->
  fst (searchWithPagination query options s) =
  Return
    (let sorted := fst (sortedResults (Map_values (documents s)) q options) in
     let page := default 1%Z (page options) in
     let pageSize := default 10%Z (pageSize options) in
     {| Page.data := slice sorted ((page - 1) * pageSize)
                       ((page - 1) * pageSize + pageSize);
        Page.page := page;
        Page.pageSize := pageSize;
        Page.totalResults := Z.of_nat (length sorted);
        Page.totalPages := ceil_div (Z.of_nat (length sorted)) pageSize |}).
Proof.
  intros Hq Hk. destruct (documents s) as [|d ds] eqn:Ed.
  - unfold searchWithPagination. rewrite bind_get, Ed.
    cbn [Map_size length Nat.eqb ret fst].
    unfold sortedResults. cbn [Map_values map candidates].
    assert (Hc : candidates [] (metadataFilter options) = [])
      by (unfold candidates; now destruct (metadataFilter options)).
    rewrite Hc. cbn [score_documents sort fst]. cbv zeta. rewrite slice_nil.
    cbn [length Z.of_nat]. unfold ceil_div.
    destruct (Z.eqb_spec (default 10%Z (pageSize options)) 0); [contradiction|].
    reflexivity.
  - rewrite <- Ed.
    apply (@searchWithPagination_nonempty s query options q s1); [|exact Hq].
    rewrite Ed. discriminate.
Qed.

Lemma resolve_query_same_store s s' query :
  same_store s s' -> fst (resolve_query query s') = fst (resolve_query query s).
Proof.
  intros (_ & Ho & Hm & _). destruct query as [v | text]; cbn [resolve_query].
  - now destruct (Nat.eqb (length v) 0).
  - unfold generateEmbedding. rewrite !bind_get, Ho, Hm.
    destruct (openai s) as [client|]; [|reflexivity].
    unfold try_catch, bind, embeddings_create, emit, modify.
    destruct (client _) as [response | message]; [|reflexivity].
    cbn. now destruct (OpenAI.data response).
Qed.

(** The results of a search depend on the store and the configuration, not
    on the clock or on the log. *)
Lemma search_same_store s s' query options :
  same_store s s' ->
  fst (search query options s') = fst (search query options s) /\
  fst (searchWithPagination query options s') =
  fst (searchWithPagination query options s).
Proof.
  intros H. pose proof (@resolve_query_same_store s s' query H) as Hq.
  destruct H as (Hd & _).
  unfold search, searchWithPagination. rewrite !bind_get, Hd.
  destruct (Nat.eqb (Map_size (documents s)) 0); [split; reflexivity|].
  unfold bind.
  destruct (resolve_query query s') as [[q' | e' | ] t'],
           (resolve_query query s) as [[q | e | ] t];
    cbn [fst] in Hq; inversion Hq; subst; try (split; reflexivity).
  destruct (sortedResults (Map_values (documents s)) q options) as [sorted warnings].
  unfold emit, modify. split; [now destruct (pageSize options) | reflexivity].
Qed.

(** C5. For a query that resolves to a vector and pages of size [k >= 1]:
    page [p] of [search] is the [p]-th block of [k] items of the sorted
    results; the pages 1 to [P], once [P * k] covers the results,
    concatenate to the sorted results; a page holds
    [min k (n - (p - 1) * k)] items, none when that is not positive;
    [searchWithPagination] returns the same page with [totalResults = n] and
    [totalPages = ceil (n / k)]. The results do not depend on the clock or on
    the log, so they are the same from call to call while the store is not
    changed. On a store without documents [searchWithPagination] answers an
    empty page with 0 total pages. *)
Theorem pagination_law :
  (forall s query options q s1 k,
      resolve_query query s = (Return q, s1) ->
      (1 <= k)%Z ->
      let full := fst (sortedResults (Map_values (documents s)) q options) in
      let n := Z.of_nat (length full) in
      let items p := firstn (Z.to_nat k) (skipn (Z.to_nat ((p - 1) * k)) full) in
      (forall p, (1 <= p)%Z ->
                 fst (search query (with_page options p k) s) = Return (items p)) /\
      (forall P, (n <= Z.of_nat P * k)%Z ->
                 concat (map (fun p => items (Z.of_nat p)) (seq 1 P)) = full) /\
      (forall p, (1 <= p)%Z ->
                 Z.of_nat (length (items p)) = Z.max 0 (Z.min k (n - (p - 1) * k))) /\
      (forall p, (1 <= p)%Z ->
         exists c,
           ((c - 1) * k < n <= c * k)%Z /\
           fst (searchWithPagination query (with_page options p k) s) =
           Return {| Page.data := items p; Page.page := p; Page.pageSize := k;
                     Page.totalResults := n; Page.totalPages := Page.Finite c |}))
  /\
  (forall s s' query options,
      same_store s s' ->
      fst (search query options s') = fst (search query options s) /\
      fst (searchWithPagination query options s') =
      fst (searchWithPagination query options s))
  /\
  (forall s query options,
      searchWithPagination query options (set_documents s []) =
      (Return {| Page.data := []; Page.page := default 1%Z (page options);
                 Page.pageSize := default 10%Z (pageSize options);
                 Page.totalResults := 0; Page.totalPages := Page.Finite 0 |},
       set_documents s [])).
Proof.
  split; [|split; [exact search_same_store | reflexivity]].
  intros s query options q s1 k Hq Hk full n items.
  split; [|split; [|split]].
  - intros p Hp. rewrite (@search_results s query _ q s1 Hq).
    cbn [with_page pageSize page default]. now rewrite page_slice.
  - intros P HP. unfold items.
    transitivity
      (concat (map (fun p => firstn (Z.to_nat k)
                                (skipn ((p - 1) * Z.to_nat k) full)) (seq 1 P)));
      [|apply concat_pages; subst n; nia].
    f_equal. apply map_ext_in. intros p Hp. apply in_seq in Hp.
    now rewrite page_index by lia.
  - intros p Hp. now apply page_length.
  - intros p Hp.
    destruct (@ceil_div_spec n k ltac:(lia) Hk) as (c & Hc & Hb).
    exists c. split; [exact Hb|].
    rewrite (@searchWithPagination_results s query _ q s1 Hq);
      [|cbn [with_page pageSize default]; lia].
    cbn [with_page pageSize page default]. cbv zeta.
    change (fst (sortedResults (Map_values (documents s)) q (with_page options p k)))
      with full.
    fold n. rewrite Hc. now rewrite page_slice.
Qed.

Lemma pagination_law_witness :
  ((1 <= 2)%Z /\ (1 <= 2)%Z) /\
  fst (search (QueryVector [1; 0; 0]%float) (with_page no_options 2 2)
         (store_of [sample_document "doc1" [1; 0; 0]%float;
                    sample_document "doc2" [0; 1; 0]%float;
                    sample_document "doc3" [0; 0; 1]%float])) =
  Return
    (firstn (Z.to_nat 2)
       (skipn (Z.to_nat ((2 - 1) * 2))
          (fst (sortedResults
                  (Map_values
                     (documents
                        (store_of [sample_document "doc1" [1; 0; 0]%float;
                                   sample_document "doc2" [0; 1; 0]%float;
                                   sample_document "doc3" [0; 0; 1]%float])))
                  [1; 0; 0]%float no_options)))).
Proof.
  split; [split; discriminate|].
  eapply (proj1 pagination_law);
    [reflexivity | discriminate | discriminate].
Defined.

(** The pagination test of the suite: 7 documents, pages of 2. *)
Example seven_documents_pages_of_two :
  let s :=
    store_of
      (sample_document "doc1" [0.1; 0.2; 0.3]%float
       :: sample_document "doc2" [0.2; 0.3; 0.4]%float
       :: map (fun i => sample_document (String (ascii_of_nat (48 + i)) "")
                          [0.1 * PrimFloat.of_uint63 (Uint63.of_nat i);
                           0.2 * PrimFloat.of_uint63 (Uint63.of_nat i);
                           0.3 * PrimFloat.of_uint63 (Uint63.of_nat i)]%float)
            [3; 4; 5; 6; 7]) in
  map (fun p =>
         match fst (search (QueryVector [0.1; 0.2; 0.3]%float)
                      (with_page no_options p 2) s) with
         | Return items => Some (length items)
         | _ => None
         end) [1; 2; 3; 4; 5]%Z
  = [Some 2; Some 2; Some 2; Some 1; Some 0].
Proof. vm_compute. reflexivity. Qed.

(** ** Cosine similarity *)

Lemma reduce_from_dot (a : list number) :
  forall (b pre : list number) acc,
    length a = length b ->
    reduce_from (fun sum x i => PrimFloat.add sum (PrimFloat.mul x (elem (pre ++ b) i)))
      a (length pre) acc =
    fold_left (fun sum p => PrimFloat.add sum (PrimFloat.mul (fst p) (snd p)))
      (combine a b) acc.
Proof.
  induction a as [|x a IH]; intros [|y b] pre acc H; try discriminate; simpl.
  - reflexivity.
  - unfold elem at 2. rewrite nth_middle.
    replace (pre ++ y :: b) with ((pre ++ [y]) ++ b) by (now rewrite <- app_assoc).
    replace (S (length pre)) with (length (pre ++ [y]))
      by (rewrite length_app; simpl; lia).
    apply IH. simpl in H. lia.
Qed.

Lemma reduce_from_squares (a : list number) :
  forall i acc,
    reduce_from (fun sum x (_ : nat) => PrimFloat.add sum (PrimFloat.mul x x)) a i acc =
    fold_left (fun sum x => PrimFloat.add sum (PrimFloat.mul x x)) a acc.
Proof. induction a as [|x a IH]; intros i acc; simpl; auto. Qed.

Lemma cosineSimilarity_formula a b :
  length a = length b ->
  cosineSimilarity a b =
  if (PrimFloat.eqb (magnitude a) 0%float || PrimFloat.eqb (magnitude b) 0%float)%bool
  then 0%float
  else PrimFloat.div (dot_product a b) (PrimFloat.mul (magnitude a) (magnitude b)).
Proof.
  intros H. unfold cosineSimilarity, magnitude, dot_product, reduce.
  rewrite !reduce_from_squares.
  pose proof (@reduce_from_dot a b [] 0%float H) as Hd. simpl in Hd.
  now rewrite Hd.
Qed.

Lemma cosineSimilarity_zero a b :
  PrimFloat.eqb (magnitude a) 0%float = true \/
  PrimFloat.eqb (magnitude b) 0%float = true ->
  cosineSimilarity a b = 0%float.
Proof.
  intros H. unfold cosineSimilarity, reduce. rewrite !reduce_from_squares.
  fold (magnitude a). fold (magnitude b).
  destruct H as [-> | ->]; [reflexivity|].
  now rewrite orb_true_r.
Qed.

Lemma StronglySorted_before {A} (R : A -> A -> Prop) before x after :
  StronglySorted R (before ++ x :: after) -> Forall (fun r => R r x) before.
Proof.
  induction before as [|y before IH]; simpl; intros H; [constructor|].
  inversion H as [|? ? Hs Hy]; subst. constructor; [|auto].
  rewrite Forall_forall in Hy. apply Hy. apply in_or_app. right. now left.
Qed.

Lemma cosine_of_unit_vector :
  calculateSimilarity [1; 0; 0]%float (Some [1; 0; 0]%float) Cosine = Return 1%float.
Proof. reflexivity. Qed.

Lemma unit_document_scored docs d options :
  In d (candidates docs (metadataFilter options)) ->
  embedding d = Some [1; 0; 0]%float ->
  default Cosine (similarityMethod options) = Cosine ->
  PrimFloat.leb (default 0%float (threshold options)) 1%float = true ->
  In {| document := d; similarity := 1%float |}
    (fst (sortedResults docs [1; 0; 0]%float options)).
Proof.
  intros Hin He Hm Ht.
  destruct (sortedResults_sorted docs [1; 0; 0]%float options) as (Hp & _).
  eapply Permutation_in; [symmetry; exact Hp|].
  apply score_documents_In. cbn [document similarity].
  rewrite He, Hm. auto using cosine_of_unit_vector.
Qed.

(** C6, as the specification states it, fails on a store where an earlier document
    scores as much: [2, 0, 0] has cosine similarity 1.0 with the query too,
    and the document with embedding [1, 0, 0] comes second. *)
Lemma unit_document_ranked_second :
  match fst (search (QueryVector [1; 0; 0]%float) no_options
               (store_of [sample_document "doc1" [2; 0; 0]%float;
                          sample_document "doc2" [1; 0; 0]%float])) with
  | Return results =>
      map (fun r => (id (document r), embedding (document r), similarity r)) results
  | _ => []
  end
  = [("doc1"%string, Some [2; 0; 0]%float, 1%float);
     ("doc2"%string, Some [1; 0; 0]%float, 1%float)].
Proof. vm_compute. reflexivity. Qed.

(** C6. Cosine similarity of vectors of equal length is the dot product
    divided by the product of the magnitudes, and it is 0 when a magnitude
    equals 0. A stored document with embedding [1, 0, 0] that the filter and
    the threshold let through is given similarity 1.0 by the query
    [1, 0, 0]; only results of similarity at least 1.0 come before it; and
    when it is the only document, it is the only result. *)
Theorem cosine_similarity_spec :
  (forall a b,
      length a = length b ->
      cosineSimilarity a b =
      if (PrimFloat.eqb (magnitude a) 0%float || PrimFloat.eqb (magnitude b) 0%float)%bool
      then 0%float
      else PrimFloat.div (dot_product a b)
             (PrimFloat.mul (magnitude a) (magnitude b))) /\
  (forall a b,
      PrimFloat.eqb (magnitude a) 0%float = true \/ PrimFloat.eqb (magnitude b) 0%float = true ->
      cosineSimilarity a b = 0%float) /\
  (forall docs d options,
      In d (candidates docs (metadataFilter options)) ->
      embedding d = Some [1; 0; 0]%float ->
      default Cosine (similarityMethod options) = Cosine ->
      PrimFloat.leb (default 0%float (threshold options)) 1%float = true ->
      let sorted := fst (sortedResults docs [1; 0; 0]%float options) in
      In {| document := d; similarity := 1%float |} sorted /\
      forall before after,
        sorted = before ++ {| document := d; similarity := 1%float |} :: after ->
        Forall (fun r => PrimFloat.leb 1%float (similarity r) = true) before) /\
  (forall s key d,
      documents s = [(key, d)] ->
      embedding d = Some [1; 0; 0]%float ->
      fst (search (QueryVector [1; 0; 0]%float) no_options s) =
      Return [{| document := d; similarity := 1%float |}]).
Proof.
  split; [exact cosineSimilarity_formula|].
  split; [exact cosineSimilarity_zero|]. split.
  - intros docs d options Hin He Hm Ht sorted.
    split; [now apply unit_document_scored|].
    intros before after Hs.
    destruct (sortedResults_sorted docs [1; 0; 0]%float options) as (_ & Hsorted & _).
    fold sorted in Hsorted. rewrite Hs in Hsorted.
    now apply StronglySorted_before in Hsorted.
  - intros s key d Hd He.
    rewrite (@search_nonempty s (QueryVector [1; 0; 0]%float) no_options
               [1; 0; 0]%float s); [|rewrite Hd; discriminate | reflexivity].
    cbn [fst pageSize no_options]. rewrite Hd.
    unfold sortedResults, Map_values. cbn [map snd candidates metadataFilter no_options].
    cbn [score_documents default similarityMethod threshold no_options].
    rewrite He. reflexivity.
Qed.

Lemma cosine_similarity_spec_witness :
  (length [1; 0; 0]%float = length [1; 0; 0]%float /\
   documents (store_of [sample_document "doc1" [1; 0; 0]%float]) =
   [("doc1"%string,
     with_timestamps (sample_document "doc1" [1; 0; 0]%float) (Some 0%Z) (Some 0%Z))]) /\
  cosineSimilarity [1; 0; 0]%float [1; 0; 0]%float =
  (if (PrimFloat.eqb (magnitude [1; 0; 0]%float) 0%float
       || PrimFloat.eqb (magnitude [1; 0; 0]%float) 0%float)%bool
   then 0%float
   else PrimFloat.div (dot_product [1; 0; 0]%float [1; 0; 0]%float)
          (PrimFloat.mul (magnitude [1; 0; 0]%float) (magnitude [1; 0; 0]%float))) /\
  fst (search (QueryVector [1; 0; 0]%float) no_options
         (store_of [sample_document "doc1" [1; 0; 0]%float])) =
  Return
    [{| document :=
          with_timestamps (sample_document "doc1" [1; 0; 0]%float)
            (Some 0%Z) (Some 0%Z);
        similarity := 1%float |}].
Proof.
  split; [split; reflexivity|]. split.
  - apply (proj1 cosine_similarity_spec). reflexivity.
  - eapply (proj2 (proj2 (proj2 cosine_similarity_spec))); reflexivity.
Defined.

(** ** Timestamps *)

(** C9, as the specification states it, fails for [addDocument]: adding the id
    again, at time 2000, replaces the [createdAt] that the first insertion, at
    time 1000, had set. *)
Lemma addDocument_again_resets_createdAt :
  let first :=
    perform (AddDocument (sample_document "doc1" [1; 0; 0]%float) None)
      (set_clock empty_store 1000%Z) in
  let again :=
    perform (AddDocument (sample_document "doc1" [1; 0; 0]%float) None)
      (set_clock first 2000%Z) in
  option_map createdAt (Map_get (documents first) "doc1") = Some (Some 1000%Z) /\
  option_map createdAt (Map_get (documents again) "doc1") = Some (Some 2000%Z).
Proof. split; reflexivity. Qed.

(** C9. [updateDocument] keeps the [createdAt] of the stored document and
    sets [updatedAt] to the current time. [addDocument] stores the incoming
    document's own [createdAt], or the current time when it has none,
    whatever the table held under that id, and sets [updatedAt] to the
    current time. The current time is the clock when the document is
    written, which is the clock the call ends with. *)
Theorem timestamps_on_write :
  (forall document createEmbedding s s',
      updateDocument document createEmbedding s = (Return true, s') ->
      exists existingDoc stored,
        Map_get (documents s) (id document) = Some existingDoc /\
        Map_get (documents s') (id document) = Some stored /\
        createdAt stored = createdAt existingDoc /\
        updatedAt stored = Some (clock s')) /\
  (forall document createEmbedding s s',
      addDocument document createEmbedding s = (Return tt, s') ->
      exists stored,
        Map_get (documents s') (id document) = Some stored /\
        createdAt stored = Some (or_Date (createdAt document) (clock s')) /\
        updatedAt stored = Some (clock s')).
Proof.
  split.
  - intros document createEmbedding s s' H.
    apply updateDocument_Return in H.
    destruct H as [(H & _) | (_ & existingDoc & e & s1 & Hg & _ & Hk & _ & _ & ->)];
      [discriminate|].
    eexists. eexists. split; [exact Hg|]. cbn [documents set_documents clock].
    rewrite Map_get_set_same, Hk. repeat split.
  - intros document createEmbedding s s' H.
    apply addDocument_Return in H.
    destruct H as (e & s1 & _ & Hk & _ & _ & ->).
    eexists. cbn [documents set_documents clock].
    rewrite Map_get_set_same, Hk. repeat split.
Qed.

Lemma timestamps_on_write_witness :
  (exists existingDoc stored,
      Map_get (documents (store_of [sample_document "doc1" [1; 0; 0]%float]))
        "doc1" = Some existingDoc /\
      Map_get
        (documents
           (perform (UpdateDocument (sample_document "doc1" [0; 1; 0]%float) None)
              (set_clock (store_of [sample_document "doc1" [1; 0; 0]%float]) 5%Z)))
        "doc1" = Some stored /\
      createdAt stored = createdAt existingDoc /\
      updatedAt stored = Some 5%Z) /\
  (exists stored,
      Map_get (documents (store_of [sample_document "doc1" [1; 0; 0]%float]))
        "doc1" = Some stored /\
      createdAt stored = Some 0%Z /\ updatedAt stored = Some 0%Z).
Proof.
  split.
  - apply (proj1 timestamps_on_write
             (sample_document "doc1" [0; 1; 0]%float) None
             (set_clock (store_of [sample_document "doc1" [1; 0; 0]%float]) 5%Z)).
    reflexivity.
  - apply (proj2 timestamps_on_write
             (sample_document "doc1" [1; 0; 0]%float) None empty_store).
    reflexivity.
Defined.

(** ** Chunks *)

Lemma slice_chunk {T} (done rest : list T) (b : Z) :
  (1 <= b)%Z ->
  slice (done ++ rest) (Z.of_nat (length done)) (Z.of_nat (length done) + b) =
  firstn (Z.to_nat b) rest.
Proof.
  intros Hb. rewrite slice_firstn_skipn by lia.
  rewrite Nat2Z.id, skipn_app, skipn_all, Nat.sub_diag. simpl.
  f_equal. lia.
Qed.

Lemma ceil_step (n b : Z) :
  (1 <= b)%Z -> (1 <= n)%Z ->
  ((n + b - 1) / b = 1 + (Z.max 0 (n - b) + b - 1) / b)%Z.
Proof.
  intros Hb Hn. destruct (Z.le_gt_cases n b) as [H | H].
  - rewrite Z.max_l by lia.
    rewrite (Z.div_small (0 + b - 1) b) by lia.
    symmetry. apply Z.div_unique with (r := (n - 1)%Z); lia.
  - rewrite Z.max_r by lia.
    replace (n + b - 1)%Z with ((n - b + b - 1) + 1 * b)%Z by lia.
    rewrite Z.div_add by lia. lia.
Qed.

Lemma chunkArray_loop_spec {T} (array : list T) (b : Z) :
  (1 <= b)%Z ->
  forall fuel (done rest : list T) i acc,
    array = done ++ rest ->
    (rest <> [] -> i = Z.of_nat (length done)) ->
    (rest = [] -> (Z.of_nat (length array) <= i)%Z) ->
    length rest < fuel ->
    exists chunks,
      chunkArray_loop fuel array b i acc = Some (acc ++ chunks) /\
      concat chunks = rest /\
      Z.of_nat (length chunks) = ((Z.of_nat (length rest) + b - 1) / b)%Z /\
      Forall (fun c => 1 <= length c /\ (Z.of_nat (length c) <= b)%Z) chunks /\
      Forall (fun c => Z.of_nat (length c) = b) (removelast chunks).
Proof.
  intros Hb. induction fuel as [|fuel IH]; intros done rest i acc Ha Hi1 Hi2 Hf;
    [lia|].
  cbn [chunkArray_loop]. destruct rest as [|x rest'].
  - destruct (Z.ltb_spec i (Z.of_nat (length array))); [specialize (Hi2 eq_refl); lia|].
    exists []. rewrite app_nil_r. repeat split; auto.
    simpl. symmetry. apply Z.div_small. lia.
  - specialize (Hi1 ltac:(discriminate)). subst i.
    set (rest := x :: rest') in *.
    assert (Hr : 1 <= length rest) by (simpl; lia).
    clearbody rest. clear x rest'.
    assert (Hlen : length array = length done + length rest)
      by (rewrite Ha; apply length_app).
    destruct (Z.ltb_spec (Z.of_nat (length done)) (Z.of_nat (length array)));
      [|lia].
    assert (Hs : slice array (Z.of_nat (length done)) (Z.of_nat (length done) + b)
                 = firstn (Z.to_nat b) rest)
      by (rewrite Ha; now apply slice_chunk).
    rewrite Hs.
    destruct (IH (done ++ firstn (Z.to_nat b) rest) (skipn (Z.to_nat b) rest)
                (Z.of_nat (length done) + b)%Z
                (acc ++ [firstn (Z.to_nat b) rest]))
      as (chunks & Hc & Hcat & Hn & Hall & Hfull).
    + now rewrite <- app_assoc, firstn_skipn.
    + intros Hne. rewrite length_app, length_firstn.
      assert (Z.to_nat b < length rest).
      { destruct (Nat.lt_ge_cases (Z.to_nat b) (length rest)); [assumption|].
        rewrite skipn_all2 in Hne by lia. contradiction. }
      lia.
    + intros He. apply (f_equal (@length T)) in He.
      rewrite length_skipn in He. cbn [length] in He. lia.
    + rewrite length_skipn. lia.
    + exists (firstn (Z.to_nat b) rest :: chunks).
      rewrite <- app_assoc in Hc. split; [exact Hc|].
      split; [simpl; rewrite Hcat; apply firstn_skipn|].
      split.
      * cbn [length]. rewrite Nat2Z.inj_succ, Hn, length_skipn.
        rewrite (@ceil_step (Z.of_nat (length rest)) b) by lia.
        replace (Z.of_nat (length rest - Z.to_nat b))
          with (Z.max 0 (Z.of_nat (length rest) - b)) by lia.
        lia.
      * split.
        -- constructor; [|assumption]. rewrite length_firstn. lia.
        -- cbn [removelast]. destruct chunks as [|c chunks']; [constructor|].
           constructor; [|assumption]. rewrite length_firstn.
           inversion Hall as [|? ? [Hc1 _] _]; subst.
           assert (length (skipn (Z.to_nat b) rest) <> 0).
           { rewrite <- Hcat. cbn [concat]. rewrite length_app. lia. }
           rewrite length_skipn in *. lia.
Qed.

Lemma chunkArray_spec {T} (array : list T) (b : Z) :
  (1 <= b)%Z ->
  exists chunks,
    chunkArray array b = Some chunks /\
    concat chunks = array /\
    Z.of_nat (length chunks) = ((Z.of_nat (length array) + b - 1) / b)%Z /\
    Forall (fun c => 1 <= length c /\ (Z.of_nat (length c) <= b)%Z) chunks /\
    Forall (fun c => Z.of_nat (length c) = b) (removelast chunks).
Proof.
  intros Hb. unfold chunkArray.
  destruct (@chunkArray_loop_spec T array b Hb (S (length array)) [] array 0%Z [])
    as (chunks & H); auto.
  - intros ->. simpl. lia.
  - exists chunks. exact H.
Qed.

(** With a chunk size that is not positive the loop of [chunkArray] never
    ends on an array that is not empty. *)
Lemma chunkArray_loop_diverges {T} (array : list T) (b : Z) :
  (b <= 0)%Z ->
  forall fuel i acc,
    (i < Z.of_nat (length array))%Z -> chunkArray_loop fuel array b i acc = None.
Proof.
  intros Hb. induction fuel as [|fuel IH]; intros i acc Hi; [reflexivity|].
  cbn [chunkArray_loop]. destruct (Z.ltb_spec i (Z.of_nat (length array))); [|lia].
  apply IH. lia.
Qed.

(** ** Responses in the order of their indices *)

Lemma sorted_permutation_unique (l1 : list Z) :
  forall l2,
    StronglySorted Z.le l1 -> StronglySorted Z.le l2 -> Permutation l1 l2 -> l1 = l2.
Proof.
  induction l1 as [|a l1 IH]; intros l2 H1 H2 Hp.
  - apply Permutation_nil in Hp. now subst.
  - destruct l2 as [|b l2]; [symmetry in Hp; now apply Permutation_nil in Hp|].
    inversion H1 as [|? ? H1' Ha]; subst. inversion H2 as [|? ? H2' Hb]; subst.
    rewrite Forall_forall in Ha, Hb.
    assert (a = b).
    { assert (Hab : In a (b :: l2)) by (eapply Permutation_in; [exact Hp | now left]).
      assert (Hba : In b (a :: l1))
        by (eapply Permutation_in; [symmetry; exact Hp | now left]).
      destruct Hab as [-> | Hab]; [reflexivity|].
      destruct Hba as [-> | Hba]; [reflexivity|].
      specialize (Ha b Hba). specialize (Hb a Hab). lia. }
    subst b. f_equal. apply IH; auto. now apply Permutation_cons_inv in Hp.
Qed.

Lemma seq_sorted n : forall start, StronglySorted Z.le (map Z.of_nat (seq start n)).
Proof.
  induction n as [|n IH]; intros start; cbn [seq map]; constructor; [apply IH|].
  apply Forall_forall. intros x Hx. apply in_map_iff in Hx.
  destruct Hx as (k & <- & Hk). apply in_seq in Hk. lia.
Qed.

Lemma by_index_sorted (items : list OpenAI.Item) :
  StronglySorted (fun a b => (OpenAI.index a <= OpenAI.index b)%Z)
    (sort by_index items).
Proof.
  assert (H : StronglySorted (fun a b => by_index a b = false) (sort by_index items)).
  { apply sort_sorted with (P := fun _ => True).
    - intros x y _ _. unfold by_index. intros H. apply Z.ltb_lt in H.
      apply Z.ltb_ge. lia.
    - intros x y z _ _ _. unfold by_index. intros H1 H2.
      apply Z.ltb_ge in H1, H2. apply Z.ltb_ge. lia.
    - apply Forall_forall. auto. }
  induction H as [|a l Hs IH Ha]; constructor; [exact IH|].
  eapply Forall_impl; [|exact Ha]. intros b Hb. unfold by_index in Hb.
  apply Z.ltb_ge in Hb. lia.
Qed.

Lemma StronglySorted_map {A B} (f : A -> B) (R : B -> B -> Prop) l :
  StronglySorted (fun a b => R (f a) (f b)) l -> StronglySorted R (map f l).
Proof.
  induction 1 as [|a l Hs IH Ha]; cbn [map]; constructor; [exact IH|].
  apply Forall_forall. intros y Hy. apply in_map_iff in Hy.
  destruct Hy as (x & <- & Hx). rewrite Forall_forall in Ha. now apply Ha.
Qed.

Lemma NoDup_map_injective {A B} (f : A -> B) l :
  NoDup (map f l) -> forall x y, In x l -> In y l -> f x = f y -> x = y.
Proof.
  induction l as [|a l IH]; cbn [map]; intros Hnd x y Hx Hy E; [contradiction|].
  inversion Hnd as [|? ? Ha Hnd']; subst.
  destruct Hx as [-> | Hx], Hy as [-> | Hy]; auto.
  - exfalso. apply Ha. rewrite E. now apply in_map.
  - exfalso. apply Ha. rewrite <- E. now apply in_map.
Qed.

Lemma permutation_same_map {A B} (f : A -> B) (l1 : list A) :
  forall l2,
    Permutation l1 l2 -> map f l1 = map f l2 -> NoDup (map f l2) -> l1 = l2.
Proof.
  induction l1 as [|a l1 IH]; intros l2 Hp Hm Hn.
  - apply Permutation_nil in Hp. now subst.
  - destruct l2 as [|b l2]; [discriminate|]. cbn [map] in Hm, Hn.
    inversion Hm as [[Hab Hm']].
    assert (a = b).
    { apply (@NoDup_map_injective _ _ f (b :: l2) Hn a b);
        [eapply Permutation_in; [exact Hp | now left] | now left | exact Hab]. }
    subst b. f_equal. inversion Hn; subst.
    apply IH; auto. now apply Permutation_cons_inv in Hp.
Qed.

Lemma mapi_from_indexed (vectors : list (list number)) :
  forall start,
    map OpenAI.index
      (mapi_from (fun v i => {| OpenAI.embedding := v; OpenAI.index := Z.of_nat i |})
         vectors start)
    = map Z.of_nat (seq start (length vectors)) /\
    map OpenAI.embedding
      (mapi_from (fun v i => {| OpenAI.embedding := v; OpenAI.index := Z.of_nat i |})
         vectors start)
    = vectors.
Proof.
  induction vectors as [|v vectors IH]; intros start; cbn; [auto|].
  destruct (IH (S start)) as (H1 & H2). now rewrite H1, H2.
Qed.

(** The code reads the results of a request that the provider answers with
    the vectors [vectors], whatever the order of the items. *)
Lemma embeddings_of_indexed response vectors :
  Permutation (OpenAI.data response) (indexed vectors) ->
  embeddings_of response = vectors.
Proof.
  intros Hp. destruct (mapi_from_indexed vectors 0) as (Hi & He).
  fold (indexed vectors) in Hi, He.
  assert (Hperm : Permutation (sort by_index (OpenAI.data response)) (indexed vectors)).
  { etransitivity; [apply sort_perm | exact Hp]. }
  assert (Hs : sort by_index (OpenAI.data response) = indexed vectors).
  { apply permutation_same_map with (f := OpenAI.index); [exact Hperm | |].
    - apply sorted_permutation_unique.
      + apply StronglySorted_map with (R := Z.le). apply by_index_sorted.
      + rewrite Hi. apply seq_sorted.
      + now apply Permutation_map.
    - rewrite Hi. apply Finite.Injective_map_NoDup; [|apply seq_NoDup].
      intros a b. apply Nat2Z.inj. }
  change (embeddings_of response)
    with (map OpenAI.embedding (sort by_index (OpenAI.data response))).
  now rewrite Hs.
Qed.

Lemma embeds_resolved client model chunks results :
  Forall2 (embeds client model) chunks results ->
  (forall c, In c chunks ->
             exists r, client (batch_request model c) = OpenAI.Resolved r) /\
  flat_map (resolved_embeddings client model) chunks = concat results.
Proof.
  induction 1 as [|c vs chunks results (r & Hr & Hp) _ (IH1 & IH2)].
  - split; [intros c [] | reflexivity].
  - split.
    + intros c' [<- | Hc]; [now exists r | now apply IH1].
    + cbn [flat_map concat]. rewrite IH2. f_equal.
      unfold resolved_embeddings. rewrite Hr. now apply embeddings_of_indexed.
Qed.

(** ** Batch embedding generation *)

Lemma provider_calls_app e1 e2 :
  provider_calls (e1 ++ e2) = provider_calls e1 + provider_calls e2.
Proof. unfold provider_calls. now rewrite filter_app, length_app. Qed.

Lemma provider_calls_batch_events model d batches :
  provider_calls (batch_events model d batches) = length batches.
Proof.
  induction batches as [|c rest IH]; [reflexivity|].
  cbn [batch_events]. change (?x :: ?l) with ([x] ++ l).
  rewrite !provider_calls_app, IH.
  destruct rest; [reflexivity|]. now destruct (0 <? d)%Z.
Qed.

Lemma generateEmbeddings_loop_resolved client model d n batches :
  forall i acc s,
    i + length batches = n ->
    (forall c, In c batches ->
               exists r, client (batch_request model c) = OpenAI.Resolved r) ->
    exists s',
      generateEmbeddings_loop client model d n batches i acc s =
      (Return (acc ++ flat_map (resolved_embeddings client model) batches), s') /\
      same_store s s' /\
      log s' = log s ++ batch_events model d batches.
Proof.
  induction batches as [|c rest IH]; intros i acc s Hn Hres.
  - exists s. simpl. rewrite !app_nil_r. auto using same_store_refl.
  - destruct (Hres c (or_introl eq_refl)) as (r & Hr).
    cbn [generateEmbeddings_loop].
    assert (Hstep :
      exists s1,
        try_catch
          (response <- embeddings_create client
             {| OpenAI.input := OpenAI.Texts c; OpenAI.model := model |} ;;
           (if (Z.of_nat i <? Z.of_nat n - 1)%Z && (0 <? d)%Z
            then delay d else ret tt) ;;
           ret (acc ++ embeddings_of response))
          (fun error => throw (FailedBatch (i + 1) error)) s
        = (Return (acc ++ resolved_embeddings client model c), s1) /\
        same_store s s1 /\
        log s1 = log s ++ EmbeddingsCreate (batch_request model c)
                   :: match rest with
                      | [] => []
                      | _ :: _ => if (0 <? d)%Z then [Delay d] else []
                      end).
    { unfold try_catch, bind, embeddings_create, emit, modify, resolved_embeddings.
      fold (batch_request model c). rewrite Hr. cbn [ret].
      assert (Hi : (Z.of_nat i <? Z.of_nat n - 1)%Z
                   = match rest with [] => false | _ :: _ => true end).
      { destruct rest; simpl in Hn; [apply Z.ltb_ge | apply Z.ltb_lt]; lia. }
      rewrite Hi. destruct rest as [|c' rest'].
      - eexists. split; [reflexivity|]. split; [repeat split | reflexivity].
      - cbn [andb]. destruct (0 <? d)%Z.
        + eexists. split; [reflexivity|]. split; [repeat split|].
          cbn [delay modify log add_log set_clock snd]. now rewrite <- app_assoc.
        + eexists. split; [reflexivity|]. split; [repeat split | reflexivity]. }
    destruct Hstep as (s1 & Hs1 & Hss1 & Hl1).
    erewrite bind_Return by exact Hs1.
    destruct (IH (S i) (acc ++ resolved_embeddings client model c) s1)
      as (s' & Hs' & Hss' & Hl'); [simpl in Hn; lia | intros; apply Hres; now right|].
    exists s'. split; [|split].
    + rewrite Hs'. cbn [flat_map]. now rewrite app_assoc.
    + eapply same_store_trans; eassumption.
    + rewrite Hl', Hl1. cbn [batch_events]. rewrite <- !app_assoc. reflexivity.
Qed.

Lemma generateEmbeddings_resolved s client texts b d chunks :
  openai s = Some client ->
  (1 <= b)%Z ->
  chunkArray texts b = Some chunks ->
  (forall c, In c chunks ->
             exists r, client (batch_request (embeddingModel s) c) = OpenAI.Resolved r) ->
  exists s',
    generateEmbeddings texts (Some b) (Some d) s =
    (Return (flat_map (resolved_embeddings client (embeddingModel s)) chunks), s') /\
    same_store s s' /\
    log s' = log s ++ batch_events (embeddingModel s) d chunks.
Proof.
  intros Ho Hb Hc Hres.
  destruct (chunkArray_spec texts Hb) as (chunks' & Hc' & Hcat & Hlen & Hall & _).
  rewrite Hc in Hc'. inversion Hc'; subst chunks'. clear Hc'.
  unfold generateEmbeddings. rewrite bind_get, Ho. cbn [default].
  destruct (Nat.eqb_spec (length texts) 0) as [Hz | Hn].
  - rewrite Hz in Hlen. simpl in Hlen.
    rewrite Z.div_small in Hlen by lia. destruct chunks; [|discriminate].
    exists s. simpl. rewrite app_nil_r. auto using same_store_refl.
  - destruct (Z.leb_spec (Z.of_nat (length texts)) b) as [Hsmall | Hlarge].
    + assert (Hone : chunks = [texts]).
      { assert (Hl1 : length chunks = 1).
        { apply Nat2Z.inj. rewrite Hlen. symmetry.
          apply Z.div_unique with (r := (Z.of_nat (length texts) - 1)%Z); lia. }
        destruct chunks as [|c [|c' chunks']]; try discriminate.
        simpl in Hcat. rewrite app_nil_r in Hcat. now subst. }
      subst chunks.
      destruct (Hres texts (or_introl eq_refl)) as (r & Hr).
      unfold try_catch, bind, embeddings_create, emit, modify.
      fold (batch_request (embeddingModel s) texts). rewrite Hr.
      cbn [ret flat_map]. unfold resolved_embeddings. rewrite Hr, app_nil_r.
      eexists. split; [reflexivity|]. split; [repeat split | reflexivity].
    + unfold chunkArrayM. rewrite Hc. erewrite bind_Return by reflexivity.
      destruct (@generateEmbeddings_loop_resolved client (embeddingModel s) d
                  (length chunks) chunks 0 [] s eq_refl Hres)
        as (s' & Hs' & Hss' & Hl').
      exists s'. auto.
Qed.

Lemma generateEmbeddings_loop_clock client model d n batches :
  forall i acc s,
    i + length batches = n ->
    (forall c, In c batches ->
               exists r, client (batch_request model c) = OpenAI.Resolved r) ->
    clock (snd (generateEmbeddings_loop client model d n batches i acc s)) =
    (clock s + delays d (length batches))%Z.
Proof.
  induction batches as [|c rest IH]; intros i acc s Hn Hres.
  - cbn. unfold delays. destruct (0 <? d)%Z; lia.
  - destruct (Hres c (or_introl eq_refl)) as (r & Hr).
    cbn [generateEmbeddings_loop].
    assert (Hstep :
      exists s1,
        try_catch
          (response <- embeddings_create client
             {| OpenAI.input := OpenAI.Texts c; OpenAI.model := model |} ;;
           (if (Z.of_nat i <? Z.of_nat n - 1)%Z && (0 <? d)%Z
            then delay d else ret tt) ;;
           ret (acc ++ embeddings_of response))
          (fun error => throw (FailedBatch (i + 1) error)) s
        = (Return (acc ++ resolved_embeddings client model c), s1) /\
        clock s1 = (clock s + match rest with
                              | [] => 0
                              | _ :: _ => if (0 <? d)%Z then d else 0
                              end)%Z).
    { unfold try_catch, bind, embeddings_create, emit, modify, resolved_embeddings.
      fold (batch_request model c). rewrite Hr. cbn [ret].
      assert (Hi : (Z.of_nat i <? Z.of_nat n - 1)%Z
                   = match rest with [] => false | _ :: _ => true end).
      { destruct rest; simpl in Hn; [apply Z.ltb_ge | apply Z.ltb_lt]; lia. }
      rewrite Hi. destruct rest as [|c' rest'].
      - eexists. split; [reflexivity|]. cbn. lia.
      - cbn [andb]. destruct (0 <? d)%Z.
        + eexists. split; [reflexivity|]. reflexivity.
        + eexists. split; [reflexivity|]. cbn. lia. }
    destruct Hstep as (s1 & Hs1 & Hc1).
    erewrite bind_Return by exact Hs1.
    rewrite IH; [|simpl in Hn; lia | intros; apply Hres; now right].
    rewrite Hc1. unfold delays.
    destruct rest as [|c' rest']; cbn [length pred]; destruct (0 <? d)%Z;
      rewrite ?Nat2Z.inj_succ; lia.
Qed.

Lemma generateEmbeddings_clock s client texts b d chunks :
  openai s = Some client ->
  (1 <= b)%Z ->
  chunkArray texts b = Some chunks ->
  (forall c, In c chunks ->
             exists r, client (batch_request (embeddingModel s) c) = OpenAI.Resolved r) ->
  clock (snd (generateEmbeddings texts (Some b) (Some d) s)) =
  (clock s + delays d (length chunks))%Z.
Proof.
  intros Ho Hb Hc Hres.
  destruct (chunkArray_spec texts Hb) as (chunks' & Hc' & Hcat & Hlen & Hall & _).
  rewrite Hc in Hc'. inversion Hc'; subst chunks'. clear Hc'.
  unfold generateEmbeddings. rewrite bind_get, Ho. cbn [default].
  destruct (Nat.eqb_spec (length texts) 0) as [Hz | Hn].
  - rewrite Hz in Hlen. simpl in Hlen.
    rewrite Z.div_small in Hlen by lia. destruct chunks; [|discriminate].
    cbn. unfold delays. destruct (0 <? d)%Z; lia.
  - destruct (Z.leb_spec (Z.of_nat (length texts)) b) as [Hsmall | Hlarge].
    + assert (Hone : chunks = [texts]).
      { assert (Hl1 : length chunks = 1).
        { apply Nat2Z.inj. rewrite Hlen. symmetry.
          apply Z.div_unique with (r := (Z.of_nat (length texts) - 1)%Z); lia. }
        destruct chunks as [|c [|c' chunks']]; try discriminate.
        simpl in Hcat. rewrite app_nil_r in Hcat. now subst. }
      subst chunks.
      destruct (Hres texts (or_introl eq_refl)) as (r & Hr).
      unfold try_catch, bind, embeddings_create, emit, modify.
      fold (batch_request (embeddingModel s) texts). rewrite Hr.
      cbn. unfold delays. destruct (0 <? d)%Z; lia.
    + unfold chunkArrayM. rewrite Hc. erewrite bind_Return by reflexivity.
      now apply generateEmbeddings_loop_clock.
Qed.

(** C7. [chunkArray] with a chunk size [b >= 1] splits [n] items into
    [ceil (n / b)] chunks, in order: they concatenate to the input, each
    holds between 1 and [b] items, and each but the last holds [b]. When the
    provider answers the request of each chunk with vectors, the items of
    its response in any order, [generateEmbeddings] returns these vectors,
    chunk after chunk and, within a chunk, in the order of the indices of
    the response; the log gains exactly one request per chunk, in order,
    with a delay of [batchDelay] after each chunk but the last (when
    [batchDelay] is positive), and the clock advances by these delays and
    nothing else. So with a provider that embeds a text [t] as [f t] the
    result is [map f texts]; and 15 texts in chunks of 5 make exactly 3
    provider calls and 2 delays. For a provider that resolves with any
    responses, the result is the one the code reads off each response,
    chunk after chunk. *)
Theorem batch_embedding_generation :
  (forall (array : list string) b,
      (1 <= b)%Z ->
      exists chunks,
        chunkArray array b = Some chunks /\
        concat chunks = array /\
        Z.of_nat (length chunks) = ((Z.of_nat (length array) + b - 1) / b)%Z /\
        Forall (fun c => 1 <= length c /\ (Z.of_nat (length c) <= b)%Z) chunks /\
        Forall (fun c => Z.of_nat (length c) = b) (removelast chunks)) /\
  (forall s client texts b d chunks results,
      openai s = Some client ->
      (1 <= b)%Z ->
      chunkArray texts b = Some chunks ->
      Forall2 (embeds client (embeddingModel s)) chunks results ->
      exists s',
        generateEmbeddings texts (Some b) (Some d) s = (Return (concat results), s') /\
        same_store s s' /\
        log s' = log s ++ batch_events (embeddingModel s) d chunks /\
        provider_calls (log s') = provider_calls (log s) + length chunks /\
        clock s' = (clock s + delays d (length chunks))%Z) /\
  (forall s client f texts b d,
      openai s = Some client ->
      (1 <= b)%Z ->
      (forall c, embeds client (embeddingModel s) c (map f c)) ->
      exists s',
        generateEmbeddings texts (Some b) (Some d) s = (Return (map f texts), s') /\
        same_store s s' /\
        Z.of_nat (provider_calls (log s')) =
        (Z.of_nat (provider_calls (log s)) + (Z.of_nat (length texts) + b - 1) / b)%Z) /\
  (forall s client f texts d,
      openai s = Some client ->
      length texts = 15 ->
      (forall c, embeds client (embeddingModel s) c (map f c)) ->
      exists s',
        generateEmbeddings texts (Some 5%Z) (Some d) s = (Return (map f texts), s') /\
        provider_calls (log s') = provider_calls (log s) + 3 /\
        List.filter (fun e => negb (is_request e)) (log s') =
        List.filter (fun e => negb (is_request e)) (log s)
        ++ (if (0 <? d)%Z then [Delay d; Delay d] else []) /\
        clock s' = (clock s + delays d 3)%Z) /\
  (forall s client texts b d chunks,
      openai s = Some client ->
      (1 <= b)%Z ->
      chunkArray texts b = Some chunks ->
      (forall c, In c chunks ->
                 exists r, client (batch_request (embeddingModel s) c)
                           = OpenAI.Resolved r) ->
      exists s',
        generateEmbeddings texts (Some b) (Some d) s =
        (Return (flat_map (resolved_embeddings client (embeddingModel s)) chunks),
         s') /\
        same_store s s' /\
        log s' = log s ++ batch_events (embeddingModel s) d chunks /\
        provider_calls (log s') = provider_calls (log s) + length chunks /\
        clock s' = (clock s + delays d (length chunks))%Z).
Proof.
  assert (Hgeneral : forall s client texts b d chunks,
      openai s = Some client ->
      (1 <= b)%Z ->
      chunkArray texts b = Some chunks ->
      (forall c, In c chunks ->
                 exists r, client (batch_request (embeddingModel s) c)
                           = OpenAI.Resolved r) ->
      exists s',
        generateEmbeddings texts (Some b) (Some d) s =
        (Return (flat_map (resolved_embeddings client (embeddingModel s)) chunks),
         s') /\
        same_store s s' /\
        log s' = log s ++ batch_events (embeddingModel s) d chunks /\
        provider_calls (log s') = provider_calls (log s) + length chunks /\
        clock s' = (clock s + delays d (length chunks))%Z).
  { intros s client texts b d chunks Ho Hb Hc Hres.
    pose proof (@generateEmbeddings_clock s client texts b d chunks Ho Hb Hc Hres)
      as Hclock.
    destruct (@generateEmbeddings_resolved s client texts b d chunks Ho Hb Hc Hres)
      as (s' & Hs' & Hss' & Hl').
    rewrite Hs' in Hclock. cbn [snd] in Hclock.
    exists s'. split; [exact Hs'|]. split; [exact Hss'|]. split; [exact Hl'|].
    split; [|exact Hclock].
    now rewrite Hl', provider_calls_app, provider_calls_batch_events. }
  assert (Hpinned : forall s client texts b d chunks results,
      openai s = Some client ->
      (1 <= b)%Z ->
      chunkArray texts b = Some chunks ->
      Forall2 (embeds client (embeddingModel s)) chunks results ->
      exists s',
        generateEmbeddings texts (Some b) (Some d) s = (Return (concat results), s') /\
        same_store s s' /\
        log s' = log s ++ batch_events (embeddingModel s) d chunks /\
        provider_calls (log s') = provider_calls (log s) + length chunks /\
        clock s' = (clock s + delays d (length chunks))%Z).
  { intros s client texts b d chunks results Ho Hb Hc He.
    destruct (embeds_resolved He) as (Hres & Hflat).
    destruct (Hgeneral s client texts b d chunks Ho Hb Hc Hres) as (s' & Hs' & H).
    exists s'. split; [|exact H]. now rewrite <- Hflat. }
  assert (Hf : forall s client f texts b d,
      openai s = Some client ->
      (1 <= b)%Z ->
      (forall c, embeds client (embeddingModel s) c (map f c)) ->
      exists chunks s',
        chunkArray texts b = Some chunks /\
        Z.of_nat (length chunks) = ((Z.of_nat (length texts) + b - 1) / b)%Z /\
        generateEmbeddings texts (Some b) (Some d) s = (Return (map f texts), s') /\
        same_store s s' /\
        log s' = log s ++ batch_events (embeddingModel s) d chunks /\
        provider_calls (log s') = provider_calls (log s) + length chunks /\
        clock s' = (clock s + delays d (length chunks))%Z).
  { intros s client f texts b d Ho Hb He.
    destruct (chunkArray_spec texts Hb) as (chunks & Hc & Hcat & Hlen & _).
    assert (H2 : Forall2 (embeds client (embeddingModel s)) chunks
                   (map (map f) chunks)).
    { clear - He. induction chunks as [|c chunks IH]; cbn [map]; constructor;
        [apply He | exact IH]. }
    destruct (Hpinned s client texts b d chunks _ Ho Hb Hc H2) as (s' & Hs' & H).
    exists chunks, s'. split; [exact Hc|]. split; [exact Hlen|].
    split; [|exact H]. rewrite Hs'. now rewrite <- concat_map, Hcat. }
  split; [intros array b Hb; now apply chunkArray_spec|].
  split; [exact Hpinned|]. split; [|split; [|exact Hgeneral]].
  - intros s client f texts b d Ho Hb He.
    destruct (Hf s client f texts b d Ho Hb He)
      as (chunks & s' & _ & Hlen & Hs' & Hss' & _ & Hp & _).
    exists s'. split; [exact Hs'|]. split; [exact Hss'|]. rewrite Hp. lia.
  - intros s client f texts d Ho Hlen He.
    destruct (Hf s client f texts 5%Z d Ho ltac:(lia) He)
      as (chunks & s' & _ & Hn & Hs' & _ & Hl & Hp & Hclock).
    rewrite Hlen in Hn. change ((Z.of_nat 15 + 5 - 1) / 5)%Z with 3%Z in Hn.
    assert (H3 : length chunks = 3) by lia.
    exists s'. split; [exact Hs'|]. rewrite H3 in Hp, Hclock.
    split; [exact Hp|]. split; [|exact Hclock].
    rewrite Hl, filter_app. f_equal.
    destruct chunks as [|c1 [|c2 [|c3 [|c4 chunks]]]]; try discriminate.
    cbn [batch_events app]. destruct (0 <? d)%Z; reflexivity.
Qed.

Lemma batch_embedding_generation_witness :
  (openai reversing_store = Some reversing_openai /\ length fifteen_texts = 15) /\
  exists s',
    generateEmbeddings fifteen_texts (Some 5%Z) (Some 100%Z) reversing_store
    = (Return (map text_vector fifteen_texts), s') /\
    provider_calls (log s') = provider_calls (log reversing_store) + 3 /\
    List.filter (fun e => negb (is_request e)) (log s') =
    List.filter (fun e => negb (is_request e)) (log reversing_store)
    ++ [Delay 100; Delay 100] /\
    clock s' = (clock reversing_store + 200)%Z.
Proof.
  split; [split; reflexivity|].
  apply (proj1 (proj2 (proj2 (proj2 batch_embedding_generation)))
           reversing_store reversing_openai text_vector fifteen_texts 100%Z).
  - reflexivity.
  - reflexivity.
  - intros c. eexists. split; [reflexivity|].
    apply Permutation_sym, Permutation_rev.
Defined.

(** The batch test of the suite: 15 documents without embeddings,
    [batchSize] 5 and [batchDelay] 100 add 15 documents with 3 provider calls
    and 2 delays. *)
Example fifteen_documents_three_calls :
  let docs :=
    map (fun i => text_document (String (ascii_of_nat (65 + i)) "") "Content")
      (seq 0 15) in
  let s' :=
    perform
      (AddDocuments docs
         {| AddDocumentsOptions.createEmbedding := Some true;
            AddDocumentsOptions.batchSize := Some 5%Z;
            AddDocumentsOptions.batchDelay := Some 100%Z;
            AddDocumentsOptions.onProgress := false |})
      mock_store in
  Map_size (documents s') = 15 /\
  provider_calls (log s') = 3 /\
  List.filter (fun e => negb (is_request e)) (log s') = [Delay 100; Delay 100] /\
  clock s' = 200%Z.
Proof. vm_compute. repeat split. Qed.

(** ** The early validation of [addDocuments] *)

Lemma validateInput_outcome docs ce doc index s :
  validateInput docs ce doc index s = (Return tt, s) \/
  exists e, validateInput docs ce doc index s = (Throw e, s).
Proof.
  pose proof (readonly_validateInput docs ce doc index s) as Hs.
  destruct (validateInput docs ce doc index s) as [[[] | e | ] s'] eqn:E;
    simpl in Hs; subst s'; eauto.
  exfalso. revert E. unfold validateInput.
  destruct (blank (id doc)); [discriminate|].
  destruct (findIndex _ docs); [discriminate|].
  rewrite bind_get. destruct (Map_has _ _); [discriminate|].
  destruct ce.
  - destruct (_ && _); discriminate.
  - destruct (embedding doc) as [[|x e]|]; try discriminate.
    destruct (existsb _ _); [discriminate|].
    unfold bind. rewrite getEmbeddingDimensions_eq.
    pose proof (@dimension_of_not_Diverge (documents s)) as Hd.
    destruct (dimension_of (documents s)) as [[n|] | err | ];
      try discriminate; [|contradiction].
    destruct (negb _); discriminate.
Qed.

Lemma forEach_from_outcome {A} (f : A -> nat -> M unit) s :
  (forall x i, f x i s = (Return tt, s) \/ exists e, f x i s = (Throw e, s)) ->
  forall array i,
    forEach_from f array i s = (Return tt, s) \/
    exists e, forEach_from f array i s = (Throw e, s).
Proof.
  intros Hf. induction array as [|x xs IH]; intros i; simpl; [now left|].
  unfold bind. destruct (Hf x i) as [-> | (e & ->)]; [apply IH | eauto].
Qed.

Lemma forEach_from_throws {A} (f : A -> nat -> M unit) s :
  (forall x i, f x i s = (Return tt, s) \/ exists e, f x i s = (Throw e, s)) ->
  forall array i k x e,
    nth_error array k = Some x -> f x (i + k) s = (Throw e, s) ->
    exists e', forEach_from f array i s = (Throw e', s).
Proof.
  intros Hf. induction array as [|y ys IH]; intros i k x e Hk He.
  - destruct k; discriminate.
  - simpl. unfold bind. destruct k as [|k].
    + simpl in Hk. inversion Hk; subst y. rewrite Nat.add_0_r in He.
      rewrite He. eauto.
    + destruct (Hf y i) as [-> | (e' & ->)]; [|eauto].
      apply (IH (S i) k x e); [exact Hk|].
      now replace (S i + k) with (i + S k) by lia.
Qed.

Lemma forEach_from_app {A} (f : A -> nat -> M unit) s pre :
  forall rest i,
    (forall k x, nth_error pre k = Some x -> f x (i + k) s = (Return tt, s)) ->
    forEach_from f (pre ++ rest) i s = forEach_from f rest (i + length pre) s.
Proof.
  induction pre as [|y ys IH]; intros rest i H; simpl.
  - now rewrite Nat.add_0_r.
  - unfold bind. pose proof (H 0 y eq_refl) as H0. rewrite Nat.add_0_r in H0.
    rewrite H0. rewrite IH.
    + f_equal. lia.
    + intros k x Hk. replace (S i + k) with (i + S k) by lia. now apply H.
Qed.

Lemma findIndex_from_exists {A} (p : A -> nat -> bool) array :
  forall i k x,
    nth_error array k = Some x -> p x (i + k) = true ->
    exists j, findIndex_from p array i = Some j.
Proof.
  induction array as [|y ys IH]; intros i k x Hk Hp.
  - destruct k; discriminate.
  - simpl. destruct (p y i) eqn:E; [eauto|].
    destruct k as [|k].
    + simpl in Hk. inversion Hk; subst y. rewrite Nat.add_0_r in Hp. congruence.
    + apply (IH (S i) k x); [exact Hk|].
      now replace (S i + k) with (i + S k) by lia.
Qed.

Lemma validateInput_conflict docs ce doc index s :
  (exists j other, j <> index /\ nth_error docs j = Some other /\ id other = id doc)
  \/ Map_has (documents s) (id doc) = true ->
  exists e, validateInput docs ce doc index s = (Throw e, s).
Proof.
  intros H. unfold validateInput.
  destruct (blank (id doc)); [eexists; reflexivity|].
  destruct (findIndex _ docs) eqn:F; [eexists; reflexivity|].
  destruct H as [(j & other & Hj & Hn & Hid) | H].
  - exfalso. unfold findIndex in F.
    destruct (@findIndex_from_exists _
                (fun otherDoc otherIndex =>
                   negb (Nat.eqb otherIndex index)
                   && String.eqb (id otherDoc) (id doc)) docs 0 j other Hn)
      as (j' & Hj'); [|congruence].
    simpl. rewrite Hid, String.eqb_refl, andb_true_r.
    apply negb_true_iff. now apply Nat.eqb_neq.
  - rewrite bind_get, H. eexists; reflexivity.
Qed.

Lemma early_validation_conflict s docs ce :
  duplicate_in_batch docs \/ collides_with_store s docs ->
  exists e, forEach (validateInput docs ce) docs s = (Throw e, s).
Proof.
  intros H. unfold forEach.
  assert (Hex : exists k x e, nth_error docs k = Some x /\
                              validateInput docs ce x k s = (Throw e, s)).
  { destruct H as [(i & j & d1 & d2 & Hij & Hi & Hj & Hid) | (d & Hin & Hhas)].
    - destruct (@validateInput_conflict docs ce d1 i s) as (e & He).
      { left. exists j, d2. auto. }
      eauto.
    - destruct (In_nth_error _ _ Hin) as (k & Hk).
      destruct (@validateInput_conflict docs ce d k s) as (e & He); [now right|].
      eauto. }
  destruct Hex as (k & x & e & Hk & He).
  apply (@forEach_from_throws _ (validateInput docs ce) s
           (fun x i => validateInput_outcome docs ce x i s) docs 0 k x e Hk He).
Qed.

Lemma addDocuments_early_failure s docs options e :
  docs <> [] ->
  forEach (validateInput docs
             (default false (AddDocumentsOptions.createEmbedding options)))
    docs s = (Throw e, s) ->
  addDocuments docs options s = (Throw e, s).
Proof.
  intros Hne H. unfold addDocuments. rewrite bind_get.
  destruct docs as [|d docs']; [contradiction|]. cbn [length Nat.eqb].
  now erewrite bind_Throw by exact H.
Qed.

Lemma findIndex_from_Some {A} (p : A -> nat -> bool) array :
  forall i j,
    findIndex_from p array i = Some j ->
    exists x, i <= j /\ nth_error array (j - i) = Some x /\ p x j = true.
Proof.
  induction array as [|y ys IH]; intros i j H; [discriminate|].
  simpl in H. destruct (p y i) eqn:E.
  - inversion H; subst j. exists y. rewrite Nat.sub_diag. auto.
  - destruct (IH (S i) j H) as (x & Hle & Hn & Hp).
    exists x. split; [lia|]. split; [|exact Hp].
    replace (j - i) with (S (j - S i)) by lia. exact Hn.
Qed.

Lemma validateInput_at s pre doc post ce :
  (forall k d, nth_error pre k = Some d ->
               validateInput (pre ++ doc :: post) ce d k s = (Return tt, s)) ->
  forEach (validateInput (pre ++ doc :: post) ce) (pre ++ doc :: post) s =
  bind (validateInput (pre ++ doc :: post) ce doc (length pre))
    (fun _ => forEach_from (validateInput (pre ++ doc :: post) ce) post
                (S (length pre))) s.
Proof.
  intros H. unfold forEach. rewrite forEach_from_app by exact H. reflexivity.
Qed.

(** C8, as the specification states it, fails when an earlier document of the batch
    fails another check: the call reports that failure, not the duplicate. *)
Lemma earlier_failure_hides_duplicate :
  fst (addDocuments
         [text_document "doc0" ""; text_document "doc1" "Hello world";
          text_document "doc1" "Hello again"]
         {| AddDocumentsOptions.createEmbedding := Some true;
            AddDocumentsOptions.batchSize := None;
            AddDocumentsOptions.batchDelay := None;
            AddDocumentsOptions.onProgress := false |}
         mock_store)
  = Throw (ContentRequiredAt 0 "doc0").
Proof. reflexivity. Qed.

(** An id is blank when it is empty or made of white space only, in the
    sense of [trim]: U+00A0 is white space as U+0020 is. *)
Example blank_ids :
  blank "" = true /\ blank " " = true /\
  blank (String "194" (String "160" "")) = true /\
  blank (String "009" (String "226" (String "128" (String "168" "")))) = true /\
  blank (String "239" (String "187" (String "191" " "))) = true /\
  blank "doc1" = false /\ blank " doc 1 " = false /\
  blank (String "195" (String "160" "")) = false.
Proof. repeat split. Qed.

(** Two documents that share an id made of U+00A0 are refused for the id,
    not as duplicates. *)
Example white_space_id_is_invalid :
  addDocuments
    [text_document (String "194" (String "160" "")) "Hello world";
     text_document (String "194" (String "160" "")) "Hello again"]
    {| AddDocumentsOptions.createEmbedding := Some true;
       AddDocumentsOptions.batchSize := None;
       AddDocumentsOptions.batchDelay := None;
       AddDocumentsOptions.onProgress := false |}
    mock_store
  = (Throw (InvalidIdAt 0), mock_store).
Proof. reflexivity. Qed.

(** C8. When two documents of the batch share an id, or an id of the batch
    is in the table, [addDocuments] throws and leaves the whole state as it
    was: the table, and the log, so no provider call is made. The error is
    the one of the first document, in batch order, that fails the early
    validation: when the documents before [doc] pass it and the id of [doc]
    is not blank, it is "Duplicate document ID" with the index of [doc] and
    the first other index that carries its id, or, when no other index does
    and the table holds the id, "already exists in store"; when the id of
    [doc] is blank, that is, empty or white space only, it is the error of
    the id, whoever shares it; in general it is the error of the check that
    fails for the first failing document. *)
Theorem duplicate_ids_rejected :
  (forall s docs options,
      duplicate_in_batch docs \/ collides_with_store s docs ->
      exists e, addDocuments docs options s = (Throw e, s)) /\
  (forall s pre doc post options j,
      (forall k d,
          nth_error pre k = Some d ->
          validateInput (pre ++ doc :: post)
            (default false (AddDocumentsOptions.createEmbedding options)) d k s
          = (Return tt, s)) ->
      blank (id doc) = false ->
      findIndex (same_id_elsewhere doc (length pre)) (pre ++ doc :: post) = Some j ->
      addDocuments (pre ++ doc :: post) options s =
      (Throw (DuplicateId (id doc) (length pre) j), s)) /\
  (forall s pre doc post options,
      (forall k d,
          nth_error pre k = Some d ->
          validateInput (pre ++ doc :: post)
            (default false (AddDocumentsOptions.createEmbedding options)) d k s
          = (Return tt, s)) ->
      blank (id doc) = false ->
      findIndex (same_id_elsewhere doc (length pre)) (pre ++ doc :: post) = None ->
      Map_has (documents s) (id doc) = true ->
      addDocuments (pre ++ doc :: post) options s =
      (Throw (AlreadyExists (id doc)), s)) /\
  (forall docs doc index j,
      findIndex (same_id_elsewhere doc index) docs = Some j ->
      j <> index /\
      exists other, nth_error docs j = Some other /\ id other = id doc) /\
  (forall s pre doc post options e,
      (forall k d,
          nth_error pre k = Some d ->
          validateInput (pre ++ doc :: post)
            (default false (AddDocumentsOptions.createEmbedding options)) d k s
          = (Return tt, s)) ->
      validateInput (pre ++ doc :: post)
        (default false (AddDocumentsOptions.createEmbedding options)) doc
        (length pre) s = (Throw e, s) ->
      addDocuments (pre ++ doc :: post) options s = (Throw e, s)) /\
  (forall s pre doc post options,
      (forall k d,
          nth_error pre k = Some d ->
          validateInput (pre ++ doc :: post)
            (default false (AddDocumentsOptions.createEmbedding options)) d k s
          = (Return tt, s)) ->
      blank (id doc) = true ->
      addDocuments (pre ++ doc :: post) options s =
      (Throw (InvalidIdAt (length pre)), s)).
Proof.
  split; [|split; [|split; [|split; [|split]]]].
  6:{ intros s pre doc post options Hpre Hb.
      apply addDocuments_early_failure; [now destruct pre|].
      rewrite validateInput_at by exact Hpre.
      unfold bind at 1. unfold validateInput at 1. now rewrite Hb. }
  - intros s docs options H.
    destruct (@early_validation_conflict s docs
                (default false (AddDocumentsOptions.createEmbedding options)) H)
      as (e & He).
    exists e. apply addDocuments_early_failure; [|exact He].
    destruct H as [(i & j & d1 & d2 & _ & Hi & _) | (d & Hin & _)];
      intros ->; [destruct i; discriminate | contradiction].
  - intros s pre doc post options j Hpre Hb Hf.
    apply addDocuments_early_failure; [now destruct pre|].
    rewrite validateInput_at by exact Hpre.
    unfold bind at 1. unfold validateInput at 1. rewrite Hb.
    unfold same_id_elsewhere in Hf. now rewrite Hf.
  - intros s pre doc post options Hpre Hb Hf Hh.
    apply addDocuments_early_failure; [now destruct pre|].
    rewrite validateInput_at by exact Hpre.
    unfold bind at 1. unfold validateInput at 1. rewrite Hb.
    unfold same_id_elsewhere in Hf. rewrite Hf, bind_get, Hh. reflexivity.
  - intros docs doc index j H. unfold findIndex in H.
    apply findIndex_from_Some in H. destruct H as (x & _ & Hn & Hp).
    rewrite Nat.sub_0_r in Hn. unfold same_id_elsewhere in Hp.
    apply andb_true_iff in Hp. destruct Hp as [Hne Hid].
    apply negb_true_iff, Nat.eqb_neq in Hne. apply String.eqb_eq in Hid.
    split; [exact Hne|]. now exists x.
  - intros s pre doc post options e Hpre He.
    apply addDocuments_early_failure; [now destruct pre|].
    rewrite validateInput_at by exact Hpre.
    unfold bind at 1. now rewrite He.
Qed.

Lemma duplicate_ids_rejected_witness :
  (duplicate_in_batch
     [text_document "doc1" "Hello world"; text_document "doc1" "Hello again"] /\
   blank (id (text_document "doc1" "Hello world")) = false /\
   findIndex (same_id_elsewhere (text_document "doc1" "Hello world") 0)
     [text_document "doc1" "Hello world"; text_document "doc1" "Hello again"]
   = Some 1) /\
  (exists e,
      addDocuments
        [text_document "doc1" "Hello world"; text_document "doc1" "Hello again"]
        {| AddDocumentsOptions.createEmbedding := Some true;
           AddDocumentsOptions.batchSize := None;
           AddDocumentsOptions.batchDelay := None;
           AddDocumentsOptions.onProgress := false |}
        mock_store = (Throw e, mock_store)) /\
  addDocuments
    [text_document "doc1" "Hello world"; text_document "doc1" "Hello again"]
    {| AddDocumentsOptions.createEmbedding := Some true;
       AddDocumentsOptions.batchSize := None;
       AddDocumentsOptions.batchDelay := None;
       AddDocumentsOptions.onProgress := false |}
    mock_store
  = (Throw (DuplicateId "doc1" 0 1), mock_store).
Proof.
  assert (Hd : duplicate_in_batch
                 [text_document "doc1" "Hello world";
                  text_document "doc1" "Hello again"]).
  { exists 0, 1. do 2 eexists. repeat split; discriminate. }
  split; [split; [exact Hd | split; reflexivity]|]. split.
  - apply (proj1 duplicate_ids_rejected). now left.
  - apply (proj1 (proj2 duplicate_ids_rejected) mock_store []
             (text_document "doc1" "Hello world")
             [text_document "doc1" "Hello again"]).
    + intros [|k] d H; discriminate.
    + reflexivity.
    + reflexivity.
Defined.

(** ** How calls change the table *)

Lemma keeps_store_separate docs :
  forall needing withE, keeps_store (separate docs needing withE).
Proof.
  induction docs as [|d docs IH]; intros needing withE; simpl; frame;
    try apply IH; apply readonly_keeps_store; frame.
Qed.

Lemma keeps_store_progress_loop d n total batches :
  forall i processed generated,
    keeps_store (progress_loop d n total batches i processed generated).
Proof.
  induction batches as [|b bs IH]; intros i processed generated; simpl; frame;
    apply IH.
Qed.

Lemma keeps_store_generate_for needing b d p :
  keeps_store (generate_for needing b d p).
Proof.
  unfold generate_for. frame. apply keeps_store_progress_loop.
Qed.

Lemma readonly_validate_generated g : readonly (validate_generated g).
Proof. unfold validate_generated. frame. Qed.

Lemma keeps_store_embed_documents docs b d p :
  keeps_store (embed_documents docs b d p).
Proof.
  unfold embed_documents. frame.
  - apply keeps_store_separate.
  - apply keeps_store_generate_for.
  - apply readonly_keeps_store, readonly_validate_generated.
Qed.

Lemma readonly_check_batch expectedDim final : readonly (check_batch expectedDim final).
Proof.
  unfold check_batch. frame. unfold forEach.
  apply readonly_forEach_from. intros x i. frame.
Qed.

Lemma forEach_from_Return {A} (f : A -> nat -> M unit) array :
  forall i s s',
    (forall x j, readonly (f x j)) ->
    forEach_from f array i s = (Return tt, s') ->
    forall x, In x array -> exists j, f x j s = (Return tt, s).
Proof.
  induction array as [|y ys IH]; intros i s s' Hf H x Hx; [contradiction|].
  simpl in H. apply bind_inv_Return in H. destruct H as ([] & s1 & Hy & H).
  assert (s1 = s).
  { change s1 with (snd (Return tt, s1)). rewrite <- Hy. apply Hf. }
  subst s1. destruct Hx as [<- | Hx]; [eauto|].
  eapply IH; eauto.
Qed.

Lemma check_batch_Return expectedDim final s s' :
  check_batch expectedDim final s = (Return tt, s') ->
  final = [] \/
  exists n,
    Forall (fun d => exists e, embedding d = Some e /\ length e = n) final /\
    (forall k, expectedDim = Some k -> n = k).
Proof.
  destruct final as [|first others]; [now left|]. intros H. right.
  unfold check_batch in H.
  apply bind_inv_Return in H. destruct H as (n & s1 & Hfirst & H).
  unfold embedding_length in Hfirst.
  destruct (embedding first) as [e0|] eqn:E0; [|discriminate].
  inversion Hfirst; subst n s1. clear Hfirst.
  apply bind_inv_Return in H. destruct H as ([] & s2 & Hothers & H).
  exists (length e0). split.
  - constructor; [eauto|]. apply Forall_forall. intros d Hd.
    unfold forEach in Hothers.
    eapply forEach_from_Return in Hothers; [|intros x i; frame | exact Hd].
    destruct Hothers as (j & Hj).
    unfold bind, embedding_length in Hj.
    destruct (embedding d) as [e|]; [|discriminate]. cbn [ret] in Hj.
    destruct (Nat.eqb (length e) (length e0)) eqn:L; [|discriminate].
    apply Nat.eqb_eq in L. eauto.
  - intros k ->. destruct (Nat.eqb (length e0) k) eqn:L; [|discriminate].
    now apply Nat.eqb_eq in L.
Qed.

Lemma store_loop now final :
  forall i s,
    forEach_from
      (fun doc (_ : nat) =>
         documents_set (id doc)
           (with_timestamps doc (Some (or_Date (createdAt doc) now)) (Some now)))
      final i s =
    (Return tt,
     set_documents s
       (fold_left (fun t d => Map_set t (id d) d)
          (map (fun doc =>
                  with_timestamps doc (Some (or_Date (createdAt doc) now))
                    (Some now)) final)
          (documents s))).
Proof.
  induction final as [|d final IH]; intros i s; simpl.
  - unfold ret. f_equal. now destruct s.
  - unfold bind, documents_set, modify. rewrite IH. reflexivity.
Qed.

Lemma store_batch_eq now final s :
  store_batch now final s =
  (Return tt,
   set_documents s
     (fold_left (fun t d => Map_set t (id d) d)
        (map (fun doc =>
                with_timestamps doc (Some (or_Date (createdAt doc) now))
                  (Some now)) final)
        (documents s))).
Proof. unfold store_batch, try_catch, forEach. now rewrite store_loop. Qed.

Lemma addDocuments_table_step docs options s :
  table_step (documents s) (documents (snd (addDocuments docs options s))).
Proof.
  unfold addDocuments. rewrite bind_get.
  destruct (Nat.eqb (length docs) 0); [now left|].
  set (ce := default false (AddDocumentsOptions.createEmbedding options)).
  unfold bind at 1.
  destruct (@forEach_from_outcome _ (validateInput docs ce) s
              (fun x i => validateInput_outcome docs ce x i s) docs 0)
    as [Hv | (e & Hv)]; unfold forEach; rewrite Hv; [|now left].
  unfold bind at 1.
  set (compute := if ce then embed_documents docs _ _ _ else ret docs).
  assert (Hk : keeps_store compute).
  { subst compute. destruct ce; [apply keeps_store_embed_documents | frame]. }
  specialize (Hk s).
  destruct (compute s) as [[final | e | ] s1]; cbn [snd] in *;
    try (left; apply Hk).
  destruct Hk as (Hd & _).
  unfold bind at 1. rewrite getEmbeddingDimensions_eq, Hd.
  destruct (dimension_of (documents s)) as [expectedDim | e | ] eqn:D;
    cbn [snd]; try (left; congruence).
  unfold bind at 1. cbn [new_Date].
  unfold bind at 1.
  pose proof (readonly_check_batch expectedDim final s1) as Hr.
  destruct (check_batch expectedDim final s1) as [[[] | e | ] s2] eqn:C;
    cbn [snd] in *; subst s2; try (left; congruence).
  rewrite store_batch_eq. cbn [snd documents set_documents]. rewrite Hd.
  apply check_batch_Return in C. destruct C as [-> | (n & Hall & Hexp)].
  - now left.
  - right. right. right. exists n. eexists. split; [|split; [|reflexivity]].
    + unfold accepts. rewrite D. destruct expectedDim as [k|]; [|now left].
      right. now rewrite (Hexp k eq_refl).
    + apply Forall_forall. intros d Hd'. apply in_map_iff in Hd'.
      destruct Hd' as (d0 & <- & Hin).
      rewrite Forall_forall in Hall. destruct (Hall d0 Hin) as (e & He & Hl).
      exists e. auto.
Qed.

Lemma keeps_store_resolve_query query : keeps_store (resolve_query query).
Proof. unfold resolve_query. frame. Qed.

Lemma keeps_store_search query options : keeps_store (search query options).
Proof.
  unfold search. frame; apply keeps_store_resolve_query.
Qed.

Lemma keeps_store_searchWithPagination query options :
  keeps_store (searchWithPagination query options).
Proof.
  unfold searchWithPagination. frame; apply keeps_store_resolve_query.
Qed.

Lemma keeps_store_findMostSimilar query method :
  keeps_store (findMostSimilar query method).
Proof. unfold findMostSimilar. frame. apply keeps_store_search. Qed.

Lemma table_step_set m n key d e :
  accepts m n -> embedding d = Some e -> length e = n -> id d = key ->
  table_step m (Map_set m key d).
Proof.
  intros Ha He Hl Hk. right. right. right. exists n, [d].
  split; [exact Ha|]. split; [repeat constructor; eauto|].
  simpl. now rewrite Hk.
Qed.

Lemma perform_table_step c s : table_step (documents s) (documents (perform c s)).
Proof.
  destruct c as [doc ce | docs options | doc ce | key | | query options
                | query options | query method | text | texts b d | model | b | d];
    cbn [perform].
  - destruct (addDocument doc ce s) as [[[] | e | ] s'] eqn:E.
    + apply addDocument_Return in E.
      destruct E as (e & s1 & _ & _ & _ & Ha & ->). cbn [snd documents set_documents].
      now apply table_step_set with (n := length e) (e := e).
    + left. pose proof (@addDocument_not_Return doc ce s) as H.
      rewrite E in H. apply H. discriminate.
    + left. pose proof (@addDocument_not_Return doc ce s) as H.
      rewrite E in H. apply H. discriminate.
  - apply addDocuments_table_step.
  - destruct (updateDocument doc ce s) as [[r | e | ] s'] eqn:E.
    + apply updateDocument_Return in E.
      destruct E as [(_ & -> & _) | (_ & ex & e & s1 & _ & _ & _ & _ & Ha & ->)];
        [now left|].
      cbn [snd documents set_documents].
      now apply table_step_set with (n := length e) (e := e).
    + left. pose proof (@updateDocument_not_Return doc ce s) as H.
      rewrite E in H. apply H. intros r. discriminate.
    + left. pose proof (@updateDocument_not_Return doc ce s) as H.
      rewrite E in H. apply H. intros r. discriminate.
  - right. left. now exists key.
  - right. right. now left.
  - left. apply keeps_store_search.
  - left. apply keeps_store_searchWithPagination.
  - left. apply keeps_store_findMostSimilar.
  - left. apply keeps_store_generateEmbedding.
  - left. apply keeps_store_generateEmbeddings.
  - now left.
  - left. unfold setDefaultBatchSize. now destruct (b <=? 0)%Z.
  - left. unfold setDefaultBatchDelay. now destruct (d <? 0)%Z.
Qed.

Lemma all_dimension_fold n news :
  Forall (fun d => exists e, embedding d = Some e /\ length e = n) news ->
  forall m,
    all_dimension n m ->
    all_dimension n (fold_left (fun t d => Map_set t (id d) d) news m).
Proof.
  induction 1 as [|d news (e & He & Hl) _ IH]; intros m Hm; simpl; [exact Hm|].
  apply IH. now apply all_dimension_set with (e := e).
Qed.

Lemma fold_set_not_nil (news : list VectorDocument) :
  forall m, m <> [] -> fold_left (fun t d => Map_set t (id d) d) news m <> [].
Proof.
  induction news as [|d news IH]; intros m Hm; simpl; [exact Hm|].
  apply IH, Map_set_not_nil.
Qed.

Lemma table_step_all_dimension m m' :
  dimension_consistent m -> table_step m m' ->
  m' = [] \/ exists n, m' <> [] /\ all_dimension n m' /\
                       (forall k, dimension_of m = Return (Some k) -> k = n).
Proof.
  intros Hc [-> | [(key & ->) | [-> | (n & news & Ha & Hall & ->)]]].
  - destruct (consistent_dimension_of Hc) as [[-> _] | (n & Hne & Hd & Hn)];
      [now left | right].
    exists n. repeat split; auto. intros k Hk. congruence.
  - destruct (consistent_dimension_of Hc) as [[-> _] | (n & Hne & Hd & Hn)];
      [now left|].
    destruct (Map_delete m key) eqn:E; [now left | right].
    exists n. split; [discriminate|]. split.
    + intros d Hd'. apply Hn. rewrite <- E in Hd'.
      eapply In_values_delete; eauto.
    + intros k Hk. congruence.
  - now left.
  - pose proof (accepts_all_dimension Hc Ha) as Hm.
    destruct news as [|d news]; simpl.
    + destruct m as [|x m]; [now left | right].
      exists n. split; [discriminate|]. split; [exact Hm|].
      intros k Hk. destruct Ha as [Ha | Ha]; rewrite Ha in Hk; congruence.
    + right. exists n. split; [apply fold_set_not_nil, Map_set_not_nil|]. split.
      * inversion Hall as [|? ? (e & He & Hl) Hall']; subst.
        apply all_dimension_fold; [exact Hall'|].
        now apply all_dimension_set with (e := e).
      * intros k Hk. destruct Ha as [Ha | Ha]; rewrite Ha in Hk; congruence.
Qed.

Lemma table_step_consistent m m' :
  dimension_consistent m -> table_step m m' -> dimension_consistent m'.
Proof.
  intros Hc Hs. destruct (table_step_all_dimension Hc Hs) as [-> | (n & _ & Hn & _)].
  - intros d1 d2 [].
  - eapply all_dimension_consistent; eauto.
Qed.

Lemma reachable_if_weaken (P Q : VectorDocument -> VectorDocument -> Prop) s :
  (forall d d', P d d' -> Q d d') -> reachable_if P s -> reachable_if Q s.
Proof.
  intros HPQ. induction 1 as [options now | c s _ IH | t s _ IH
                             | key d d' s _ IH Hg Ha].
  - apply reachable_new.
  - now apply reachable_call.
  - now apply reachable_later.
  - apply reachable_shared with (d := d); auto.
Qed.

Lemma reachable_if_reachable P s : reachable_if P s -> reachable s.
Proof. apply reachable_if_weaken. auto. Qed.

Lemma same_dimension_embedding d d' e :
  same_dimension d d' -> embedding d = Some e ->
  exists e', embedding d' = Some e' /\ length e' = length e.
Proof.
  unfold same_dimension. intros H E. rewrite E in H.
  destruct (embedding d') as [e'|]; [|discriminate].
  exists e'. split; [reflexivity|]. cbn in H. now inversion H.
Qed.

Lemma shared_change_consistent m key d d' :
  dimension_consistent m -> Map_get m key = Some d -> same_dimension d d' ->
  dimension_consistent (Map_set m key d').
Proof.
  intros Hc Hg Hs. apply Map_get_In in Hg.
  destruct (Hc d d Hg Hg) as (e & _ & E & _ & _).
  destruct (same_dimension_embedding Hs E) as (e' & E' & L').
  assert (H : forall x, In x (Map_values (Map_set m key d')) ->
                        exists ex, embedding x = Some ex /\ length ex = length e).
  { intros x Hx. apply In_values_set in Hx. destruct Hx as [-> | Hx].
    - now exists e'.
    - destruct (Hc x d Hx Hg) as (ex & e0 & Ex & E0 & L).
      exists ex. split; [exact Ex|]. congruence. }
  intros d1 d2 H1 H2.
  destruct (H d1 H1) as (e1 & E1 & L1), (H d2 H2) as (e2 & E2 & L2).
  exists e1, e2. repeat split; congruence.
Qed.

Lemma reachable_consistent s :
  reachable_if same_dimension s -> dimension_consistent (documents s).
Proof.
  induction 1 as [options now | c s _ IH | t s _ IH | key d d' s _ IH Hg Ha].
  - intros d1 d2 [].
  - eapply table_step_consistent; [exact IH | apply perform_table_step].
  - exact IH.
  - now apply shared_change_consistent with (d := d).
Qed.

(** ** The dimension invariant *)

(** C1, as the specification states it, fails for its last part: removing the only
    document unsets the dimension as [clear] does, and the next document
    fixes another one. *)
Lemma dimension_changes_without_clear :
  let s1 := store_of [sample_document "doc1" [1; 0; 0]%float] in
  let s2 := perform (RemoveDocument "doc1") s1 in
  let s3 := perform (AddDocument (sample_document "doc2" [1; 0]%float) None) s2 in
  fst (getEmbeddingDimensions s1) = Return (Some 3) /\
  fst (getEmbeddingDimensions s2) = Return None /\
  fst (getEmbeddingDimensions s3) = Return (Some 2).
Proof. repeat split. Qed.

(** C1. As long as no holder of a stored document, or of the embedding
    array it shares with the caller, changes the length of an embedding, in
    every reachable state any two documents of the table have embeddings of
    equal length; and every call keeps it so, whatever the state it starts
    from. The dimension of the table is the length of the embedding of each
    of its documents; no call changes it as long as the table holds a
    document after the call; it is unset on a table without documents, be
    it new, cleared, or emptied by removing its last document. The proviso
    is needed: the table holds the caller's array and hands out its
    objects, so a component pushed to the embedding of a stored document
    leaves a reachable table whose documents differ in length when it holds
    another document, and changes the dimension of a table that holds it
    first, with no call made. *)
Theorem dimension_invariant :
  (forall s, reachable_if same_dimension s -> dimension_consistent (documents s)) /\
  (forall s c,
      dimension_consistent (documents s) ->
      dimension_consistent (documents (perform c s))) /\
  (forall s c n,
      dimension_consistent (documents s) ->
      fst (getEmbeddingDimensions s) = Return (Some n) ->
      documents (perform c s) <> [] ->
      fst (getEmbeddingDimensions (perform c s)) = Return (Some n)) /\
  (forall s d,
      reachable_if same_dimension s ->
      In d (Map_values (documents s)) ->
      exists e,
        embedding d = Some e /\
        fst (getEmbeddingDimensions s) = Return (Some (length e))) /\
  (forall options now,
      fst (getEmbeddingDimensions (constructor options now)) = Return None) /\
  (forall s, fst (getEmbeddingDimensions (perform Clear s)) = Return None) /\
  (forall s key d,
      documents s = [(key, d)] ->
      fst (getEmbeddingDimensions (perform (RemoveDocument key) s)) = Return None) /\
  (forall s key d e x other d2,
      reachable_if same_dimension s ->
      Map_get (documents s) key = Some d -> embedding d = Some e ->
      other <> key -> Map_get (documents s) other = Some d2 ->
      let s' := shared_object_changed key (with_embedding d (Some (e ++ [x]))) s in
      reachable s' /\ ~ dimension_consistent (documents s')) /\
  (forall s key d e x rest,
      reachable_if same_dimension s ->
      documents s = (key, d) :: rest -> embedding d = Some e ->
      let s' := shared_object_changed key (with_embedding d (Some (e ++ [x]))) s in
      reachable s' /\ documents s' <> [] /\
      fst (getEmbeddingDimensions s) = Return (Some (length e)) /\
      fst (getEmbeddingDimensions s') = Return (Some (S (length e)))).
Proof.
  split; [exact reachable_consistent|].
  split; [intros s c H; eapply table_step_consistent;
          [exact H | apply perform_table_step]|].
  split; [|split; [|split; [|split; [|split; [|split]]]]].
  - intros s c n Hc Hn Hne.
    rewrite getEmbeddingDimensions_eq in *. cbn [fst] in *.
    destruct (table_step_all_dimension Hc (perform_table_step c s))
      as [He | (k & _ & Hk & Hsame)]; [contradiction|].
    rewrite (Hsame n Hn). now apply dimension_of_all.
  - intros s d Hr Hd. apply reachable_consistent in Hr.
    destruct (consistent_dimension_of Hr) as [[He _] | (n & Hne & Hn & Hall)].
    + rewrite He in Hd. contradiction.
    + destruct (Hall d Hd) as (e & He & Hl). exists e. split; [exact He|].
      rewrite getEmbeddingDimensions_eq. cbn [fst]. now rewrite Hl.
  - reflexivity.
  - reflexivity.
  - intros s key d H. rewrite getEmbeddingDimensions_eq. cbn [fst perform].
    unfold removeDocument, bind, get, documents_delete, modify, ret.
    cbn [snd documents set_documents]. rewrite H. cbn [Map_delete].
    now rewrite String.eqb_refl.
  - intros s key d e x other d2 Hr Hg He Hne Hg2 s'. split.
    + apply reachable_shared with (d := d);
        [now apply reachable_if_reachable with (P := same_dimension) | exact Hg | exact I].
    + intros Hc.
      assert (H1 : In (with_embedding d (Some (e ++ [x])))
                     (Map_values (documents s'))).
      { apply Map_get_In with (k := key). apply Map_get_set_same. }
      assert (H2 : In d2 (Map_values (documents s'))).
      { apply Map_get_In with (k := other). unfold s', shared_object_changed.
        cbn [documents set_documents]. now rewrite Map_get_set_other. }
      destruct (Hc _ _ H1 H2) as (e1 & e2 & E1 & E2 & L).
      cbn [embedding with_embedding] in E1. inversion E1; subst e1.
      apply reachable_consistent in Hr.
      destruct (Hr d d2 (Map_get_In _ _ Hg) (Map_get_In _ _ Hg2))
        as (e0 & e2' & E0 & E2' & L0).
      rewrite length_app in L. cbn [length] in L.
      assert (e0 = e) by congruence. assert (e2' = e2) by congruence.
      subst. lia.
  - intros s key d e x rest Hr Hd He s'.
    assert (Hg : Map_get (documents s) key = Some d).
    { rewrite Hd. cbn [Map_get]. now rewrite String.eqb_refl. }
    assert (Hs' : documents s' = (key, with_embedding d (Some (e ++ [x]))) :: rest).
    { unfold s', shared_object_changed. cbn [documents set_documents].
      rewrite Hd. cbn [Map_set]. now rewrite String.eqb_refl. }
    split; [|split; [|split]].
    + apply reachable_shared with (d := d);
        [now apply reachable_if_reachable with (P := same_dimension) | exact Hg | exact I].
    + rewrite Hs'. discriminate.
    + rewrite getEmbeddingDimensions_eq. cbn [fst]. unfold dimension_of.
      rewrite Hd. cbn [Map_values map snd]. now rewrite He.
    + rewrite getEmbeddingDimensions_eq. cbn [fst]. unfold dimension_of.
      rewrite Hs'. cbn [Map_values map snd embedding with_embedding].
      rewrite length_app. cbn [length]. do 2 f_equal. lia.
Qed.

Lemma dimension_invariant_witness :
  reachable_if same_dimension
    (store_of [sample_document "doc1" [1; 0; 0]%float;
               sample_document "doc2" [0; 1; 0]%float]) /\
  dimension_consistent
    (documents (store_of [sample_document "doc1" [1; 0; 0]%float;
                          sample_document "doc2" [0; 1; 0]%float])) /\
  fst (getEmbeddingDimensions
         (perform (RemoveDocument "doc1")
            (store_of [sample_document "doc1" [1; 0; 0]%float;
                       sample_document "doc2" [0; 1; 0]%float])))
  = Return (Some 3).
Proof.
  assert (Hr : reachable_if same_dimension
                 (store_of [sample_document "doc1" [1; 0; 0]%float;
                            sample_document "doc2" [0; 1; 0]%float])).
  { unfold store_of. cbn [fold_left].
    apply reachable_call, reachable_call, reachable_new. }
  split; [exact Hr|]. split.
  - apply (proj1 dimension_invariant). exact Hr.
  - apply (proj1 (proj2 (proj2 dimension_invariant))).
    + apply (proj1 dimension_invariant). exact Hr.
    + reflexivity.
    + discriminate.
Defined.

(** ** The scenarios of the test suite *)

Example dimension_mismatch_reported :
  fst (addDocument (sample_document "doc2" [0.1; 0.2]%float) None
         (store_of [sample_document "doc1" [0.1; 0.2; 0.3]%float]))
  = Throw (DimensionMismatch 2 (Some 3)).
Proof. reflexivity. Qed.

Example threshold_excludes_all :
  fst (search (QueryVector [1; 1; 1]%float)
         {| limit := None; threshold := Some 0.99%float; similarityMethod := None;
            metadataFilter := None; page := None; pageSize := None |}
         (store_of [sample_document "doc1" [0.1; 0.2; 0.3]%float;
                    sample_document "doc2" [0.2; 0.3; 0.4]%float]))
  = Return [].
Proof. vm_compute. reflexivity. Qed.

Example invalid_documents_rejected :
  fst (addDocument (sample_document "" [0.1; 0.2; 0.3]%float) None empty_store)
  = Throw MustHaveId /\
  fst (addDocument (sample_document "doc1" []) None empty_store)
  = Throw MustHaveEmbedding /\
  fst (addDocument (sample_document "doc1" [nan; 0.2; 0.3]%float) None empty_store)
  = Throw NonFiniteEmbedding.
Proof. repeat split. Qed.

Example progress_is_reported :
  let docs :=
    map (fun i => text_document (String (ascii_of_nat (65 + i)) "") "Content")
      (seq 0 15) in
  let s' :=
    perform
      (AddDocuments docs
         {| AddDocumentsOptions.createEmbedding := Some true;
            AddDocumentsOptions.batchSize := Some 5%Z;
            AddDocumentsOptions.batchDelay := Some 100%Z;
            AddDocumentsOptions.onProgress := true |})
      mock_store in
  Map_size (documents s') = 15 /\
  provider_calls (log s') = 3 /\
  List.filter (fun e => negb (is_request e)) (log s') =
  [Progress 5 15; Delay 100; Progress 10 15; Delay 100; Progress 15 15].
Proof. vm_compute. repeat split. Qed.

Example generated_dimension_checked :
  fst (addDocuments [text_document "doc2" "Hello world"]
         {| AddDocumentsOptions.createEmbedding := Some true;
            AddDocumentsOptions.batchSize := None;
            AddDocumentsOptions.batchDelay := None;
            AddDocumentsOptions.onProgress := false |}
         (perform (AddDocument (sample_document "doc1" [0.1; 0.2]%float) None)
            mock_store))
  = Throw (GeneratedDimensionMismatch 3 2).
Proof. vm_compute. reflexivity. Qed.

(** * Further properties of the code *)

(** ** The table, key by key *)

Lemma Map_has_keys {V} (m : Map V) k : Map_has m k = true <-> In k (map fst m).
Proof.
  unfold Map_has. induction m as [|[k' v'] m IH]; simpl.
  - split; [discriminate | tauto].
  - destruct (String.eqb_spec k' k) as [-> | Hne]; [tauto|].
    rewrite IH. split; [tauto | intros [H | H]; [contradiction | exact H]].
Qed.

Lemma Map_has_false {V} (m : Map V) k : Map_has m k = false <-> ~ In k (map fst m).
Proof.
  rewrite <- Map_has_keys. destruct (Map_has m k); split; congruence.
Qed.

Lemma Map_get_entry {V} (m : Map V) k v : Map_get m k = Some v -> In (k, v) m.
Proof.
  induction m as [|[k' v'] m IH]; simpl; [discriminate|].
  destruct (String.eqb_spec k' k) as [-> | Hne]; intros H.
  - left. congruence.
  - right. auto.
Qed.

Lemma Map_entry_get {V} (m : Map V) k v :
  NoDup (map fst m) -> In (k, v) m -> Map_get m k = Some v.
Proof.
  induction m as [|[k' v'] m IH]; simpl; [tauto|].
  intros Hn [H | H].
  - inversion H; subst. now rewrite String.eqb_refl.
  - inversion Hn as [|? ? Hk Hn']; subst.
    destruct (String.eqb_spec k' k) as [-> | Hne]; [|auto].
    exfalso. apply Hk. change k with (fst (k, v)). now apply in_map.
Qed.

Lemma Map_set_fresh {V} (m : Map V) k v :
  Map_has m k = false -> Map_set m k v = m ++ [(k, v)].
Proof.
  unfold Map_has. induction m as [|[k' v'] m IH]; simpl; [reflexivity|].
  destruct (String.eqb k' k); [discriminate|]. intros H. now rewrite IH.
Qed.

Lemma Map_set_keys {V} (m : Map V) k v :
  map fst (Map_set m k v) = if Map_has m k then map fst m else map fst m ++ [k].
Proof.
  unfold Map_has. induction m as [|[k' v'] m IH]; simpl; [reflexivity|].
  destruct (String.eqb_spec k' k) as [-> | Hne]; simpl; [reflexivity|].
  rewrite IH. now destruct (Map_get m k).
Qed.

Lemma Map_set_NoDup {V} (m : Map V) k v :
  NoDup (map fst m) -> NoDup (map fst (Map_set m k v)).
Proof.
  intros H. rewrite Map_set_keys. destruct (Map_has m k) eqn:E; [exact H|].
  apply Map_has_false in E.
  apply (Permutation_NoDup (l := k :: map fst m)).
  - apply Permutation_cons_append.
  - now constructor.
Qed.

Lemma Map_set_entry {V} (m : Map V) k v x :
  In x (Map_set m k v) -> x = (k, v) \/ In x m.
Proof.
  induction m as [|[k' v'] m IH]; simpl; [intuition|].
  destruct (String.eqb_spec k' k) as [-> | Hne]; simpl; intuition.
Qed.

Lemma Map_set_size {V} (m : Map V) k v :
  Map_size (Map_set m k v) = if Map_has m k then Map_size m else S (Map_size m).
Proof.
  unfold Map_size. rewrite <- !(length_map fst), Map_set_keys.
  destruct (Map_has m k); [reflexivity|]. rewrite length_app. simpl. lia.
Qed.

Lemma Map_delete_entry {V} (m : Map V) k x : In x (Map_delete m k) -> In x m.
Proof.
  induction m as [|[k' v'] m IH]; simpl; [tauto|].
  destruct (String.eqb k' k); simpl; tauto.
Qed.

Lemma Map_delete_absent {V} (m : Map V) k : Map_has m k = false -> Map_delete m k = m.
Proof.
  unfold Map_has. induction m as [|[k' v'] m IH]; simpl; [reflexivity|].
  destruct (String.eqb k' k); [discriminate|]. intros H. now rewrite IH.
Qed.

Lemma Map_delete_keys {V} (m : Map V) k :
  NoDup (map fst m) ->
  map fst (Map_delete m k) = List.filter (fun k' => negb (String.eqb k' k)) (map fst m).
Proof.
  induction m as [|[k' v'] m IH]; simpl; [reflexivity|]. intros Hn.
  inversion Hn as [|? ? Hk Hn']; subst.
  destruct (String.eqb_spec k' k) as [-> | Hne]; simpl.
  - symmetry. apply forallb_filter_id.
    apply forallb_forall. intros x Hx. apply negb_true_iff, String.eqb_neq.
    intros ->. contradiction.
  - now rewrite IH.
Qed.

Lemma Map_delete_NoDup {V} (m : Map V) k :
  NoDup (map fst m) -> NoDup (map fst (Map_delete m k)).
Proof. intros H. rewrite Map_delete_keys by exact H. now apply NoDup_filter. Qed.

Lemma Map_get_delete_same {V} (m : Map V) k :
  NoDup (map fst m) -> Map_get (Map_delete m k) k = None.
Proof.
  intros Hn. destruct (Map_get (Map_delete m k) k) as [v|] eqn:E; [|reflexivity].
  apply Map_get_entry in E. apply (in_map fst) in E. simpl in E.
  rewrite Map_delete_keys in E by exact Hn. apply filter_In in E.
  destruct E as [_ E]. now rewrite String.eqb_refl in E.
Qed.

Lemma Map_get_delete_other {V} (m : Map V) k k' :
  k' <> k -> Map_get (Map_delete m k) k' = Map_get m k'.
Proof.
  intros Hne. induction m as [|[k0 v0] m IH]; simpl; [reflexivity|].
  destruct (String.eqb_spec k0 k) as [-> | H0]; simpl.
  - destruct (String.eqb_spec k k'); [congruence | reflexivity].
  - now rewrite IH.
Qed.

Lemma Map_delete_size {V} (m : Map V) k :
  Map_has m k = true -> S (Map_size (Map_delete m k)) = Map_size m.
Proof.
  unfold Map_has, Map_size. induction m as [|[k' v'] m IH]; simpl; [discriminate|].
  destruct (String.eqb k' k); simpl; [reflexivity|]. intros H. now rewrite IH.
Qed.

Lemma set_documents_same s : set_documents s (documents s) = s.
Proof. now destruct s. Qed.

(** ** Adding, reading, removing and updating one document *)

Lemma finalDocument_of_embedded d ce s e :
  embedding d = Some e -> finalDocument_of d ce s = (Return d, s).
Proof.
  intros E. unfold finalDocument_of. rewrite E. cbn [is_some negb].
  now rewrite andb_false_r.
Qed.

Lemma finalDocument_of_generated d ce s f s1 :
  embedding d = None ->
  finalDocument_of d ce s = (Return f, s1) ->
  ce = Some true /\ content d <> ""%string /\
  exists e,
    generateEmbedding (content d) s = (Return e, s1) /\
    f = with_embedding d (Some e).
Proof.
  intros E. unfold finalDocument_of. rewrite E. cbn [is_some negb].
  rewrite andb_true_r.
  destruct ce as [[|]|]; cbn [default]; try discriminate.
  destruct (String.eqb_spec (content d) ""); [discriminate|].
  unfold bind.
  destruct (generateEmbedding (content d) s) as [[e | err | ] s2]; try discriminate.
  unfold ret. intros H. inversion H; subst. eauto.
Qed.

Lemma check_dimensions_id f s s1 :
  check_dimensions f s = (Return tt, s1) -> id f <> ""%string.
Proof.
  unfold check_dimensions, bind, validateDocument.
  destruct (String.eqb_spec (id f) ""); [discriminate | auto].
Qed.

(** What a successful [addDocument] stores, and where the embedding comes
    from. *)
Lemma addDocument_stored d ce s s' :
  addDocument d ce s = (Return tt, s') ->
  exists e s1,
    same_store s s1 /\
    s' = set_documents s1
           (Map_set (documents s) (id d)
              (stamped (clock s) (with_embedding d (Some e)))) /\
    e <> [] /\ id d <> ""%string /\
    (embedding d = Some e \/
     embedding d = None /\ fst (generateEmbedding (content d) s) = Return e).
Proof.
  unfold addDocument. intros H.
  apply bind_inv_Return in H. destruct H as (f & s1 & Hf & H).
  apply bind_inv_Return in H. destruct H as ([] & s2 & Hc & H).
  pose proof (check_dimensions_id _ _ Hc) as Hid.
  apply check_dimensions_Return in Hc. destruct Hc as (-> & e & E & Hne & _).
  pose proof (finalDocument_of_Return _ _ _ Hf) as (Hs & Hk & e0 & Hf0).
  unfold bind, new_Date, documents_set, modify in H. cbn in H.
  inversion H as [Hst]. clear H.
  assert (Hd : documents s1 = documents s) by apply Hs.
  assert (He : f = with_embedding d (Some e)).
  { rewrite Hf0 in E |- *. cbn [embedding with_embedding] in E. congruence. }
  exists e, s1. rewrite He, Hd, Hk. cbn [id createdAt with_embedding].
  split; [exact Hs|]. split; [reflexivity|]. split; [exact Hne|].
  split; [now rewrite He in Hid|].
  destruct (embedding d) as [e1|] eqn:E1.
  - left. rewrite (finalDocument_of_embedded d ce s E1) in Hf.
    inversion Hf; subst f s1. congruence.
  - right. split; [reflexivity|].
    destruct (finalDocument_of_generated d ce s E1 Hf) as (_ & _ & e2 & Hg & Hf2).
    rewrite Hg. cbn [fst]. f_equal. rewrite Hf2 in E.
    cbn [embedding with_embedding] in E. congruence.
Qed.

(** X1. A document that [addDocument] accepts can be read back: under its
    id, [getDocument] returns the document with its embedding (its own, or
    the one the provider generated from its content) and the two
    timestamps, and [hasDocument] answers true. The documents under other
    ids are as they were, and the table grows by one exactly when the id is
    new. An accepted document has an id and an embedding that are not
    empty. *)
Theorem addDocument_then_getDocument document createEmbedding s s' :
  addDocument document createEmbedding s = (Return tt, s') ->
  (exists e,
      getDocument (id document) s' =
      (Return (Some (stamped (clock s) (with_embedding document (Some e)))), s') /\
      e <> [] /\
      (embedding document = Some e \/
       embedding document = None /\
       fst (generateEmbedding (content document) s) = Return e)) /\
  hasDocument (id document) s' = (Return true, s') /\
  (forall other,
      other <> id document ->
      fst (getDocument other s') = fst (getDocument other s)) /\
  size s' =
  (Return (if Map_has (documents s) (id document)
           then Map_size (documents s) else S (Map_size (documents s))), s') /\
  id document <> ""%string.
Proof.
  intros H. apply addDocument_stored in H.
  destruct H as (e & s1 & Hs & -> & Hne & Hid & He).
  unfold getDocument, hasDocument, size, Map_has. rewrite !bind_get.
  cbn [documents set_documents ret fst].
  rewrite Map_get_set_same, Map_set_size.
  split; [exists e; auto|]. split; [reflexivity|]. split; [|auto].
  intros other Hother. rewrite !bind_get. cbn [documents set_documents ret fst].
  now rewrite Map_get_set_other.
Qed.

Lemma addDocument_then_getDocument_witness :
  getDocument "doc1"
    (perform (AddDocument (sample_document "doc1" [1; 0; 0]%float) None) empty_store)
  = (Return
       (Some (stamped 0%Z (with_embedding (sample_document "doc1" [1; 0; 0]%float)
                           (Some [1; 0; 0]%float)))),
     perform (AddDocument (sample_document "doc1" [1; 0; 0]%float) None) empty_store).
Proof.
  destruct (@addDocument_then_getDocument
              (sample_document "doc1" [1; 0; 0]%float) None empty_store
              (perform (AddDocument (sample_document "doc1" [1; 0; 0]%float) None)
                 empty_store) eq_refl)
    as ((e & Hg & _ & [He | [He _]]) & _); [|discriminate He].
  cbn [sample_document embedding] in He. inversion He; subst e. exact Hg.
Defined.

(** X2. [removeDocument] answers whether the id was in the table and
    deletes it: afterwards the id is absent, the other documents are as
    they were and in the same order, and nothing but the table has
    changed. Removing an absent id changes nothing, so a second removal
    answers false. The table has no key twice; every reachable table is so
    (see [stored_under_own_id]). *)
Theorem removeDocument_spec key s :
  NoDup (keys (documents s)) ->
  exists s',
    removeDocument key s = (Return (Map_has (documents s) key), s') /\
    s' = set_documents s (documents s') /\
    hasDocument key s' = (Return false, s') /\
    getDocument key s' = (Return None, s') /\
    (forall other,
        other <> key -> fst (getDocument other s') = fst (getDocument other s)) /\
    keys (documents s') =
    List.filter (fun k => negb (String.eqb k key)) (keys (documents s)) /\
    (Map_has (documents s) key = true ->
     S (Map_size (documents s')) = Map_size (documents s)) /\
    (Map_has (documents s) key = false -> s' = s) /\
    removeDocument key s' = (Return false, s').
Proof.
  intros Hn. exists (set_documents s (Map_delete (documents s) key)).
  assert (Hg : Map_get (Map_delete (documents s) key) key = None)
    by (now apply Map_get_delete_same).
  split; [reflexivity|]. split; [reflexivity|].
  split; [unfold hasDocument, Map_has; rewrite bind_get; cbn [documents set_documents];
          now rewrite Hg|].
  split; [unfold getDocument; rewrite bind_get; cbn [documents set_documents];
          now rewrite Hg|].
  split; [|split; [|split; [|split]]].
  - intros other Hother. unfold getDocument. rewrite !bind_get.
    cbn [documents set_documents ret fst]. now rewrite Map_get_delete_other.
  - now apply Map_delete_keys.
  - apply Map_delete_size.
  - intros H. rewrite Map_delete_absent by exact H. apply set_documents_same.
  - unfold removeDocument, documents_delete, modify, bind, get, ret, Map_has.
    cbn [documents set_documents]. rewrite Hg. f_equal.
    rewrite (@Map_delete_absent _ (Map_delete (documents s) key) key);
      [now destruct s | unfold Map_has; now rewrite Hg].
Qed.

Lemma removeDocument_spec_witness :
  exists s',
    removeDocument "doc1" (store_of [sample_document "doc1" [1; 0; 0]%float]) =
    (Return true, s') /\
    hasDocument "doc1" s' = (Return false, s').
Proof.
  destruct (@removeDocument_spec "doc1"
              (store_of [sample_document "doc1" [1; 0; 0]%float]))
    as (s' & Hr & _ & Hh & _).
  - repeat constructor. simpl. tauto.
  - exists s'. split; [exact Hr | exact Hh].
Defined.

(** X3. [updateDocument] on an id that the table does not hold answers
    false and changes nothing, before it looks at the document. When it
    answers true the document is stored under its id in the place the
    earlier one had, so the order of the table is kept; the documents under
    other ids are as they were. When it throws, the table and the
    configuration are as they were. *)
Theorem updateDocument_spec :
  (forall document createEmbedding s,
      Map_has (documents s) (id document) = false ->
      updateDocument document createEmbedding s = (Return false, s)) /\
  (forall document createEmbedding s s',
      updateDocument document createEmbedding s = (Return true, s') ->
      Map_has (documents s) (id document) = true /\
      keys (documents s') = keys (documents s) /\
      (exists stored,
          getDocument (id document) s' = (Return (Some stored), s') /\
          id stored = id document /\ content stored = content document /\
          metadata stored = metadata document /\
          (forall e, embedding document = Some e -> embedding stored = Some e)) /\
      (forall other,
          other <> id document ->
          fst (getDocument other s') = fst (getDocument other s))) /\
  (forall document createEmbedding s e s',
      updateDocument document createEmbedding s = (Throw e, s') ->
      same_store s s').
Proof.
  split; [|split].
  - intros document createEmbedding s H. unfold updateDocument.
    now rewrite bind_get, H.
  - intros document createEmbedding s s' H. pose proof H as H0.
    apply updateDocument_Return in H0.
    destruct H0 as [(H0 & _) | (_ & existingDoc & e & s1 & Hg & Hs & Hk & _ & _ & ->)];
      [discriminate|].
    assert (Hh : Map_has (documents s) (id document) = true)
      by (unfold Map_has; now rewrite Hg).
    split; [exact Hh|]. unfold keys, getDocument. rewrite !bind_get.
    cbn [documents set_documents ret fst].
    rewrite Map_set_keys, Hh, Map_get_set_same. split; [reflexivity|]. split.
    + eexists. split; [reflexivity|]. cbn. repeat split.
      intros e0 He0. unfold updateDocument in H. rewrite bind_get, Hh in H.
      cbn [negb] in H. apply bind_inv_Return in H.
      destruct H as (f & s2 & Hf & H).
      rewrite (finalDocument_of_embedded document createEmbedding s He0) in Hf.
      inversion Hf; subst f s2. clear Hf.
      apply bind_inv_Return in H. destruct H as ([] & s2 & Hc & H).
      apply check_dimensions_Return in Hc. destruct Hc as (-> & _).
      unfold bind, get in H. rewrite Hg in H. cbn in H.
      inversion H as [Hst].
      assert (Hm : Map_get (documents
                     (set_documents s
                        (Map_set (documents s) (id document)
                           (with_timestamps document (createdAt existingDoc)
                              (Some (clock s)))))) (id document)
                   = Map_get (documents
                     (set_documents s1
                        (Map_set (documents s) (id document)
                           (with_timestamps (with_embedding document (Some e))
                              (createdAt existingDoc) (Some (clock s))))))
                       (id document)) by (now rewrite Hst).
      cbn [documents set_documents] in Hm. rewrite !Map_get_set_same in Hm.
      inversion Hm. congruence.
    + intros other Hother. rewrite !bind_get. cbn [documents set_documents ret fst].
      now rewrite Map_get_set_other.
  - intros document createEmbedding s e s' H.
    pose proof (@updateDocument_not_Return document createEmbedding s) as Hn.
    rewrite H in Hn. apply Hn. intros b. discriminate.
Qed.

Lemma updateDocument_spec_witness :
  (Map_has (documents empty_store) (id (sample_document "doc1" [1; 0; 0]%float))
   = false /\
   updateDocument (sample_document "doc1" [1; 0; 0]%float) None empty_store
   = (Return false, empty_store)) /\
  keys (documents
          (perform (UpdateDocument (sample_document "doc1" [0; 1; 0]%float) None)
             (store_of [sample_document "doc1" [1; 0; 0]%float;
                        sample_document "doc2" [0; 0; 1]%float])))
  = keys (documents (store_of [sample_document "doc1" [1; 0; 0]%float;
                               sample_document "doc2" [0; 0; 1]%float])).
Proof.
  split.
  - split; [reflexivity|]. apply (proj1 updateDocument_spec). reflexivity.
  - apply (proj1 (proj2 updateDocument_spec)
             (sample_document "doc1" [0; 1; 0]%float) None
             (store_of [sample_document "doc1" [1; 0; 0]%float;
                        sample_document "doc2" [0; 0; 1]%float])).
    reflexivity.
Defined.

(** ** What [addDocuments] stores *)

Lemma readonly_Return {A} (m : M A) s a s' :
  readonly m -> m s = (Return a, s') -> s' = s.
Proof. intros Hr H. change s' with (snd (Return a, s')). rewrite <- H. apply Hr. Qed.

Lemma keeps_store_Return {A} (m : M A) s a s' :
  keeps_store m -> m s = (Return a, s') -> same_store s s'.
Proof. intros Hk H. change s' with (snd (Return a, s')). rewrite <- H. apply Hk. Qed.

Lemma forEach_from_Return_nth {A} (f : A -> nat -> M unit) array :
  (forall x j, readonly (f x j)) ->
  forall i s s',
    forEach_from f array i s = (Return tt, s') ->
    s' = s /\
    forall k x, nth_error array k = Some x -> f x (i + k) s = (Return tt, s).
Proof.
  intros Hf. induction array as [|y ys IH]; intros i s s' H.
  - inversion H. split; [reflexivity|]. intros [|k] x Hk; discriminate.
  - simpl in H. apply bind_inv_Return in H. destruct H as ([] & s1 & Hy & H).
    pose proof (@readonly_Return _ _ _ _ _ (Hf y i) Hy) as ->.
    destruct (IH _ _ _ H) as (-> & Hrest). split; [reflexivity|].
    intros [|k] x Hk.
    + inversion Hk; subst. now rewrite Nat.add_0_r.
    + replace (i + S k) with (S i + k) by lia. now apply Hrest.
Qed.

Lemma findIndex_from_None {A} (p : A -> nat -> bool) array i :
  findIndex_from p array i = None ->
  forall k x, nth_error array k = Some x -> p x (i + k) = false.
Proof.
  intros H k x Hk. destruct (p x (i + k)) eqn:E; [|reflexivity].
  destruct (@findIndex_from_exists _ p array i k x Hk E) as (j & Hj). congruence.
Qed.

(** What a document that passes the early validation satisfies. *)
Lemma validateInput_Return docs ce doc index s s' :
  validateInput docs ce doc index s = (Return tt, s') ->
  blank (id doc) = false /\
  (forall k other, nth_error docs k = Some other -> k <> index -> id other <> id doc) /\
  Map_has (documents s) (id doc) = false /\
  (ce = false ->
   exists e, embedding doc = Some e /\ e <> [] /\ existsb not_finite e = false /\
             accepts (documents s) (length e)) /\
  (ce = true -> embedding doc = None -> blank (content doc) = false).
Proof.
  unfold validateInput. destruct (blank (id doc)); [discriminate|].
  destruct (findIndex _ docs) eqn:F; [discriminate|].
  rewrite bind_get. destruct (Map_has (documents s) (id doc)); [discriminate|].
  intros H. split; [reflexivity|]. split; [|split; [reflexivity|]].
  1:{ intros k other Hk Hne Hid. unfold findIndex in F.
    pose proof (@findIndex_from_None _ _ _ _ F k other Hk) as Hp. simpl in Hp.
    rewrite Hid, String.eqb_refl, andb_true_r in Hp.
    apply negb_false_iff, Nat.eqb_eq in Hp. contradiction. }
  destruct ce; (split; [intros Hce; try discriminate Hce | intros Hce; try discriminate Hce]).
  - intros He. rewrite He in H. cbn [is_some negb andb] in H.
    now destruct (blank (content doc)).
  - destruct (embedding doc) as [[|x e]|]; try discriminate.
    destruct (existsb not_finite (x :: e)) eqn:Ex; [discriminate|].
    exists (x :: e). split; [reflexivity|]. split; [discriminate|].
    split; [exact Ex|].
    unfold bind in H. rewrite getEmbeddingDimensions_eq in H. unfold accepts.
    destruct (dimension_of (documents s)) as [[n|] | err | ]; try discriminate;
      [|now left].
    destruct (Nat.eqb_spec (length (x :: e)) n) as [-> | Hn]; [now right | discriminate].
Qed.

Lemma separate_Return docs :
  forall needing withE s r s',
    separate docs needing withE s = (Return r, s') ->
    s' = s /\
    fst r = needing ++ List.filter (fun doc => negb (has_embedding doc)) docs /\
    snd r = withE ++ List.filter has_embedding docs.
Proof.
  induction docs as [|d docs IH]; intros needing withE s r s' H; simpl in H.
  - inversion H. simpl. now rewrite !app_nil_r.
  - unfold has_embedding in *. cbn [List.filter].
    destruct (embedding d) as [e|] eqn:E; cbn [is_some negb].
    + destruct (Nat.eqb (length e) 0); [discriminate|].
      destruct (existsb not_finite e); [discriminate|].
      unfold bind in H. rewrite getEmbeddingDimensions_eq in H.
      destruct (dimension_of (documents s)) as [[n|] | err | ]; try discriminate.
      * destruct (negb (Nat.eqb (length e) n)); [discriminate|].
        apply IH in H. destruct H as (-> & -> & ->).
        now rewrite <- !app_assoc.
      * apply IH in H. destruct H as (-> & -> & ->).
        now rewrite <- !app_assoc.
    + apply IH in H. destruct H as (-> & -> & ->). now rewrite <- !app_assoc.
Qed.

Lemma embed_documents_Return docs b d p s final s1 :
  embed_documents docs b d p s = (Return final, s1) ->
  same_store s s1 /\ exists generated, final = embedded_batch docs generated.
Proof.
  intros H. split; [exact (@keeps_store_Return _ _ _ _ _ (keeps_store_embed_documents docs b d p) H)|].
  unfold embed_documents in H.
  apply bind_inv_Return in H. destruct H as ([needing withE] & s2 & Hsep & H).
  apply separate_Return in Hsep. cbn [fst snd app] in Hsep.
  destruct Hsep as (-> & -> & ->).
  apply bind_inv_Return in H. destruct H as (generated & s3 & _ & H).
  apply bind_inv_Return in H. destruct H as ([] & s4 & _ & H).
  cbn [fst snd] in H. inversion H. now exists generated.
Qed.

Lemma mapi_from_ids (generated : list (list number)) docs :
  forall i,
    map id (mapi_from (fun doc index => with_embedding doc (nth_error generated index))
              docs i) = map id docs.
Proof. induction docs as [|d docs IH]; intros i; simpl; [reflexivity | now rewrite IH]. Qed.

Lemma embedded_batch_ids docs generated f :
  In f (embedded_batch docs generated) -> exists d, In d docs /\ id f = id d.
Proof.
  unfold embedded_batch. intros H. apply in_app_or in H. destruct H as [H | H].
  - apply filter_In in H. exists f. tauto.
  - apply (in_map id) in H. rewrite mapi_from_ids in H.
    apply in_map_iff in H. destruct H as (d & Hid & Hd).
    apply filter_In in Hd. exists d. split; [tauto | congruence].
Qed.

(** The state a successful [addDocuments] leaves: the documents [final],
    stamped with the time [now] read after the embeddings are there, are set
    one after the other. *)
Lemma addDocuments_Return docs options s s' :
  addDocuments docs options s = (Return tt, s') ->
  (docs = [] /\ s' = s) \/
  (exists final s1,
      docs <> [] /\
      (forall k doc,
          nth_error docs k = Some doc ->
          validateInput docs
            (default false (AddDocumentsOptions.createEmbedding options)) doc k s
          = (Return tt, s)) /\
      same_store s s1 /\
      (if default false (AddDocumentsOptions.createEmbedding options)
       then exists generated, final = embedded_batch docs generated
       else final = docs /\ s1 = s) /\
      Forall (fun d => embedding d <> None) final /\
      s' = set_documents s1
             (fold_left (fun t d => Map_set t (id d) d)
                (map (stamped (clock s1)) final) (documents s))).
Proof.
  unfold addDocuments. rewrite bind_get.
  destruct docs as [|d0 docs0]; [intros H; inversion H; now left|].
  set (docs := d0 :: docs0). cbn [length Nat.eqb].
  set (ce := default false (AddDocumentsOptions.createEmbedding options)).
  intros H. right.
  apply bind_inv_Return in H. destruct H as ([] & s0 & Hv & H).
  unfold forEach in Hv.
  apply forEach_from_Return_nth in Hv; [|intros x j; apply readonly_validateInput].
  destruct Hv as (-> & Hv).
  apply bind_inv_Return in H. destruct H as (final & s1 & Hfinal & H).
  apply bind_inv_Return in H. destruct H as (expectedDim & s2 & Hdim & H).
  pose proof (@readonly_Return _ _ _ _ _ readonly_getEmbeddingDimensions Hdim) as ->.
  apply bind_inv_Return in H. destruct H as (now & s2 & Hnow & H).
  inversion Hnow; subst now s2. clear Hnow.
  apply bind_inv_Return in H. destruct H as ([] & s2 & Hc & H).
  pose proof (@readonly_Return _ _ _ _ _ (readonly_check_batch expectedDim final) Hc) as ->.
  rewrite store_batch_eq in H. inversion H as [Hs']. clear H.
  assert (Hs1 : same_store s s1 /\
                if ce then exists generated, final = embedded_batch docs generated
                else final = docs /\ s1 = s).
  { destruct ce.
    - apply embed_documents_Return in Hfinal. exact Hfinal.
    - inversion Hfinal; subst. auto using same_store_refl. }
  destruct Hs1 as (Hs1 & Hshape).
  exists final, s1. split; [discriminate|]. split; [exact Hv|].
  split; [exact Hs1|]. split; [exact Hshape|]. split.
  - apply check_batch_Return in Hc. destruct Hc as [-> | (n & Hall & _)];
      [constructor|].
    eapply Forall_impl; [|exact Hall]. intros x (e & -> & _). discriminate.
  - destruct Hs1 as (-> & _). reflexivity.
Qed.

(** Every way [addDocuments] can end without returning leaves the table and
    the configuration as they were. *)
Lemma addDocuments_not_Return docs options s :
  fst (addDocuments docs options s) <> Return tt ->
  same_store s (snd (addDocuments docs options s)).
Proof.
  unfold addDocuments. rewrite bind_get.
  destruct (Nat.eqb (length docs) 0); [intros H; now contradiction H|].
  set (ce := default false (AddDocumentsOptions.createEmbedding options)).
  unfold bind, forEach.
  destruct (@forEach_from_outcome _ (validateInput docs ce) s
              (fun x i => validateInput_outcome docs ce x i s) docs 0)
    as [Hv | (e & Hv)]; rewrite Hv;
    [|intros _; apply same_store_refl].
  set (compute := if ce then embed_documents docs _ _ _ else ret docs).
  assert (Hk : keeps_store compute).
  { subst compute. destruct ce; [apply keeps_store_embed_documents | frame]. }
  specialize (Hk s).
  destruct (compute s) as [[final | e | ] s1]; cbn [snd] in *; try (intros _; exact Hk).
  rewrite getEmbeddingDimensions_eq.
  destruct (dimension_of (documents s1)) as [expectedDim | e | ];
    cbn [snd]; try (intros _; exact Hk).
  cbn [new_Date].
  pose proof (readonly_check_batch expectedDim final s1) as Hr.
  destruct (check_batch expectedDim final s1) as [[[] | e | ] s2];
    cbn [snd] in *; subst s2; try (intros _; exact Hk).
  rewrite store_batch_eq. intros H. now contradiction H.
Qed.

Lemma blank_false_id i : blank i = false -> i <> ""%string.
Proof.
  unfold blank. intros H ->. discriminate.
Qed.

Lemma fold_set_fresh (news : list VectorDocument) :
  forall m : Map VectorDocument,
    NoDup (map id news) ->
    (forall d, In d news -> Map_has m (id d) = false) ->
    fold_left (fun t d => Map_set t (id d) d) news m =
    m ++ map (fun d => (id d, d)) news.
Proof.
  induction news as [|d news IH]; intros m Hn Hf; simpl.
  - now rewrite app_nil_r.
  - inversion Hn as [|? ? Hd Hn']; subst.
    rewrite Map_set_fresh by (apply Hf; now left).
    rewrite IH; [now rewrite <- app_assoc | exact Hn' |].
    intros d' Hd'. apply Map_has_false. rewrite map_app, in_app_iff.
    intros [H | [H | []]].
    + apply Map_has_keys in H. rewrite Hf in H by now right. discriminate.
    + simpl in H. apply Hd. rewrite H. now apply in_map.
Qed.

Lemma filter_partition {A} (p : A -> bool) l :
  Permutation (List.filter p l ++ List.filter (fun x => negb (p x)) l) l.
Proof.
  induction l as [|x l IH]; simpl; [constructor|].
  destruct (p x); simpl.
  - now constructor.
  - symmetry. apply Permutation_cons_app. now symmetry.
Qed.

Lemma embedded_batch_permutation docs generated :
  Permutation (map id (embedded_batch docs generated)) (map id docs).
Proof.
  unfold embedded_batch. rewrite map_app, mapi_from_ids, <- map_app.
  apply Permutation_map, filter_partition.
Qed.

Lemma stamped_ids now final : map id (map (stamped now) final) = map id final.
Proof. rewrite map_map. reflexivity. Qed.

(** X4. [addDocuments] stores all the documents of the batch or none. When
    it throws, or does not end, the table and the configuration are as they
    were. When it returns, the ids of the batch are pairwise distinct and
    new to the table, and the table is the earlier one followed by the
    documents of the batch, each stamped with the time read once the
    embeddings are there: in batch order when no embedding is to be
    created, and otherwise the documents that carry an embedding first,
    then the documents whose embedding was generated. It returns only when
    no id of the batch is empty or white space only, and, when embeddings
    are to be created, no document without embedding has such a content. *)
Theorem addDocuments_all_or_nothing :
  (forall docs options s,
      fst (addDocuments docs options s) <> Return tt ->
      same_store s (snd (addDocuments docs options s))) /\
  (forall docs options s s',
      addDocuments docs options s = (Return tt, s') ->
      exists final s1,
        same_store s s1 /\
        s' = set_documents s1
               (documents s ++ map (fun d => (id d, stamped (clock s1) d)) final) /\
        Permutation (map id final) (map id docs) /\
        NoDup (map id docs) /\
        (forall d, In d docs -> Map_has (documents s) (id d) = false) /\
        (if default false (AddDocumentsOptions.createEmbedding options)
         then exists generated, final = embedded_batch docs generated
         else final = docs /\ s1 = s)) /\
  (forall docs options s s' d,
      addDocuments docs options s = (Return tt, s') ->
      In d docs ->
      blank (id d) = false /\
      (default false (AddDocumentsOptions.createEmbedding options) = true ->
       embedding d = None -> blank (content d) = false)).
Proof.
  split; [exact addDocuments_not_Return|]. split.
  2:{ intros docs options s s' d H Hd. apply addDocuments_Return in H.
      destruct H as [(-> & _) | (final & s1 & _ & Hv & _)]; [contradiction|].
      destruct (In_nth_error _ _ Hd) as (k & Hk).
      destruct (validateInput_Return _ _ _ _ _ (Hv k d Hk)) as (Hb & _ & _ & _ & Hc).
      auto. }
  intros docs options s s' H. apply addDocuments_Return in H.
  destruct H as [(-> & ->) | (final & s1 & Hne & Hv & Hs & Hshape & _ & ->)].
  - exists [], s. split; [apply same_store_refl|].
    split; [simpl; rewrite app_nil_r; symmetry; apply set_documents_same|].
    split; [constructor|]. split; [constructor|]. split; [intros d []|].
    destruct (default false _); [now exists [] | auto].
  - set (ce := default false (AddDocumentsOptions.createEmbedding options)) in *.
    assert (Hfresh : forall d, In d docs -> Map_has (documents s) (id d) = false).
    { intros d Hd. destruct (In_nth_error _ _ Hd) as (k & Hk).
      now destruct (validateInput_Return _ _ _ _ _ (Hv k d Hk)) as (_ & _ & Hh & _). }
    assert (Hdistinct : NoDup (map id docs)).
    { apply (proj2 (NoDup_nth_error _)). intros i j Hi Hij.
      apply nth_error_Some in Hi.
      destruct (nth_error (map id docs) i) as [x|] eqn:Ei; [|contradiction].
      rewrite nth_error_map in Ei, Hij.
      destruct (nth_error docs i) as [di|] eqn:Di; [|discriminate].
      destruct (nth_error docs j) as [dj|] eqn:Dj; [|discriminate].
      simpl in Ei, Hij. destruct (Nat.eq_dec i j) as [|Hne']; [assumption|].
      destruct (validateInput_Return _ _ _ _ _ (Hv i di Di)) as (_ & Hother & _).
      exfalso. apply (Hother j dj Dj); [auto | congruence]. }
    assert (Hperm : Permutation (map id final) (map id docs)).
    { destruct ce.
      - destruct Hshape as (generated & ->). apply embedded_batch_permutation.
      - destruct Hshape as (-> & _). reflexivity. }
    exists final, s1. split; [exact Hs|]. split; [|auto].
    f_equal. rewrite fold_set_fresh.
    + now rewrite map_map.
    + rewrite stamped_ids. eapply Permutation_NoDup; [symmetry; exact Hperm|].
      exact Hdistinct.
    + intros d Hd. apply in_map_iff in Hd. destruct Hd as (d0 & <- & Hd0).
      cbn [stamped id with_timestamps].
      apply (in_map id) in Hd0.
      eapply Permutation_in in Hd0; [|exact Hperm].
      apply in_map_iff in Hd0. destruct Hd0 as (d1 & <- & Hd1). now apply Hfresh.
Qed.

Lemma addDocuments_all_or_nothing_witness :
  exists final s1,
    same_store empty_store s1 /\
    perform (AddDocuments [sample_document "doc1" [1; 0; 0]%float;
                           sample_document "doc2" [0; 1; 0]%float]
               {| AddDocumentsOptions.createEmbedding := None;
                  AddDocumentsOptions.batchSize := None;
                  AddDocumentsOptions.batchDelay := None;
                  AddDocumentsOptions.onProgress := false |}) empty_store
    = set_documents s1
        (documents empty_store ++
         map (fun d => (id d, stamped (clock s1) d)) final) /\
    final = [sample_document "doc1" [1; 0; 0]%float;
             sample_document "doc2" [0; 1; 0]%float].
Proof.
  destruct (proj1 (proj2 addDocuments_all_or_nothing)
              [sample_document "doc1" [1; 0; 0]%float;
               sample_document "doc2" [0; 1; 0]%float]
              {| AddDocumentsOptions.createEmbedding := None;
                 AddDocumentsOptions.batchSize := None;
                 AddDocumentsOptions.batchDelay := None;
                 AddDocumentsOptions.onProgress := false |}
              empty_store _ eq_refl)
    as (final & s1 & Hs & Hs' & _ & _ & _ & Hf & _).
  exists final, s1. split; [exact Hs|]. split; [exact Hs' | exact Hf].
Defined.

(** ** The shape of the table *)

Lemma well_keyed_nil : well_keyed [].
Proof. split; [constructor | intros key d []]. Qed.

Lemma well_keyed_set m d :
  well_keyed m -> id d <> ""%string -> embedding d <> None ->
  createdAt d <> None -> updatedAt d <> None ->
  well_keyed (Map_set m (id d) d).
Proof.
  intros (Hn & Hall) Hid He Hc Hu. split.
  - now apply Map_set_NoDup.
  - intros key d' H. apply Map_set_entry in H. destruct H as [H | H]; [|auto].
    inversion H; subst. auto.
Qed.

Lemma well_keyed_delete m key : well_keyed m -> well_keyed (Map_delete m key).
Proof.
  intros (Hn & Hall). split.
  - now apply Map_delete_NoDup.
  - intros k d H. apply Hall. eapply Map_delete_entry; eauto.
Qed.

Lemma well_keyed_fold now final :
  Forall (fun d => id d <> ""%string /\ embedding d <> None) final ->
  forall m,
    well_keyed m ->
    well_keyed (fold_left (fun t d => Map_set t (id d) d) (map (stamped now) final) m).
Proof.
  induction 1 as [|d final (Hid & He) _ IH]; intros m Hm; simpl; [exact Hm|].
  apply IH. change (id d) with (id (stamped now d)).
  apply well_keyed_set; auto; discriminate.
Qed.

Lemma perform_well_keyed c s :
  well_keyed (documents s) -> well_keyed (documents (perform c s)).
Proof.
  intros Hw.
  assert (Hsame : forall s', same_store s s' -> well_keyed (documents s')).
  { intros s' (Hd & _). now rewrite Hd. }
  destruct c as [doc ce | docs options | doc ce | key | | query options
                | query options | query method | text | texts b d | model | b | d];
    cbn [perform].
  - destruct (addDocument doc ce s) as [[[] | e | ] s'] eqn:E.
    + apply addDocument_stored in E.
      destruct E as (e & s1 & _ & -> & _ & Hid & _). cbn [snd documents set_documents].
      change (id doc) with (id (stamped (clock s) (with_embedding doc (Some e)))).
      apply well_keyed_set; auto; discriminate.
    + apply Hsame. pose proof (@addDocument_not_Return doc ce s) as H.
      rewrite E in H. apply H. discriminate.
    + apply Hsame. pose proof (@addDocument_not_Return doc ce s) as H.
      rewrite E in H. apply H. discriminate.
  - destruct (addDocuments docs options s) as [[[] | e | ] s'] eqn:E.
    + apply addDocuments_Return in E.
      destruct E as [(_ & ->) | (final & s1 & _ & Hv & _ & Hshape & He & ->)];
        [exact Hw|].
      cbn [snd documents set_documents]. apply well_keyed_fold; [|exact Hw].
      assert (Hids : forall f, In f final -> exists d0, In d0 docs /\ id f = id d0).
      { destruct (default false (AddDocumentsOptions.createEmbedding options)).
        - destruct Hshape as (generated & ->). intros f. apply embedded_batch_ids.
        - destruct Hshape as (-> & _). intros f Hf. now exists f. }
      rewrite Forall_forall in He |- *. intros f Hf. split; [|auto].
      destruct (Hids f Hf) as (d0 & Hd0 & ->).
      destruct (In_nth_error _ _ Hd0) as (k & Hk).
      destruct (validateInput_Return _ _ _ _ _ (Hv k d0 Hk)) as (Hb & _).
      now apply blank_false_id.
    + apply Hsame. pose proof (@addDocuments_not_Return docs options s) as H.
      rewrite E in H. apply H. discriminate.
    + apply Hsame. pose proof (@addDocuments_not_Return docs options s) as H.
      rewrite E in H. apply H. discriminate.
  - destruct (updateDocument doc ce s) as [[r | e | ] s'] eqn:E.
    + apply updateDocument_Return in E.
      destruct E as [(_ & -> & _) | (_ & ex & e & s1 & Hg & _ & _ & _ & _ & ->)];
        [exact Hw|].
      cbn [snd documents set_documents].
      apply Map_get_entry in Hg. destruct Hw as (Hn & Hall).
      destruct (Hall _ _ Hg) as (_ & Hid & _ & Hc & _).
      change (id doc)
        with (id (with_timestamps (with_embedding doc (Some e)) (createdAt ex)
                    (Some (clock s)))).
      apply well_keyed_set; auto; try discriminate. now split.
    + apply Hsame. pose proof (@updateDocument_not_Return doc ce s) as H.
      rewrite E in H. apply H. intros r. discriminate.
    + apply Hsame. pose proof (@updateDocument_not_Return doc ce s) as H.
      rewrite E in H. apply H. intros r. discriminate.
  - now apply well_keyed_delete.
  - apply well_keyed_nil.
  - apply Hsame, keeps_store_search.
  - apply Hsame, keeps_store_searchWithPagination.
  - apply Hsame, keeps_store_findMostSimilar.
  - apply Hsame, keeps_store_generateEmbedding.
  - apply Hsame, keeps_store_generateEmbeddings.
  - exact Hw.
  - unfold setDefaultBatchSize. now destruct (b <=? 0)%Z.
  - unfold setDefaultBatchDelay. now destruct (d <? 0)%Z.
Qed.

Lemma shared_change_well_keyed m key d d' :
  well_keyed m -> Map_get m key = Some d -> same_shape d d' ->
  well_keyed (Map_set m key d').
Proof.
  intros Hw Hg (Hid & He & Hc & Hu).
  destruct (proj2 Hw key d (Map_get_entry _ _ Hg)) as (Hk & Hne & _).
  replace key with (id d') by congruence.
  apply well_keyed_set; auto. congruence.
Qed.

Lemma reachable_well_keyed s :
  reachable_if same_shape s -> well_keyed (documents s).
Proof.
  induction 1 as [options now | c s _ IH | t s _ IH | key d d' s _ IH Hg Ha].
  - apply well_keyed_nil.
  - now apply perform_well_keyed.
  - exact IH.
  - now apply shared_change_well_keyed with (d := d).
Qed.

Lemma fold_set_NoDup (news : list VectorDocument) :
  forall m, NoDup (keys m) ->
            NoDup (keys (fold_left (fun t d => Map_set t (id d) d) news m)).
Proof.
  induction news as [|d news IH]; intros m Hm; cbn [fold_left]; [exact Hm|].
  apply IH. now apply Map_set_NoDup.
Qed.

Lemma reachable_keys s : reachable s -> NoDup (keys (documents s)).
Proof.
  induction 1 as [options now | c s _ IH | t s _ IH | key d d' s _ IH Hg Ha].
  - constructor.
  - destruct (perform_table_step c s)
      as [-> | [(key & ->) | [-> | (n & news & _ & _ & ->)]]].
    + exact IH.
    + now apply Map_delete_NoDup.
    + constructor.
    + now apply fold_set_NoDup.
  - exact IH.
  - now apply Map_set_NoDup.
Qed.

(** X5. Whatever the holders of its objects do to them, the table of a
    reachable state holds no key twice. As long as they keep the id of a
    stored document and leave it an embedding and both timestamps,
    [getDocument] and [getAllDocuments] agree in every reachable state: a
    document read under a key has that key as its id, and every listed
    document is the one read under its id; and a stored document has an id
    that is not empty, an embedding, and both timestamps. Every call keeps a
    table of this shape so. The proviso is needed: [getDocument] hands out
    the stored object, and after its holder gives it another id,
    [getDocument] returns under the key a document with that other id. *)
Theorem stored_under_own_id :
  (forall s, reachable s -> NoDup (keys (documents s))) /\
  (forall s,
      reachable_if same_shape s ->
      NoDup (keys (documents s)) /\
      NoDup (map id (Map_values (documents s))) /\
      (forall key d,
          fst (getDocument key s) = Return (Some d) ->
          id d = key /\ In d (Map_values (documents s))) /\
      (forall d,
          In d (Map_values (documents s)) ->
          fst (getDocument (id d) s) = Return (Some d) /\
          id d <> ""%string /\ embedding d <> None /\
          createdAt d <> None /\ updatedAt d <> None)) /\
  (forall c s, well_keyed (documents s) -> well_keyed (documents (perform c s))) /\
  (forall s key d i,
      reachable_if same_shape s ->
      Map_get (documents s) key = Some d -> i <> key ->
      let d' :=
        {| id := i; content := content d; embedding := embedding d;
           metadata := metadata d; createdAt := createdAt d;
           updatedAt := updatedAt d |} in
      let s' := shared_object_changed key d' s in
      reachable s' /\
      fst (getDocument key s') = Return (Some d') /\ id d' <> key /\
      ~ well_keyed (documents s')).
Proof.
  split; [exact reachable_keys|].
  split; [|split; [exact perform_well_keyed|]].
  2:{ intros s key d i Hr Hg Hne d' s'.
      assert (Hget : Map_get (documents s') key = Some d')
        by apply Map_get_set_same.
      split; [|split; [|split]].
      - apply reachable_shared with (d := d);
          [now apply reachable_if_reachable with (P := same_shape) | exact Hg | exact I].
      - unfold getDocument. rewrite bind_get. cbn [ret fst]. now rewrite Hget.
      - exact Hne.
      - intros (_ & Hall). apply Map_get_entry in Hget.
        destruct (Hall key d' Hget) as (Hid & _). now apply Hne. }
  intros s Hr. apply reachable_well_keyed in Hr. destruct Hr as (Hn & Hall).
  assert (Hids : map id (Map_values (documents s)) = keys (documents s)).
  { unfold Map_values, keys. rewrite map_map. apply map_ext_in.
    intros [k d] H. now destruct (Hall k d H). }
  split; [exact Hn|]. split; [now rewrite Hids|]. split.
  - intros key d H. unfold getDocument in H. rewrite bind_get in H.
    cbn [ret fst] in H. inversion H as [Hg]. apply Map_get_entry in Hg.
    split; [now destruct (Hall key d Hg)|].
    unfold Map_values. change d with (snd (key, d)). now apply in_map.
  - intros d Hd. unfold Map_values in Hd. apply in_map_iff in Hd.
    destruct Hd as ([k d'] & Hk & Hin). simpl in Hk. subst d'.
    destruct (Hall k d Hin) as (Hid & Hrest). split; [|now rewrite Hid].
    unfold getDocument. rewrite bind_get. cbn [ret fst]. rewrite Hid.
    f_equal. now apply Map_entry_get.
Qed.

Lemma stored_under_own_id_witness :
  NoDup (keys (documents (store_of [sample_document "doc1" [1; 0; 0]%float;
                                    sample_document "doc2" [0; 1; 0]%float]))).
Proof.
  apply (proj1 stored_under_own_id).
  unfold store_of. cbn [fold_left].
  apply reachable_call, reachable_call, reachable_new.
Defined.

(** ** Batch settings *)

Lemma perform_same_settings c s :
  (exists b, c = SetDefaultBatchSize b) \/ (exists d, c = SetDefaultBatchDelay d) \/
  (defaultBatchSize (perform c s) = defaultBatchSize s /\
   this_batchDelay (perform c s) = this_batchDelay s).
Proof.
  assert (Hsame : forall s', same_store s s' ->
                             defaultBatchSize s' = defaultBatchSize s /\
                             this_batchDelay s' = this_batchDelay s).
  { intros s' (_ & _ & _ & Hb & Hd). now split. }
  destruct c as [doc ce | docs options | doc ce | key | | query options
                | query options | query method | text | texts b d | model | b | d];
    cbn [perform];
    try solve [left; eexists; reflexivity | right; left; eexists; reflexivity];
    right; right.
  - destruct (addDocument doc ce s) as [[[] | e | ] s'] eqn:E.
    + apply addDocument_stored in E. destruct E as (e & s1 & Hs & -> & _).
      cbn [snd]. now apply Hsame in Hs.
    + apply Hsame. pose proof (@addDocument_not_Return doc ce s) as H.
      rewrite E in H. apply H. discriminate.
    + apply Hsame. pose proof (@addDocument_not_Return doc ce s) as H.
      rewrite E in H. apply H. discriminate.
  - destruct (addDocuments docs options s) as [[[] | e | ] s'] eqn:E.
    + apply addDocuments_Return in E.
      destruct E as [(_ & ->) | (final & s1 & _ & _ & Hs & _ & _ & ->)];
        [now split|].
      cbn [snd]. now apply Hsame in Hs.
    + apply Hsame. pose proof (@addDocuments_not_Return docs options s) as H.
      rewrite E in H. apply H. discriminate.
    + apply Hsame. pose proof (@addDocuments_not_Return docs options s) as H.
      rewrite E in H. apply H. discriminate.
  - destruct (updateDocument doc ce s) as [[r | e | ] s'] eqn:E.
    + apply updateDocument_Return in E.
      destruct E as [(_ & -> & _) | (_ & ex & e & s1 & _ & Hs & _ & _ & _ & ->)];
        [now split|].
      cbn [snd]. now apply Hsame in Hs.
    + apply Hsame. pose proof (@updateDocument_not_Return doc ce s) as H.
      rewrite E in H. apply H. intros r. discriminate.
    + apply Hsame. pose proof (@updateDocument_not_Return doc ce s) as H.
      rewrite E in H. apply H. intros r. discriminate.
  - now split.
  - now split.
  - apply Hsame, keeps_store_search.
  - apply Hsame, keeps_store_searchWithPagination.
  - apply Hsame, keeps_store_findMostSimilar.
  - apply Hsame, keeps_store_generateEmbedding.
  - apply Hsame, keeps_store_generateEmbeddings.
  - now split.
Qed.

(** X6. The batch settings are checked where they are set, and only there.
    [setDefaultBatchSize] throws on a size that is not positive and
    [setDefaultBatchDelay] on a negative delay, both without changing
    anything; an accepted value is the one the getter then returns. The
    constructor replaces an absent or zero size by 100 and an absent or
    zero delay by 1000, and takes any other value as it is, a negative one
    included. No other call changes the settings, so settings that are
    valid stay valid. *)
Theorem batch_settings_checked :
  (forall batchSize s,
      (batchSize <= 0)%Z ->
      setDefaultBatchSize batchSize s = (Throw BatchSizeNotPositive, s)) /\
  (forall batchSize s,
      (0 < batchSize)%Z ->
      setDefaultBatchSize batchSize s = (Return tt, set_defaultBatchSize s batchSize) /\
      fst (getDefaultBatchSize (set_defaultBatchSize s batchSize)) = Return batchSize) /\
  (forall delay s,
      (delay < 0)%Z ->
      setDefaultBatchDelay delay s = (Throw NegativeBatchDelay, s)) /\
  (forall delay s,
      (0 <= delay)%Z ->
      setDefaultBatchDelay delay s = (Return tt, set_batchDelay s delay) /\
      fst (getDefaultBatchDelay (set_batchDelay s delay)) = Return delay) /\
  (forall options now,
      getDefaultBatchSize (constructor options now) =
      (Return match NeuraDBOptions.defaultBatchSize options with
              | None | Some 0%Z => 100%Z
              | Some n => n
              end, constructor options now) /\
      getDefaultBatchDelay (constructor options now) =
      (Return match NeuraDBOptions.batchDelay options with
              | None | Some 0%Z => 1000%Z
              | Some n => n
              end, constructor options now)) /\
  (forall c s, valid_settings s -> valid_settings (perform c s)).
Proof.
  split; [|split; [|split; [|split; [|split]]]].
  - intros b s H. unfold setDefaultBatchSize.
    now destruct (Z.leb_spec b 0); [|lia].
  - intros b s H. unfold setDefaultBatchSize.
    destruct (Z.leb_spec b 0); [lia|]. split; reflexivity.
  - intros d s H. unfold setDefaultBatchDelay.
    now destruct (Z.ltb_spec d 0); [|lia].
  - intros d s H. unfold setDefaultBatchDelay.
    destruct (Z.ltb_spec d 0); [lia|]. split; reflexivity.
  - intros options now. unfold getDefaultBatchSize, getDefaultBatchDelay.
    rewrite !bind_get. unfold this_batchDelay. cbn [constructor defaultBatchSize batchDelay ret].
    split; f_equal; f_equal.
    + now destruct (NeuraDBOptions.defaultBatchSize options) as [[| |]|].
    + now destruct (NeuraDBOptions.batchDelay options) as [[| |]|].
  - intros c s (Hb & Hd).
    destruct (perform_same_settings c s) as [(b & ->) | [(d & ->) | (Eb & Ed)]].
    + cbn [perform]. unfold setDefaultBatchSize, valid_settings, this_batchDelay.
      destruct (Z.leb_spec b 0); cbn; split; try assumption; lia.
    + cbn [perform]. unfold setDefaultBatchDelay, valid_settings, this_batchDelay.
      destruct (Z.ltb_spec d 0); cbn; split; try assumption; lia.
    + unfold valid_settings. now rewrite Eb, Ed.
Qed.

Lemma batch_settings_checked_witness :
  ((0 <= 0)%Z /\ valid_settings empty_store) /\
  (setDefaultBatchDelay 0 empty_store = (Return tt, set_batchDelay empty_store 0) /\
   fst (getDefaultBatchDelay (set_batchDelay empty_store 0)) = Return 0%Z) /\
  valid_settings (perform (SetDefaultBatchSize (-5)) empty_store).
Proof.
  assert (Hv : valid_settings empty_store) by (split; [reflexivity | discriminate]).
  split; [split; [discriminate | exact Hv]|]. split.
  - apply (proj1 (proj2 (proj2 (proj2 batch_settings_checked)))). discriminate.
  - apply (proj2 (proj2 (proj2 (proj2 (proj2 batch_settings_checked))))). exact Hv.
Defined.

(** ** Calls that end *)

Lemma terminates_ret {A} (a : A) : terminates (ret a).
Proof. intros s. discriminate. Qed.

Lemma terminates_throw {A} e : terminates (@throw A e).
Proof. intros s. discriminate. Qed.

Lemma terminates_get : terminates get.
Proof. intros s. discriminate. Qed.

Lemma terminates_new_Date : terminates new_Date.
Proof. intros s. discriminate. Qed.

Lemma terminates_modify f : terminates (modify f).
Proof. intros s. discriminate. Qed.

Lemma terminates_bind {A B} (m : M A) (k : A -> M B) :
  terminates m -> (forall a, terminates (k a)) -> terminates (bind m k).
Proof.
  intros Hm Hk s. unfold bind, ends. specialize (Hm s). unfold ends in Hm.
  destruct (m s) as [[a | e | ] s1]; cbn [fst] in *;
    [apply Hk | discriminate | contradiction].
Qed.

Lemma terminates_try_catch {A} (m : M A) (h : Error -> M A) :
  terminates m -> (forall e, terminates (h e)) -> terminates (try_catch m h).
Proof.
  intros Hm Hh s. unfold try_catch, ends. specialize (Hm s). unfold ends in Hm.
  destruct (m s) as [[a | e | ] s1]; cbn [fst] in *;
    [discriminate | apply Hh | contradiction].
Qed.

Lemma terminates_if {A} (b : bool) (m1 m2 : M A) :
  terminates m1 -> terminates m2 -> terminates (if b then m1 else m2).
Proof. now destruct b. Qed.

Create HintDb halt.
#[local] Hint Resolve terminates_ret terminates_throw terminates_get
  terminates_new_Date terminates_modify : halt.

Ltac halt_step :=
  match goal with
  | |- terminates (bind _ _) => apply terminates_bind; [|intros ?]
  | |- terminates (try_catch _ _) => apply terminates_try_catch; [|intros ?]
  | |- terminates (if _ then _ else _) => apply terminates_if
  | |- terminates (match ?x with _ => _ end) => destruct x
  | |- _ => solve [auto with halt]
  end.

Ltac halt := repeat halt_step.

Lemma terminates_emit es : terminates (emit es).
Proof. apply terminates_modify. Qed.

Lemma terminates_delay ms : terminates (delay ms).
Proof. apply terminates_modify. Qed.
#[local] Hint Resolve terminates_emit terminates_delay : halt.

Lemma terminates_embeddings_create client params :
  terminates (embeddings_create client params).
Proof. unfold embeddings_create. halt. Qed.
#[local] Hint Resolve terminates_embeddings_create : halt.

Lemma terminates_generateEmbedding text : terminates (generateEmbedding text).
Proof. unfold generateEmbedding. halt. Qed.
#[local] Hint Resolve terminates_generateEmbedding : halt.

Lemma terminates_generateEmbeddings_loop client model d n batches :
  forall i acc, terminates (generateEmbeddings_loop client model d n batches i acc).
Proof. induction batches as [|b bs IH]; intros i acc; simpl; halt; apply IH. Qed.
#[local] Hint Resolve terminates_generateEmbeddings_loop : halt.

Lemma chunkArray_empty {T} (b : Z) : chunkArray (@nil T) b = Some [].
Proof. reflexivity. Qed.

(** [generateEmbeddings] ends when it has no need of chunks, and when the
    chunk size is positive. *)
Lemma generateEmbeddings_ends texts batchSize batchDelay s :
  (Z.of_nat (length texts) <= default (defaultBatchSize s) batchSize)%Z \/
  (0 < default (defaultBatchSize s) batchSize)%Z ->
  ends (generateEmbeddings texts batchSize batchDelay s).
Proof.
  intros H. unfold generateEmbeddings. rewrite bind_get.
  destruct (openai s) as [client|]; [|discriminate].
  destruct (Nat.eqb (length texts) 0); [discriminate|].
  destruct (Z.leb_spec (Z.of_nat (length texts))
              (default (defaultBatchSize s) batchSize)) as [Hs | Hl].
  - apply terminates_try_catch; halt.
  - destruct H as [H | H]; [lia|].
    destruct (@chunkArray_spec _ texts (default (defaultBatchSize s) batchSize))
      as (chunks & Hc & _); [lia|].
    unfold chunkArrayM. rewrite Hc. erewrite bind_Return by reflexivity.
    apply terminates_generateEmbeddings_loop.
Qed.

Lemma terminates_generateEmbeddings_batch batch d :
  terminates (generateEmbeddings batch (Some (Z.of_nat (length batch))) d).
Proof. intros s. apply generateEmbeddings_ends. left. cbn [default]. lia. Qed.
#[local] Hint Resolve terminates_generateEmbeddings_batch : halt.

Lemma terminates_generateEmbeddings_positive texts b d :
  (0 < b)%Z -> terminates (generateEmbeddings texts (Some b) d).
Proof. intros H s. apply generateEmbeddings_ends. now right. Qed.

Lemma terminates_chunkArrayM {T} (array : list T) b :
  (0 < b)%Z -> terminates (chunkArrayM array b).
Proof.
  intros H. unfold chunkArrayM.
  destruct (@chunkArray_spec _ array b) as (chunks & -> & _); [lia|].
  apply terminates_ret.
Qed.

Lemma terminates_getEmbeddingDimensions : terminates getEmbeddingDimensions.
Proof. unfold getEmbeddingDimensions. halt. Qed.
#[local] Hint Resolve terminates_getEmbeddingDimensions : halt.

Lemma terminates_validateDocument d : terminates (validateDocument d).
Proof. unfold validateDocument. halt. Qed.
#[local] Hint Resolve terminates_validateDocument : halt.

Lemma terminates_validateEmbeddingDimensions e :
  terminates (validateEmbeddingDimensions e).
Proof. unfold validateEmbeddingDimensions. halt. Qed.
#[local] Hint Resolve terminates_validateEmbeddingDimensions : halt.

Lemma terminates_embedding_length d : terminates (embedding_length d).
Proof. unfold embedding_length. halt. Qed.
#[local] Hint Resolve terminates_embedding_length : halt.

Lemma terminates_check_dimensions d : terminates (check_dimensions d).
Proof. unfold check_dimensions. halt. Qed.
#[local] Hint Resolve terminates_check_dimensions : halt.

Lemma terminates_finalDocument_of d ce : terminates (finalDocument_of d ce).
Proof. unfold finalDocument_of. halt. Qed.
#[local] Hint Resolve terminates_finalDocument_of : halt.

Lemma terminates_documents_set key value : terminates (documents_set key value).
Proof. apply terminates_modify. Qed.

Lemma terminates_documents_delete key : terminates (documents_delete key).
Proof. apply terminates_modify. Qed.
#[local] Hint Resolve terminates_documents_set terminates_documents_delete : halt.

Lemma terminates_addDocument d ce : terminates (addDocument d ce).
Proof. unfold addDocument. halt. Qed.

Lemma terminates_updateDocument d ce : terminates (updateDocument d ce).
Proof. unfold updateDocument. halt. Qed.

Lemma terminates_validateInput docs ce doc index :
  terminates (validateInput docs ce doc index).
Proof. unfold validateInput. halt. Qed.
#[local] Hint Resolve terminates_validateInput : halt.

Lemma terminates_forEach_from {A} (f : A -> nat -> M unit) array :
  (forall x i, terminates (f x i)) -> forall i, terminates (forEach_from f array i).
Proof.
  intros Hf. induction array as [|x xs IH]; intros i; simpl; halt;
    solve [apply Hf | apply IH].
Qed.

Lemma terminates_separate docs :
  forall needing withE, terminates (separate docs needing withE).
Proof.
  induction docs as [|d docs IH]; intros needing withE; simpl; halt; apply IH.
Qed.

Lemma terminates_progress_loop d n total batches :
  forall i processed generated,
    terminates (progress_loop d n total batches i processed generated).
Proof.
  induction batches as [|b bs IH]; intros i processed generated; simpl; halt;
    apply IH.
Qed.

Lemma terminates_generate_for needing b d p :
  (0 < b)%Z -> terminates (generate_for needing b d p).
Proof.
  intros H. unfold generate_for. halt.
  - now apply terminates_chunkArrayM.
  - apply terminates_progress_loop.
  - now apply terminates_generateEmbeddings_positive.
Qed.

Lemma terminates_validate_generated g : terminates (validate_generated g).
Proof. unfold validate_generated. halt. Qed.

Lemma terminates_embed_documents docs b d p :
  (0 < b)%Z -> terminates (embed_documents docs b d p).
Proof.
  intros H. unfold embed_documents. halt.
  - apply terminates_separate.
  - now apply terminates_generate_for.
  - apply terminates_validate_generated.
Qed.

Lemma terminates_check_batch expectedDim final :
  terminates (check_batch expectedDim final).
Proof.
  unfold check_batch. halt. unfold forEach.
  apply terminates_forEach_from. intros x i. halt.
Qed.

Lemma terminates_store_batch now final : terminates (store_batch now final).
Proof. intros s. rewrite store_batch_eq. discriminate. Qed.

Lemma addDocuments_ends docs options s :
  (0 < default (defaultBatchSize s) (AddDocumentsOptions.batchSize options))%Z ->
  ends (addDocuments docs options s).
Proof.
  intros H. unfold addDocuments. rewrite bind_get.
  revert s H.
  change (forall s,
    (0 < default (defaultBatchSize s) (AddDocumentsOptions.batchSize options))%Z ->
    ends ((fun b d =>
             if Nat.eqb (length docs) 0 then ret tt
             else
               forEach (validateInput docs
                          (default false (AddDocumentsOptions.createEmbedding options)))
                 docs ;;
               finalDocuments <-
                 (if default false (AddDocumentsOptions.createEmbedding options)
                  then embed_documents docs b d (AddDocumentsOptions.onProgress options)
                  else ret docs) ;;
               expectedDim <- getEmbeddingDimensions ;;
               now <- new_Date ;;
               check_batch expectedDim finalDocuments ;;
               store_batch now finalDocuments)
            (default (defaultBatchSize s) (AddDocumentsOptions.batchSize options))
            (default (this_batchDelay s) (AddDocumentsOptions.batchDelay options)) s)).
  intros s H.
  generalize (default (this_batchDelay s) (AddDocumentsOptions.batchDelay options)).
  revert H.
  generalize (default (defaultBatchSize s) (AddDocumentsOptions.batchSize options)).
  intros b Hb d. revert s. change (terminates
    (if Nat.eqb (length docs) 0 then ret tt
     else
       forEach (validateInput docs
                  (default false (AddDocumentsOptions.createEmbedding options)))
         docs ;;
       finalDocuments <-
         (if default false (AddDocumentsOptions.createEmbedding options)
          then embed_documents docs b d (AddDocumentsOptions.onProgress options)
          else ret docs) ;;
       expectedDim <- getEmbeddingDimensions ;;
       now <- new_Date ;;
       check_batch expectedDim finalDocuments ;;
       store_batch now finalDocuments)).
  halt.
  - unfold forEach. apply terminates_forEach_from. intros x i. halt.
  - now apply terminates_embed_documents.
  - apply terminates_check_batch.
  - apply terminates_store_batch.
Qed.

Lemma terminates_resolve_query query : terminates (resolve_query query).
Proof. unfold resolve_query. halt. Qed.
#[local] Hint Resolve terminates_resolve_query : halt.

Lemma terminates_search query options : terminates (search query options).
Proof. unfold search. halt. Qed.

Lemma terminates_searchWithPagination query options :
  terminates (searchWithPagination query options).
Proof. unfold searchWithPagination. halt. Qed.

Lemma terminates_findMostSimilar query method :
  terminates (findMostSimilar query method).
Proof. unfold findMostSimilar. halt. apply terminates_search. Qed.

(** X7. Every call ends, by returning or by throwing, as long as the batch
    size it works with is positive: the batch size given to
    [generateEmbeddings] or [addDocuments], or the default one when none is
    given. The other calls need no condition. With valid settings, a call
    that is given no batch size ends. *)
Theorem calls_end :
  (forall c s, positive_batch_size c s -> call_ends c s) /\
  (forall s texts batchDelay,
      valid_settings s -> ends (generateEmbeddings texts None batchDelay s)) /\
  (forall s docs createEmbedding batchDelay onProgress,
      valid_settings s ->
      ends (addDocuments docs
              {| AddDocumentsOptions.createEmbedding := createEmbedding;
                 AddDocumentsOptions.batchSize := None;
                 AddDocumentsOptions.batchDelay := batchDelay;
                 AddDocumentsOptions.onProgress := onProgress |} s)).
Proof.
  split; [|split].
  - intros c s H.
    destruct c as [doc ce | docs options | doc ce | key | | query options
                  | query options | query method | text | texts b d | model | b | d];
      cbn [call_ends positive_batch_size] in *.
    + apply terminates_addDocument.
    + now apply addDocuments_ends.
    + apply terminates_updateDocument.
    + discriminate.
    + discriminate.
    + apply terminates_search.
    + apply terminates_searchWithPagination.
    + apply terminates_findMostSimilar.
    + apply terminates_generateEmbedding.
    + apply generateEmbeddings_ends. now right.
    + discriminate.
    + unfold setDefaultBatchSize. destruct (b <=? 0)%Z; discriminate.
    + unfold setDefaultBatchDelay. destruct (d <? 0)%Z; discriminate.
  - intros s texts d (Hb & _). apply generateEmbeddings_ends. now right.
  - intros s docs ce d p (Hb & _). now apply addDocuments_ends.
Qed.

Lemma calls_end_witness :
  positive_batch_size
    (GenerateEmbeddings (repeat "text"%string 15) (Some 5%Z) None) mock_store /\
  call_ends (GenerateEmbeddings (repeat "text"%string 15) (Some 5%Z) None) mock_store.
Proof.
  split; [reflexivity|].
  apply (proj1 calls_end). reflexivity.
Defined.

(** X8. [chunkArray] ends exactly when the chunk size is positive or the
    array is empty: with a chunk size that is not positive and an array that
    is not empty, the condition of its loop still holds after any number of
    rounds. [generateEmbeddings] with such a batch size, on more texts than
    the batch size, then has no outcome, and sends no request. *)
Theorem chunk_size_not_positive :
  (forall (array : list string) b,
      chunkArray array b = None <-> (b <= 0)%Z /\ array <> []) /\
  (forall (array : list string) b rounds,
      (b <= 0)%Z -> array <> [] -> chunkArray_loop rounds array b 0 [] = None) /\
  (forall texts b batchDelay s client,
      openai s = Some client ->
      (b <= 0)%Z -> texts <> [] ->
      generateEmbeddings texts (Some b) batchDelay s = (Diverge, s)) /\
  (forall options now client texts b,
      NeuraDBOptions.openai options = Some client ->
      NeuraDBOptions.defaultBatchSize options = Some b ->
      (b < 0)%Z -> texts <> [] ->
      generateEmbeddings texts None None (constructor options now) =
      (Diverge, constructor options now)).
Proof.
  assert (Hloop : forall (array : list string) b rounds,
             (b <= 0)%Z -> array <> [] -> chunkArray_loop rounds array b 0 [] = None).
  { intros array b rounds Hb Hne. apply chunkArray_loop_diverges; [exact Hb|].
    destruct array; [contradiction | simpl; lia]. }
  assert (Hgen : forall texts b batchDelay s client,
             openai s = Some client -> (b <= 0)%Z -> texts <> [] ->
             generateEmbeddings texts (Some b) batchDelay s = (Diverge, s)).
  { intros texts b d s client Ho Hb Hne. unfold generateEmbeddings.
    rewrite bind_get, Ho. cbn [default].
    destruct texts as [|t texts]; [contradiction|]. cbn [length Nat.eqb].
    destruct (Z.leb_spec (Z.of_nat (S (length texts))) b); [lia|].
    unfold chunkArrayM, chunkArray. now rewrite Hloop. }
  split; [|split; [exact Hloop | split; [exact Hgen|]]].
  - intros array b. split.
    + intros H. destruct (Z.le_gt_cases b 0) as [Hb | Hb].
      * split; [exact Hb|]. intros ->. discriminate.
      * destruct (@chunkArray_spec _ array b) as (chunks & Hc & _); [lia|].
        congruence.
    + intros (Hb & Hne). now apply Hloop.
  - intros options now client texts b Ho Hb Hneg Hne.
    unfold generateEmbeddings. rewrite bind_get.
    cbn [constructor openai defaultBatchSize default]. rewrite Ho, Hb.
    assert (Hz : or_Z (Some b) 100 = b).
    { unfold or_Z. destruct (Z.eqb_spec b 0); [lia | reflexivity]. }
    rewrite Hz.
    destruct texts as [|t texts]; [contradiction|]. cbn [length Nat.eqb].
    destruct (Z.leb_spec (Z.of_nat (S (length texts))) b); [lia|].
    unfold chunkArrayM, chunkArray. rewrite Hloop; [reflexivity | lia | discriminate].
Qed.

Lemma chunk_size_not_positive_witness :
  (openai mock_store = Some mock_openai /\ (0 <= 0)%Z /\ ["a"; "b"]%string <> []) /\
  generateEmbeddings ["a"; "b"]%string (Some 0%Z) None mock_store
  = (Diverge, mock_store).
Proof.
  split; [split; [reflexivity | split; discriminate]|].
  apply (proj1 (proj2 (proj2 chunk_size_not_positive)) _ _ _ _ mock_openai);
    [reflexivity | discriminate | discriminate].
Defined.

(** ** Embeddings without a provider, and a provider that fails *)

Lemma generateEmbedding_no_provider text s :
  openai s = None -> generateEmbedding text s = (Throw OpenAIRequired, s).
Proof. intros H. unfold generateEmbedding. now rewrite bind_get, H. Qed.

Lemma add_log_nil s : add_log s [] = s.
Proof. destruct s. unfold add_log. cbn. now rewrite app_nil_r. Qed.

(** X9. Without an OpenAI instance every generation of an embedding throws
    "OpenAI instance is required for embedding generation" and changes
    nothing: [generateEmbedding]; [generateEmbeddings], even for no texts;
    [addDocument] and [updateDocument] asked to create the embedding of a
    document that has content and no embedding; a search by text on a table
    that holds documents. A document that carries its embedding needs no
    provider: adding it makes no request and reads no timer, whatever
    [createEmbedding] says, so its embedding is never generated anew. *)
Theorem embedding_needs_provider :
  (forall s, hasOpenAI s = (Return (is_some (openai s)), s)) /\
  (forall s text,
      openai s = None -> generateEmbedding text s = (Throw OpenAIRequired, s)) /\
  (forall s texts batchSize batchDelay,
      openai s = None ->
      generateEmbeddings texts batchSize batchDelay s = (Throw OpenAIRequired, s)) /\
  (forall s document,
      openai s = None ->
      embedding document = None -> content document <> ""%string ->
      addDocument document (Some true) s = (Throw OpenAIRequired, s) /\
      (Map_has (documents s) (id document) = true ->
       updateDocument document (Some true) s = (Throw OpenAIRequired, s))) /\
  (forall s text options,
      openai s = None -> documents s <> [] ->
      search (QueryText text) options s = (Throw OpenAIRequired, s) /\
      searchWithPagination (QueryText text) options s = (Throw OpenAIRequired, s)) /\
  (forall s document createEmbedding e,
      embedding document = Some e ->
      log (snd (addDocument document createEmbedding s)) = log s /\
      clock (snd (addDocument document createEmbedding s)) = clock s /\
      log (snd (updateDocument document createEmbedding s)) = log s).
Proof.
  split; [reflexivity|].
  split; [intros s text; apply generateEmbedding_no_provider|].
  split; [|split; [|split]].
  - intros s texts b d H. unfold generateEmbeddings. now rewrite bind_get, H.
  - intros s document Ho He Hc.
    assert (Hf : finalDocument_of document (Some true) s = (Throw OpenAIRequired, s)).
    { unfold finalDocument_of. rewrite He. cbn [default is_some negb andb].
      destruct (String.eqb_spec (content document) ""); [contradiction|].
      erewrite bind_Throw; [reflexivity|].
      now apply generateEmbedding_no_provider. }
    split.
    + unfold addDocument. now erewrite bind_Throw by exact Hf.
    + intros Hh. unfold updateDocument. rewrite bind_get, Hh. cbn [negb].
      now erewrite bind_Throw by exact Hf.
  - intros s text options Ho Hne.
    unfold search, searchWithPagination. rewrite !bind_get.
    destruct (documents s) as [|d ds]; [contradiction|]. cbn [Map_size length Nat.eqb].
    cbn [resolve_query].
    split; (erewrite bind_Throw; [reflexivity|]);
      now apply generateEmbedding_no_provider.
  - intros s document ce e He.
    assert (Hadd : forall k : VectorDocument -> M unit,
               (forall f s1, log (snd (k f s1)) = log s1 /\ clock (snd (k f s1)) = clock s1) ->
               log (snd (bind (finalDocument_of document ce) k s)) = log s /\
               clock (snd (bind (finalDocument_of document ce) k s)) = clock s).
    { intros k Hk. unfold bind. rewrite (finalDocument_of_embedded document ce s He).
      apply Hk. }
    assert (Hrest : forall f s1,
               log (snd ((check_dimensions f ;;
                          now <- new_Date ;;
                          documents_set (id f)
                            (with_timestamps f (Some (or_Date (createdAt f) now))
                               (Some now))) s1)) = log s1 /\
               clock (snd ((check_dimensions f ;;
                            now <- new_Date ;;
                            documents_set (id f)
                              (with_timestamps f (Some (or_Date (createdAt f) now))
                                 (Some now))) s1)) = clock s1).
    { intros f s1. unfold bind.
      pose proof (readonly_check_dimensions f s1) as Hc.
      destruct (check_dimensions f s1) as [[[] | err | ] s2]; cbn [snd] in *; subst s2;
        split; reflexivity. }
    split; [apply (Hadd _ Hrest)|]. split; [apply (Hadd _ Hrest)|].
    unfold updateDocument. rewrite bind_get.
    destruct (negb (Map_has (documents s) (id document))); [reflexivity|].
    unfold bind. rewrite (finalDocument_of_embedded document ce s He).
    pose proof (readonly_check_dimensions document s) as Hc.
    destruct (check_dimensions document s) as [[[] | err | ] s2]; cbn [snd] in *;
      subst s2; try reflexivity.
    unfold get. now destruct (Map_get (documents s) (id document)).
Qed.

Lemma embedding_needs_provider_witness :
  (openai empty_store = None /\
   embedding (text_document "doc1" "Hello world") = None /\
   content (text_document "doc1" "Hello world") <> ""%string) /\
  addDocument (text_document "doc1" "Hello world") (Some true) empty_store
  = (Throw OpenAIRequired, empty_store).
Proof.
  split; [split; [reflexivity | split; [reflexivity | discriminate]]|].
  apply (proj1 (proj2 (proj2 (proj2 embedding_needs_provider))) empty_store
           (text_document "doc1" "Hello world")); [reflexivity | reflexivity | discriminate].
Defined.

Lemma batch_events_app model d pre c :
  batch_events model d (pre ++ [c]) =
  flat_map (fun b => EmbeddingsCreate (batch_request model b)
                     :: if (0 <? d)%Z then [Delay d] else []) pre
  ++ [EmbeddingsCreate (batch_request model c)].
Proof.
  induction pre as [|b pre IH]; [reflexivity|].
  cbn [app batch_events flat_map]. rewrite IH.
  destruct (pre ++ [c]) eqn:E; [destruct pre; discriminate|].
  now rewrite <- app_assoc.
Qed.

(** The loop of [generateEmbeddings] stops at the first chunk whose request
    is rejected. *)
Lemma generateEmbeddings_loop_rejected client model d n pre c post message :
  forall i acc s,
    i + length (pre ++ c :: post) = n ->
    (forall b, In b pre ->
               exists r, client (batch_request model b) = OpenAI.Resolved r) ->
    client (batch_request model c) = OpenAI.Rejected message ->
    exists s',
      generateEmbeddings_loop client model d n (pre ++ c :: post) i acc s =
      (Throw (FailedBatch (i + length pre + 1) (ProviderRejected message)), s') /\
      same_store s s' /\
      log s' = log s ++ batch_events model d (pre ++ [c]).
Proof.
  induction pre as [|b pre IH]; intros i acc s Hn Hres Hrej.
  - cbn [app generateEmbeddings_loop length].
    unfold bind, try_catch, embeddings_create, emit, modify.
    fold (batch_request model c). rewrite Hrej. cbn.
    rewrite Nat.add_0_r. eexists. split; [reflexivity|].
    split; [repeat split | reflexivity].
  - destruct (Hres b (or_introl eq_refl)) as (r & Hr).
    cbn [app generateEmbeddings_loop].
    assert (Hstep :
      exists s1,
        try_catch
          (response <- embeddings_create client
             {| OpenAI.input := OpenAI.Texts b; OpenAI.model := model |} ;;
           (if (Z.of_nat i <? Z.of_nat n - 1)%Z && (0 <? d)%Z
            then delay d else ret tt) ;;
           ret (acc ++ embeddings_of response))
          (fun error => throw (FailedBatch (i + 1) error)) s
        = (Return (acc ++ embeddings_of r), s1) /\
        same_store s s1 /\
        log s1 = log s ++ EmbeddingsCreate (batch_request model b)
                   :: if (0 <? d)%Z then [Delay d] else []).
    { unfold try_catch, bind, embeddings_create, emit, modify.
      fold (batch_request model b). rewrite Hr. cbn [ret].
      assert (Hi : (Z.of_nat i <? Z.of_nat n - 1)%Z = true).
      { apply Z.ltb_lt. cbn [app length] in Hn. rewrite length_app in Hn.
        cbn [length] in Hn. lia. }
      rewrite Hi. cbn [andb]. destruct (0 <? d)%Z.
      - eexists. split; [reflexivity|]. split; [repeat split|].
        cbn [delay modify log add_log set_clock snd]. now rewrite <- app_assoc.
      - eexists. split; [reflexivity|]. split; [repeat split | reflexivity]. }
    destruct Hstep as (s1 & Hs1 & Hss1 & Hl1).
    erewrite bind_Return by exact Hs1.
    destruct (IH (S i) (acc ++ embeddings_of r) s1)
      as (s' & Hs' & Hss' & Hl');
      [cbn [app length] in Hn; lia | intros; apply Hres; now right | exact Hrej|].
    exists s'. split; [|split].
    + rewrite Hs'. cbn [length]. do 3 f_equal. lia.
    + eapply same_store_trans; eassumption.
    + rewrite Hl', Hl1.
      change (b :: pre ++ [c]) with ((b :: pre) ++ [c]).
      rewrite (batch_events_app model d (b :: pre) c), (batch_events_app model d pre c).
      cbn [flat_map]. rewrite <- !app_assoc. reflexivity.
Qed.

(** X10. A request that the provider rejects makes the call throw, with
    the provider's message inside the message of the call.
    [generateEmbedding] makes exactly one request; it throws "Failed to
    generate embedding" when the request is rejected, and also when the
    response holds no embedding. [generateEmbeddings] on more texts than
    the batch size stops at the first chunk whose request is rejected: the
    chunks before it were requested, each followed by its delay, no chunk
    after it is, and the error names the chunk by its rank, counted from
    1. The table and the configuration are as they were. *)
Theorem provider_failure_reported :
  (forall s client text,
      openai s = Some client ->
      let request :=
        {| OpenAI.input := OpenAI.Text text; OpenAI.model := embeddingModel s |} in
      generateEmbedding text s =
      (match client request with
       | OpenAI.Rejected message =>
           Throw (FailedToGenerateEmbedding (ProviderRejected message))
       | OpenAI.Resolved response =>
           match OpenAI.data response with
           | first :: _ => Return (OpenAI.embedding first)
           | [] => Throw (FailedToGenerateEmbedding TypeError)
           end
       end, add_log s [EmbeddingsCreate request])) /\
  (forall s client texts b d message,
      openai s = Some client ->
      texts <> [] -> (Z.of_nat (length texts) <= b)%Z ->
      client (batch_request (embeddingModel s) texts) = OpenAI.Rejected message ->
      generateEmbeddings texts (Some b) d s =
      (Throw (FailedToGenerateEmbeddings (ProviderRejected message)),
       add_log s [EmbeddingsCreate (batch_request (embeddingModel s) texts)])) /\
  (forall s client texts b d pre c post message,
      openai s = Some client ->
      (b < Z.of_nat (length texts))%Z ->
      chunkArray texts b = Some (pre ++ c :: post) ->
      (forall chunk, In chunk pre ->
         exists r, client (batch_request (embeddingModel s) chunk) = OpenAI.Resolved r) ->
      client (batch_request (embeddingModel s) c) = OpenAI.Rejected message ->
      exists s',
        generateEmbeddings texts (Some b) (Some d) s =
        (Throw (FailedBatch (length pre + 1) (ProviderRejected message)), s') /\
        same_store s s' /\
        log s' = log s ++ batch_events (embeddingModel s) d (pre ++ [c]) /\
        provider_calls (log s') = provider_calls (log s) + length pre + 1).
Proof.
  split; [|split].
  - intros s client text Ho request.
    unfold generateEmbedding. rewrite bind_get, Ho.
    unfold try_catch, bind, embeddings_create, emit, modify. fold request.
    destruct (client request) as [response | message]; [|reflexivity].
    cbn. now destruct (OpenAI.data response).
  - intros s client texts b d message Ho Hne Hsmall Hrej.
    unfold generateEmbeddings. rewrite bind_get, Ho. cbn [default].
    destruct texts as [|t texts]; [contradiction|]. cbn [length Nat.eqb] in *.
    destruct (Z.leb_spec (Z.of_nat (S (length texts))) b); [|lia].
    unfold try_catch, bind, embeddings_create, emit, modify.
    fold (batch_request (embeddingModel s) (t :: texts)). now rewrite Hrej.
  - intros s client texts b d pre c post message Ho Hlarge Hc Hres Hrej.
    unfold generateEmbeddings. rewrite bind_get, Ho. cbn [default].
    destruct (Nat.eqb_spec (length texts) 0) as [Hz | _].
    { destruct texts; [|discriminate]. rewrite chunkArray_empty in Hc.
      destruct pre; discriminate. }
    destruct (Z.leb_spec (Z.of_nat (length texts)) b); [lia|].
    unfold chunkArrayM. rewrite Hc. erewrite bind_Return by reflexivity.
    destruct (@generateEmbeddings_loop_rejected client (embeddingModel s) d
                (length (pre ++ c :: post)) pre c post message 0 [] s
                eq_refl Hres Hrej) as (s' & Hs' & Hss' & Hl').
    exists s'. split; [exact Hs'|]. split; [exact Hss'|]. split; [exact Hl'|].
    rewrite Hl', provider_calls_app, provider_calls_batch_events, length_app.
    cbn [length]. lia.
Qed.

Lemma provider_failure_reported_witness :
  (openai (constructor
             {| NeuraDBOptions.openai := Some (fun _ => OpenAI.Rejected "rate limit");
                NeuraDBOptions.embeddingModel := None;
                NeuraDBOptions.defaultBatchSize := None;
                NeuraDBOptions.batchDelay := None |} 0%Z)
   = Some (fun _ => OpenAI.Rejected "rate limit") /\
   ["a"; "b"]%string <> [] /\ (Z.of_nat (length ["a"; "b"]%string) <= 5)%Z) /\
  fst (generateEmbeddings ["a"; "b"]%string (Some 5%Z) None
         (constructor
            {| NeuraDBOptions.openai := Some (fun _ => OpenAI.Rejected "rate limit");
               NeuraDBOptions.embeddingModel := None;
               NeuraDBOptions.defaultBatchSize := None;
               NeuraDBOptions.batchDelay := None |} 0%Z))
  = Throw (FailedToGenerateEmbeddings (ProviderRejected "rate limit")).
Proof.
  split; [split; [reflexivity | split; [discriminate | cbn; lia]]|].
  rewrite (proj1 (proj2 provider_failure_reported) _
             (fun _ => OpenAI.Rejected "rate limit") ["a"; "b"]%string 5%Z None
             "rate limit"%string);
    [reflexivity | reflexivity | discriminate | cbn; lia | reflexivity].
Defined.

(** ** What a search returns *)

Lemma slice_decompose {A} (l : list A) (a b : Z) :
  exists before after, l = before ++ slice l a b ++ after.
Proof.
  unfold slice.
  set (k := Z.to_nat (relative_index (Z.of_nat (length l)) a)).
  set (n := Z.to_nat (relative_index (Z.of_nat (length l)) b
                      - relative_index (Z.of_nat (length l)) a)).
  exists (firstn k l), (skipn n (skipn k l)).
  now rewrite (firstn_skipn n (skipn k l)), (firstn_skipn k l).
Qed.

Lemma slice_In {A} (l : list A) (a b : Z) x : In x (slice l a b) -> In x l.
Proof.
  intros H. destruct (slice_decompose l a b) as (before & after & E).
  rewrite E. apply in_or_app. right. apply in_or_app. now left.
Qed.

Lemma slice_NoDup {A B} (f : A -> B) (l : list A) (a b : Z) :
  NoDup (map f l) -> NoDup (map f (slice l a b)).
Proof.
  intros H. destruct (slice_decompose l a b) as (before & after & E).
  rewrite E, !map_app in H.
  apply NoDup_app_remove_l in H. now apply NoDup_app_remove_r in H.
Qed.

Lemma score_documents_documents q method threshold docs :
  exists keep,
    map document (fst (score_documents q method threshold docs)) =
    List.filter keep docs.
Proof.
  exists (fun d => match calculateSimilarity q (embedding d) method with
                   | Return x => PrimFloat.leb threshold x
                   | _ => false
                   end).
  induction docs as [|d docs IH]; [reflexivity|]. cbn [score_documents List.filter].
  destruct (score_documents q method threshold docs) as [results warnings].
  cbn [fst] in IH.
  destruct (calculateSimilarity q (embedding d) method) as [x | e | ];
    [destruct (PrimFloat.leb threshold x)|..]; cbn [fst map document]; now rewrite ?IH.
Qed.

Lemma candidates_filter docs metadataFilter :
  exists keep, candidates docs metadataFilter = List.filter keep docs.
Proof.
  destruct metadataFilter as [filter|]; cbn [candidates].
  - unfold filterByMetadata. eauto.
  - exists (fun _ => true). symmetry. apply forallb_filter_id.
    now apply forallb_forall.
Qed.

Lemma candidates_In docs metadataFilter d :
  In d (candidates docs metadataFilter) -> In d docs.
Proof.
  destruct (candidates_filter docs metadataFilter) as (keep & ->).
  intros H. now apply filter_In in H.
Qed.

Lemma sortedResults_NoDup docs q options :
  NoDup (map id docs) ->
  NoDup (map (fun r => id (document r)) (fst (sortedResults docs q options))).
Proof.
  intros H.
  destruct (sortedResults_sorted docs q options) as (Hp & _).
  eapply Permutation_NoDup; [apply Permutation_map; symmetry; exact Hp|].
  rewrite <- (map_map document id).
  destruct (score_documents_documents q (default Cosine (similarityMethod options))
              (default 0%float (threshold options))
              (candidates docs (metadataFilter options))) as (keep & ->).
  destruct (candidates_filter docs (metadataFilter options)) as (keep' & ->).
  assert (Hf : forall (p : VectorDocument -> bool) l,
             NoDup (map id l) -> NoDup (map id (List.filter p l))).
  { intros p l. induction l as [|x l IH]; simpl; [auto|]. intros Hn.
    inversion Hn as [|? ? Hx Hn']; subst.
    destruct (p x); simpl; [|auto]. constructor; [|auto].
    intros Hin. apply Hx. apply in_map_iff in Hin. destruct Hin as (y & Hy & Hin).
    apply filter_In in Hin. apply in_map_iff. exists y. tauto. }
  auto.
Qed.

(** The results of a search, whatever the paging, are among the sorted
    results. *)
Lemma search_results_In s query options q s1 results r :
  resolve_query query s = (Return q, s1) ->
  fst (search query options s) = Return results ->
  In r results ->
  In r (fst (sortedResults (Map_values (documents s)) q options)).
Proof.
  intros Hq Hs Hr. rewrite (@search_results s query options q s1 Hq) in Hs.
  inversion Hs as [E]. clear Hs. subst results.
  destruct (pageSize options); eapply slice_In; exact Hr.
Qed.

(** X11. Whatever the paging, every result of a search is a stored
    document that passes the metadata filter, with the similarity that the
    chosen method computes between the query and its embedding; this
    similarity is a number, not NaN, and it is at least the threshold. No
    stored document is returned twice. Without [pageSize] and with a
    [limit] no smaller than the table, every such document is returned. *)
Theorem search_sound_and_complete :
  (forall s query options q s1 results r,
      resolve_query query s = (Return q, s1) ->
      fst (search query options s) = Return results ->
      In r results ->
      In (document r) (Map_values (documents s)) /\
      In (document r)
        (candidates (Map_values (documents s)) (metadataFilter options)) /\
      calculateSimilarity q (embedding (document r))
        (default Cosine (similarityMethod options)) = Return (similarity r) /\
      PrimFloat.leb (default 0%float (threshold options)) (similarity r) = true /\
      PrimFloat.is_nan (similarity r) = false) /\
  (forall s query options q s1 results,
      resolve_query query s = (Return q, s1) ->
      NoDup (map id (Map_values (documents s))) ->
      fst (search query options s) = Return results ->
      NoDup (map (fun r => id (document r)) results)) /\
  (forall s query options q s1 d x,
      resolve_query query s = (Return q, s1) ->
      pageSize options = None ->
      (Z.of_nat (Map_size (documents s)) <= default 10 (limit options))%Z ->
      In d (candidates (Map_values (documents s)) (metadataFilter options)) ->
      calculateSimilarity q (embedding d)
        (default Cosine (similarityMethod options)) = Return x ->
      PrimFloat.leb (default 0%float (threshold options)) x = true ->
      exists results,
        fst (search query options s) = Return results /\
        In {| document := d; similarity := x |} results).
Proof.
  split; [|split].
  - intros s query options q s1 results r Hq Hs Hr.
    pose proof (@search_results_In s query options q s1 results r Hq Hs Hr) as Hin.
    destruct (sortedResults_sorted (Map_values (documents s)) q options) as (Hp & _).
    eapply Permutation_in in Hin; [|exact Hp].
    apply score_documents_In in Hin. destruct Hin as (Hc & Hsim & Hle).
    split; [eapply candidates_In; exact Hc|]. split; [exact Hc|].
    split; [exact Hsim|]. split; [exact Hle|]. now apply leb_not_nan in Hle.
  - intros s query options q s1 results Hq Hn Hs.
    rewrite (@search_results s query options q s1 Hq) in Hs.
    inversion Hs as [E]. clear Hs.
    destruct (pageSize options); apply slice_NoDup; now apply sortedResults_NoDup.
  - intros s query options q s1 d x Hq Hp Hl Hd Hx Hle.
    rewrite (@search_results s query options q s1 Hq), Hp.
    eexists. split; [reflexivity|].
    rewrite slice_limit by (unfold Map_size in Hl; lia).
    destruct (sortedResults_sorted (Map_values (documents s)) q options) as (Hperm & _).
    rewrite firstn_all2.
    + eapply Permutation_in; [symmetry; exact Hperm|].
      apply score_documents_In. cbn [document similarity]. auto.
    + rewrite (Permutation_length Hperm).
      destruct (score_documents_documents q
                  (default Cosine (similarityMethod options))
                  (default 0%float (threshold options))
                  (candidates (Map_values (documents s)) (metadataFilter options)))
        as (keep & Hk).
      apply (f_equal (@length _)) in Hk. rewrite length_map in Hk. rewrite Hk.
      destruct (candidates_filter (Map_values (documents s)) (metadataFilter options))
        as (keep' & ->).
      pose proof (filter_length_le keep (List.filter keep' (Map_values (documents s)))).
      pose proof (filter_length_le keep' (Map_values (documents s))).
      unfold Map_values, Map_size in *. rewrite length_map in *. lia.
Qed.

Lemma search_sound_and_complete_witness :
  exists results,
    fst (search (QueryVector [1; 0; 0]%float) no_options
           (store_of [sample_document "doc1" [1; 0; 0]%float;
                      sample_document "doc2" [0; 1; 0]%float])) = Return results /\
    In {| document := stamped 0%Z (sample_document "doc2" [0; 1; 0]%float);
          similarity := 0%float |} results.
Proof.
  apply (proj2 (proj2 search_sound_and_complete)
           (store_of [sample_document "doc1" [1; 0; 0]%float;
                      sample_document "doc2" [0; 1; 0]%float])
           (QueryVector [1; 0; 0]%float) no_options [1; 0; 0]%float
           (store_of [sample_document "doc1" [1; 0; 0]%float;
                      sample_document "doc2" [0; 1; 0]%float])).
  - reflexivity.
  - reflexivity.
  - cbn. lia.
  - cbn. tauto.
  - reflexivity.
  - reflexivity.
Defined.

(** ** A query of another dimension *)

Lemma score_documents_mismatch q method threshold docs :
  (forall d, In d docs -> exists e, embedding d = Some e /\ length e <> length q) ->
  score_documents q method threshold docs = ([], map (fun d => Warn (id d)) docs).
Proof.
  induction docs as [|d docs IH]; intros H; [reflexivity|].
  cbn [score_documents map]. rewrite IH by (intros; apply H; now right).
  destruct (H d (or_introl eq_refl)) as (e & He & Hl).
  unfold calculateSimilarity. rewrite He.
  destruct (Nat.eqb_spec (length q) (length e)); [congruence | reflexivity].
Qed.

Lemma score_documents_match q method threshold docs :
  (forall d, In d docs -> exists e, embedding d = Some e /\ length e = length q) ->
  snd (score_documents q method threshold docs) = [].
Proof.
  induction docs as [|d docs IH]; intros H; [reflexivity|].
  cbn [score_documents]. specialize (IH (fun d' Hd' => H d' (or_intror Hd'))).
  destruct (score_documents q method threshold docs) as [results warnings].
  cbn [snd] in IH. subst warnings.
  destruct (H d (or_introl eq_refl)) as (e & He & Hl).
  unfold calculateSimilarity. rewrite He.
  destruct (Nat.eqb_spec (length q) (length e)); [|congruence]. cbn [negb].
  now destruct (PrimFloat.leb threshold _).
Qed.

(** X12. A query vector whose length is not the dimension of the table
    makes no search throw: every document that passes the metadata filter
    is skipped with a warning, in table order, and the search returns no
    result ([searchWithPagination] counts 0 results, [findMostSimilar]
    returns null). A query vector of the dimension of the table skips no
    document, and the search then leaves the state exactly as it was. *)
Theorem query_of_another_dimension :
  (forall s q options n,
      all_dimension n (documents s) -> documents s <> [] ->
      q <> [] -> length q <> n ->
      search (QueryVector q) options s =
      (Return [],
       add_log s (map (fun d => Warn (id d))
                    (candidates (Map_values (documents s)) (metadataFilter options))))
      /\
      fst (searchWithPagination (QueryVector q) options s) =
      Return {| Page.data := [];
                Page.page := default 1%Z (page options);
                Page.pageSize := default 10%Z (pageSize options);
                Page.totalResults := 0;
                Page.totalPages := ceil_div 0 (default 10%Z (pageSize options)) |}
      /\
      (forall method, fst (findMostSimilar (QueryVector q) method s) = Return None)) /\
  (forall s q options,
      all_dimension (length q) (documents s) ->
      snd (search (QueryVector q) options s) = s /\
      snd (searchWithPagination (QueryVector q) options s) = s).
Proof.
  split.
  - intros s q options n Hall Hne Hq Hlen.
    assert (Hscore : forall options,
               sortedResults (Map_values (documents s)) q options =
               ([], map (fun d => Warn (id d))
                      (candidates (Map_values (documents s)) (metadataFilter options)))).
    { intros o. unfold sortedResults. rewrite score_documents_mismatch; [reflexivity|].
      intros d Hd. apply candidates_In in Hd.
      destruct (Hall d Hd) as (e & He & Hl). exists e. split; [exact He | congruence]. }
    assert (Hr : resolve_query (QueryVector q) s = (Return q, s)).
    { cbn [resolve_query]. destruct q; [contradiction | reflexivity]. }
    split; [|split].
    + rewrite (@search_nonempty s (QueryVector q) options q s Hne Hr), Hscore.
      cbn [fst snd]. destruct (pageSize options); now rewrite slice_nil.
    + rewrite (@searchWithPagination_nonempty s (QueryVector q) options q s Hne Hr).
      rewrite Hscore. cbn [fst length Z.of_nat]. cbv zeta. now rewrite slice_nil.
    + intros method. unfold findMostSimilar, bind.
      rewrite (@search_nonempty s (QueryVector q) _ q s Hne Hr), Hscore.
      cbn [fst snd pageSize limit]. now rewrite slice_nil.
  - intros s q options Hall.
    assert (Hscore : snd (sortedResults (Map_values (documents s)) q options) = []).
    { unfold sortedResults.
      pose proof (@score_documents_match q (default Cosine (similarityMethod options))
                    (default 0%float (threshold options))
                    (candidates (Map_values (documents s)) (metadataFilter options)))
        as Hm.
      destruct (score_documents _ _ _ _) as [results warnings]. cbn [snd] in *.
      apply Hm. intros d Hd. apply candidates_In in Hd. exact (Hall d Hd). }
    unfold search, searchWithPagination. rewrite !bind_get.
    destruct (Nat.eqb (Map_size (documents s)) 0); [split; reflexivity|].
    cbn [resolve_query]. destruct (Nat.eqb (length q) 0); [split; reflexivity|].
    unfold bind at 1 3. cbn [ret].
    destruct (sortedResults (Map_values (documents s)) q options) as [sorted warnings].
    cbn [snd] in Hscore. subst warnings.
    unfold bind, emit, modify. rewrite add_log_nil.
    split; [now destruct (pageSize options) | reflexivity].
Qed.

Lemma query_of_another_dimension_witness :
  (all_dimension 3 (documents (store_of [sample_document "doc1" [1; 0; 0]%float])) /\
   [1; 0]%float <> [] /\ length [1; 0]%float <> 3) /\
  search (QueryVector [1; 0]%float) no_options
    (store_of [sample_document "doc1" [1; 0; 0]%float])
  = (Return [],
     add_log (store_of [sample_document "doc1" [1; 0; 0]%float]) [Warn "doc1"]).
Proof.
  assert (Hall : all_dimension 3
                   (documents (store_of [sample_document "doc1" [1; 0; 0]%float]))).
  { intros d [<- | []]. eexists. split; reflexivity. }
  split; [split; [exact Hall | split; discriminate]|].
  apply (proj1 query_of_another_dimension
           (store_of [sample_document "doc1" [1; 0; 0]%float]) [1; 0]%float
           no_options 3 Hall); discriminate.
Defined.

(** ** The most similar document *)

Lemma hd_error_firstn {A} (l : list A) n : 1 <= n -> hd_error (firstn n l) = hd_error l.
Proof. intros H. destruct n; [lia|]. now destruct l. Qed.

Lemma findMostSimilar_head s query method q s1 :
  resolve_query query s = (Return q, s1) ->
  fst (findMostSimilar query method s) =
  Return (hd_error (fst (sortedResults (Map_values (documents s)) q
                           (most_similar_options method)))).
Proof.
  intros Hq. unfold findMostSimilar. fold (most_similar_options method).
  pose proof (@search_results s query (most_similar_options method) q s1 Hq) as Hs.
  unfold bind. destruct (search query (most_similar_options method) s) as [[r | e | ] s2];
    cbn [fst] in Hs; try discriminate.
  inversion Hs as [E]. cbn [ret fst pageSize most_similar_options limit default].
  rewrite slice_limit by lia. now rewrite hd_error_firstn by lia.
Qed.

(** X13. [findMostSimilar] returns null on a table without documents.
    Otherwise, for a query that resolves to a vector, it returns the first
    of the sorted results of a search with threshold 0 and no filter: a
    stored document with its similarity, which is at least 0 and at least
    the similarity of every stored document that has a similarity of 0 or
    more. It returns null exactly when no stored document has one, as when
    all the similarities are negative. Its answer is the head of what
    [search] returns for the same method with any limit of 1 or more. *)
Theorem findMostSimilar_is_best :
  (forall s query method,
      documents s = [] -> findMostSimilar query method s = (Return None, s)) /\
  (forall s query method q s1 r,
      resolve_query query s = (Return q, s1) ->
      fst (findMostSimilar query method s) = Return (Some r) ->
      In (document r) (Map_values (documents s)) /\
      calculateSimilarity q (embedding (document r)) (default Cosine method)
      = Return (similarity r) /\
      PrimFloat.leb 0 (similarity r) = true /\
      forall d x,
        In d (Map_values (documents s)) ->
        calculateSimilarity q (embedding d) (default Cosine method) = Return x ->
        PrimFloat.leb 0 x = true ->
        PrimFloat.leb x (similarity r) = true) /\
  (forall s query method q s1,
      resolve_query query s = (Return q, s1) ->
      (fst (findMostSimilar query method s) = Return None <->
       forall d x,
         In d (Map_values (documents s)) ->
         calculateSimilarity q (embedding d) (default Cosine method) = Return x ->
         PrimFloat.leb 0 x = false)) /\
  (forall s query method q s1 l results,
      resolve_query query s = (Return q, s1) ->
      (1 <= l)%Z ->
      fst (search query
             {| limit := Some l; threshold := None;
                similarityMethod := Some (default Cosine method);
                metadataFilter := None; page := None; pageSize := None |} s)
      = Return results ->
      fst (findMostSimilar query method s) = Return (hd_error results)).
Proof.
  split; [|split; [|split]].
  - intros s query method H. unfold findMostSimilar, bind, search.
    now rewrite bind_get, H.
  - intros s query method q s1 r Hq H.
    rewrite (@findMostSimilar_head s query method q s1 Hq) in H.
    inversion H as [Hh]. clear H.
    destruct (sortedResults_sorted (Map_values (documents s)) q
                (most_similar_options method)) as (Hp & Hsorted & _).
    cbn [most_similar_options similarityMethod threshold metadataFilter default
           candidates] in Hp.
    destruct (fst (sortedResults (Map_values (documents s)) q
                     (most_similar_options method))) as [|r0 rest] eqn:E;
      [discriminate|].
    inversion Hh; subst r0. clear Hh.
    assert (Hr : In r (r :: rest)) by now left.
    eapply Permutation_in in Hr; [|exact Hp].
    apply score_documents_In in Hr. destruct Hr as (Hd & Hsim & Hle).
    split; [exact Hd|]. split; [exact Hsim|]. split; [exact Hle|].
    intros d x Hin Hx Hx0.
    assert (Hdx : In {| document := d; similarity := x |} (r :: rest)).
    { eapply Permutation_in; [symmetry; exact Hp|].
      apply score_documents_In. cbn [document similarity]. auto. }
    destruct Hdx as [E' | Hdx].
    + rewrite E'. cbn [similarity]. apply leb_not_nan in Hx0. destruct Hx0 as [_ Hn].
      apply leb_key; auto. unfold key_lt. lia.
    + inversion Hsorted as [|? ? _ Hall]; subst.
      rewrite Forall_forall in Hall. exact (Hall _ Hdx).
  - intros s query method q s1 Hq.
    rewrite (@findMostSimilar_head s query method q s1 Hq).
    destruct (sortedResults_sorted (Map_values (documents s)) q
                (most_similar_options method)) as (Hp & _).
    cbn [most_similar_options similarityMethod threshold metadataFilter default
           candidates] in Hp.
    destruct (fst (sortedResults (Map_values (documents s)) q
                     (most_similar_options method))) as [|r0 rest] eqn:E.
    + split; [|reflexivity]. intros _ d x Hin Hx.
      destruct (PrimFloat.leb 0 x) eqn:Hx0; [|reflexivity]. exfalso.
      assert (Hdx : In {| document := d; similarity := x |} []).
      { eapply Permutation_in; [symmetry; exact Hp|].
        apply score_documents_In. cbn [document similarity]. auto. }
      contradiction.
    + split; [discriminate|]. intros H. exfalso.
      assert (Hr : In r0 (r0 :: rest)) by now left.
      eapply Permutation_in in Hr; [|exact Hp].
      apply score_documents_In in Hr. destruct Hr as (Hd & Hsim & Hle).
      rewrite (H _ _ Hd Hsim) in Hle. discriminate.
  - intros s query method q s1 l results Hq Hl H.
    rewrite (@findMostSimilar_head s query method q s1 Hq).
    rewrite (@search_results s query _ q s1 Hq) in H. inversion H as [E]. clear H.
    cbn [pageSize limit default]. rewrite slice_limit by lia.
    rewrite hd_error_firstn by lia. reflexivity.
Qed.

Lemma findMostSimilar_is_best_witness :
  documents empty_store = [] /\
  findMostSimilar (QueryVector [1; 0; 0]%float) None empty_store
  = (Return None, empty_store) /\
  (fst (findMostSimilar (QueryVector [-1; 0; 0]%float) None
          (store_of [sample_document "doc1" [1; 0; 0]%float])) = Return None <->
   forall d x,
     In d (Map_values (documents (store_of [sample_document "doc1" [1; 0; 0]%float]))) ->
     calculateSimilarity [-1; 0; 0]%float (embedding d) (default Cosine None)
     = Return x ->
     PrimFloat.leb 0 x = false).
Proof.
  split; [reflexivity|]. split.
  - apply (proj1 findMostSimilar_is_best). reflexivity.
  - apply (proj1 (proj2 (proj2 findMostSimilar_is_best))
             (store_of [sample_document "doc1" [1; 0; 0]%float])
             (QueryVector [-1; 0; 0]%float) None [-1; 0; 0]%float
             (store_of [sample_document "doc1" [1; 0; 0]%float])).
    reflexivity.
Defined.

(** The store of one document [1, 0, 0] has no most similar document for the
    query [-1, 0, 0]: the cosine similarity is -1, below the threshold 0. *)
Example opposite_vector_has_no_most_similar :
  findMostSimilar (QueryVector [-1; 0; 0]%float) None
    (store_of [sample_document "doc1" [1; 0; 0]%float])
  = (Return None, store_of [sample_document "doc1" [1; 0; 0]%float]).
Proof. vm_compute. reflexivity. Qed.

(** ** Limits and pages out of range *)

Lemma slice_negative_end {A} (l : list A) (b : Z) :
  (b < 0)%Z -> slice l 0 b = firstn (length l - Z.to_nat (- b)) l.
Proof.
  intros H. unfold slice, relative_index.
  destruct (Z.ltb_spec 0 0); [lia|]. destruct (Z.ltb_spec b 0); [|lia].
  rewrite Z.min_l by lia. cbn [Z.to_nat skipn]. f_equal. lia.
Qed.

Lemma slice_empty {A} (l : list A) (a b : Z) :
  (0 <= b <= a)%Z \/ (a < 0 /\ b = 0)%Z -> slice l a b = [].
Proof.
  intros H. unfold slice, relative_index.
  replace (Z.to_nat _) with 0; [reflexivity|].
  destruct (Z.ltb_spec a 0), (Z.ltb_spec b 0); lia.
Qed.

Lemma slice_negative {A} (l : list A) (a b : Z) :
  (a < 0)%Z -> (b < 0)%Z ->
  slice l a b =
  firstn (Z.to_nat (Z.max 0 (Z.of_nat (length l) + b)
                    - Z.max 0 (Z.of_nat (length l) + a)))
    (skipn (Z.to_nat (Z.max 0 (Z.of_nat (length l) + a))) l).
Proof.
  intros Ha Hb. unfold slice, relative_index.
  destruct (Z.ltb_spec a 0); [|lia]. destruct (Z.ltb_spec b 0); [|lia].
  now rewrite !(Z.max_comm 0).
Qed.

(** X14. Limits and pages outside their range are not rejected; they are
    handed to [slice] as they are. A [limit] of 0 returns nothing and a
    negative [limit] drops that many results from the end of the sorted
    results. A [pageSize] of 0 returns nothing, and so does page 0. A
    negative page counts the pages from the end of the sorted results.
    With a [pageSize] of 0, [searchWithPagination] on a table that holds
    documents reports NaN total pages when there is no result and Infinity
    otherwise. *)
Theorem paging_out_of_range :
  (forall s query options q s1 l,
      resolve_query query s = (Return q, s1) ->
      pageSize options = None -> limit options = Some l -> (l <= 0)%Z ->
      let sorted := fst (sortedResults (Map_values (documents s)) q options) in
      fst (search query options s) =
      Return (if (l =? 0)%Z then []
              else firstn (length sorted - Z.to_nat (- l)) sorted)) /\
  (forall s query options q s1 k,
      resolve_query query s = (Return q, s1) ->
      pageSize options = Some k ->
      k = 0%Z \/ ((0 <= k)%Z /\ page options = Some 0%Z) ->
      fst (search query options s) = Return []) /\
  (forall s query options q s1 p k,
      resolve_query query s = (Return q, s1) ->
      (p < 0)%Z -> (1 <= k)%Z ->
      let sorted := fst (sortedResults (Map_values (documents s)) q options) in
      let n := Z.of_nat (length sorted) in
      fst (search query (with_page options p k) s) =
      Return (firstn (Z.to_nat (Z.max 0 (n + p * k) - Z.max 0 (n + (p - 1) * k)))
                (skipn (Z.to_nat (Z.max 0 (n + (p - 1) * k))) sorted))) /\
  (forall s query options q s1,
      resolve_query query s = (Return q, s1) ->
      documents s <> [] ->
      pageSize options = Some 0%Z ->
      let sorted := fst (sortedResults (Map_values (documents s)) q options) in
      fst (searchWithPagination query options s) =
      Return {| Page.data := [];
                Page.page := default 1%Z (page options);
                Page.pageSize := 0;
                Page.totalResults := Z.of_nat (length sorted);
                Page.totalPages :=
                  match sorted with
                  | [] => Page.NotANumber
                  | _ :: _ => Page.PosInfinity
                  end |}).
Proof.
  split; [|split; [|split]].
  - intros s query options q s1 l Hq Hp Hl Hneg sorted.
    rewrite (@search_results s query options q s1 Hq), Hp, Hl. cbn [default].
    fold sorted. destruct (Z.eqb_spec l 0) as [-> | Hne].
    + now rewrite slice_empty by lia.
    + now rewrite slice_negative_end by lia.
  - intros s query options q s1 k Hq Hp Hk.
    rewrite (@search_results s query options q s1 Hq), Hp.
    destruct Hk as [-> | (Hk & Hpage)].
    + rewrite slice_empty; [reflexivity|].
      left. lia.
    + rewrite Hpage. cbn [default]. rewrite slice_empty; [reflexivity|].
      destruct (Z.eqb_spec k 0); [left | right]; lia.
  - intros s query options q s1 p k Hq Hp Hk sorted n.
    rewrite (@search_results s query _ q s1 Hq).
    cbn [with_page pageSize page default].
    change (fst (sortedResults (Map_values (documents s)) q (with_page options p k)))
      with sorted.
    rewrite slice_negative by nia. subst n. do 3 f_equal; lia.
  - intros s query options q s1 Hq Hne Hp sorted.
    rewrite (@searchWithPagination_nonempty s query options q s1 Hne Hq).
    rewrite Hp. cbn [default]. cbv zeta. fold sorted.
    rewrite slice_empty by lia. unfold ceil_div. cbn [Z.eqb].
    now destruct sorted.
Qed.

Lemma paging_out_of_range_witness :
  (pageSize {| limit := Some (-1)%Z; threshold := None; similarityMethod := None;
               metadataFilter := None; page := None; pageSize := None |} = None /\
   (-1 <= 0)%Z) /\
  fst (search (QueryVector [1; 0; 0]%float)
         {| limit := Some (-1)%Z; threshold := None; similarityMethod := None;
            metadataFilter := None; page := None; pageSize := None |}
         (store_of [sample_document "doc1" [1; 0; 0]%float;
                    sample_document "doc2" [0; 1; 0]%float]))
  = Return [{| document := stamped 0%Z (sample_document "doc1" [1; 0; 0]%float);
               similarity := 1%float |}].
Proof.
  split; [split; [reflexivity | discriminate]|].
  rewrite (proj1 paging_out_of_range
             (store_of [sample_document "doc1" [1; 0; 0]%float;
                        sample_document "doc2" [0; 1; 0]%float])
             (QueryVector [1; 0; 0]%float)
             {| limit := Some (-1)%Z; threshold := None; similarityMethod := None;
                metadataFilter := None; page := None; pageSize := None |}
             [1; 0; 0]%float
             (store_of [sample_document "doc1" [1; 0; 0]%float;
                        sample_document "doc2" [0; 1; 0]%float])
             (-1)%Z eq_refl eq_refl eq_refl);
    [reflexivity | discriminate].
Defined.

(** ** Calls that only read *)

Lemma search_vector_log vector options s :
  clock (snd (search (QueryVector vector) options s)) = clock s /\
  exists skipped,
    log (snd (search (QueryVector vector) options s)) =
    log s ++ map Warn skipped.
Proof.
  assert (Hw : forall docs,
             exists skipped,
               snd (sortedResults docs vector options) = map Warn skipped).
  { intros docs0. unfold sortedResults.
    generalize (candidates docs0 (metadataFilter options)). intros docs.
    assert (H : exists skipped,
               snd (score_documents vector (default Cosine (similarityMethod options))
                      (default 0%float (threshold options)) docs) = map Warn skipped).
    { induction docs as [|d docs (skipped & IH)]; [now exists []|].
      cbn [score_documents]. destruct (score_documents _ _ _ docs) as [rs ws].
      cbn [snd] in IH. subst ws.
      destruct (calculateSimilarity _ _ _) as [x | e | ];
        [destruct (PrimFloat.leb _ x); now exists skipped|..];
        now exists (id d :: skipped). }
    destruct H as (skipped & H). exists skipped.
    now destruct (score_documents _ _ _ docs). }
  destruct (documents s) as [|d ds] eqn:Ed.
  { unfold search. rewrite bind_get, Ed. cbn [Map_size length Nat.eqb ret snd].
    split; [reflexivity|]. exists []. cbn. now rewrite app_nil_r. }
  destruct vector as [|x v].
  { unfold search. rewrite bind_get, Ed. cbn.
    split; [reflexivity|]. exists []. cbn. now rewrite app_nil_r. }
  rewrite (@search_nonempty s (QueryVector (x :: v)) options (x :: v) s);
    [|rewrite Ed; discriminate | reflexivity].
  cbn [snd clock add_log log]. split; [reflexivity|].
  destruct (Hw (Map_values (documents s))) as (skipped & ->). now exists skipped.
Qed.

(** X15. Searching changes no document and no setting: [search],
    [searchWithPagination], [findMostSimilar], [generateEmbedding] and
    [generateEmbeddings] leave the table and the configuration as they
    were, whatever their outcome. A search by vector reads no timer and
    adds nothing to the log but the warnings for the documents it skips.
    The methods that read the table or the configuration leave the whole
    state as it was. *)
Theorem reading_changes_nothing :
  (forall query options, keeps_store (search query options)) /\
  (forall query options, keeps_store (searchWithPagination query options)) /\
  (forall query method, keeps_store (findMostSimilar query method)) /\
  (forall text, keeps_store (generateEmbedding text)) /\
  (forall texts batchSize batchDelay,
      keeps_store (generateEmbeddings texts batchSize batchDelay)) /\
  (forall vector options s,
      clock (snd (search (QueryVector vector) options s)) = clock s /\
      exists skipped,
        log (snd (search (QueryVector vector) options s)) =
        log s ++ map Warn skipped) /\
  (forall key, readonly (getDocument key)) /\
  (forall key, readonly (hasDocument key)) /\
  readonly getAllDocuments /\
  (forall filter, readonly (getDocumentsByMetadata filter)) /\
  readonly size /\ readonly isEmpty /\ readonly getEmbeddingDimensions /\
  readonly hasOpenAI /\ readonly getEmbeddingModel /\
  readonly getDefaultBatchSize /\ readonly getDefaultBatchDelay.
Proof.
  split; [exact keeps_store_search|].
  split; [exact keeps_store_searchWithPagination|].
  split; [exact keeps_store_findMostSimilar|].
  split; [exact keeps_store_generateEmbedding|].
  split; [exact keeps_store_generateEmbeddings|].
  split; [exact search_vector_log|].
  repeat match goal with |- _ /\ _ => split end;
    try exact readonly_getEmbeddingDimensions;
    unfold readonly; intros; reflexivity.
Qed.

(** ** Symmetry of the similarity functions *)

Lemma SFmul_comm X Y : SFmul prec emax X Y = SFmul prec emax Y X.
Proof.
  destruct X as [sx | sx | | sx mx ex], Y as [sy | sy | | sy my ey]; cbn [SFmul];
    rewrite ?(xorb_comm sx sy); try reflexivity.
  now rewrite Pos.mul_comm, Z.add_comm.
Qed.

Lemma number_mul_comm (x y : number) : (x * y = y * x)%float.
Proof.
  apply Prim2SF_inj. rewrite !FloatAxioms.mul_spec. apply SFmul_comm.
Qed.

Lemma binary_round_aux_opp s m e l :
  binary_round_aux prec emax (negb s) m e l = SFopp (binary_round_aux prec emax s m e l).
Proof.
  unfold binary_round_aux.
  destruct (shr_fexp prec emax m e l) as [mrs' e'].
  destruct (shr_fexp prec emax _ e' loc_Exact) as [mrs'' e''].
  destruct (shr_m mrs''); try reflexivity.
  now destruct (e'' <=? emax - prec)%Z.
Qed.

Lemma binary_round_opp s m e :
  binary_round prec emax (negb s) m e = SFopp (binary_round prec emax s m e).
Proof.
  unfold binary_round. destruct (shl_align m e _) as [mz ez].
  apply binary_round_aux_opp.
Qed.

Lemma binary_normalize_opp m e :
  binary_normalize prec emax (- m)%Z e false = binary_normalize prec emax m e false \/
  binary_normalize prec emax (- m)%Z e false = SFopp (binary_normalize prec emax m e false).
Proof.
  destruct m as [|p|p]; cbn [Z.opp binary_normalize].
  - now left.
  - right. apply (binary_round_opp false).
  - right. change false with (negb true). rewrite binary_round_opp.
    now destruct (binary_round prec emax true p e) as [[]|[]| |[]].
Qed.

Lemma SFsub_swap X Y :
  SFsub prec emax Y X = SFsub prec emax X Y \/
  SFsub prec emax Y X = SFopp (SFsub prec emax X Y).
Proof.
  destruct X as [sx | sx | | sx mx ex], Y as [sy | sy | | sy my ey]; cbn [SFsub SFopp];
    try solve [repeat match goal with s : bool |- _ => destruct s end; cbn; auto].
  rewrite (Z.min_comm ey ex).
  set (m1 := cond_Zopp sx _). set (m2 := cond_Zopp sy _).
  replace (m2 - m1)%Z with (- (m1 - m2))%Z by lia.
  apply binary_normalize_opp.
Qed.

Lemma SFmul_opp_opp X : SFmul prec emax (SFopp X) (SFopp X) = SFmul prec emax X X.
Proof. destruct X as [s | s | | s m e]; cbn [SFopp SFmul]; try reflexivity; now destruct s. Qed.

Lemma square_difference_comm (x y : number) :
  ((x - y) * (x - y) = (y - x) * (y - x))%float.
Proof.
  apply Prim2SF_inj. rewrite !FloatAxioms.mul_spec, !FloatAxioms.sub_spec. unfold SF64mul, SF64sub.
  destruct (SFsub_swap (Prim2SF x) (Prim2SF y)) as [-> | ->];
    [reflexivity | now rewrite SFmul_opp_opp].
Qed.

Lemma SFsub_diag X :
  (forall s, X <> S754_infinity s) -> X <> S754_nan ->
  SFsub prec emax X X = S754_zero false.
Proof.
  intros Hi Hn. destruct X as [s | s | | s m e]; cbn [SFsub].
  - now destruct s.
  - now contradiction (Hi s).
  - contradiction.
  - now rewrite Z.sub_diag.
Qed.

Lemma isFinite_spec x :
  isFinite x = true ->
  (forall s, Prim2SF x <> S754_infinity s) /\ Prim2SF x <> S754_nan.
Proof.
  unfold isFinite. intros H. apply negb_true_iff, orb_false_iff in H.
  destruct H as [Hn Hi]. split; [|now apply is_nan_false].
  intros s E. unfold is_infinity in Hi.
  rewrite FloatAxioms.eqb_spec, FloatAxioms.abs_spec, E in Hi.
  change (Prim2SF infinity) with (S754_infinity false) in Hi. discriminate.
Qed.

Lemma number_sub_diag x : isFinite x = true -> (x - x = 0)%float.
Proof.
  intros H. apply isFinite_spec in H. destruct H as [Hi Hn].
  apply Prim2SF_inj. rewrite FloatAxioms.sub_spec. unfold SF64sub.
  rewrite SFsub_diag by assumption. reflexivity.
Qed.

(** A [reduce] over [vecA] that reads [vecB] by index is a fold over the
    pairs of components. *)
Lemma reduce_from_combine (g : number -> number -> number -> number) (a : list number) :
  forall (b pre : list number) acc,
    length a = length b ->
    reduce_from (fun sum x i => g sum x (elem (pre ++ b) i)) a (length pre) acc =
    fold_left (fun sum p => g sum (fst p) (snd p)) (combine a b) acc.
Proof.
  induction a as [|x a IH]; intros [|y b] pre acc H; try discriminate; simpl.
  - reflexivity.
  - unfold elem at 2. rewrite nth_middle.
    replace (pre ++ y :: b) with ((pre ++ [y]) ++ b) by (now rewrite <- app_assoc).
    replace (S (length pre)) with (length (pre ++ [y]))
      by (rewrite length_app; simpl; lia).
    apply IH. simpl in H. lia.
Qed.

Lemma reduce_combine (g : number -> number -> number -> number) a b acc :
  length a = length b ->
  reduce (fun sum x i => g sum x (elem b i)) acc a =
  fold_left (fun sum p => g sum (fst p) (snd p)) (combine a b) acc.
Proof. intros H. unfold reduce. exact (@reduce_from_combine g a b [] acc H). Qed.

Lemma fold_combine_swap (g : number -> number -> number -> number) :
  (forall sum x y, g sum x y = g sum y x) ->
  forall a b acc,
    fold_left (fun sum p => g sum (fst p) (snd p)) (combine a b) acc =
    fold_left (fun sum p => g sum (fst p) (snd p)) (combine b a) acc.
Proof.
  intros Hg. induction a as [|x a IH]; intros [|y b] acc; simpl; try reflexivity.
  rewrite Hg. apply IH.
Qed.

Lemma dotProductSimilarity_comm a b :
  length a = length b -> dotProductSimilarity a b = dotProductSimilarity b a.
Proof.
  intros H. unfold dotProductSimilarity.
  pose proof (@reduce_combine (fun sum x y => sum + x * y)%float a b 0%float H) as E1.
  pose proof (@reduce_combine (fun sum x y => sum + x * y)%float b a 0%float (eq_sym H))
    as E2.
  cbv beta in E1, E2.
  etransitivity; [exact E1|]. etransitivity; [|symmetry; exact E2].
  apply (@fold_combine_swap (fun sum x y => sum + x * y)%float).
  intros sum x y. now rewrite number_mul_comm.
Qed.

Lemma euclideanSimilarity_comm a b :
  length a = length b -> euclideanSimilarity a b = euclideanSimilarity b a.
Proof.
  intros H. unfold euclideanSimilarity.
  pose proof (@reduce_combine (fun sum x y => sum + (x - y) * (x - y))%float a b
                0%float H) as E1.
  pose proof (@reduce_combine (fun sum x y => sum + (x - y) * (x - y))%float b a
                0%float (eq_sym H)) as E2.
  cbv beta in E1, E2.
  assert (E : fold_left (fun sum p => sum + (fst p - snd p) * (fst p - snd p))%float
                (combine a b) 0%float =
              fold_left (fun sum p => sum + (fst p - snd p) * (fst p - snd p))%float
                (combine b a) 0%float).
  { apply (@fold_combine_swap (fun sum x y => sum + (x - y) * (x - y))%float).
    intros sum x y. now rewrite square_difference_comm. }
  do 3 f_equal. etransitivity; [exact E1|]. etransitivity; [exact E|].
  symmetry. exact E2.
Qed.

Lemma cosineSimilarity_comm a b :
  length a = length b -> cosineSimilarity a b = cosineSimilarity b a.
Proof.
  intros H. rewrite (cosineSimilarity_formula a b H).
  rewrite (cosineSimilarity_formula b a (eq_sym H)).
  rewrite (orb_comm (PrimFloat.eqb (magnitude a) 0)).
  rewrite (number_mul_comm (magnitude a) (magnitude b)).
  unfold dot_product.
  rewrite (@fold_combine_swap (fun sum x y => sum + x * y)%float
             (fun sum x y => f_equal (PrimFloat.add sum) (number_mul_comm x y)) a b).
  reflexivity.
Qed.

Lemma euclidean_fold_diag v :
  forallb isFinite v = true ->
  fold_left (fun sum p => sum + (fst p - snd p) * (fst p - snd p))%float
    (combine v v) 0%float = 0%float.
Proof.
  induction v as [|x v IH]; [reflexivity|]. cbn [forallb combine fold_left fst snd].
  intros H. apply andb_true_iff in H. destruct H as [Hx Hv].
  rewrite (number_sub_diag x Hx).
  change (0 + 0 * 0)%float with 0%float. now apply IH.
Qed.

(** X16. The dot product and the cosine similarity are symmetric: for two
    vectors of equal length they give the same number whichever vector
    comes first, and [calculateSimilarity] with either method gives the
    same outcome for any two vectors, of equal length or not. *)
Theorem similarity_is_symmetric :
  (forall a b,
      length a = length b ->
      dotProductSimilarity a b = dotProductSimilarity b a /\
      cosineSimilarity a b = cosineSimilarity b a) /\
  (forall a b method,
      method <> Euclidean ->
      calculateSimilarity a (Some b) method = calculateSimilarity b (Some a) method).
Proof.
  split.
  - intros a b H. split; [now apply dotProductSimilarity_comm|].
    now apply cosineSimilarity_comm.
  - intros a b method Hm. unfold calculateSimilarity.
    rewrite (Nat.eqb_sym (length b) (length a)).
    destruct (Nat.eqb_spec (length a) (length b)) as [H | H]; [|reflexivity].
    cbn [negb]. f_equal.
    destruct method; [| contradiction |];
      auto using dotProductSimilarity_comm, cosineSimilarity_comm.
Qed.

Lemma similarity_is_symmetric_witness :
  (length [1; 2; 3]%float = length [0.5; 0.25; 4]%float /\ Cosine <> Euclidean) /\
  cosineSimilarity [1; 2; 3]%float [0.5; 0.25; 4]%float =
  cosineSimilarity [0.5; 0.25; 4]%float [1; 2; 3]%float /\
  calculateSimilarity [1; 2; 3]%float (Some [0.5; 0.25; 4]%float) Cosine =
  calculateSimilarity [0.5; 0.25; 4]%float (Some [1; 2; 3]%float) Cosine.
Proof.
  split; [split; [reflexivity | discriminate]|]. split.
  - apply (proj1 similarity_is_symmetric). reflexivity.
  - apply (proj2 similarity_is_symmetric). discriminate.
Defined.

(** X17. The Euclidean similarity is symmetric for vectors of equal
    length, and [calculateSimilarity] with this method gives the same
    outcome for any two vectors, whichever comes first. The Euclidean
    similarity of a vector of finite numbers with itself is exactly 1: a
    stored document, whose embedding [addDocument] has checked to be
    finite, has similarity 1 to its own embedding. *)
Theorem euclidean_similarity_of_equal_vectors :
  (forall a b,
      length a = length b -> euclideanSimilarity a b = euclideanSimilarity b a) /\
  (forall a b,
      calculateSimilarity a (Some b) Euclidean =
      calculateSimilarity b (Some a) Euclidean) /\
  (forall v,
      forallb isFinite v = true ->
      calculateSimilarity v (Some v) Euclidean = Return 1%float) /\
  (forall document createEmbedding s s' e,
      addDocument document createEmbedding s = (Return tt, s') ->
      embedding document = Some e ->
      calculateSimilarity e (Some e) Euclidean = Return 1%float).
Proof.
  assert (Hself : forall v,
             forallb isFinite v = true ->
             calculateSimilarity v (Some v) Euclidean = Return 1%float).
  { intros v H. unfold calculateSimilarity. rewrite Nat.eqb_refl. cbn [negb].
    f_equal. unfold euclideanSimilarity.
    pose proof (@reduce_combine (fun sum x y => sum + (x - y) * (x - y))%float v v
                  0%float eq_refl) as E.
    cbv beta in E.
    assert (E0 : reduce (fun sum a i => sum + (a - elem v i) * (a - elem v i))%float
                   0%float v = 0%float).
    { etransitivity; [exact E|]. now apply euclidean_fold_diag. }
    rewrite E0. reflexivity. }
  split; [exact euclideanSimilarity_comm|]. split; [|split; [exact Hself|]].
  - intros a b. unfold calculateSimilarity.
    rewrite (Nat.eqb_sym (length b) (length a)).
    destruct (Nat.eqb_spec (length a) (length b)) as [H | H]; [|reflexivity].
    cbn [negb]. f_equal. now apply euclideanSimilarity_comm.
  - intros document createEmbedding s s' e H He. apply Hself.
    unfold addDocument in H.
    apply bind_inv_Return in H. destruct H as (f & s1 & Hf & H).
    rewrite (finalDocument_of_embedded document createEmbedding s He) in Hf.
    inversion Hf; subst f s1. clear Hf.
    apply bind_inv_Return in H. destruct H as ([] & s2 & Hc & _).
    unfold check_dimensions in Hc.
    apply bind_inv_Return in Hc. destruct Hc as (ok & s3 & Hv & _).
    unfold validateDocument in Hv. rewrite He in Hv.
    destruct (String.eqb (id document) ""); [discriminate|].
    destruct e as [|x e]; [discriminate|].
    destruct (existsb (fun val => negb (isFinite val)) (x :: e)) eqn:Ex;
      [discriminate|].
    apply forallb_forall. intros y Hy.
    destruct (isFinite y) eqn:Fy; [reflexivity|]. exfalso.
    assert (Hex : existsb (fun val => negb (isFinite val)) (x :: e) = true).
    { apply existsb_exists. exists y. split; [exact Hy | now rewrite Fy]. }
    congruence.
Qed.

Lemma euclidean_similarity_of_equal_vectors_witness :
  forallb isFinite [0.1; 0.2; 0.3]%float = true /\
  calculateSimilarity [0.1; 0.2; 0.3]%float (Some [0.1; 0.2; 0.3]%float) Euclidean
  = Return 1%float.
Proof.
  split; [reflexivity|].
  apply (proj1 (proj2 (proj2 euclidean_similarity_of_equal_vectors))). reflexivity.
Defined.

(** ** The earlier class [VectorStore] *)

Lemma bind_assoc {A B C} (m : M A) (f : A -> M B) (g : B -> M C) s :
  bind (bind m f) g s = bind m (fun a => bind (f a) g) s.
Proof. unfold bind. now destruct (m s) as [[a | e | ] s1]. Qed.

Lemma VectorStore_validateDocument_eq document s :
  VectorStore.validateDocument document s =
  bind (validateDocument document) (fun _ => ret tt) s.
Proof.
  unfold VectorStore.validateDocument, validateDocument, bind.
  destruct (String.eqb (id document) ""); [reflexivity|].
  destruct (embedding document) as [[|x e]|]; try reflexivity.
  now destruct (existsb _ (x :: e)).
Qed.

Lemma readonly_VectorStore_validateDocument document :
  readonly (VectorStore.validateDocument document).
Proof. unfold VectorStore.validateDocument. frame. Qed.

(** The checks of [VectorStore.addDocument] are those of
    [NeuraDB.addDocument]. *)
Lemma VectorStore_checks_eq {A} document (k : M A) s :
  bind (VectorStore.validateDocument document)
    (fun _ =>
       bind (validateEmbeddingDimensions (default [] (embedding document)))
         (fun ok =>
            bind (if negb ok
                  then len <- embedding_length document ;;
                       expected <- getEmbeddingDimensions ;;
                       throw (DimensionMismatch len expected)
                  else ret tt)
              (fun _ => k))) s
  = bind (check_dimensions document) (fun _ => k) s.
Proof.
  unfold check_dimensions, bind. rewrite VectorStore_validateDocument_eq.
  unfold bind.
  destruct (validateDocument document s) as [[b | e | ] s1]; try reflexivity.
  cbn [ret].
  destruct (validateEmbeddingDimensions (default [] (embedding document)) s1)
    as [[ok | e | ] s2]; reflexivity.
Qed.

Lemma VectorStore_addDocument_eq document createEmbedding s e :
  embedding document = Some e ->
  addDocument document createEmbedding s = VectorStore.addDocument document s.
Proof.
  intros He. unfold addDocument, VectorStore.addDocument.
  erewrite bind_Return
    by (apply (@finalDocument_of_embedded document createEmbedding s e); exact He).
  symmetry. apply VectorStore_checks_eq.
Qed.

Lemma VectorStore_addDocument_throws document s e s' :
  VectorStore.addDocument document s = (Throw e, s') -> s' = s.
Proof.
  unfold VectorStore.addDocument. rewrite VectorStore_checks_eq. unfold bind.
  pose proof (readonly_check_dimensions document s) as Hc.
  destruct (check_dimensions document s) as [[[] | err | ] s1]; cbn [snd] in Hc;
    subst s1; intros H; [discriminate | now inversion H | discriminate].
Qed.

Lemma bind_ext {A B} (m : M A) (k1 k2 : A -> M B) s :
  (forall a s1, k1 a s1 = k2 a s1) -> bind m k1 s = bind m k2 s.
Proof.
  intros H. unfold bind. destruct (m s) as [[a | e | ] s1]; [apply H | reflexivity..].
Qed.

Lemma forEach_from_app_bind {A} (f : A -> nat -> M unit) l1 :
  forall l2 i s,
    forEach_from f (l1 ++ l2) i s =
    bind (forEach_from f l1 i) (fun _ => forEach_from f l2 (i + length l1)) s.
Proof.
  induction l1 as [|x l1 IH]; intros l2 i s.
  - simpl. unfold bind, ret. now rewrite Nat.add_0_r.
  - replace (i + length (x :: l1)) with (S i + length l1) by (simpl; lia).
    cbn [app forEach_from]. rewrite bind_assoc. apply bind_ext.
    intros a s1. apply IH.
Qed.

Lemma VectorStore_addDocument_accepted document s e :
  VectorStore.validateDocument document s = (Return tt, s) ->
  embedding document = Some e ->
  accepts (documents s) (length e) ->
  VectorStore.addDocument document s =
  (Return tt,
   set_documents s (Map_set (documents s) (id document) (stamped (clock s) document))).
Proof.
  intros Hv He Ha. unfold VectorStore.addDocument.
  erewrite bind_Return by exact Hv.
  unfold validateEmbeddingDimensions. rewrite bind_assoc.
  unfold bind at 1. rewrite getEmbeddingDimensions_eq, He. cbn [default].
  destruct Ha as [-> | ->]; cbn [ret bind negb]; [reflexivity|].
  unfold bind at 1. cbn [ret]. now rewrite Nat.eqb_refl.
Qed.

Lemma VectorStore_addDocument_rejected document s e n :
  VectorStore.validateDocument document s = (Return tt, s) ->
  embedding document = Some e ->
  dimension_of (documents s) = Return (Some n) ->
  length e <> n ->
  VectorStore.addDocument document s =
  (Throw (DimensionMismatch (length e) (Some n)), s).
Proof.
  intros Hv He Hd Hn. unfold VectorStore.addDocument.
  erewrite bind_Return by exact Hv.
  unfold validateEmbeddingDimensions. rewrite bind_assoc.
  unfold bind at 1. rewrite getEmbeddingDimensions_eq, He, Hd. cbn [default].
  unfold bind at 1. cbn [ret].
  destruct (Nat.eqb_spec (length e) n); [contradiction|]. cbn [negb].
  unfold bind, embedding_length. rewrite He. cbn [ret].
  now rewrite getEmbeddingDimensions_eq, Hd.
Qed.

Lemma VectorStore_validateDocument_state document s s' :
  fst (VectorStore.validateDocument document s') =
  fst (VectorStore.validateDocument document s).
Proof.
  unfold VectorStore.validateDocument.
  destruct (String.eqb (id document) ""); [reflexivity|].
  destruct (embedding document) as [[|x e]|]; try reflexivity.
  now destruct (existsb _ (x :: e)).
Qed.

Lemma VectorStore_validateDocument_Return document s s' :
  VectorStore.validateDocument document s = (Return tt, s) ->
  VectorStore.validateDocument document s' = (Return tt, s').
Proof.
  intros H. pose proof (VectorStore_validateDocument_state document s s') as Hf.
  rewrite H in Hf. cbn [fst] in Hf.
  pose proof (readonly_VectorStore_validateDocument document s') as Hs.
  destruct (VectorStore.validateDocument document s') as [o s2].
  cbn [fst snd] in *. now subst.
Qed.

(** Adding, one after the other, valid documents of the dimension of the
    table. *)
Lemma VectorStore_add_each n docs :
  forall i s,
    all_dimension n (documents s) ->
    (forall d, In d docs ->
               VectorStore.validateDocument d s = (Return tt, s) /\
               exists e, embedding d = Some e /\ length e = n) ->
    forEach_from (fun doc (_ : nat) => VectorStore.addDocument doc) docs i s =
    (Return tt,
     set_documents s
       (fold_left (fun t d => Map_set t (id d) d) (map (stamped (clock s)) docs)
          (documents s))).
Proof.
  induction docs as [|d docs IH]; intros i s Hall Hdocs.
  - cbn. unfold ret. now rewrite set_documents_same.
  - destruct (Hdocs d (or_introl eq_refl)) as (Hv & e & He & Hl).
    cbn [forEach_from map fold_left].
    assert (Ha : accepts (documents s) (length e)).
    { destruct (documents s) as [|x m] eqn:Em; [now left | right].
      rewrite <- Em in *. rewrite Hl. apply dimension_of_all; [|exact Hall].
      rewrite Em. discriminate. }
    erewrite bind_Return
      by (apply (@VectorStore_addDocument_accepted d s e); assumption).
    rewrite IH.
    + reflexivity.
    + cbn [documents set_documents].
      apply all_dimension_set with (e := e); [exact Hall | | exact Hl].
      exact He.
    + intros d' Hd'. destruct (Hdocs d' (or_intror Hd')) as (Hv' & He').
      split; [|exact He']. eapply VectorStore_validateDocument_Return; exact Hv'.
Qed.

(** X18. The earlier [VectorStore.addDocuments] validates every document
    before it stores any, so a document without id, without embedding or
    with a value that is not finite makes it throw with the table as it
    was. The dimensions are checked only while the documents are stored,
    one by one: when the documents pass the validation and a document has
    another dimension than the table and the documents before it, the call
    throws the dimension error and the documents before it remain stored.
    When all have the dimension of the table, all are stored, each under
    its id, a later document replacing an earlier one of the same id. *)
Theorem VectorStore_addDocuments_stores_a_prefix :
  (forall docs d s e,
      In d docs ->
      VectorStore.validateDocument d s = (Throw e, s) ->
      exists e', VectorStore.addDocuments docs s = (Throw e', s)) /\
  (forall pre doc post s n e,
      (forall d, In d (pre ++ doc :: post) ->
                 VectorStore.validateDocument d s = (Return tt, s)) ->
      all_dimension n (documents s) ->
      (forall d, In d pre -> exists e, embedding d = Some e /\ length e = n) ->
      embedding doc = Some e -> length e <> n ->
      pre <> [] \/ documents s <> [] ->
      VectorStore.addDocuments (pre ++ doc :: post) s =
      (Throw (DimensionMismatch (length e) (Some n)),
       set_documents s
         (fold_left (fun t d => Map_set t (id d) d) (map (stamped (clock s)) pre)
            (documents s)))) /\
  (forall docs s n,
      (forall d, In d docs -> VectorStore.validateDocument d s = (Return tt, s)) ->
      all_dimension n (documents s) ->
      (forall d, In d docs -> exists e, embedding d = Some e /\ length e = n) ->
      VectorStore.addDocuments docs s =
      (Return tt,
       set_documents s
         (fold_left (fun t d => Map_set t (id d) d) (map (stamped (clock s)) docs)
            (documents s)))).
Proof.
  assert (Hvalid : forall docs s,
             (forall d, In d docs -> VectorStore.validateDocument d s = (Return tt, s)) ->
             forall i,
               forEach_from (fun doc (_ : nat) => VectorStore.validateDocument doc)
                 docs i s = (Return tt, s)).
  { induction docs as [|d docs IH]; intros s H i; [reflexivity|].
    cbn [forEach_from]. erewrite bind_Return by (apply H; now left).
    apply IH. intros d' Hd'. apply H. now right. }
  split; [|split].
  - intros docs d s e Hd He. unfold VectorStore.addDocuments.
    destruct (In_nth_error _ _ Hd) as (k & Hk).
    destruct (@forEach_from_throws _
                (fun doc (_ : nat) => VectorStore.validateDocument doc) s) with
      (array := docs) (i := 0) (k := k) (x := d) (e := e) as (e' & He');
      [|exact Hk | exact He|].
    + intros x i.
      pose proof (readonly_VectorStore_validateDocument x s) as Hr.
      destruct (VectorStore.validateDocument x s) as [[[] | err | ] s1] eqn:E;
        cbn [snd] in Hr; subst s1; eauto.
      exfalso. revert E. unfold VectorStore.validateDocument.
      destruct (String.eqb (id x) ""); [discriminate|].
      destruct (embedding x) as [[|y v]|]; try discriminate.
      destruct (existsb _ (y :: v)); discriminate.
    + exists e'. unfold forEach. now erewrite bind_Throw by exact He'.
  - intros pre doc post s n e Hv Hall Hpre He Hn Hne.
    unfold VectorStore.addDocuments, forEach.
    erewrite bind_Return by (apply Hvalid; exact Hv).
    rewrite forEach_from_app_bind.
    erewrite bind_Return.
    2:{ apply VectorStore_add_each with (n := n); [exact Hall|].
        intros d Hd. split; [apply Hv, in_or_app; now left | now apply Hpre]. }
    cbn [forEach_from].
    erewrite bind_Throw; [reflexivity|].
    apply VectorStore_addDocument_rejected with (n := n);
      [eapply VectorStore_validateDocument_Return; apply Hv, in_or_app; right; now left
      | exact He | | exact Hn].
    cbn [documents set_documents]. apply dimension_of_all.
    + destruct pre as [|d pre]; [destruct Hne as [Hne | Hne]; [contradiction | exact Hne]|].
      cbn [map fold_left]. apply fold_set_not_nil, Map_set_not_nil.
    + apply all_dimension_fold; [|exact Hall].
      apply Forall_forall. intros d Hd. apply in_map_iff in Hd.
      destruct Hd as (d0 & <- & Hd0). exact (Hpre d0 Hd0).
  - intros docs s n Hv Hall Hdocs.
    unfold VectorStore.addDocuments, forEach.
    erewrite bind_Return by (apply Hvalid; exact Hv).
    apply VectorStore_add_each with (n := n); [exact Hall|].
    intros d Hd. split; [now apply Hv | now apply Hdocs].
Qed.

Lemma VectorStore_addDocuments_stores_a_prefix_witness :
  VectorStore.addDocuments
    [sample_document "doc1" [1; 0; 0]%float; sample_document "doc2" [1; 0]%float;
     sample_document "doc3" [0; 0; 1]%float] empty_store
  = (Throw (DimensionMismatch 2 (Some 3)),
     set_documents empty_store
       [("doc1"%string, stamped 0%Z (sample_document "doc1" [1; 0; 0]%float))]).
Proof.
  apply (proj1 (proj2 VectorStore_addDocuments_stores_a_prefix)
           [sample_document "doc1" [1; 0; 0]%float]
           (sample_document "doc2" [1; 0]%float)
           [sample_document "doc3" [0; 0; 1]%float] empty_store 3 [1; 0]%float).
  - intros d [<- | [<- | [<- | []]]]; reflexivity.
  - intros d [].
  - intros d [<- | []]. eexists. split; reflexivity.
  - reflexivity.
  - discriminate.
  - left. discriminate.
Defined.

(** X19. On the inputs of the earlier class, [NeuraDB] behaves as
    [VectorStore]: adding or updating a document that carries an embedding
    gives the same outcome and the same state, and on a table that holds
    documents a search by vector without [pageSize] and [findMostSimilar]
    give the same results, the same error and the same warnings. For a
    document without embedding the two classes throw different errors. *)
Theorem NeuraDB_agrees_with_VectorStore :
  (forall document createEmbedding s e,
      embedding document = Some e ->
      addDocument document createEmbedding s = VectorStore.addDocument document s /\
      updateDocument document createEmbedding s =
      VectorStore.updateDocument document s) /\
  (forall q options s,
      documents s <> [] -> pageSize options = None ->
      search (QueryVector q) options s =
      (fst (VectorStore.search (documents s) q options),
       add_log s (snd (VectorStore.search (documents s) q options)))) /\
  (forall q method s,
      documents s <> [] ->
      findMostSimilar (QueryVector q) method s = VectorStore.findMostSimilar q method s) /\
  (forall document s,
      id document <> ""%string -> embedding document = None ->
      VectorStore.addDocument document s = (Throw MustHaveEmbedding, s) /\
      addDocument document None s = (Throw EmbeddingRequired, s)).
Proof.
  assert (Hsearch : forall q options s,
             documents s <> [] -> pageSize options = None ->
             search (QueryVector q) options s =
             (fst (VectorStore.search (documents s) q options),
              add_log s (snd (VectorStore.search (documents s) q options)))).
  { intros q options s Hne Hp. unfold VectorStore.search.
    destruct (documents s) as [|d ds] eqn:Ed; [contradiction|].
    cbn [Map_size length Nat.eqb]. rewrite <- Ed.
    destruct q as [|x q].
    - cbn [length Nat.eqb fst snd]. rewrite add_log_nil.
      unfold search. now rewrite bind_get, Ed.
    - cbn [length Nat.eqb].
      rewrite (@search_nonempty s (QueryVector (x :: q)) options (x :: q) s);
        [|rewrite Ed; discriminate | reflexivity].
      rewrite Hp. unfold sortedResults.
      now destruct (score_documents _ _ _ _) as [results warnings]. }
  split; [|split; [exact Hsearch | split]].
  - intros document createEmbedding s e He.
    split; [now apply VectorStore_addDocument_eq with (e := e)|].
    unfold updateDocument, VectorStore.updateDocument. rewrite !bind_get.
    destruct (negb (Map_has (documents s) (id document))); [reflexivity|].
    erewrite bind_Return
      by (apply (@finalDocument_of_embedded document createEmbedding s e); exact He).
    symmetry. apply VectorStore_checks_eq.
  - intros q method s Hne.
    unfold findMostSimilar, VectorStore.findMostSimilar. rewrite bind_get.
    unfold bind at 1. rewrite Hsearch by (exact Hne || reflexivity).
    destruct (VectorStore.search (documents s) q _) as [[results | e | ] warnings];
      reflexivity.
  - intros document s Hid He. split.
    + unfold VectorStore.addDocument, VectorStore.validateDocument, bind.
      destruct (String.eqb_spec (id document) ""); [contradiction|].
      now rewrite He.
    + unfold addDocument, finalDocument_of, bind. now rewrite He.
Qed.

Lemma NeuraDB_agrees_with_VectorStore_witness :
  embedding (sample_document "doc1" [1; 0; 0]%float) = Some [1; 0; 0]%float /\
  addDocument (sample_document "doc1" [1; 0; 0]%float) (Some true) empty_store =
  VectorStore.addDocument (sample_document "doc1" [1; 0; 0]%float) empty_store.
Proof.
  split; [reflexivity|].
  apply (proj1 NeuraDB_agrees_with_VectorStore _ _ _ [1; 0; 0]%float). reflexivity.
Defined.

(** ** Progress reports *)

Lemma generateEmbeddings_one_request s client batch d r :
  openai s = Some client ->
  batch <> [] ->
  client (batch_request (embeddingModel s) batch) = OpenAI.Resolved r ->
  generateEmbeddings batch (Some (Z.of_nat (length batch))) d s =
  (Return (embeddings_of r),
   add_log s [EmbeddingsCreate (batch_request (embeddingModel s) batch)]).
Proof.
  intros Ho Hne Hr. unfold generateEmbeddings. rewrite bind_get, Ho. cbn [default].
  destruct batch as [|t batch]; [contradiction|]. cbn [length Nat.eqb].
  destruct (Z.leb_spec (Z.of_nat (S (length batch))) (Z.of_nat (S (length batch))));
    [|lia].
  unfold try_catch, bind, embeddings_create, emit, modify.
  fold (batch_request (embeddingModel s) (t :: batch)). now rewrite Hr.
Qed.

Lemma progress_loop_resolved client model d n total batches :
  forall i processed acc s,
    openai s = Some client -> embeddingModel s = model ->
    i + length batches = n ->
    (forall c, In c batches ->
               c <> [] /\
               exists r, client (batch_request model c) = OpenAI.Resolved r) ->
    exists s',
      progress_loop d n total batches i processed acc s =
      (Return (acc ++ flat_map (resolved_embeddings client model) batches), s') /\
      same_store s s' /\
      log s' = log s ++ progress_events model d total processed batches.
Proof.
  induction batches as [|c rest IH]; intros i processed acc s Ho Hm Hn Hres.
  - exists s. simpl. rewrite !app_nil_r. auto using same_store_refl.
  - destruct (Hres c (or_introl eq_refl)) as (Hc & r & Hr).
    cbn [progress_loop].
    assert (Hstep :
      exists s1,
        try_catch
          (batchEmbeddings <-
             generateEmbeddings c (Some (Z.of_nat (length c))) (Some 0%Z) ;;
           emit [Progress (processed + Z.of_nat (length c)) total] ;;
           (if (Z.of_nat i <? Z.of_nat n - 1)%Z && (0 <? d)%Z
            then delay d else ret tt) ;;
           ret (acc ++ batchEmbeddings, (processed + Z.of_nat (length c))%Z))
          (fun error =>
             throw (FailedBatchDocuments (i + 1) (processed + 1)
                      (processed + Z.of_nat (length c)) error)) s
        = (Return (acc ++ resolved_embeddings client model c,
                   (processed + Z.of_nat (length c))%Z), s1) /\
        same_store s s1 /\
        log s1 = log s ++ EmbeddingsCreate (batch_request model c)
                   :: Progress (processed + Z.of_nat (length c)) total
                   :: match rest with
                      | [] => []
                      | _ :: _ => if (0 <? d)%Z then [Delay d] else []
                      end).
    { unfold try_catch. unfold bind at 1.
      rewrite (@generateEmbeddings_one_request s client c (Some 0%Z) r Ho Hc)
        by (now rewrite Hm).
      unfold resolved_embeddings. rewrite Hr, Hm.
      unfold bind, emit, modify. cbn [ret].
      assert (Hi : (Z.of_nat i <? Z.of_nat n - 1)%Z
                   = match rest with [] => false | _ :: _ => true end).
      { destruct rest; simpl in Hn; [apply Z.ltb_ge | apply Z.ltb_lt]; lia. }
      rewrite Hi. destruct rest as [|c' rest'].
      - eexists. split; [reflexivity|]. split; [repeat split|].
        cbn [log add_log]. now rewrite <- app_assoc.
      - cbn [andb]. destruct (0 <? d)%Z.
        + eexists. split; [reflexivity|]. split; [repeat split|].
          cbn [delay modify log add_log set_clock snd]. now rewrite <- !app_assoc.
        + eexists. split; [reflexivity|]. split; [repeat split|].
          cbn [log add_log]. now rewrite <- app_assoc. }
    destruct Hstep as (s1 & Hs1 & Hss1 & Hl1).
    erewrite bind_Return by exact Hs1. cbn [fst snd].
    destruct (IH (S i) (processed + Z.of_nat (length c))%Z
                (acc ++ resolved_embeddings client model c) s1)
      as (s' & Hs' & Hss' & Hl').
    + destruct Hss1 as (_ & -> & _). exact Ho.
    + destruct Hss1 as (_ & _ & -> & _). exact Hm.
    + simpl in Hn. lia.
    + intros; apply Hres; now right.
    + exists s'. split; [|split].
      * rewrite Hs'. cbn [flat_map]. now rewrite app_assoc.
      * eapply same_store_trans; eassumption.
      * rewrite Hl', Hl1. cbn [progress_events]. rewrite <- !app_assoc. reflexivity.
Qed.

Lemma progress_events_requests model d total batches :
  forall processed,
    List.filter (fun e => negb (is_progress e))
      (progress_events model d total processed batches) = batch_events model d batches /\
    List.filter is_progress (progress_events model d total processed batches) =
    progress_reports total processed batches.
Proof.
  induction batches as [|c rest IH]; intros processed; [split; reflexivity|].
  cbn [progress_events batch_events progress_reports List.filter is_progress negb].
  rewrite !filter_app.
  destruct (IH (processed + Z.of_nat (length c))%Z) as (-> & ->).
  split; f_equal.
  - f_equal. destruct rest; [reflexivity|]. now destruct (0 <? d)%Z.
  - destruct rest; [reflexivity|]. now destruct (0 <? d)%Z.
Qed.

Lemma progress_reports_last total batches :
  batches <> [] ->
  forall processed,
    last (progress_reports total processed batches) (Progress 0 0) =
    Progress (processed + Z.of_nat (length (concat batches))) total.
Proof.
  induction batches as [|c rest IH]; intros Hne processed; [contradiction|].
  cbn [progress_reports concat]. rewrite length_app.
  destruct rest as [|c' rest'].
  - cbn. do 2 f_equal. lia.
  - change (last (?x :: progress_reports ?t ?p (c' :: rest')) ?d)
      with (last (progress_reports t p (c' :: rest')) d).
    rewrite IH by discriminate. f_equal. lia.
Qed.

(** X20. With a progress callback, the embedding step of [addDocuments]
    embeds the texts chunk by chunk, one request per chunk, and calls the
    callback after each chunk with the number of texts embedded so far and
    the total; the last call reports the total as embedded. When the
    provider resolves every request, the embeddings are those the step
    produces without a callback, and the requests and delays are the same,
    in the same order. *)
Theorem progress_reported_per_batch :
  forall s client needing b d chunks,
    openai s = Some client ->
    (1 <= b)%Z ->
    needing <> [] ->
    chunkArray (map content needing) b = Some chunks ->
    (forall c, In c chunks ->
               exists r, client (batch_request (embeddingModel s) c)
                         = OpenAI.Resolved r) ->
    let total := Z.of_nat (length needing) in
    let generated := flat_map (resolved_embeddings client (embeddingModel s)) chunks in
    exists s',
      generate_for needing b d true s = (Return generated, s') /\
      same_store s s' /\
      log s' = log s ++ progress_events (embeddingModel s) d total 0 chunks /\
      List.filter is_progress (progress_events (embeddingModel s) d total 0 chunks)
      = progress_reports total 0 chunks /\
      last (progress_reports total 0 chunks) (Progress 0 0) = Progress total total /\
      List.filter (fun e => negb (is_progress e))
        (progress_events (embeddingModel s) d total 0 chunks)
      = batch_events (embeddingModel s) d chunks /\
      exists s'',
        generate_for needing b d false s = (Return generated, s'') /\
        log s'' = log s ++ batch_events (embeddingModel s) d chunks.
Proof.
  intros s client needing b d chunks Ho Hb Hne Hc Hres total generated.
  destruct (@chunkArray_spec _ (map content needing) b Hb)
    as (chunks' & Hc' & Hcat & _ & Hall & _).
  rewrite Hc in Hc'. inversion Hc'; subst chunks'. clear Hc'.
  assert (Hchunks : forall c, In c chunks ->
             c <> [] /\
             exists r, client (batch_request (embeddingModel s) c) = OpenAI.Resolved r).
  { intros c Hin. split; [|now apply Hres].
    rewrite Forall_forall in Hall. destruct (Hall c Hin) as [H1 _].
    intros ->. simpl in H1. lia. }
  assert (Hpos : Nat.ltb 0 (length needing) = true).
  { apply Nat.ltb_lt. destruct needing; [contradiction | simpl; lia]. }
  destruct (@progress_loop_resolved client (embeddingModel s) d (length chunks) total
              chunks 0 0%Z [] s Ho eq_refl eq_refl Hchunks)
    as (s' & Hs' & Hss' & Hl').
  destruct (@generateEmbeddings_resolved s client (map content needing) b d chunks
              Ho Hb Hc Hres) as (s'' & Hs'' & _ & Hl'').
  destruct (progress_events_requests (embeddingModel s) d total chunks 0%Z)
    as (Hreq & Hrep).
  exists s'. split; [|split; [exact Hss' | split; [exact Hl' | split; [exact Hrep|]]]].
  - unfold generate_for. rewrite Hpos. unfold try_catch, chunkArrayM. rewrite Hc.
    erewrite bind_Return by reflexivity. fold total. now rewrite Hs'.
  - split.
    + rewrite progress_reports_last.
      * rewrite Hcat, length_map. reflexivity.
      * intros ->. simpl in Hcat. destruct needing; [contradiction | discriminate].
    + split; [exact Hreq|]. exists s''. split; [|exact Hl''].
      unfold generate_for. rewrite Hpos. unfold try_catch. now rewrite Hs''.
Qed.

Lemma progress_reported_per_batch_witness :
  exists s',
    generate_for
      (map (fun i => text_document (String (ascii_of_nat (65 + i)) "") "Content")
         (seq 0 5)) 2 100 true mock_store
    = (Return (repeat [0.1; 0.2; 0.3]%float 5), s') /\
    List.filter is_progress (log s') = [Progress 2 5; Progress 4 5; Progress 5 5].
Proof.
  destruct (@progress_reported_per_batch mock_store mock_openai
              (map (fun i => text_document (String (ascii_of_nat (65 + i)) "") "Content")
                 (seq 0 5)) 2%Z 100%Z
              [["Content"; "Content"]; ["Content"; "Content"]; ["Content"]]%string)
    as (s' & Hg & _ & Hl & Hp & _).
  - reflexivity.
  - discriminate.
  - discriminate.
  - reflexivity.
  - intros c _. eexists. reflexivity.
  - exists s'. split; [exact Hg|].
    rewrite Hl. cbn [log mock_store constructor app]. rewrite Hp. reflexivity.
Defined.

(** ** Filtering by metadata *)

Lemma forallb_matches filter md :
  forallb (fun entry => strict_eq (prop md (fst entry)) (snd entry)) filter = true <->
  matches filter md.
Proof.
  rewrite forallb_forall. unfold matches. split.
  - intros H key value Hin. exact (H (key, value) Hin).
  - intros H [key value] Hin. exact (H key value Hin).
Qed.

Lemma strict_eq_nan v : strict_eq v (JNumber nan) = false.
Proof.
  destruct v; try reflexivity. cbn [strict_eq].
  rewrite FloatAxioms.eqb_spec. change (Prim2SF nan) with S754_nan.
  unfold SFeqb, SFcompare. now destruct (Prim2SF n).
Qed.

Lemma inherited_key key :
  existsb (String.eqb key) Object_prototype = true <-> In key Object_prototype.
Proof.
  rewrite existsb_exists. split.
  - intros (k & Hk & E). apply String.eqb_eq in E. now subst.
  - intros H. exists key. split; [exact H | apply String.eqb_refl].
Qed.

Lemma prop_undefined md key :
  prop md key = JUndefined <->
  own_prop md key = Some JUndefined \/
  (own_prop md key = None /\ ~ In key Object_prototype).
Proof.
  unfold prop. destruct (own_prop md key) as [v|].
  - split; [intros ->; now left | intros [H | (H & _)]; [now inversion H | discriminate]].
  - destruct (existsb (String.eqb key) Object_prototype) eqn:E.
    + apply inherited_key in E. split; [discriminate|].
      intros [H | (_ & H)]; [discriminate | contradiction].
    + split; [|reflexivity]. intros _. right. split; [reflexivity|].
      intros H. apply inherited_key in H. congruence.
Qed.

(** X21. [filterByMetadata] keeps, in order, the documents that have
    metadata in which every entry of the filter finds a strictly equal
    value under its key, read as [metadata[key]] reads it: the own
    property, or else what a plain object inherits from
    [Object.prototype]. Filtering by two filters with no key in common,
    one after the other, is filtering by their union. An entry whose value
    is NaN is matched by no document. An entry whose value is [undefined]
    is matched exactly by the metadata that have the own value [undefined]
    under its key, or no own value under a key that is not a property of
    [Object.prototype]. Under a key that is one, such as [toString],
    metadata without an own value match an entry only when its value is
    that very member of [Object.prototype], so never [undefined] or a
    string. [getDocumentsByMetadata] returns the stored documents that the
    filter keeps, and changes nothing. *)
Theorem filterByMetadata_spec :
  (forall docs filter d,
      In d (filterByMetadata docs filter) <->
      In d docs /\ exists md, metadata d = Some md /\ matches filter md) /\
  (forall docs filter,
      exists keep, filterByMetadata docs filter = List.filter keep docs) /\
  (forall docs filter1 filter2,
      (forall key, In key (map fst filter1) -> ~ In key (map fst filter2)) ->
      filterByMetadata docs (filter1 ++ filter2) =
      filterByMetadata (filterByMetadata docs filter1) filter2) /\
  (forall docs filter key,
      In (key, JNumber nan) filter -> filterByMetadata docs filter = []) /\
  (forall docs key d,
      In d (filterByMetadata docs [(key, JUndefined)]) <->
      In d docs /\
      exists md,
        metadata d = Some md /\
        (own_prop md key = Some JUndefined \/
         (own_prop md key = None /\ ~ In key Object_prototype))) /\
  (forall docs key value d md,
      In key Object_prototype ->
      In d docs -> metadata d = Some md -> own_prop md key = None ->
      (In d (filterByMetadata docs [(key, value)]) <-> value = JInherited key)) /\
  (forall filter s,
      getDocumentsByMetadata filter s =
      (Return (filterByMetadata (Map_values (documents s)) filter), s)).
Proof.
  assert (Hin : forall docs filter d,
             In d (filterByMetadata docs filter) <->
             In d docs /\ exists md, metadata d = Some md /\ matches filter md).
  { intros docs filter d. unfold filterByMetadata. rewrite filter_In.
    destruct (metadata d) as [md|].
    - rewrite forallb_matches. split.
      + intros (H1 & H2). eauto.
      + intros (H1 & md' & E & H2). inversion E; subst. auto.
    - split; [intros (_ & H); discriminate | intros (_ & md & E & _); discriminate]. }
  split; [exact Hin|]. split; [|split; [|split; [|split; [|split]]]].
  - intros docs filter. unfold filterByMetadata. eauto.
  - intros docs filter1 filter2 _. unfold filterByMetadata.
    induction docs as [|d docs IH]; [reflexivity|]. cbn [List.filter].
    destruct (metadata d) as [md|] eqn:E.
    + rewrite forallb_app.
      destruct (forallb _ filter1); cbn [andb List.filter]; rewrite ?E, IH;
        reflexivity.
    + exact IH.
  - intros docs filter key Hk.
    destruct (filterByMetadata docs filter) as [|d rest] eqn:E; [reflexivity|].
    exfalso. assert (Hd : In d (filterByMetadata docs filter)) by (rewrite E; now left).
    apply Hin in Hd. destruct Hd as (_ & md & _ & Hm).
    specialize (Hm key (JNumber nan) Hk). now rewrite strict_eq_nan in Hm.
  - intros docs key d. rewrite Hin. split.
    + intros (Hd & md & E & Hm). split; [exact Hd|]. exists md. split; [exact E|].
      specialize (Hm key JUndefined (or_introl eq_refl)).
      apply prop_undefined. now destruct (prop md key).
    + intros (Hd & md & E & Hp). split; [exact Hd|]. exists md. split; [exact E|].
      apply prop_undefined in Hp.
      intros k v [H | []]. inversion H; subst. now rewrite Hp.
  - intros docs key value d md Hk Hd E Ho. rewrite Hin.
    assert (Hp : prop md key = JInherited key).
    { unfold prop. rewrite Ho. apply inherited_key in Hk. now rewrite Hk. }
    split.
    + intros (_ & md' & E' & Hm). assert (md' = md) by congruence. subst md'.
      specialize (Hm key value (or_introl eq_refl)). rewrite Hp in Hm.
      destruct value; try discriminate. cbn [strict_eq] in Hm.
      apply String.eqb_eq in Hm. now subst.
    + intros ->. split; [exact Hd|]. exists md. split; [exact E|].
      intros k v [H | []]. inversion H; subst. rewrite Hp. cbn [strict_eq].
      apply String.eqb_refl.
  - intros filter s. reflexivity.
Qed.

(** The metadata of the test documents have no own [toString]: a filter on
    [toString] with the value [undefined] keeps none of them. *)
Example inherited_property_is_not_undefined :
  filterByMetadata
    [sample_document "doc1" [1; 0; 0]%float; sample_document "doc2" [0; 1; 0]%float]
    [("toString"%string, JUndefined)] = [] /\
  filterByMetadata
    [sample_document "doc1" [1; 0; 0]%float; sample_document "doc2" [0; 1; 0]%float]
    [("missing"%string, JUndefined)]
  = [sample_document "doc1" [1; 0; 0]%float; sample_document "doc2" [0; 1; 0]%float].
Proof. split; reflexivity. Qed.

Lemma filterByMetadata_spec_witness :
  In ("score"%string, JNumber nan) [("score"%string, JNumber nan)] /\
  filterByMetadata [sample_document "doc1" [1; 0; 0]%float]
    [("score"%string, JNumber nan)] = [].
Proof.
  split; [now left|].
  apply (proj1 (proj2 (proj2 (proj2 filterByMetadata_spec))) _ _ "score"%string).
  now left.
Defined.

(** ** What [addDocument] accepts *)

Lemma existsb_not_finite e :
  existsb (fun val => negb (isFinite val)) e = negb (forallb isFinite e).
Proof.
  induction e as [|x e IH]; [reflexivity|]. cbn [existsb forallb].
  rewrite IH. now destruct (isFinite x).
Qed.

(** X22. [addDocument] accepts a document that carries an embedding
    exactly when its id is not empty, its embedding is not empty and holds
    only finite numbers, and the table is empty or has the dimension of the
    embedding. Otherwise it throws the error of the first of these checks
    that fails, in this order, and leaves the state as it was. A document
    without embedding is refused with "must have an embedding" unless
    [createEmbedding] is true, and then with "must have content" when its
    content is empty. *)
Theorem addDocument_accepts_exactly :
  (forall document createEmbedding s e,
      embedding document = Some e ->
      (fst (addDocument document createEmbedding s) = Return tt <->
       id document <> ""%string /\ e <> [] /\ forallb isFinite e = true /\
       accepts (documents s) (length e))) /\
  (forall document createEmbedding s e,
      embedding document = Some e ->
      addDocument document createEmbedding s =
      if String.eqb (id document) "" then (Throw MustHaveId, s)
      else if Nat.eqb (length e) 0 then (Throw MustHaveEmbedding, s)
      else if negb (forallb isFinite e) then (Throw NonFiniteEmbedding, s)
      else
        match dimension_of (documents s) with
        | Return (Some n) =>
            if Nat.eqb (length e) n
            then (Return tt,
                  set_documents s
                    (Map_set (documents s) (id document) (stamped (clock s) document)))
            else (Throw (DimensionMismatch (length e) (Some n)), s)
        | Return None =>
            (Return tt,
             set_documents s
               (Map_set (documents s) (id document) (stamped (clock s) document)))
        | Throw error => (Throw error, s)
        | Diverge => (Diverge, s)
        end) /\
  (forall document createEmbedding s,
      embedding document = None ->
      createEmbedding <> Some true ->
      addDocument document createEmbedding s = (Throw EmbeddingRequired, s)) /\
  (forall document s,
      embedding document = None ->
      content document = ""%string ->
      addDocument document (Some true) s = (Throw ContentRequired, s)).
Proof.
  assert (Htable : forall document createEmbedding s e,
      embedding document = Some e ->
      addDocument document createEmbedding s =
      if String.eqb (id document) "" then (Throw MustHaveId, s)
      else if Nat.eqb (length e) 0 then (Throw MustHaveEmbedding, s)
      else if negb (forallb isFinite e) then (Throw NonFiniteEmbedding, s)
      else
        match dimension_of (documents s) with
        | Return (Some n) =>
            if Nat.eqb (length e) n
            then (Return tt,
                  set_documents s
                    (Map_set (documents s) (id document) (stamped (clock s) document)))
            else (Throw (DimensionMismatch (length e) (Some n)), s)
        | Return None =>
            (Return tt,
             set_documents s
               (Map_set (documents s) (id document) (stamped (clock s) document)))
        | Throw error => (Throw error, s)
        | Diverge => (Diverge, s)
        end).
  { intros document createEmbedding s e He. unfold addDocument.
    erewrite bind_Return
      by (apply (@finalDocument_of_embedded document createEmbedding s e); exact He).
    unfold check_dimensions, validateDocument. rewrite He.
    destruct (String.eqb (id document) ""); [reflexivity|].
    destruct e as [|x e]; [reflexivity|].
    change (Nat.eqb (length (x :: e)) 0) with false. cbv iota.
    rewrite existsb_not_finite.
    destruct (negb (forallb isFinite (x :: e))); [reflexivity|].
    unfold validateEmbeddingDimensions, bind, ret. cbn [default].
    rewrite getEmbeddingDimensions_eq.
    destruct (dimension_of (documents s)) as [[n|] | err | ] eqn:D; try reflexivity.
    destruct (Nat.eqb (length (x :: e)) n); cbn [negb]; [reflexivity|].
    unfold embedding_length. rewrite He. unfold ret.
    now rewrite getEmbeddingDimensions_eq, D. }
  split; [|split; [exact Htable | split]].
  - intros document createEmbedding s e He.
    rewrite (Htable document createEmbedding s e He). unfold accepts.
    destruct (String.eqb_spec (id document) "") as [Hid | Hid].
    { split; [discriminate | intros (H & _); contradiction]. }
    destruct e as [|x e].
    { split; [discriminate | intros (_ & H & _); contradiction]. }
    change (Nat.eqb (length (x :: e)) 0) with false. cbv iota.
    destruct (forallb isFinite (x :: e)); cbn [negb].
    2:{ split; [discriminate | intros (_ & _ & H & _); discriminate]. }
    destruct (dimension_of (documents s)) as [[n|] | err | ].
    + destruct (Nat.eqb_spec (length (x :: e)) n) as [Hn | Hn].
      * split; [|reflexivity]. intros _. repeat split; auto; [discriminate|].
        right. now rewrite <- Hn.
      * split; [discriminate|]. intros (_ & _ & _ & [H | H]); [discriminate|].
        inversion H. congruence.
    + split; [|reflexivity]. intros _. repeat split; auto; discriminate.
    + split; [discriminate|]. intros (_ & _ & _ & [H | H]); discriminate.
    + split; [discriminate|]. intros (_ & _ & _ & [H | H]); discriminate.
  - intros document createEmbedding s He Hce.
    unfold addDocument, finalDocument_of, bind. rewrite He. cbn [is_some negb].
    rewrite andb_true_r. destruct createEmbedding as [[|]|]; try reflexivity.
    now contradiction Hce.
  - intros document s He Hc.
    unfold addDocument, finalDocument_of, bind. rewrite He, Hc. reflexivity.
Qed.

Lemma addDocument_accepts_exactly_witness :
  embedding (sample_document "doc1" [1; 0; 0]%float) = Some [1; 0; 0]%float /\
  (fst (addDocument (sample_document "doc1" [1; 0; 0]%float) None empty_store)
   = Return tt <->
   id (sample_document "doc1" [1; 0; 0]%float) <> ""%string /\
   [1; 0; 0]%float <> [] /\ forallb isFinite [1; 0; 0]%float = true /\
   accepts (documents empty_store) (length [1; 0; 0]%float)).
Proof.
  split; [reflexivity|].
  apply (proj1 addDocument_accepts_exactly). reflexivity.
Defined.

(** ** The order of the embeddings of a response *)

(** X23. The embeddings of a response are taken in the order of the
    [index] of its items, not in the order of the response: the items are
    sorted by ascending index, those of equal index keeping their order.
    When the indices of the response are 0 to [n - 1] in any order,
    [generateEmbeddings] returns, at each position, the embedding of the
    item that has this position as its index; a response that comes in
    order is read as it is. *)
Theorem embeddings_follow_index :
  (forall response,
      embeddings_of response =
      map OpenAI.embedding (sort by_index (OpenAI.data response)) /\
      Permutation (sort by_index (OpenAI.data response)) (OpenAI.data response) /\
      StronglySorted (fun a b => (OpenAI.index a <= OpenAI.index b)%Z)
        (sort by_index (OpenAI.data response)) /\
      forall i,
        List.filter (fun item => (OpenAI.index item =? i)%Z)
          (sort by_index (OpenAI.data response)) =
        List.filter (fun item => (OpenAI.index item =? i)%Z) (OpenAI.data response)) /\
  (forall response n item,
      Permutation (map OpenAI.index (OpenAI.data response)) (map Z.of_nat (seq 0 n)) ->
      In item (OpenAI.data response) ->
      nth_error (embeddings_of response) (Z.to_nat (OpenAI.index item)) =
      Some (OpenAI.embedding item)) /\
  (forall s client texts b d response,
      openai s = Some client ->
      texts <> [] -> (Z.of_nat (length texts) <= b)%Z ->
      client (batch_request (embeddingModel s) texts) = OpenAI.Resolved response ->
      fst (generateEmbeddings texts (Some b) d s) = Return (embeddings_of response)).
Proof.
  split; [|split].
  - intros response. split; [reflexivity|]. split; [apply sort_perm|].
    split; [apply by_index_sorted|].
    intros i. apply sort_stable. intros x y _ _ Hx Hy.
    apply Z.eqb_eq in Hx, Hy. unfold by_index. apply Z.ltb_ge. lia.
  - intros response n item Hp Hin.
    set (items := sort by_index (OpenAI.data response)).
    assert (Hperm : Permutation items (OpenAI.data response)) by apply sort_perm.
    assert (Hidx : map OpenAI.index items = map Z.of_nat (seq 0 n)).
    { apply sorted_permutation_unique.
      - apply StronglySorted_map with (R := Z.le). apply by_index_sorted.
      - apply seq_sorted.
      - etransitivity; [apply Permutation_map; exact Hperm | exact Hp]. }
    assert (Hitem : In item items)
      by (eapply Permutation_in; [symmetry; exact Hperm | exact Hin]).
    assert (Hrange : (0 <= OpenAI.index item < Z.of_nat n)%Z).
    { apply (in_map OpenAI.index) in Hitem. rewrite Hidx in Hitem.
      apply in_map_iff in Hitem. destruct Hitem as (k & <- & Hk).
      apply in_seq in Hk. lia. }
    assert (Hlen : length items = n).
    { apply (f_equal (@length _)) in Hidx. now rewrite !length_map, length_seq in Hidx. }
    change (embeddings_of response) with (map OpenAI.embedding items).
    rewrite nth_error_map.
    destruct (nth_error items (Z.to_nat (OpenAI.index item))) as [y|] eqn:Ey.
    2:{ apply nth_error_None in Ey. lia. }
    assert (Hy : OpenAI.index y = OpenAI.index item).
    { pose proof (f_equal (fun l => nth_error l (Z.to_nat (OpenAI.index item))) Hidx)
        as Hk.
      cbn beta in Hk. rewrite !nth_error_map, Ey in Hk.
      rewrite nth_error_seq in Hk.
      destruct (Nat.ltb_spec (Z.to_nat (OpenAI.index item)) n); [|lia].
      cbn in Hk. inversion Hk. lia. }
    assert (Hnd : NoDup (map OpenAI.index items)).
    { rewrite Hidx. apply Finite.Injective_map_NoDup; [|apply seq_NoDup].
      intros a b. apply Nat2Z.inj. }
    cbn [option_map]. do 2 f_equal.
    apply nth_error_In in Ey.
    exact (@NoDup_map_injective _ _ OpenAI.index items Hnd y item Ey Hitem Hy).
  - intros s client texts b d response Ho Hne Hsmall Hr.
    unfold generateEmbeddings. rewrite bind_get, Ho. cbn [default].
    destruct texts as [|t texts]; [contradiction|]. cbn [length Nat.eqb] in *.
    destruct (Z.leb_spec (Z.of_nat (S (length texts))) b); [|lia].
    unfold try_catch, bind, embeddings_create, emit, modify.
    fold (batch_request (embeddingModel s) (t :: texts)). now rewrite Hr.
Qed.

Lemma embeddings_follow_index_witness :
  nth_error
    (embeddings_of
       {| OpenAI.data :=
            [{| OpenAI.embedding := [0; 1]%float; OpenAI.index := 1%Z |};
             {| OpenAI.embedding := [1; 0]%float; OpenAI.index := 0%Z |}] |})
    (Z.to_nat 0)
  = Some [1; 0]%float.
Proof.
  apply (proj1 (proj2 embeddings_follow_index)
           {| OpenAI.data :=
                [{| OpenAI.embedding := [0; 1]%float; OpenAI.index := 1%Z |};
                 {| OpenAI.embedding := [1; 0]%float; OpenAI.index := 0%Z |}] |}
           2 {| OpenAI.embedding := [1; 0]%float; OpenAI.index := 0%Z |}).
  - cbn. apply perm_swap.
  - right. now left.
Defined.

(** ** What the provider is sent *)

Lemma sends_quiet {A} provider model texts (m : M A) :
  (forall s, openai (snd (m s)) = openai s /\
             embeddingModel (snd (m s)) = embeddingModel s /\
             log (snd (m s)) = log s) ->
  sends provider model texts m.
Proof.
  intros H s Ho Hm. destruct (H s) as (H1 & H2 & H3).
  split; [congruence|]. split; [congruence|].
  exists []. rewrite app_nil_r. split; [assumption | contradiction].
Qed.

Lemma sends_readonly {A} provider model texts (m : M A) :
  readonly m -> sends provider model texts m.
Proof. intros H. apply sends_quiet. intros s. now rewrite H. Qed.

Lemma sends_ret {A} provider model texts (a : A) : sends provider model texts (ret a).
Proof. now apply sends_quiet. Qed.

Lemma sends_throw {A} provider model texts e : sends provider model texts (@throw A e).
Proof. now apply sends_quiet. Qed.

Lemma sends_diverge {A} provider model texts : sends provider model texts (@diverge A).
Proof. now apply sends_quiet. Qed.

Lemma sends_new_Date provider model texts : sends provider model texts new_Date.
Proof. now apply sends_quiet. Qed.

Lemma sends_documents_set provider model texts key value :
  sends provider model texts (documents_set key value).
Proof. now apply sends_quiet. Qed.

Lemma sends_documents_delete provider model texts key :
  sends provider model texts (documents_delete key).
Proof. now apply sends_quiet. Qed.

Lemma sends_emit provider model texts es :
  (forall params, ~ In (EmbeddingsCreate params) es) ->
  sends provider model texts (emit es).
Proof.
  intros H s Ho Hm. split; [exact Ho|]. split; [exact Hm|].
  exists es. split; [reflexivity|]. intros params Hin. now apply H in Hin.
Qed.

Lemma sends_delay provider model texts ms : sends provider model texts (delay ms).
Proof.
  intros s Ho Hm. split; [exact Ho|]. split; [exact Hm|].
  exists [Delay ms]. split; [reflexivity|].
  intros params [E | []]. discriminate.
Qed.

Lemma sends_bind_Return {A B} provider model texts (m : M A) (k : A -> M B) :
  sends provider model texts m ->
  (forall a, (exists s s', m s = (Return a, s')) -> sends provider model texts (k a)) ->
  sends provider model texts (bind m k).
Proof.
  intros Hm Hk s Ho Hmod. unfold bind.
  destruct (Hm s Ho Hmod) as (Ho1 & Hm1 & ev1 & Hl1 & Hp1).
  destruct (m s) as [[a | e | ] s1] eqn:E; cbn [snd] in *.
  - destruct (Hk a (ex_intro _ s (ex_intro _ s1 E)) s1 Ho1 Hm1)
      as (Ho2 & Hm2 & ev2 & Hl2 & Hp2).
    split; [exact Ho2|]. split; [exact Hm2|].
    exists (ev1 ++ ev2). rewrite Hl2, Hl1, app_assoc. split; [reflexivity|].
    intros params Hin. apply in_app_or in Hin. destruct Hin; auto.
  - split; [exact Ho1|]. split; [exact Hm1|]. now exists ev1.
  - split; [exact Ho1|]. split; [exact Hm1|]. now exists ev1.
Qed.

Lemma sends_bind {A B} provider model texts (m : M A) (k : A -> M B) :
  sends provider model texts m -> (forall a, sends provider model texts (k a)) ->
  sends provider model texts (bind m k).
Proof. intros Hm Hk. apply sends_bind_Return; auto. Qed.

Lemma sends_get_bind {B} provider model texts (k : State -> M B) :
  (forall this, openai this = provider -> embeddingModel this = model ->
                sends provider model texts (k this)) ->
  sends provider model texts (bind get k).
Proof. intros H s Ho Hm. rewrite bind_get. now apply H. Qed.

Lemma sends_try_catch {A} provider model texts (m : M A) (h : Error -> M A) :
  sends provider model texts m -> (forall e, sends provider model texts (h e)) ->
  sends provider model texts (try_catch m h).
Proof.
  intros Hm Hh s Ho Hmod. unfold try_catch.
  destruct (Hm s Ho Hmod) as (Ho1 & Hm1 & ev1 & Hl1 & Hp1).
  destruct (m s) as [[a | e | ] s1] eqn:E; cbn [snd] in *.
  - split; [exact Ho1|]. split; [exact Hm1|]. now exists ev1.
  - destruct (Hh e s1 Ho1 Hm1) as (Ho2 & Hm2 & ev2 & Hl2 & Hp2).
    split; [exact Ho2|]. split; [exact Hm2|].
    exists (ev1 ++ ev2). rewrite Hl2, Hl1, app_assoc. split; [reflexivity|].
    intros params Hin. apply in_app_or in Hin. destruct Hin; auto.
  - split; [exact Ho1|]. split; [exact Hm1|]. now exists ev1.
Qed.

Lemma sends_if {A} provider model texts (b : bool) (m1 m2 : M A) :
  sends provider model texts m1 -> sends provider model texts m2 ->
  sends provider model texts (if b then m1 else m2).
Proof. now destruct b. Qed.

Lemma sends_incl {A} provider model texts texts' (m : M A) :
  incl texts texts' -> sends provider model texts m -> sends provider model texts' m.
Proof.
  intros Hi Hm s Ho Hmod. destruct (Hm s Ho Hmod) as (Ho1 & Hm1 & ev & Hl & Hp).
  split; [exact Ho1|]. split; [exact Hm1|]. exists ev. split; [exact Hl|].
  intros params Hin. destruct (Hp params Hin) as (H1 & H2 & H3 & H4).
  repeat split; try assumption. eapply incl_tran; eassumption.
Qed.

Lemma sends_embeddings_create provider model texts client params :
  request_for provider model texts params ->
  sends provider model texts (embeddings_create client params).
Proof.
  intros Hr s Ho Hm.
  unfold embeddings_create, bind, emit, modify.
  assert (H : forall params',
             In (EmbeddingsCreate params') [EmbeddingsCreate params] ->
             request_for provider model texts params').
  { intros params' [E | []]. inversion E. now subst params'. }
  destruct (client params); cbn [snd ret throw];
    (split; [exact Ho|]; split; [exact Hm|];
     exists [EmbeddingsCreate params]; split; [reflexivity | exact H]).
Qed.

Create HintDb sent.
#[local] Hint Resolve sends_ret sends_throw sends_diverge sends_new_Date
  sends_documents_set sends_documents_delete sends_delay : sent.

Ltac sends_step :=
  match goal with
  | |- sends _ _ _ (bind get _) => apply sends_get_bind; intros ? ? ?
  | |- sends _ _ _ (bind _ _) => apply sends_bind; [|intros ?]
  | |- sends _ _ _ (try_catch _ _) => apply sends_try_catch; [|intros ?]
  | |- sends _ _ _ (if _ then _ else _) => apply sends_if
  | |- sends _ _ _ (match ?x with _ => _ end) => destruct x
  | |- _ => solve [auto with sent]
  end.

Ltac sends_all := repeat sends_step.

Lemma sends_getEmbeddingDimensions provider model texts :
  sends provider model texts getEmbeddingDimensions.
Proof. apply sends_readonly, readonly_getEmbeddingDimensions. Qed.

Lemma sends_check_dimensions provider model texts d :
  sends provider model texts (check_dimensions d).
Proof. apply sends_readonly, readonly_check_dimensions. Qed.

Lemma sends_embedding_length provider model texts d :
  sends provider model texts (embedding_length d).
Proof. apply sends_readonly, readonly_embedding_length. Qed.
#[local] Hint Resolve sends_getEmbeddingDimensions sends_check_dimensions
  sends_embedding_length : sent.

Lemma sends_generateEmbedding provider model text :
  sends provider model [text] (generateEmbedding text).
Proof.
  unfold generateEmbedding. apply sends_get_bind. intros this Ho Hm.
  destruct (openai this) as [client|] eqn:E; [|apply sends_throw].
  apply sends_try_catch; [|intros e; apply sends_throw].
  apply sends_bind.
  - apply sends_embeddings_create. split; [congruence|]. split; [exact Hm|].
    split; [discriminate | apply incl_refl].
  - intros response. sends_all.
Qed.

Lemma sends_generateEmbeddings_loop provider model texts client d n batches :
  provider <> None ->
  (forall c, In c batches -> c <> [] /\ incl c texts) ->
  forall i acc,
    sends provider model texts (generateEmbeddings_loop client model d n batches i acc).
Proof.
  intros Hp. induction batches as [|c rest IH]; intros Hc i acc;
    cbn [generateEmbeddings_loop]; [apply sends_ret|].
  apply sends_bind; [|intros a; apply IH; intros c' H'; apply Hc; now right].
  apply sends_try_catch; [|intros e; apply sends_throw].
  apply sends_bind.
  - apply sends_embeddings_create. destruct (Hc c (or_introl eq_refl)) as (H1 & H2).
    split; [exact Hp|]. split; [reflexivity|]. split; assumption.
  - intros response. sends_all.
Qed.

Lemma chunkArray_loop_incl {T} (array : list T) b :
  forall fuel i acc chunks,
    (forall c, In c acc -> incl c array) ->
    chunkArray_loop fuel array b i acc = Some chunks ->
    forall c, In c chunks -> incl c array.
Proof.
  induction fuel as [|fuel IH]; intros i acc chunks Hacc H; [discriminate|].
  cbn [chunkArray_loop] in H.
  destruct (i <? Z.of_nat (length array))%Z.
  - eapply IH; [|exact H]. intros c Hc. apply in_app_or in Hc.
    destruct Hc as [Hc | [<- | []]]; [now apply Hacc|].
    intros x Hx. eapply slice_In; exact Hx.
  - inversion H. now subst.
Qed.

Lemma chunkArray_nonempty {T} (array : list T) b chunks :
  chunkArray array b = Some chunks -> forall c, In c chunks -> c <> [].
Proof.
  intros H c Hc. destruct (Z.leb_spec 1 b) as [Hb | Hb].
  - destruct (@chunkArray_spec T array b Hb) as (chunks' & H' & _ & _ & Hall & _).
    rewrite H in H'. inversion H'. subst chunks'.
    rewrite Forall_forall in Hall. destruct (Hall c Hc) as (Hlen & _).
    intros ->. cbn in Hlen. lia.
  - destruct array as [|x array].
    + rewrite chunkArray_empty in H. inversion H. subst. contradiction.
    + unfold chunkArray in H.
      rewrite chunkArray_loop_diverges in H; [discriminate | lia | cbn; lia].
Qed.

Lemma chunkArray_chunks {T} (array : list T) b chunks :
  chunkArray array b = Some chunks ->
  forall c, In c chunks -> c <> [] /\ incl c array.
Proof.
  intros H c Hc. split; [now apply (chunkArray_nonempty _ _ H)|].
  unfold chunkArray in H.
  eapply chunkArray_loop_incl; [|exact H | exact Hc]. intros c' [].
Qed.

Lemma chunkArrayM_Return {T} (array : list T) b chunks :
  (exists s s', chunkArrayM array b s = (Return chunks, s')) ->
  chunkArray array b = Some chunks.
Proof.
  intros (s & s' & H). unfold chunkArrayM in H.
  destruct (chunkArray array b); inversion H. reflexivity.
Qed.

Lemma sends_chunkArrayM {T} provider model texts (array : list T) b :
  sends provider model texts (chunkArrayM array b).
Proof. unfold chunkArrayM. sends_all. Qed.
#[local] Hint Resolve sends_chunkArrayM : sent.

Lemma sends_generateEmbeddings provider model texts b d :
  sends provider model texts (generateEmbeddings texts b d).
Proof.
  unfold generateEmbeddings. apply sends_get_bind. intros this Ho Hm.
  destruct (openai this) as [client|] eqn:E; [|apply sends_throw].
  assert (Hp : provider <> None) by congruence.
  destruct (Nat.eqb_spec (length texts) 0) as [Hz | Hnz]; [apply sends_ret|].
  apply sends_if.
  - apply sends_try_catch; [|intros e; apply sends_throw].
    apply sends_bind; [|intros response; apply sends_ret].
    apply sends_embeddings_create. split; [exact Hp|]. split; [exact Hm|].
    split; [|apply incl_refl]. cbn. intros ->. now apply Hnz.
  - apply sends_bind_Return; [apply sends_chunkArrayM|].
    intros batches Hb. apply chunkArrayM_Return in Hb. rewrite Hm.
    apply sends_generateEmbeddings_loop; [exact Hp|].
    exact (chunkArray_chunks _ _ Hb).
Qed.

Lemma sends_finalDocument_of provider model document createEmbedding :
  sends provider model
    (if default false createEmbedding && negb (has_embedding document)
     then [content document] else [])
    (finalDocument_of document createEmbedding).
Proof.
  unfold finalDocument_of, has_embedding.
  destruct (default false createEmbedding && negb (is_some (embedding document)));
    [|sends_all].
  apply sends_if; [apply sends_throw|].
  apply sends_bind; [apply sends_generateEmbedding | intros e; apply sends_ret].
Qed.

Lemma sends_addDocument provider model document createEmbedding :
  sends provider model (disclosed (AddDocument document createEmbedding))
    (addDocument document createEmbedding).
Proof.
  unfold addDocument. apply sends_bind; [apply sends_finalDocument_of|].
  intros finalDocument. sends_all.
Qed.

Lemma sends_updateDocument provider model document createEmbedding :
  sends provider model (disclosed (UpdateDocument document createEmbedding))
    (updateDocument document createEmbedding).
Proof.
  unfold updateDocument. apply sends_get_bind. intros this Ho Hm.
  apply sends_if; [apply sends_ret|].
  apply sends_bind; [apply sends_finalDocument_of|].
  intros finalDocument. sends_all.
Qed.

Lemma score_documents_warnings q method threshold docs params :
  ~ In (EmbeddingsCreate params) (snd (score_documents q method threshold docs)).
Proof.
  induction docs as [|d docs IH]; cbn [score_documents]; [intros []|].
  destruct (score_documents q method threshold docs) as [results warnings].
  cbn [snd] in IH.
  destruct (calculateSimilarity q (embedding d) method) as [similarity | e | ];
    [destruct (PrimFloat.leb threshold similarity); exact IH | |];
    cbn [snd]; intros [E | H]; try discriminate; now apply IH.
Qed.

Lemma sortedResults_warnings docs q options params :
  ~ In (EmbeddingsCreate params) (snd (sortedResults docs q options)).
Proof.
  unfold sortedResults.
  pose proof (@score_documents_warnings q (default Cosine (similarityMethod options))
                (default 0%float (threshold options))
                (candidates docs (metadataFilter options)) params) as H.
  destruct (score_documents q (default Cosine (similarityMethod options))
              (default 0%float (threshold options))
              (candidates docs (metadataFilter options))) as [results warnings].
  exact H.
Qed.

Lemma sends_resolve_query provider model query :
  sends provider model (query_texts query) (resolve_query query).
Proof.
  destruct query as [vector | text]; cbn [resolve_query query_texts].
  - sends_all.
  - apply sends_generateEmbedding.
Qed.

Lemma sends_search provider model query options :
  sends provider model (query_texts query) (search query options).
Proof.
  unfold search. apply sends_get_bind. intros this Ho Hm.
  apply sends_if; [apply sends_ret|].
  apply sends_bind; [apply sends_resolve_query|]. intros q.
  pose proof (fun params =>
                @sortedResults_warnings (Map_values (documents this)) q options params)
    as Hw.
  destruct (sortedResults (Map_values (documents this)) q options)
    as [sorted warnings]. cbn [snd] in Hw.
  apply sends_bind; [now apply sends_emit|]. intros []. sends_all.
Qed.

Lemma sends_searchWithPagination provider model query options :
  sends provider model (query_texts query) (searchWithPagination query options).
Proof.
  unfold searchWithPagination. apply sends_get_bind. intros this Ho Hm.
  apply sends_if; [apply sends_ret|].
  apply sends_bind; [apply sends_resolve_query|]. intros q.
  pose proof (fun params =>
                @sortedResults_warnings (Map_values (documents this)) q options params)
    as Hw.
  destruct (sortedResults (Map_values (documents this)) q options)
    as [sorted warnings]. cbn [snd] in Hw.
  apply sends_bind; [now apply sends_emit|]. intros []. apply sends_ret.
Qed.

Lemma sends_findMostSimilar provider model query method :
  sends provider model (query_texts query) (findMostSimilar query method).
Proof.
  unfold findMostSimilar.
  apply sends_bind; [apply sends_search | intros r; apply sends_ret].
Qed.

Lemma sends_forEach_from {A} provider model texts (f : A -> nat -> M unit) array :
  (forall x i, sends provider model texts (f x i)) ->
  forall i, sends provider model texts (forEach_from f array i).
Proof.
  intros Hf. induction array as [|x xs IH]; intros i; cbn [forEach_from];
    [apply sends_ret|].
  apply sends_bind; [apply Hf | intros []; apply IH].
Qed.

Lemma sends_progress_loop provider model texts d n total batches :
  (forall c, In c batches -> incl c texts) ->
  forall i processed acc,
    sends provider model texts (progress_loop d n total batches i processed acc).
Proof.
  induction batches as [|c rest IH]; intros Hc i processed acc;
    cbn [progress_loop]; [apply sends_ret|].
  apply sends_bind; [|intros r; apply IH; intros c' H'; apply Hc; now right].
  apply sends_try_catch; [|intros e; apply sends_throw].
  apply sends_bind.
  - apply sends_incl with (texts := c); [apply Hc; now left|].
    apply sends_generateEmbeddings.
  - intros batchEmbeddings. apply sends_bind.
    + apply sends_emit. intros params [E | []]. discriminate.
    + intros []. sends_all.
Qed.

Lemma sends_generate_for provider model needing b d onProgress :
  sends provider model (map content needing) (generate_for needing b d onProgress).
Proof.
  unfold generate_for. apply sends_if; [|apply sends_ret].
  apply sends_try_catch; [|intros e; apply sends_throw].
  apply sends_if; [|apply sends_generateEmbeddings].
  apply sends_bind_Return; [apply sends_chunkArrayM|].
  intros batches Hb. apply chunkArrayM_Return in Hb.
  apply sends_progress_loop. intros c Hc.
  now apply (chunkArray_chunks _ _ Hb).
Qed.

Lemma sends_separate provider model texts docs :
  forall needing withE, sends provider model texts (separate docs needing withE).
Proof.
  induction docs as [|doc rest IH]; intros needing withE; cbn [separate];
    [apply sends_ret|].
  destruct (embedding doc) as [e|]; [|apply IH].
  apply sends_if; [apply sends_throw|]. apply sends_if; [apply sends_throw|].
  apply sends_bind; [apply sends_getEmbeddingDimensions|].
  intros [expectedDim|]; [apply sends_if; [apply sends_throw|]|]; apply IH.
Qed.

Lemma sends_validate_generated provider model texts generated :
  sends provider model texts (validate_generated generated).
Proof. unfold validate_generated. sends_all. Qed.

Lemma sends_embed_documents provider model docs b d onProgress :
  sends provider model
    (map content (List.filter (fun doc => negb (has_embedding doc)) docs))
    (embed_documents docs b d onProgress).
Proof.
  unfold embed_documents. apply sends_bind_Return; [apply sends_separate|].
  intros parts (s & s' & Hs). apply separate_Return in Hs.
  destruct Hs as (_ & Hn & _). cbn [app] in Hn. rewrite Hn.
  apply sends_bind; [apply sends_generate_for|]. intros generated.
  apply sends_bind; [apply sends_validate_generated | intros []; apply sends_ret].
Qed.

Lemma sends_check_batch provider model texts expectedDim finalDocuments :
  sends provider model texts (check_batch expectedDim finalDocuments).
Proof.
  unfold check_batch. destruct finalDocuments as [|first others]; [apply sends_ret|].
  apply sends_bind; [apply sends_embedding_length|]. intros firstDocDim.
  apply sends_bind; [|intros []; sends_all].
  apply sends_forEach_from. intros doc i. sends_all.
Qed.

Lemma sends_store_batch provider model texts now finalDocuments :
  sends provider model texts (store_batch now finalDocuments).
Proof.
  unfold store_batch. apply sends_try_catch.
  - apply sends_forEach_from. intros doc i. apply sends_documents_set.
  - intros e. apply sends_bind; [|intros []; apply sends_throw].
    apply sends_forEach_from. intros doc i. apply sends_documents_delete.
Qed.

Lemma sends_addDocuments provider model docs options :
  sends provider model (disclosed (AddDocuments docs options))
    (addDocuments docs options).
Proof.
  unfold addDocuments. apply sends_get_bind. intros this Ho Hm.
  apply sends_if; [apply sends_ret|].
  apply sends_bind.
  { apply sends_forEach_from. intros doc i. apply sends_readonly.
    apply readonly_validateInput. }
  intros []. apply sends_bind.
  - cbn [disclosed].
    destruct (default false (AddDocumentsOptions.createEmbedding options));
      [apply sends_embed_documents | apply sends_ret].
  - intros finalDocuments.
    apply sends_bind; [apply sends_getEmbeddingDimensions|]. intros expectedDim.
    apply sends_bind; [apply sends_new_Date|]. intros now.
    apply sends_bind; [apply sends_check_batch | intros []; apply sends_store_batch].
Qed.

Lemma sends_perform c s :
  exists events,
    log (perform c s) = log s ++ events /\
    forall params,
      In (EmbeddingsCreate params) events ->
      request_for (openai s) (embeddingModel s) (disclosed c) params.
Proof.
  assert (Hsends : forall A (m : M A),
             sends (openai s) (embeddingModel s) (disclosed c) m ->
             exists events,
               log (snd (m s)) = log s ++ events /\
               forall params,
                 In (EmbeddingsCreate params) events ->
                 request_for (openai s) (embeddingModel s) (disclosed c) params).
  { intros A m H. destruct (H s eq_refl eq_refl) as (_ & _ & events & Hl & Hp).
    now exists events. }
  assert (Hquiet : forall s', log s' = log s ->
             exists events,
               log s' = log s ++ events /\
               forall params,
                 In (EmbeddingsCreate params) events ->
                 request_for (openai s) (embeddingModel s) (disclosed c) params).
  { intros s' H. exists []. rewrite app_nil_r. split; [exact H | contradiction]. }
  destruct c; cbn [perform].
  - apply Hsends, sends_addDocument.
  - apply Hsends, sends_addDocuments.
  - apply Hsends, sends_updateDocument.
  - apply Hquiet. reflexivity.
  - apply Hquiet. reflexivity.
  - apply Hsends, sends_search.
  - apply Hsends, sends_searchWithPagination.
  - apply Hsends, sends_findMostSimilar.
  - apply Hsends, sends_generateEmbedding.
  - apply Hsends, sends_generateEmbeddings.
  - apply Hquiet. reflexivity.
  - apply Hquiet. unfold setDefaultBatchSize.
    match goal with |- context [if ?b then _ else _] => now destruct b end.
  - apply Hquiet. unfold setDefaultBatchDelay.
    match goal with |- context [if ?b then _ else _] => now destruct b end.
Qed.

(** X24. The provider is sent only what a call hands over for embedding.
    Whatever the state, the answers of the provider and the outcome of the
    call, a call only adds to the log, and every request it makes carries
    the configured embedding model and at least one text, all of them texts
    of that call: the content of a document that comes without embedding
    when [createEmbedding] is set, the contents of such documents of a
    batch, a query given as text, the texts to embed. So a document that
    carries its embedding, a query given as a vector, and what the table
    already holds are never sent; [removeDocument], [clear] and the setters
    make no request; and a store without provider makes none at all. *)
Theorem provider_sees_only_the_texts_of_the_call :
  forall c s,
    exists events,
      log (perform c s) = log s ++ events /\
      (forall params,
          In (EmbeddingsCreate params) events ->
          openai s <> None /\
          OpenAI.model params = embeddingModel s /\
          texts_of params <> [] /\
          forall text, In text (texts_of params) -> In text (disclosed c)) /\
      (disclosed c = [] \/ openai s = None ->
       forall params, ~ In (EmbeddingsCreate params) events).
Proof.
  intros c s. destruct (sends_perform c s) as (events & Hl & Hp).
  exists events. split; [exact Hl|]. split.
  - intros params Hin. destruct (Hp params Hin) as (H1 & H2 & H3 & H4). auto.
  - intros H params Hin. destruct (Hp params Hin) as (H1 & H2 & H3 & H4).
    destruct H as [H | H]; [|contradiction].
    rewrite H in H4. apply incl_l_nil in H4. contradiction.
Qed.

Lemma provider_sees_only_the_texts_of_the_call_witness :
  ~ In (EmbeddingsCreate
          {| OpenAI.input := OpenAI.Text "Hello world";
             OpenAI.model := "text-embedding-3-small" |})
      (log (perform (AddDocument (sample_document "doc1" [1; 0; 0]%float) (Some true))
              (constructor
                 {| NeuraDBOptions.openai :=
                      Some (fun _ => OpenAI.Rejected "unavailable");
                    NeuraDBOptions.embeddingModel := None;
                    NeuraDBOptions.defaultBatchSize := None;
                    NeuraDBOptions.batchDelay := None |} 0%Z))).
Proof.
  destruct (provider_sees_only_the_texts_of_the_call
              (AddDocument (sample_document "doc1" [1; 0; 0]%float) (Some true))
              (constructor
                 {| NeuraDBOptions.openai :=
                      Some (fun _ => OpenAI.Rejected "unavailable");
                    NeuraDBOptions.embeddingModel := None;
                    NeuraDBOptions.defaultBatchSize := None;
                    NeuraDBOptions.batchDelay := None |} 0%Z))
    as (events & Hl & _ & Hno).
  rewrite Hl. cbn [log constructor app]. apply Hno.
  left. reflexivity.
Defined.
